(* ===== verification/_CoqProject ===== *)
-Q . S2P
Prelude.v
Ring.v
RingConc.v
Mem.v
Mbuf.v
App.v
AppData.v
AppRecv.v
AppSelect.v
Service.v
Server.v
Init.v
Notify.v
Callbacks.v
AppGlue.v
ServiceLoop.v
Keeps.v
Queues.v
Receive.v
Polling.v
Transmit.v
System.v
RteTimer.v
Timing.v
KTimer.v
DevConfig.v
Iovec.v
Cksum.v
NetDev.v
Datagram.v
Sendpages.v
TxPath.v
InetDev.v
Ifconf.v
