(* ===== verification/Prelude.v ===== *)
(** * Verification of IPAugenblick

    IPAugenblick is a user-space TCP/IP service.  A Linux network stack ported on top
    of DPDK runs in one process, the service; applications attach to it as DPDK
    secondary processes and talk to it through rings in shared memory.  All paths
    below are under src/stack_and_service unless they begin with dpdk.

    ** The program and the files of this development

    - The lock-free ring behind every channel, dpdk-16.07/lib/librte_ring: [Ring]
      (each function run to its end, against a bounded FIFO queue) and [RingConc]
      (concurrent callers, one shared access a step).
    - Shared memory, service/ipaugenblick_common: [Mem].  Rings by name, command
      buffers, connection blocks, ring-backed memory pools, and the rules ([wp_*])
      with which all users of a ring are verified; these rules are proved from [Ring]
      and are the interface between the two.
    - Packet buffers, dpdk-16.07/lib/librte_mbuf/rte_mbuf.h: [Mbuf].  Chains, reference
      counts, the socket address kept in the headroom.
    - The application library, service/ipaugenblick_app_api: [App] (process state,
      initialisation, the calls that send a command, the ready cache), [AppData]
      (sending, receiving, releasing), [AppRecv] (order of receipt), [AppSelect]
      (descriptor sets, ipaugenblick_select).
    - The service's side: [Service] (state and the interface to the stack), [Server]
      (ipaugenblick_server_side.h: creation of all rings, marking, posting, submitting),
      [Init] (what initialisation leaves), [Callbacks] (user_callbacks.h,
      user_get_buffer_callback.h), [AppGlue] (porting/app_glue.c: ready queues, passes,
      polling, sockets), [ServiceLoop] (ipaugenblick_service_loop.c: commands and the main
      loop).
    - Properties of these parts together: [Notify] (the wake-up protocol between the
      two processes), [Queues] (agreement of queues, flags and lengths, with the rules
      of [Keeps]), [Receive] and [Transmit] (packets between the stack and the rings),
      [Polling] (when a poll is due).
    - [System]: the receive path from end to end - stack, service, shared memory and
      application in one state, their operations in any order.  [TxPath]: the transmit
      path likewise, from the application's send to the packets on the write queue.
    - Time: [RteTimer] (dpdk-16.07/lib/librte_timer: the skip list of pending timers and
      the pass over the expired ones), [Timing] (porting/timing_porting.c: conversions),
      [KTimer] (porting/timer_porting.c, tasklet_workqueues_porting.c and the system
      tick: the kernel's timers and delayed work on DPDK's).
    - The port: [Iovec] (porting/mm_porting.c: how a received packet is handed over) and
      [DevConfig] (porting/libinit.c: the configuration file, addresses of the ports,
      announcements to the clients); [Ifconf] (drivers/net/dpdk/device.c: the interface of
      a port and its addresses) on [InetDev] (net/ipv4/devinet.c: the list of addresses
      of an interface and the ioctls on it).
    - Below and inside the stack, where it was written for this program: [Cksum] and
      [NetDev] (drivers/net/dpdk: frames, checksum offload, reception, VLAN tags),
      [Datagram] (the application's buffers attached to a datagram's packet, and their
      life until they are freed), [Sendpages] (net/ipv4/tcp.c, do_tcp_sendpages: a
      connection's chain cut into packets).

    An application's call writes a command buffer taken from its pool and puts it on
    the command ring; the service's main loop executes one command a round and returns
    the buffer.  Data goes through a transmit and a receive ring per connection.  The
    service announces readiness by an entry on the ready ring of the connection's
    selector, at most one per kind until the application has looked; the application's
    select takes the entries, and its receive clears the flag and looks at the ring.

    ** How the code is modelled

    A C function that works on shared state is a computation in the monad [M] of this
    file, [S → outcome (A * S)]: it returns ([Done]), leaves the process ([Exit]) or does
    something C leaves undefined ([Fault]: a null or dangling pointer, an index out of
    bounds, an element linked twice, a loop that does not end).  [wp m Q s] says that
    [m] returns from [s] with [Q]; so every theorem stated with [wp] also says that
    the code terminates and does nothing undefined.  [keeps I m] is the partial version,
    used for invariants of code that calls the stack.  [Part] embeds the shared memory
    in the state of a process, so the same ring operations run in both.

    Unsigned integers are [Z] with [wrap16], [wrap32] or [mod 2 ^ 64] where C wraps;
    pointers are addresses in finite maps ([gmap]), 0 is null; arrays on a fixed index
    range are maps or lists whose bounds are checked ([Fault]); the TAILQ macros are
    lists of addresses.  Code that runs inside a timer's function is a program over the
    timer library ([prog] in [RteTimer]), interpreted in the same monad.  What is not
    code of this program is a parameter: the stack ([Stack] in [Service], [TcpStack] in
    [Sendpages], [Datagrams] in [Datagram]), the poll-mode driver ([NicAndStack] in
    [NetDev]), the functions of timers and work ([KTimer]), drivers and devices
    ([Drivers], [Devices] in [DevConfig], [Links] in [InetDev], [Setup] in [Ifconf]), the
    random numbers, sigtimedwait, the memory reservation.  The hypotheses on them
    ([StackBehaves] in [Queues], [StackReceives] in [Receive], [TcpStackLaws] in
    [Sendpages], [stack_spares] in [TxPath], [LinksLaws] in [InetDev], [stack_serves] in
    [Ifconf]) are records of their documented behaviour, with concrete instances in the
    witnesses.

    ** What the theorems show

    - Rings: enqueue and dequeue refine the bounded FIFO queue on every branch and at
      every index position; counts are exact; concurrent callers deliver exactly once
      and in order; a caller left alone finishes.
    - Application: outcome, command and record of every control call on every branch;
      command buffers are conserved; sends are all or nothing with exact accounting;
      reads hand out exact prefixes; releasing frees each last reference once; order of
      receipt; select.
    - Service: initialisation, edge-triggered marking, submission; the queue invariant
      under every callback, pass and command; receive and transmit transfers move a
      prefix in order and lose nothing; a pass serves every queued socket; a kick
      refills the ring.
    - Protocol: with a barrier no wake-up is lost in any interleaving, and the functions
      of [Server] and [AppData] are runs of the protocol; without the barrier, which the
      code lacks, an execution on a store-buffer machine loses one; an entry that does
      not fit on the ready ring silences the connection.
    - The whole receive path: in every order of arrivals, passes, commands and the
      application's calls packets reach the caller once and in order, and an application
      that calls often enough gets them all, those in the stack included.
    - Timers: the skip list stays sorted and well formed at every level under setting and
      stopping; a pass ends and calls exactly the expired timers, in order, whatever
      their functions do; what the port's calls promise, what delayed work is programmed
      for, what cannot be deleted or cancelled during a pass, how the tick falls behind.
    - Device: the frame is the chain of the fragments' buffers; offload fills in what the
      driver expects and the checksum is RFC 1071's; references are balanced on a first
      transmission and not when the buffers were still, or already, linked.
    - Sending: a datagram's frame carries the application's bytes; a connection's chain is
      queued whole and in order as packets with contiguous sequence numbers.
    - Port: a packet handed over is the chain of its pieces; configuration read back from
      any layout, ports set up from it; announcement layout and what the encoders lose;
      the address lists of the interfaces stay well formed under every request; what an
      interface's address and its aliases become, the masks of the aliases included.
    - Errors the code has are stated as theorems (a boundary read that loses bytes, a
      socket closed while on a list, a datagram's buffers lost to the pool, delayed work
      in the wrong unit, and so on).

    ** Fuel and bounds

    Loops that are not structural take fuel, and running out of it is a [Fault]; the
    theorems give fuel that is enough: chain walks get one more than the number of
    buffers in memory ([chain_fuel]), a loop over the ring as many rounds as the ring has
    entries, the configuration reader the length of the file plus two, the alias walk
    the size of the table, walks of the timer list one more than the number of timers
    ([timer_fuel]).  [rte_timer_stop_sync] takes its fuel as an argument, since whether
    it returns is what is stated.  Passes over the read and write queues are bounded by the
    queue length read at their start, as in the code.

    [RingConc] assumes that no thread sleeps between a load and its compare-and-set
    while 2^32 objects pass ([not_stale]); accesses there are sequentially consistent.
    [RteTimer] is the timer library as one core sees it, which is how the service uses
    it; its theorems are about timers that are not periodical, as all of the program's
    are, and clocks that do not pass 2^64 cycles.

    ** Not modelled

    - The Linux stack itself (net, kernel, lib, crypto, arch): a copy of the kernel's,
      with small edits; its entry points are the classes named above.  Of devinet.c the
      address lists and ioctls are modelled, not netlink, notifications and lifetimes.  Of sk_buff the
      fields the modelled functions use are kept.
    - The DPDK libraries, drivers, examples and tests other than the ring, the packet
      buffer, the pool calls and the timers: vendored.
    - Of the device, its handlers that do nothing or copy a field, and the
      software loop (drivers/net/dpdk/dpdk_sw_loop.c), which assigns the address of a
      next field to a buffer pointer and writes through it: what it overwrites depends
      on the layout of memory.
    - Of porting/mm_porting.c the wrappers of rte_malloc and the stubs; the remaining
      start-up of porting/libinit.c (calls of DPDK initialisers, a polling interval
      computed in floating point); statistics output; the test clients.
    - The registry of named rings and memory zones; indirect packet buffers, which the
      program never creates; tracing and log calls. *)

From stdpp Require Export base numbers list option gmap strings.
From Stdlib Require Export Lia.
#[export] Set Default Goal Selector "!".
Open Scope Z_scope.

(** ** Record update

    [r <| f := v |>] is the record [r] with its field [f] replaced.  A record
    opts in by an [Eta] instance, which spells out its eta expansion; the
    setter of a field is read off it. *)

Class Eta (R : Type) := eta_expand : R → R.
Class Setter {R E : Type} (proj : R → E) := set_field : E → R → R.

Ltac build_setter :=
  lazymatch goal with
  | |- @Setter ?R ?E ?proj =>
      let e := constr:(_ : Eta R) in
      let h := eval hnf in e in
      exact (λ (v : E) (r : R),
        ltac:(let b := eval cbv beta in (h r) in
              lazymatch b with
              | context C [proj r] => let b' := context C [v] in exact b'
              end))
  end.

#[export] Hint Extern 1 (Setter _) => build_setter : typeclass_instances.

Declare Scope update_scope.
Delimit Scope update_scope with update.
Open Scope update_scope.
Notation "x <| f := v |>" := (set_field (proj := f) v x)
  (at level 1, f at level 9, v at level 99, left associativity,
   format "x  <| f  :=  v |>") : update_scope.

(** ** Machine integers *)

(** Unsigned 32-bit and signed 32-bit wrap-around, 16-bit truncation. *)
Definition wrap32 (x : Z) : Z := x mod 2 ^ 32.
Definition wrap64 (x : Z) : Z := x mod 2 ^ 64.
Definition wrap16 (x : Z) : Z := x mod 2 ^ 16.
Definition sint32 (x : Z) : Z := (x + 2 ^ 31) mod 2 ^ 32 - 2 ^ 31.

Lemma wrap32_range x : 0 ≤ wrap32 x < 2 ^ 32.
Proof. apply Z.mod_pos_bound. lia. Qed.

Lemma wrap32_small x : 0 ≤ x < 2 ^ 32 → wrap32 x = x.
Proof. apply Z.mod_small. Qed.

Lemma wrap64_small x : 0 ≤ x < 2 ^ 64 → wrap64 x = x.
Proof. apply Z.mod_small. Qed.
Lemma wrap64_range x : 0 ≤ wrap64 x < 2 ^ 64.
Proof. apply Z.mod_pos_bound. lia. Qed.

Lemma wrap32_add_l x y : wrap32 (wrap32 x + y) = wrap32 (x + y).
Proof. apply Zplus_mod_idemp_l. Qed.

Lemma wrap32_sub x y z :
  wrap32 x = wrap32 y → wrap32 (x - z) = wrap32 (y - z).
Proof.
  unfold wrap32. intros H. by rewrite Zminus_mod, H, <- Zminus_mod.
Qed.

Lemma sint32_small x : - 2 ^ 31 ≤ x < 2 ^ 31 → sint32 x = x.
Proof. intros H. unfold sint32. rewrite Z.mod_small; lia. Qed.

Lemma sint32_range x : - 2 ^ 31 ≤ sint32 x < 2 ^ 31.
Proof.
  unfold sint32. pose proof (Z.mod_pos_bound (x + 2 ^ 31) (2 ^ 32)). lia.
Qed.

(** Masking with [2 ^ k - 1] is reduction modulo [2 ^ k]. *)
Lemma land_mask k x : 0 ≤ k → Z.land x (2 ^ k - 1) = x mod 2 ^ k.
Proof.
  intros Hk. replace (2 ^ k - 1) with (Z.ones k) by (rewrite Z.ones_equiv; lia).
  by apply Z.land_ones.
Qed.

Lemma wrap32_mod_pow2 k x : 0 ≤ k ≤ 32 → wrap32 x mod 2 ^ k = x mod 2 ^ k.
Proof.
  intros Hk. apply Z.mod_mod_divide. exists (2 ^ (32 - k)).
  rewrite <- Z.pow_add_r by lia. f_equal. lia.
Qed.

(** Two counters at distance less than [2 ^ 32] subtract without loss. *)
Lemma wrap32_diff a b :
  0 ≤ a - b < 2 ^ 32 → wrap32 (wrap32 a - wrap32 b) = a - b.
Proof.
  intros H. unfold wrap32. rewrite <- Zminus_mod. by apply Z.mod_small.
Qed.

Lemma wrap32_inj a b :
  wrap32 a = wrap32 b → - 2 ^ 32 < a - b < 2 ^ 32 → a = b.
Proof.
  unfold wrap32. intros Heq Hd.
  assert ((a - b) mod 2 ^ 32 = 0) as H0
    by (rewrite Zminus_mod, Heq, Z.sub_diag; done).
  apply Z.mod_divide in H0; [|lia]. destruct H0 as [q Hq]. lia.
Qed.

(** Indices at distance less than [m] fall in different cells modulo [m]. *)
Lemma mod_window_inj m a b :
  a mod m = b mod m → - m < a - b < m → a = b.
Proof.
  intros Heq Hd.
  assert ((a - b) mod m = 0) as H0
    by (rewrite Zminus_mod, Heq, Z.sub_diag; apply Z.mod_0_l; lia).
  apply Z.mod_divide in H0; [|lia]. destruct H0 as [q Hq].
  destruct (Z.lt_trichotomy q 0) as [?|[->|?]]; nia.
Qed.

(** ** Arrays of words, indexed by [Z] *)

(** [lget] and [lset] read and write a C array held as a list.  They are
    used with indices in range; out of range [lset] changes nothing and [lget]
    gives 0, and the components prove that they stay in range. *)
Definition lget (l : list Z) (i : Z) : Z := default 0 (l !! Z.to_nat i).
Definition lset (l : list Z) (i v : Z) : list Z := <[Z.to_nat i := v]> l.
Definition zlen {A} (l : list A) : Z := Z.of_nat (length l).

Lemma zlen_nonneg {A} (l : list A) : 0 ≤ zlen l.
Proof. unfold zlen. lia. Qed.

Lemma zlen_app {A} (l k : list A) : zlen (l ++ k) = zlen l + zlen k.
Proof. unfold zlen. rewrite length_app. lia. Qed.

Lemma zlen_lset l i v : zlen (lset l i v) = zlen l.
Proof. unfold zlen, lset. by rewrite length_insert. Qed.

Lemma lget_lset_eq l i v : 0 ≤ i < zlen l → lget (lset l i v) i = v.
Proof.
  intros H. unfold lget, lset, zlen in *. by rewrite list_lookup_insert_eq by lia.
Qed.

Lemma lget_lset_ne l i j v :
  0 ≤ i → 0 ≤ j → i ≠ j → lget (lset l i v) j = lget l j.
Proof.
  intros. unfold lget, lset. by rewrite list_lookup_insert_ne by lia.
Qed.

Lemma lget_app_l l k i : 0 ≤ i < zlen l → lget (l ++ k) i = lget l i.
Proof. intros H. unfold lget, zlen in *. by rewrite lookup_app_l by lia. Qed.

Lemma lget_app_r l k i : zlen l ≤ i → lget (l ++ k) i = lget k (i - zlen l).
Proof.
  intros H. unfold lget, zlen in *. rewrite lookup_app_r by lia.
  do 2 f_equal. lia.
Qed.

(** [slice l i n] is the list of the [n] cells of [l] from index [i]. *)
Definition slice (l : list Z) (i n : Z) : list Z :=
  (λ j, lget l (i + j)) <$> seqZ 0 n.

Lemma zlen_fmap_seqZ (f : Z → Z) i n : 0 ≤ n → zlen (f <$> seqZ i n) = n.
Proof. intros. unfold zlen. rewrite length_fmap, length_seqZ. lia. Qed.

Lemma zlen_slice l i n : 0 ≤ n → zlen (slice l i n) = n.
Proof. apply zlen_fmap_seqZ. Qed.

Lemma lget_fmap_seqZ (f : Z → Z) n i : 0 ≤ i < n → lget (f <$> seqZ 0 n) i = f i.
Proof.
  intros. unfold lget. rewrite list_lookup_fmap, lookup_seqZ_lt by lia.
  simpl. f_equal. lia.
Qed.

Lemma fmap_seqZ_ext (f g : Z → Z) n :
  (∀ i, 0 ≤ i < n → f i = g i) → f <$> seqZ 0 n = g <$> seqZ 0 n.
Proof.
  intros H. apply list_fmap_ext. intros i x [-> Hi]%lookup_seqZ. apply H. lia.
Qed.

Lemma fmap_seqZ_app (f : Z → Z) a b :
  0 ≤ a → 0 ≤ b →
  f <$> seqZ 0 (a + b) = (f <$> seqZ 0 a) ++ ((λ j, f (a + j)) <$> seqZ 0 b).
Proof.
  intros. rewrite seqZ_app, fmap_app by lia. f_equal.
  replace (0 + a) with (a + 0) by lia.
  by rewrite <- fmap_add_seqZ, <- list_fmap_compose.
Qed.

Lemma slice_take l n : 0 ≤ n ≤ zlen l → slice l 0 n = take (Z.to_nat n) l.
Proof.
  intros Hn. unfold zlen in *. apply list_eq. intros i. unfold slice.
  rewrite list_lookup_fmap. destruct (decide (i < Z.to_nat n)%nat) as [Hi|Hi].
  - rewrite lookup_seqZ_lt by lia. rewrite lookup_take_lt by lia. simpl.
    unfold lget. replace (Z.to_nat (0 + (0 + Z.of_nat i))) with i by lia.
    destruct (lookup_lt_is_Some_2 l i) as [x Hx]; [lia|]. by rewrite Hx.
  - rewrite lookup_seqZ_ge by lia. by rewrite lookup_take_ge by lia.
Qed.

Lemma slice_all l : slice l 0 (zlen l) = l.
Proof.
  rewrite slice_take by (unfold zlen; lia). apply firstn_all2. unfold zlen. lia.
Qed.

Lemma slice_split l a b c :
  0 ≤ b → 0 ≤ c → slice l a (b + c) = slice l a b ++ slice l (a + b) c.
Proof.
  intros. unfold slice. rewrite fmap_seqZ_app by done. f_equal.
  apply fmap_seqZ_ext. intros i _. f_equal. lia.
Qed.

(** Lists of words with the same cells are equal. *)
Lemma lget_ext l k :
  zlen l = zlen k → (∀ i, 0 ≤ i < zlen l → lget l i = lget k i) → l = k.
Proof.
  intros Hl H. rewrite <- (slice_all l), <- (slice_all k), <- Hl.
  apply fmap_seqZ_ext. intros i Hi. apply H. lia.
Qed.


(** ** Error numbers (Linux) *)
Definition ENOENT : Z := 2.
Definition EINVAL : Z := 22.
Definition ENAMETOOLONG : Z := 36.
Definition ENOBUFS : Z := 105.
Definition EDQUOT : Z := 122.

Create HintDb ipa.
#[export] Hint Resolve zlen_nonneg wrap32_range sint32_range : ipa.

(** ** Effects

    Code that reads and writes memory is a function of the state; it ends with a
    value and the new state, leaves the process ([Exit], the code's
    [exit(0)]), or does something C leaves undefined ([Fault]: a null or dangling
    pointer, an index out of bounds, a list element removed twice, a loop that
    cannot end). *)

Inductive outcome (A : Type) := Done (a : A) | Exit | Fault.
Arguments Done {A} _.
Arguments Exit {A}.
Arguments Fault {A}.

Definition M (S A : Type) : Type := S → outcome (A * S).

#[export] Instance M_ret S : MRet (M S) := λ A a s, Done (a, s).
#[export] Instance M_bind S : MBind (M S) := λ A B k m s,
  match m s with
  | Done (a, s') => k a s'
  | Exit => Exit
  | Fault => Fault
  end.
#[export] Instance M_fmap S : FMap (M S) := λ A B f m s,
  match m s with
  | Done (a, s') => Done (f a, s')
  | Exit => Exit
  | Fault => Fault
  end.

Section monad.
Context {S : Type}.

Definition gets {A} (f : S → A) : M S A := λ s, Done (f s, s).
Definition modify (f : S → S) : M S unit := λ s, Done (tt, f s).
Definition exit_ {A} : M S A := λ _, Exit.
Definition fault {A} : M S A := λ _, Fault.
Definition require (b : bool) : M S unit := if b then mret tt else fault.
Definition of_option {A} (o : option A) : M S A :=
  match o with Some a => mret a | None => fault end.
Definition when (b : bool) (m : M S unit) : M S unit := if b then m else mret tt.
End monad.

(** A loop over a list. *)
Fixpoint for_each {S} (l : list Z) (f : Z → M S unit) : M S unit :=
  match l with [] => mret tt | i :: l => _ ← f i; for_each l f end.

(** A part [T] of a larger state [S], and code on [T] run inside [S]. *)
Class Part (T S : Type) := { part_get : S → T; part_set : T → S → S }.

Class PartLaws (T S : Type) `{Part T S} := {
  part_get_set t (s : S) : part_get (part_set t s) = t;
  part_set_get (s : S) : part_set (part_get s) s = s;
  part_set_set t t' (s : S) : part_set t (part_set t' s) = part_set t s;
}.

Definition zoom {T S A} `{Part T S} (m : M T A) : M S A := λ s,
  match m (part_get s) with
  | Done (a, t) => Done (a, part_set t s)
  | Exit => Exit
  | Fault => Fault
  end.

(** [wp m Q s]: from [s], [m] returns - it does nothing undefined, does not loop
    for ever and does not leave the process - and [Q] holds of its value and the
    new state. *)
Definition wp {S A} (m : M S A) (Q : A → S → Prop) (s : S) : Prop :=
  match m s with Done (a, s') => Q a s' | Exit | Fault => False end.

Section wp.
Context {S : Type}.

Lemma wp_ret {A} (a : A) (Q : A → S → Prop) s : wp (mret a) Q s ↔ Q a s.
Proof. done. Qed.

Lemma wp_bind {A B} (m : M S A) (k : A → M S B) Q s :
  wp (m ≫= k) Q s ↔ wp m (λ a s', wp (k a) Q s') s.
Proof. unfold wp, mbind, M_bind. by destruct (m s) as [[]| |]. Qed.

Lemma wp_fmap {A B} (f : A → B) (m : M S A) Q s :
  wp (f <$> m) Q s ↔ wp m (λ a, Q (f a)) s.
Proof. unfold wp, fmap, M_fmap. by destruct (m s) as [[]| |]. Qed.

Lemma wp_gets {A} (f : S → A) Q s : wp (gets f) Q s ↔ Q (f s) s.
Proof. done. Qed.

Lemma wp_modify (f : S → S) Q s : wp (modify f) Q s ↔ Q tt (f s).
Proof. done. Qed.

Lemma wp_require b (Q : unit → S → Prop) s : wp (require b) Q s ↔ b = true ∧ Q tt s.
Proof. destruct b; unfold wp; cbn; [by split; [|intros []]|by split; [|intros []]]. Qed.

Lemma wp_exit {A} (Q : A → S → Prop) s : wp exit_ Q s ↔ False.
Proof. done. Qed.

Lemma wp_when b m (Q : unit → S → Prop) s :
  wp (when b m) Q s ↔ if b then wp m Q s else Q tt s.
Proof. by destruct b. Qed.

Lemma wp_mono {A} (m : M S A) (Q Q' : A → S → Prop) s :
  wp m Q s → (∀ a s', Q a s' → Q' a s') → wp m Q' s.
Proof. unfold wp. destruct (m s) as [[]| |]; auto. Qed.

Lemma wp_conj {A} (m : M S A) (Q Q' : A → S → Prop) s :
  wp m Q s → wp m Q' s → wp m (λ a s', Q a s' ∧ Q' a s') s.
Proof. unfold wp. by destruct (m s) as [[]| |]. Qed.

Lemma wp_returns {A} (m : M S A) Q (s : S) : wp m Q s → ∃ x s', m s = Done (x, s') ∧ Q x s'.
Proof. unfold wp. destruct (m s) as [[x s']| |]; [|done..]. intros. by exists x, s'. Qed.
Lemma wp_result {A} (m : M S A) Q (s : S) x s' : wp m Q s → m s = Done (x, s') → Q x s'.
Proof. unfold wp. intros Hwp Hd. by rewrite Hd in Hwp. Qed.

Lemma wp_zoom {T A} `{PartLaws T S} (m : M T A) Q (s : S) :
  wp (zoom m) Q s ↔ wp m (λ a t, Q a (part_set t s)) (part_get s).
Proof. unfold wp, zoom. by destruct (m (part_get s)) as [[]| |]. Qed.
End wp.

(** A loop over [0 .. n - 1] with an invariant. *)
Lemma wp_for_each_seqZ {S} (f : Z → M S unit) n (I : Z → S → Prop) s :
  0 ≤ n → I 0 s →
  (∀ i s, 0 ≤ i < n → I i s → wp (f i) (λ _ s', I (i + 1) s') s) →
  wp (for_each (seqZ 0 n) f) (λ _ s', I n s') s.
Proof.
  intros Hn H0 Hstep.
  assert (∀ k i s, 0 ≤ i → i + Z.of_nat k = n → I i s →
    wp (for_each (seqZ i (Z.of_nat k)) f) (λ _ s', I n s') s) as Hk.
  { induction k as [|k IH]; intros i s0 Hi Hik HI.
    - change (seqZ i (Z.of_nat 0)) with (@nil Z). cbn [for_each]. rewrite wp_ret. by replace n with i by lia.
    - rewrite seqZ_cons by lia. cbn [for_each]. rewrite wp_bind.
      eapply wp_mono; [apply (Hstep i s0); [lia|done]|]. intros ? s1 H1. cbn beta.
      replace (Z.pred (Z.of_nat (Datatypes.S k))) with (Z.of_nat k) by lia.
      apply IH; [lia|lia|done]. }
  specialize (Hk (Z.to_nat n) 0 s). rewrite Z2Nat.id in Hk by done. apply Hk; lia || done.
Qed.

(** Symbolic execution: push [wp] through the code's structure. *)
Ltac wp_step :=
  first
    [ rewrite wp_bind | rewrite wp_fmap | rewrite wp_ret | rewrite wp_gets | rewrite wp_modify
    | rewrite wp_exit | rewrite wp_when | rewrite wp_zoom ].
Ltac wp_run := repeat (wp_step; cbn beta iota).

(** Evaluate the closed equations and comparisons among the conjuncts of a goal;
    leave the rest. *)
Ltac eval_conj :=
  split_and!;
  lazymatch goal with
  | |- @eq _ _ _ => try (vm_compute; done)
  | |- Z.lt _ _ => try (vm_compute; done)
  | |- Z.le _ _ => try (vm_compute; done)
  | |- _ => idtac
  end.

(** ** Intrusive lists

    The TAILQ macros on a list of element addresses.  Inserting an element that
    is already linked, or removing one that is not, corrupts memory. *)
Definition tailq_insert_tail {S} (l : list Z) (x : Z) : M S (list Z) :=
  if decide (x ∈ l) then fault else mret (l ++ [x]).
Definition tailq_remove {S} (l : list Z) (x : Z) : M S (list Z) :=
  if decide (x ∈ l) then mret (filter (.≠ x) l) else fault.
Definition tailq_first (l : list Z) : option Z := head l.

Lemma wp_tailq_insert_tail {S} l x (Q : list Z → S → Prop) s :
  wp (tailq_insert_tail l x) Q s ↔ (x ∉ l ∧ Q (l ++ [x]) s).
Proof. unfold tailq_insert_tail. case_decide; unfold wp; cbn; tauto. Qed.

Lemma wp_tailq_remove {S} l x (Q : list Z → S → Prop) s :
  wp (tailq_remove l x) Q s ↔ x ∈ l ∧ Q (filter (.≠ x) l) s.
Proof. unfold tailq_remove. case_decide; unfold wp; cbn; tauto. Qed.

Lemma filter_ne_notin (l : list Z) x : x ∉ l → filter (.≠ x) l = l.
Proof.
  induction l as [|y l IH]; intros Hx; [done|].
  apply not_elem_of_cons in Hx as [Hxy Hx].
  rewrite filter_cons_True by congruence. by rewrite IH.
Qed.

Lemma length_filter_ne (l : list Z) x :
  NoDup l → x ∈ l → S (length (filter (.≠ x) l)) = length l.
Proof.
  induction 1 as [|y l Hy Hl IH]; intros Hx; [by apply not_elem_of_nil in Hx|].
  destruct (decide (y = x)) as [->|Hne].
  - rewrite filter_cons_False by naive_solver. by rewrite filter_ne_notin.
  - rewrite filter_cons_True by done. cbn. f_equal. apply IH.
    apply elem_of_cons in Hx as [->|?]; done.
Qed.

Lemma NoDup_snoc (l : list Z) x : NoDup l → x ∉ l → NoDup (l ++ [x]).
Proof.
  intros Hl Hx. apply NoDup_app. split_and!; [done| |apply NoDup_singleton].
  intros y Hy ->%list_elem_of_singleton. done.
Qed.

(** ** Finite maps *)

Lemma alter_insert_lookup {A} (f : A → A) (m : gmap Z A) i x :
  m !! i = Some x → alter f i m = <[i := f x]> m.
Proof.
  intros Hx. apply map_eq. intros j. destruct (decide (j = i)) as [->|?];
    [by rewrite lookup_alter_eq, lookup_insert_eq, Hx|by rewrite lookup_alter_ne, lookup_insert_ne].
Qed.

Lemma alter_alter_eq {A} (f g : A → A) (m : gmap Z A) i :
  alter f i (alter g i m) = alter (f ∘ g) i m.
Proof.
  apply map_eq. intros j. destruct (decide (i = j)) as [<-|?];
    [rewrite !lookup_alter_eq; by destruct (m !! i)|by rewrite !lookup_alter_ne].
Qed.

Lemma alter_at {A} (f g : A → A) (m : gmap Z A) i x :
  m !! i = Some x → f x = g x → alter f i m = alter g i m.
Proof.
  intros Hx Hfg. apply map_eq. intros j. destruct (decide (i = j)) as [<-|?];
    [by rewrite !lookup_alter_eq, Hx; cbn; rewrite Hfg|by rewrite !lookup_alter_ne].
Qed.

Lemma fmap_alter_core {A B} (g : A → B) (f : A → A) (m : gmap Z A) i :
  (∀ x, g (f x) = g x) → g <$> alter f i m = g <$> m.
Proof.
  intros Hgf. apply map_eq. intros j. rewrite !lookup_fmap. destruct (decide (i = j)) as [<-|?].
  - rewrite lookup_alter_eq. destruct (m !! i); cbn; [by rewrite Hgf|done].
  - by rewrite lookup_alter_ne.
Qed.
