(* ===== verification/Ring.v ===== *)
(** * The DPDK ring (dpdk-16.07/lib/librte_ring)

    [rte_ring] is the queue behind every channel between an application and the
    service: the command ring, the data rings, the selectors' ready rings and
    (through the ring-backed mempools) the free lists.  This file models one
    caller running an operation to its end; [RingConc] interleaves the steps of
    several callers.

    A ring is an array of [size = 2^k] cells with free-running 32-bit producer
    and consumer indices, masked when a cell is accessed.  The abstract
    specification is a bounded FIFO queue ([queue r]); the theorems show that
    each operation implements the queue operation exactly, for every position
    of the indices, wrap-around included, and on every return path. *)

From S2P Require Import Prelude.

(** ** Data *)

Inductive queue_behavior := RTE_RING_QUEUE_FIXED | RTE_RING_QUEUE_VARIABLE.

Record rte_ring := mk_ring {
  ring_name : string;
  ring_flags : Z;
  prod_watermark : Z;
  prod_sp_enqueue : bool;
  prod_size : Z;
  prod_mask : Z;
  prod_head : Z;
  prod_tail : Z;
  cons_sc_dequeue : bool;
  cons_size : Z;
  cons_mask : Z;
  cons_head : Z;
  cons_tail : Z;
  ring_cells : list Z;
}.

#[export] Instance eta_ring : Eta rte_ring := λ r,
  mk_ring (ring_name r) (ring_flags r) (prod_watermark r) (prod_sp_enqueue r)
    (prod_size r) (prod_mask r) (prod_head r) (prod_tail r)
    (cons_sc_dequeue r) (cons_size r) (cons_mask r) (cons_head r) (cons_tail r)
    (ring_cells r).

Definition RING_F_SP_ENQ : Z := 1.
Definition RING_F_SC_DEQ : Z := 2.
Definition RTE_RING_SZ_MASK : Z := 0x0fffffff.
(** [RTE_RING_QUOT_EXCEED] is [1 << 31], or-ed into an unsigned count. *)
Definition RTE_RING_QUOT_EXCEED : Z := Z.shiftl 1 31.
Definition RTE_MEMZONE_NAMESIZE : Z := 32.

(** ** Initialisation (rte_ring.c) *)

Definition POWEROF2 (x : Z) : bool := Z.land (wrap32 (x - 1)) x =? 0.

(** The argument check of [rte_ring_get_memsize]; the size of the memory is
    [sizeof(struct rte_ring)] plus the cells, rounded to a cache line. *)
Definition rte_ring_get_memsize (sizeof_ring cache_line count : Z) : Z :=
  if negb (POWEROF2 count) || (RTE_RING_SZ_MASK <? count) then - EINVAL
  else
    let sz := sizeof_ring + count * 8 in
    (sz + cache_line - 1) / cache_line * cache_line.

(** The ring is written over memory that holds [cells]; [memset] clears the
    structure and leaves the cells as they are. *)
Definition rte_ring_init (cells : list Z) (name : string) (count flags : Z)
    : Z * option rte_ring :=
  if RTE_MEMZONE_NAMESIZE <=? Z.of_nat (String.length name)
  then (- ENAMETOOLONG, None)
  else (0, Some (mk_ring name flags count
                   (negb (Z.land flags RING_F_SP_ENQ =? 0)) count (wrap32 (count - 1)) 0 0
                   (negb (Z.land flags RING_F_SC_DEQ =? 0)) count (wrap32 (count - 1)) 0 0
                   cells)).

Definition rte_ring_set_water_mark (r : rte_ring) (count : Z) : Z * rte_ring :=
  if prod_size r <=? count then (- EINVAL, r)
  else
    let count := if count =? 0 then prod_size r else count in
    (0, r <| prod_watermark := count |>).

(** ** Copying to and from the cells (rte_ring.h) *)

(** One assignment [dst[di] = src[si]]; both indices move on. *)
Record cursor := mk_cursor { cur_dst : list Z; cur_di : Z; cur_si : Z }.

Definition copy1 (src : list Z) (c : cursor) : cursor :=
  mk_cursor (lset (cur_dst c) (cur_di c) (lget src (cur_si c)))
    (cur_di c + 1) (cur_si c + 1).

(** [for (i = 0; i < n4; i += 4, idx += 4)] with four assignments a round;
    [i] is the loop's counter. *)
Fixpoint copy_by4 (fuel : nat) (src : list Z) (n4 i : Z) (c : cursor) : cursor :=
  match fuel with
  | O => c
  | S fuel =>
      if i <? n4
      then copy_by4 fuel src n4 (i + 4) (copy1 src (copy1 src (copy1 src (copy1 src c))))
      else c
  end.

(** [switch (n & 3)], whose cases 3 and 2 fall through. *)
Definition copy_rest (src : list Z) (n : Z) (c : cursor) : cursor :=
  match Z.land n 3 with
  | 3 => copy1 src (copy1 src (copy1 src c))
  | 2 => copy1 src (copy1 src c)
  | 1 => copy1 src c
  | _ => c
  end.

(** The loops of the wrapped case copy one cell a round while their condition
    holds; the loop from [i] runs [fuel = end - i] rounds. *)
Fixpoint copy_seq (fuel : nat) (src : list Z) (c : cursor) : cursor :=
  match fuel with O => c | S fuel => copy_seq fuel src (copy1 src c) end.

(** [ENQUEUE_PTRS]: [n] objects of [obj_table] to the cells from index
    [prod_head & mask]. *)
Definition ENQUEUE_PTRS (r : rte_ring) (prod_head n : Z) (obj_table : list Z) : list Z :=
  let size := prod_size r in
  let idx := Z.land prod_head (prod_mask r) in
  if wrap32 (idx + n) <? size then
    let n4 := Z.land n (wrap32 (Z.lnot 3)) in
    cur_dst (copy_rest obj_table n
      (copy_by4 (Z.to_nat n4) obj_table n4 0 (mk_cursor (ring_cells r) idx 0)))
  else
    let c := copy_seq (Z.to_nat (size - idx)) obj_table (mk_cursor (ring_cells r) idx 0) in
    cur_dst (copy_seq (Z.to_nat (n - cur_si c)) obj_table
      (mk_cursor (cur_dst c) 0 (cur_si c))).

(** [DEQUEUE_PTRS]: [n] cells from index [cons_head & mask] to [obj_table]. *)
Definition DEQUEUE_PTRS (r : rte_ring) (cons_head n : Z) (obj_table : list Z) : list Z :=
  let size := cons_size r in
  let idx := Z.land cons_head (prod_mask r) in
  if wrap32 (idx + n) <? size then
    let n4 := Z.land n (wrap32 (Z.lnot 3)) in
    cur_dst (copy_rest (ring_cells r) n
      (copy_by4 (Z.to_nat n4) (ring_cells r) n4 0 (mk_cursor obj_table 0 idx)))
  else
    let c := copy_seq (Z.to_nat (size - idx)) (ring_cells r) (mk_cursor obj_table 0 idx) in
    cur_dst (copy_seq (Z.to_nat (n - cur_di c)) (ring_cells r)
      (mk_cursor (cur_dst c) (cur_di c) 0)).

(** ** Enqueue and dequeue (rte_ring.h) *)

(** The number of objects an enqueue takes when [n] are offered and
    [free_entries] cells are free; [inl] is an early return. *)
Definition admit_count (n avail err : Z) (behavior : queue_behavior) : Z + Z :=
  if avail <? n then
    match behavior with
    | RTE_RING_QUEUE_FIXED => inl err
    | RTE_RING_QUEUE_VARIABLE => if avail =? 0 then inl 0 else inr avail
    end
  else inr n.

(** The value returned once [n] objects are written. *)
Definition enqueue_ret (r : rte_ring) (free_entries n : Z) (behavior : queue_behavior) : Z :=
  if prod_watermark r <? wrap32 (prod_mask r + 1 - free_entries + n) then
    match behavior with
    | RTE_RING_QUEUE_FIXED => - EDQUOT
    | RTE_RING_QUEUE_VARIABLE => sint32 (Z.lor n RTE_RING_QUOT_EXCEED)
    end
  else
    match behavior with
    | RTE_RING_QUEUE_FIXED => 0
    | RTE_RING_QUEUE_VARIABLE => n
    end.

Definition __rte_ring_sp_do_enqueue (r : rte_ring) (obj_table : list Z) (n : Z)
    (behavior : queue_behavior) : Z * rte_ring :=
  let head := prod_head r in
  let free_entries := wrap32 (prod_mask r + cons_tail r - head) in
  match admit_count n free_entries (- ENOBUFS) behavior with
  | inl ret => (ret, r)
  | inr n =>
      let next := wrap32 (head + n) in
      let r1 := r <| prod_head := next |> in
      let r2 := r1 <| ring_cells := ENQUEUE_PTRS r1 head n obj_table |> in
      (enqueue_ret r2 free_entries n behavior, r2 <| prod_tail := next |>)
  end.

(** One caller with no other enqueue in progress: its compare-and-set
    succeeds.  The last loop waits until [prod.tail] is the head it reserved;
    nobody else moves the tail, so it returns at once or never ([None]). *)
Definition __rte_ring_mp_do_enqueue (r : rte_ring) (obj_table : list Z) (n : Z)
    (behavior : queue_behavior) : option (Z * rte_ring) :=
  if n =? 0 then Some (0, r)
  else
    let head := prod_head r in
    let free_entries := wrap32 (prod_mask r + cons_tail r - head) in
    match admit_count n free_entries (- ENOBUFS) behavior with
    | inl ret => Some (ret, r)
    | inr n =>
        let next := wrap32 (head + n) in
        let r1 := r <| prod_head := next |> in
        let r2 := r1 <| ring_cells := ENQUEUE_PTRS r1 head n obj_table |> in
        if prod_tail r2 =? head
        then Some (enqueue_ret r2 free_entries n behavior, r2 <| prod_tail := next |>)
        else None
    end.

Definition dequeue_ret (n : Z) (behavior : queue_behavior) : Z :=
  match behavior with
  | RTE_RING_QUEUE_FIXED => 0
  | RTE_RING_QUEUE_VARIABLE => n
  end.

(** A dequeue returns its value, the caller's table and the ring. *)
Definition __rte_ring_sc_do_dequeue (r : rte_ring) (obj_table : list Z) (n : Z)
    (behavior : queue_behavior) : Z * list Z * rte_ring :=
  let head := cons_head r in
  let entries := wrap32 (prod_tail r - head) in
  match admit_count n entries (- ENOENT) behavior with
  | inl ret => (ret, obj_table, r)
  | inr n =>
      let next := wrap32 (head + n) in
      let r1 := r <| cons_head := next |> in
      let tbl := DEQUEUE_PTRS r1 head n obj_table in
      (dequeue_ret n behavior, tbl, r1 <| cons_tail := next |>)
  end.

Definition __rte_ring_mc_do_dequeue (r : rte_ring) (obj_table : list Z) (n : Z)
    (behavior : queue_behavior) : option (Z * list Z * rte_ring) :=
  if n =? 0 then Some (0, obj_table, r)
  else
    let head := cons_head r in
    let entries := wrap32 (prod_tail r - head) in
    match admit_count n entries (- ENOENT) behavior with
    | inl ret => Some (ret, obj_table, r)
    | inr n =>
        let next := wrap32 (head + n) in
        let r1 := r <| cons_head := next |> in
        let tbl := DEQUEUE_PTRS r1 head n obj_table in
        if cons_tail r1 =? head
        then Some (dequeue_ret n behavior, tbl, r1 <| cons_tail := next |>)
        else None
    end.

Definition rte_ring_mp_enqueue_bulk r obj_table n :=
  __rte_ring_mp_do_enqueue r obj_table n RTE_RING_QUEUE_FIXED.
Definition rte_ring_sp_enqueue_bulk r obj_table n :=
  __rte_ring_sp_do_enqueue r obj_table n RTE_RING_QUEUE_FIXED.
Definition rte_ring_enqueue_bulk r obj_table n :=
  if prod_sp_enqueue r then Some (rte_ring_sp_enqueue_bulk r obj_table n)
  else rte_ring_mp_enqueue_bulk r obj_table n.
Definition rte_ring_mp_enqueue r obj := rte_ring_mp_enqueue_bulk r [obj] 1.
Definition rte_ring_sp_enqueue r obj := rte_ring_sp_enqueue_bulk r [obj] 1.
Definition rte_ring_enqueue r obj :=
  if prod_sp_enqueue r then Some (rte_ring_sp_enqueue r obj)
  else rte_ring_mp_enqueue r obj.

Definition rte_ring_mc_dequeue_bulk r obj_table n :=
  __rte_ring_mc_do_dequeue r obj_table n RTE_RING_QUEUE_FIXED.
Definition rte_ring_sc_dequeue_bulk r obj_table n :=
  __rte_ring_sc_do_dequeue r obj_table n RTE_RING_QUEUE_FIXED.
Definition rte_ring_dequeue_bulk r obj_table n :=
  if cons_sc_dequeue r then Some (rte_ring_sc_dequeue_bulk r obj_table n)
  else rte_ring_mc_dequeue_bulk r obj_table n.

(** The single-object forms read into one pointer, [obj]. *)
Definition rte_ring_mc_dequeue r obj := rte_ring_mc_dequeue_bulk r [obj] 1.
Definition rte_ring_sc_dequeue r obj := rte_ring_sc_dequeue_bulk r [obj] 1.
Definition rte_ring_dequeue r obj :=
  if cons_sc_dequeue r then Some (rte_ring_sc_dequeue r obj)
  else rte_ring_mc_dequeue r obj.

Definition rte_ring_mp_enqueue_burst r obj_table n :=
  __rte_ring_mp_do_enqueue r obj_table n RTE_RING_QUEUE_VARIABLE.
Definition rte_ring_sp_enqueue_burst r obj_table n :=
  __rte_ring_sp_do_enqueue r obj_table n RTE_RING_QUEUE_VARIABLE.
Definition rte_ring_enqueue_burst r obj_table n :=
  if prod_sp_enqueue r then Some (rte_ring_sp_enqueue_burst r obj_table n)
  else rte_ring_mp_enqueue_burst r obj_table n.
Definition rte_ring_mc_dequeue_burst r obj_table n :=
  __rte_ring_mc_do_dequeue r obj_table n RTE_RING_QUEUE_VARIABLE.
Definition rte_ring_sc_dequeue_burst r obj_table n :=
  __rte_ring_sc_do_dequeue r obj_table n RTE_RING_QUEUE_VARIABLE.
Definition rte_ring_dequeue_burst r obj_table n :=
  if cons_sc_dequeue r then Some (rte_ring_sc_dequeue_burst r obj_table n)
  else rte_ring_mc_dequeue_burst r obj_table n.

Definition rte_ring_full (r : rte_ring) : bool :=
  Z.land (wrap32 (cons_tail r - prod_tail r - 1)) (prod_mask r) =? 0.
Definition rte_ring_empty (r : rte_ring) : bool := cons_tail r =? prod_tail r.
Definition rte_ring_count (r : rte_ring) : Z :=
  Z.land (wrap32 (prod_tail r - cons_tail r)) (prod_mask r).
Definition rte_ring_free_count (r : rte_ring) : Z :=
  Z.land (wrap32 (cons_tail r - prod_tail r - 1)) (prod_mask r).

(** ** The copy loops *)

Lemma copy_seq_add a b src c :
  copy_seq (a + b) src c = copy_seq b src (copy_seq a src c).
Proof. revert c. induction a as [|a IH]; intros c; [done|]. apply IH. Qed.

Lemma copy_by4_seq m fuel src n4 i c :
  n4 = i + 4 * Z.of_nat m → (m ≤ fuel)%nat →
  copy_by4 fuel src n4 i c = copy_seq (4 * m) src c.
Proof.
  revert fuel i c. induction m as [|m IH]; intros fuel i c Hn Hf.
  - destruct fuel as [|fuel]; [done|]. cbn [copy_by4].
    destruct (Z.ltb_spec i n4); [lia|done].
  - destruct fuel as [|fuel]; [lia|]. cbn [copy_by4].
    destruct (Z.ltb_spec i n4); [|lia].
    rewrite (IH fuel) by lia. replace (4 * S m)%nat with (4 + 4 * m)%nat by lia.
    by rewrite copy_seq_add.
Qed.

Lemma copy_rest_seq src n c : copy_rest src n c = copy_seq (Z.to_nat (n mod 4)) src c.
Proof.
  unfold copy_rest. change 3 with (2 ^ 2 - 1). rewrite land_mask by lia.
  change (2 ^ 2) with 4. pose proof (Z.mod_pos_bound n 4 ltac:(lia)) as H.
  assert (n mod 4 = 0 ∨ n mod 4 = 1 ∨ n mod 4 = 2 ∨ n mod 4 = 3)
    as [->|[->|[->| ->]]] by lia; done.
Qed.

Lemma land_not3 n : 0 ≤ n < 2 ^ 32 → Z.land n (wrap32 (Z.lnot 3)) = 4 * (n / 4).
Proof.
  intros Hn. change (wrap32 (Z.lnot 3)) with (Z.ldiff (Z.ones 32) (Z.ones 2)).
  assert (Z.land n (Z.ldiff (Z.ones 32) (Z.ones 2))
          = Z.ldiff (Z.land n (Z.ones 32)) (Z.ones 2)) as ->.
  { apply Z.bits_inj'. intros i _. by rewrite !Z.ldiff_spec, !Z.land_spec,
      Z.ldiff_spec, andb_assoc. }
  rewrite Z.land_ones, Z.mod_small by lia. rewrite Z.ldiff_ones_r by lia.
  rewrite Z.shiftl_mul_pow2, Z.shiftr_div_pow2 by lia.
  change (2 ^ 2) with 4. lia.
Qed.

(** The unrolled loop and its switch copy [n] cells in order. *)
Lemma unrolled_copy n src c :
  0 ≤ n < 2 ^ 32 →
  copy_rest src n (copy_by4 (Z.to_nat (Z.land n (wrap32 (Z.lnot 3)))) src
                     (Z.land n (wrap32 (Z.lnot 3))) 0 c)
  = copy_seq (Z.to_nat n) src c.
Proof.
  intros Hn. rewrite land_not3 by done.
  rewrite (copy_by4_seq (Z.to_nat (n / 4))) by (pose proof (Z.div_pos n 4); lia).
  rewrite copy_rest_seq, <- copy_seq_add. f_equal.
  pose proof (Z.div_mod n 4) as H. pose proof (Z.mod_pos_bound n 4).
  pose proof (Z.div_pos n 4). lia.
Qed.

Lemma copy_seq_spec fuel src c :
  0 ≤ cur_di c → cur_di c + Z.of_nat fuel ≤ zlen (cur_dst c) →
  let c' := copy_seq fuel src c in
  zlen (cur_dst c') = zlen (cur_dst c) ∧
  cur_di c' = cur_di c + Z.of_nat fuel ∧ cur_si c' = cur_si c + Z.of_nat fuel ∧
  ∀ x, 0 ≤ x →
    lget (cur_dst c') x =
      if decide (cur_di c ≤ x < cur_di c + Z.of_nat fuel)
      then lget src (cur_si c + (x - cur_di c)) else lget (cur_dst c) x.
Proof.
  revert c. induction fuel as [|fuel IH]; intros [dst di si]; cbn; intros Hdi Hlen.
  - split_and!; [done|lia|lia|]. intros x Hx. rewrite decide_False by lia. done.
  - destruct (IH (copy1 src (mk_cursor dst di si))) as (E1 & E2 & E3 & E4);
      cbn in *; [lia|rewrite zlen_lset; lia|].
    rewrite zlen_lset in E1. split_and!; [done|lia|lia|]. intros x Hx.
    rewrite E4 by done. destruct (decide (x = di)) as [->|Hne].
    + rewrite decide_False, decide_True by lia. rewrite lget_lset_eq by lia.
      f_equal. lia.
    + rewrite lget_lset_ne by lia.
      destruct (decide (di + 1 ≤ x < di + 1 + Z.of_nat fuel)).
      * rewrite decide_True by lia. f_equal. lia.
      * by rewrite decide_False by lia.
Qed.

(** The reference copy: object [j] goes to cell [(head + j) & mask]. *)
Fixpoint enqueue_ref (fuel : nat) (mask head j : Z) (obj_table cells : list Z) : list Z :=
  match fuel with
  | O => cells
  | S fuel =>
      enqueue_ref fuel mask head (j + 1) obj_table
        (lset cells (Z.land (head + j) mask) (lget obj_table j))
  end.

Lemma offset_mod m x h :
  0 ≤ x < m →
  (x - h) mod m = if decide (h mod m ≤ x) then x - h mod m else x - h mod m + m.
Proof.
  intros Hx. pose proof (Z.mod_pos_bound h m ltac:(lia)) as Hh.
  rewrite Zminus_mod, (Z.mod_small x) by lia. case_decide.
  - by rewrite Z.mod_small by lia.
  - rewrite <- (Z_mod_plus_full _ 1), Z.mod_small by lia. lia.
Qed.

Lemma wrapped_mod m h x :
  0 ≤ x < m →
  (h + x) mod m = if decide (h mod m + x < m) then h mod m + x else h mod m + x - m.
Proof.
  intros Hx. pose proof (Z.mod_pos_bound h m ltac:(lia)) as Hh.
  rewrite <- Zplus_mod_idemp_l. case_decide.
  - by rewrite Z.mod_small by lia.
  - rewrite <- (Z_mod_plus_full _ (-1)), Z.mod_small by lia. lia.
Qed.

(** Shape of a ring: the size is a power of two and the masks fit it. *)
Definition ring_shape (r : rte_ring) : Prop :=
  (∃ k, 0 ≤ k ≤ 27 ∧ prod_size r = 2 ^ k) ∧ cons_size r = prod_size r ∧
  prod_mask r = prod_size r - 1 ∧ cons_mask r = prod_size r - 1 ∧
  zlen (ring_cells r) = prod_size r.

Lemma pow2_bound k : 0 ≤ k ≤ 27 → 0 < 2 ^ k ≤ 2 ^ 27.
Proof. intros H. split; [lia|]. apply Z.pow_le_mono_r; lia. Qed.

Lemma ring_shape_size r : ring_shape r → 0 < prod_size r ≤ 2 ^ 27.
Proof. intros [(k & Hk & ->) _]. by apply pow2_bound. Qed.

Lemma ring_shape_land r x :
  ring_shape r → Z.land x (prod_mask r) = x mod prod_size r.
Proof.
  intros [(k & Hk & Hs) (_ & -> & _)]. rewrite Hs. apply land_mask. lia.
Qed.

Lemma ring_shape_wrap r x :
  ring_shape r → wrap32 x mod prod_size r = x mod prod_size r.
Proof. intros [(k & Hk & ->) _]. apply wrap32_mod_pow2. lia. Qed.

Lemma ENQUEUE_PTRS_cells r head n obj_table :
  ring_shape r → 0 ≤ n < prod_size r →
  zlen (ENQUEUE_PTRS r head n obj_table) = prod_size r ∧
  ∀ x, 0 ≤ x < prod_size r →
    lget (ENQUEUE_PTRS r head n obj_table) x =
      let j := (x - head) mod prod_size r in
      if decide (j < n) then lget obj_table j else lget (ring_cells r) x.
Proof.
  intros Hs Hn. pose proof (ring_shape_size r Hs) as Hsz.
  unfold ENQUEUE_PTRS. rewrite (ring_shape_land r) by done. cbv zeta.
  set (idx := head mod prod_size r).
  assert (0 ≤ idx < prod_size r) as Hidx by (apply Z.mod_pos_bound; lia).
  assert (zlen (ring_cells r) = prod_size r) as Hlen by apply Hs.
  rewrite wrap32_small by lia. destruct (Z.ltb_spec (idx + n) (prod_size r)).
  - rewrite unrolled_copy by lia.
    destruct (copy_seq_spec (Z.to_nat n) obj_table (mk_cursor (ring_cells r) idx 0))
      as (E1 & _ & _ & E4); cbn in *; [lia..|].
    split; [lia|]. intros x Hx. rewrite E4, offset_mod by lia. fold idx.
    destruct (decide (idx ≤ x)); repeat case_decide; try lia; f_equal; lia.
  - destruct (copy_seq_spec (Z.to_nat (prod_size r - idx)) obj_table
                (mk_cursor (ring_cells r) idx 0)) as (E1 & E2 & E3 & E4);
      cbn in *; [lia..|].
    set (c := copy_seq _ _ _) in *.
    destruct (copy_seq_spec (Z.to_nat (n - cur_si c)) obj_table
                (mk_cursor (cur_dst c) 0 (cur_si c))) as (F1 & _ & _ & F4);
      cbn in *; [lia..|].
    split; [lia|]. intros x Hx. rewrite F4, E4, offset_mod by lia. fold idx.
    destruct (decide (idx ≤ x)); repeat case_decide; try lia; f_equal; lia.
Qed.

Lemma DEQUEUE_PTRS_table r head n obj_table :
  ring_shape r → 0 ≤ n < prod_size r → n ≤ zlen obj_table →
  zlen (DEQUEUE_PTRS r head n obj_table) = zlen obj_table ∧
  ∀ x, 0 ≤ x →
    lget (DEQUEUE_PTRS r head n obj_table) x =
      if decide (x < n) then lget (ring_cells r) ((head + x) mod prod_size r)
      else lget obj_table x.
Proof.
  intros Hs Hn Ht. pose proof (ring_shape_size r Hs) as Hsz.
  assert (cons_size r = prod_size r) as Hcs by apply Hs.
  unfold DEQUEUE_PTRS. rewrite (ring_shape_land r) by done. cbv zeta. rewrite Hcs.
  set (idx := head mod prod_size r).
  assert (0 ≤ idx < prod_size r) as Hidx by (apply Z.mod_pos_bound; lia).
  rewrite wrap32_small by lia. destruct (Z.ltb_spec (idx + n) (prod_size r)).
  - rewrite unrolled_copy by lia.
    destruct (copy_seq_spec (Z.to_nat n) (ring_cells r) (mk_cursor obj_table 0 idx))
      as (E1 & _ & _ & E4); cbn in *; [lia..|].
    split; [lia|]. intros x Hx. rewrite E4 by lia.
    destruct (decide (x < n)); [|by rewrite decide_False by lia].
    rewrite decide_True, wrapped_mod by lia. fold idx.
    rewrite decide_True by lia. f_equal. lia.
  - destruct (copy_seq_spec (Z.to_nat (prod_size r - idx)) (ring_cells r)
                (mk_cursor obj_table 0 idx)) as (E1 & E2 & E3 & E4);
      cbn in *; [lia..|].
    set (c := copy_seq _ _ _) in *.
    destruct (copy_seq_spec (Z.to_nat (n - cur_di c)) (ring_cells r)
                (mk_cursor (cur_dst c) (cur_di c) 0)) as (F1 & _ & _ & F4);
      cbn in *; [lia..|].
    split; [lia|]. intros x Hx. rewrite F4, E4 by lia.
    destruct (decide (x < n)).
    + rewrite wrapped_mod by lia. fold idx.
      repeat case_decide; try lia; f_equal; lia.
    + repeat case_decide; try lia; done.
Qed.

Lemma enqueue_ref_cells fuel r head j obj_table cells :
  ring_shape r → 0 ≤ j → j + Z.of_nat fuel < prod_size r → zlen cells = prod_size r →
  zlen (enqueue_ref fuel (prod_mask r) head j obj_table cells) = prod_size r ∧
  ∀ x, 0 ≤ x < prod_size r →
    lget (enqueue_ref fuel (prod_mask r) head j obj_table cells) x =
      let d := (x - head) mod prod_size r in
      if decide (j ≤ d < j + Z.of_nat fuel) then lget obj_table d else lget cells x.
Proof.
  intros Hs. pose proof (ring_shape_size r Hs) as Hsz.
  revert j cells. induction fuel as [|fuel IH]; intros j cells Hj Hb Hl; cbn [enqueue_ref].
  - split; [done|]. intros x Hx. cbv zeta. by rewrite decide_False by lia.
  - rewrite ring_shape_land by done. set (cell := (head + j) mod prod_size r).
    assert (0 ≤ cell < prod_size r) as Hc by (apply Z.mod_pos_bound; lia).
    destruct (IH (j + 1) (lset cells cell (lget obj_table j))) as [E1 E2];
      [lia|lia|by rewrite zlen_lset|].
    split; [done|]. intros x Hx. rewrite E2 by done. cbv zeta.
    assert ((cell - head) mod prod_size r = j) as Hcell.
    { unfold cell. rewrite Zminus_mod_idemp_l, Z.mod_small; lia. }
    destruct (decide (x = cell)) as [->|Hne].
    + rewrite Hcell. rewrite decide_False, decide_True by lia. by rewrite lget_lset_eq by lia.
    + rewrite lget_lset_ne by lia.
      assert ((x - head) mod prod_size r ≠ j) as Hd.
      { intros Heq. apply Hne. rewrite <- Hcell in Heq.
        apply mod_window_inj in Heq; lia. }
      repeat case_decide; try lia; done.
Qed.

(** ** Abstract queue *)

Definition ring_used (r : rte_ring) : Z := wrap32 (prod_tail r - cons_tail r).

(** The objects in the ring, oldest first. *)
Definition queue (r : rte_ring) : list Z :=
  (λ i, lget (ring_cells r) ((cons_tail r + i) mod prod_size r)) <$> seqZ 0 (ring_used r).

(** Usable capacity: one cell stays empty. *)
Definition capacity (r : rte_ring) : Z := prod_size r - 1.

(** A ring no operation is in progress on. *)
Definition ring_wf (r : rte_ring) : Prop :=
  ring_shape r ∧ prod_head r = prod_tail r ∧ cons_head r = cons_tail r ∧
  0 ≤ prod_tail r < 2 ^ 32 ∧ 0 ≤ cons_tail r < 2 ^ 32 ∧ ring_used r ≤ capacity r.

Lemma zlen_queue r : zlen (queue r) = ring_used r.
Proof. apply zlen_fmap_seqZ, wrap32_range. Qed.

Lemma ring_free_entries r :
  ring_wf r → wrap32 (prod_mask r + cons_tail r - prod_head r) = capacity r - ring_used r.
Proof.
  intros (Hs & -> & _ & Hp & Hc & Hu). pose proof (ring_shape_size r Hs) as Hsz.
  assert (prod_mask r = prod_size r - 1) as -> by apply Hs.
  pose proof (wrap32_range (prod_tail r - cons_tail r)). unfold capacity, ring_used in *.
  assert (wrap32 (prod_size r - 1 + cons_tail r - prod_tail r)
          = wrap32 (prod_size r - 1 - wrap32 (prod_tail r - cons_tail r))) as ->.
  { unfold wrap32. rewrite Zminus_mod_idemp_r. f_equal. lia. }
  apply wrap32_small. lia.
Qed.

Lemma ring_entries r : ring_wf r → wrap32 (prod_tail r - cons_head r) = ring_used r.
Proof. by intros (_ & _ & -> & _). Qed.

Lemma wrap32_advance a b n :
  0 ≤ wrap32 (a - b) + n < 2 ^ 32 → wrap32 (wrap32 (a + n) - b) = wrap32 (a - b) + n.
Proof.
  intros H. unfold wrap32 in *. rewrite Zminus_mod_idemp_l.
  replace (a + n - b) with (a - b + n) by lia.
  rewrite <- Zplus_mod_idemp_l. by apply Z.mod_small.
Qed.

Lemma wrap32_retreat a b n :
  0 ≤ wrap32 (a - b) - n < 2 ^ 32 → wrap32 (a - wrap32 (b + n)) = wrap32 (a - b) - n.
Proof.
  intros H. unfold wrap32 in *. rewrite Zminus_mod_idemp_r.
  replace (a - (b + n)) with (a - b - n) by lia.
  rewrite <- Zminus_mod_idemp_l. by apply Z.mod_small.
Qed.

(** The distance of the [i]-th oldest object's cell from the producer's. *)
Lemma ring_cell_gap r i :
  ring_shape r →
  (cons_tail r + i - prod_tail r) mod prod_size r = (i - ring_used r) mod prod_size r.
Proof.
  intros Hs. replace (cons_tail r + i - prod_tail r)
    with (i - (prod_tail r - cons_tail r)) by lia.
  by rewrite <- Zminus_mod_idemp_r, <- (ring_shape_wrap r (prod_tail r - cons_tail r)),
    Zminus_mod_idemp_r.
Qed.

(** The ring after [n] objects are enqueued or dequeued. *)
Definition ring_push (r : rte_ring) (n : Z) (obj_table : list Z) : rte_ring :=
  let next := wrap32 (prod_head r + n) in
  r <| ring_cells := ENQUEUE_PTRS r (prod_head r) n obj_table |>
    <| prod_head := next |> <| prod_tail := next |>.

Definition ring_pop (r : rte_ring) (n : Z) : rte_ring :=
  let next := wrap32 (cons_head r + n) in
  r <| cons_head := next |> <| cons_tail := next |>.

Lemma ring_push_shape r n obj_table :
  ring_shape r → 0 ≤ n < prod_size r → ring_shape (ring_push r n obj_table).
Proof.
  intros Hs Hn. destruct (ENQUEUE_PTRS_cells r (prod_head r) n obj_table Hs Hn) as [El _].
  destruct Hs as (?&?&?&?&?). by split_and!.
Qed.

Lemma ring_push_queue r n obj_table :
  ring_wf r → 0 ≤ n ≤ capacity r - ring_used r →
  ring_wf (ring_push r n obj_table) ∧
  ring_used (ring_push r n obj_table) = ring_used r + n ∧
  queue (ring_push r n obj_table) = queue r ++ slice obj_table 0 n.
Proof.
  intros (Hs & Hph & Hch & Hp & Hc & Hu) Hn. unfold capacity in *.
  pose proof (ring_shape_size r Hs) as Hsz.
  pose proof (wrap32_range (prod_tail r - cons_tail r)) as Hr. fold (ring_used r) in Hr.
  assert (ring_used (ring_push r n obj_table) = ring_used r + n) as Hused.
  { unfold ring_used, ring_push; cbn. rewrite Hph. apply wrap32_advance.
    fold (ring_used r). lia. }
  split_and!; [|done|].
  - split; [apply ring_push_shape; [done|lia]|]. unfold capacity. rewrite Hused.
    cbn. split_and!; try done; try lia; apply wrap32_range.
  - unfold queue at 1. rewrite Hused, fmap_seqZ_app by lia. f_equal; apply fmap_seqZ_ext.
    all: intros i Hi; unfold ring_push; cbn.
    all: destruct (ENQUEUE_PTRS_cells r (prod_head r) n obj_table Hs) as [_ E]; [lia|].
    all: rewrite E by (apply Z.mod_pos_bound; lia); cbv zeta.
    all: rewrite Zminus_mod_idemp_l, Hph.
    + rewrite ring_cell_gap, decide_False by (done || rewrite ?ring_cell_gap by done;
        rewrite <- (Z_mod_plus_full _ 1), Z.mod_small; lia). done.
    + rewrite ring_cell_gap by done.
      replace (ring_used r + i - ring_used r) with i by lia.
      by rewrite Z.mod_small, decide_True by lia.
Qed.

Lemma ring_pop_queue r n :
  ring_wf r → 0 ≤ n ≤ ring_used r →
  ring_wf (ring_pop r n) ∧ ring_used (ring_pop r n) = ring_used r - n ∧
  queue r = slice (queue r) 0 n ++ queue (ring_pop r n).
Proof.
  intros (Hs & Hph & Hch & Hp & Hc & Hu) Hn.
  pose proof (wrap32_range (prod_tail r - cons_tail r)) as Hr. fold (ring_used r) in Hr.
  assert (ring_used (ring_pop r n) = ring_used r - n) as Hused.
  { unfold ring_used, ring_pop; cbn. rewrite Hch. apply wrap32_retreat.
    fold (ring_used r). lia. }
  split_and!; [|done|].
  - split; [done|]. rewrite Hused. unfold capacity in *. cbn.
    split_and!; try done; try lia; apply wrap32_range.
  - unfold queue at 1. replace (ring_used r) with (n + (ring_used r - n)) at 1 by lia.
    rewrite fmap_seqZ_app by lia. f_equal.
    + apply fmap_seqZ_ext. intros i Hi. unfold queue. by rewrite lget_fmap_seqZ by lia.
    + unfold queue. rewrite Hused. apply fmap_seqZ_ext. intros i Hi.
      unfold ring_pop; cbn. rewrite Hch. f_equal.
      rewrite <- (Zplus_mod_idemp_l (wrap32 _)), ring_shape_wrap by done.
      rewrite Zplus_mod_idemp_l. f_equal. lia.
Qed.

(** ** Specification: a bounded FIFO queue *)

(** The value an enqueue of [n] objects on [used] returns; the threshold is the
    code's, which counts one more than the objects held. *)
Definition fifo_enqueue_ret (watermark used n : Z) (behavior : queue_behavior) : Z :=
  if watermark <? used + n + 1 then
    match behavior with
    | RTE_RING_QUEUE_FIXED => - EDQUOT
    | RTE_RING_QUEUE_VARIABLE => n - 2 ^ 31
    end
  else
    match behavior with
    | RTE_RING_QUEUE_FIXED => 0
    | RTE_RING_QUEUE_VARIABLE => n
    end.

Definition fifo_enqueue (cap watermark : Z) (q obj_table : list Z) (n : Z)
    (behavior : queue_behavior) : Z * list Z :=
  match admit_count n (cap - zlen q) (- ENOBUFS) behavior with
  | inl ret => (ret, q)
  | inr n => (fifo_enqueue_ret watermark (zlen q) n behavior,
              q ++ take (Z.to_nat n) obj_table)
  end.

Definition fifo_dequeue (q obj_table : list Z) (n : Z) (behavior : queue_behavior)
    : Z * list Z * list Z :=
  match admit_count n (zlen q) (- ENOENT) behavior with
  | inl ret => (ret, obj_table, q)
  | inr n => (dequeue_ret n behavior,
              take (Z.to_nat n) q ++ drop (Z.to_nat n) obj_table, drop (Z.to_nat n) q)
  end.

(** What no operation on the queue changes. *)
Definition ring_config (r : rte_ring) : string * Z * Z * bool * Z * bool :=
  (ring_name r, ring_flags r, prod_watermark r, prod_sp_enqueue r, prod_size r,
   cons_sc_dequeue r).

Lemma admit_count_inr n avail err behavior m :
  0 ≤ n → 0 ≤ avail → admit_count n avail err behavior = inr m → 0 ≤ m ≤ avail ∧ m ≤ n.
Proof.
  unfold admit_count. intros ? ? H.
  destruct (Z.ltb_spec avail n); [destruct behavior; [done|destruct (Z.eqb_spec avail 0)]|];
    simplify_eq; lia.
Qed.

Lemma lor_quota n : 0 ≤ n < 2 ^ 31 → sint32 (Z.lor n RTE_RING_QUOT_EXCEED) = n - 2 ^ 31.
Proof.
  intros Hn. unfold RTE_RING_QUOT_EXCEED. rewrite Z.shiftl_mul_pow2 by lia.
  rewrite Z.mul_1_l. assert (Z.land n (2 ^ 31) = 0) as H.
  { rewrite <- (Z.mod_small n (2 ^ 31)), <- Z.land_ones, <- Z.land_assoc by lia.
    apply Z.land_0_r. }
  rewrite <- Z.lxor_lor, <- Z.add_nocarry_lxor by done.
  unfold sint32. replace (n + 2 ^ 31 + 2 ^ 31) with (n + 1 * 2 ^ 32) by lia.
  rewrite Z_mod_plus_full, Z.mod_small; lia.
Qed.

Lemma enqueue_ret_spec r n behavior :
  ring_wf r → 0 ≤ n ≤ capacity r - ring_used r →
  enqueue_ret r (capacity r - ring_used r) n behavior
  = fifo_enqueue_ret (prod_watermark r) (ring_used r) n behavior.
Proof.
  intros (Hs & _ & _ & _ & _ & Hu) Hn. pose proof (ring_shape_size r Hs) as Hsz.
  pose proof (wrap32_range (prod_tail r - cons_tail r)) as Hr. fold (ring_used r) in Hr.
  unfold enqueue_ret, fifo_enqueue_ret, capacity in *.
  assert (prod_mask r = prod_size r - 1) as -> by apply Hs.
  rewrite wrap32_small by lia. rewrite lor_quota by lia.
  by replace (prod_size r - 1 + 1 - (prod_size r - 1 - ring_used r) + n)
    with (ring_used r + n + 1) by lia.
Qed.

Lemma queue_push_take r n obj_table :
  ring_wf r → 0 ≤ n ≤ capacity r - ring_used r → n ≤ zlen obj_table →
  queue (ring_push r n obj_table) = queue r ++ take (Z.to_nat n) obj_table.
Proof.
  intros Hw Hn Ho. destruct (ring_push_queue r n obj_table Hw Hn) as (_ & _ & ->).
  by rewrite slice_take by lia.
Qed.

Lemma queue_pop_drop r n :
  ring_wf r → 0 ≤ n ≤ ring_used r → queue (ring_pop r n) = drop (Z.to_nat n) (queue r).
Proof.
  intros Hw Hn. destruct (ring_pop_queue r n Hw Hn) as (_ & _ & E).
  rewrite E, drop_app_length'; [done|].
  pose proof (zlen_slice (queue r) 0 n ltac:(lia)). unfold zlen in *. lia.
Qed.

Lemma DEQUEUE_PTRS_queue r n obj_table :
  ring_wf r → 0 ≤ n ≤ ring_used r → n ≤ zlen obj_table →
  DEQUEUE_PTRS (r <| cons_head := wrap32 (cons_head r + n) |>) (cons_head r) n obj_table
  = take (Z.to_nat n) (queue r) ++ drop (Z.to_nat n) obj_table.
Proof.
  intros Hw Hn Ht. pose proof Hw as (Hs & _ & Hch & _ & _ & Hu).
  pose proof (ring_shape_size r Hs) as Hsz. unfold capacity in Hu.
  set (r1 := r <| cons_head := _ |>). assert (ring_shape r1) as Hs1 by done.
  destruct (DEQUEUE_PTRS_table r1 (cons_head r) n obj_table) as [El E];
    [done|cbn; lia|done|].
  rewrite <- (slice_take (queue r)) by (rewrite zlen_queue; lia).
  assert (zlen (slice (queue r) 0 n) = n) as Hn1 by (apply zlen_slice; lia).
  assert (zlen (drop (Z.to_nat n) obj_table) = zlen obj_table - n) as Hn2
    by (unfold zlen in *; rewrite length_drop; lia).
  apply lget_ext; [rewrite El, zlen_app; lia|]. intros x Hx. rewrite E by lia.
  destruct (decide (x < n)).
  - rewrite lget_app_l by lia. unfold slice, queue. rewrite lget_fmap_seqZ by lia.
    rewrite lget_fmap_seqZ by lia. cbn. by rewrite Hch.
  - rewrite lget_app_r, Hn1 by lia. unfold lget. rewrite lookup_drop. do 2 f_equal. lia.
Qed.

(** ** Refinement *)

(** [enqueue_post]: the outcome of an enqueue is that of the bounded queue. *)
Definition enqueue_post (r : rte_ring) (obj_table : list Z) (n : Z)
    (behavior : queue_behavior) (ret : Z) (r' : rte_ring) : Prop :=
  ring_wf r' ∧ ring_config r' = ring_config r ∧
  (ret, queue r') = fifo_enqueue (capacity r) (prod_watermark r) (queue r) obj_table n behavior.

Definition dequeue_post (r : rte_ring) (obj_table : list Z) (n : Z)
    (behavior : queue_behavior) (ret : Z) (table : list Z) (r' : rte_ring) : Prop :=
  ring_wf r' ∧ ring_config r' = ring_config r ∧
  (ret, table, queue r') = fifo_dequeue (queue r) obj_table n behavior.

Lemma sp_enqueue_fifo r obj_table n behavior :
  ring_wf r → 0 ≤ n ≤ zlen obj_table →
  let '(ret, r') := __rte_ring_sp_do_enqueue r obj_table n behavior in
  enqueue_post r obj_table n behavior ret r'.
Proof.
  intros Hw Hn. unfold enqueue_post, __rte_ring_sp_do_enqueue, fifo_enqueue.
  rewrite ring_free_entries, zlen_queue by done.
  pose proof (wrap32_range (prod_tail r - cons_tail r)) as Hr. fold (ring_used r) in Hr.
  assert (ring_used r ≤ capacity r) as Hu by apply Hw.
  destruct (admit_count _ _ _ _) as [ret|m] eqn:Ha; [done|].
  apply admit_count_inr in Ha; [|lia..].
  destruct (ring_push_queue r m obj_table Hw) as (Hw' & _ & _); [lia|].
  split_and!; [done|done|]. f_equal.
  - by rewrite <- enqueue_ret_spec by (done || lia).
  - rewrite <- queue_push_take by (done || lia). done.
Qed.

(** A multi-producer enqueue that no other enqueue overlaps is the same
    operation; only for [n = 0] does it return before looking at the ring. *)
Lemma mp_enqueue_sp r obj_table n behavior :
  ring_wf r →
  __rte_ring_mp_do_enqueue r obj_table n behavior =
    Some (if n =? 0 then (0, r) else __rte_ring_sp_do_enqueue r obj_table n behavior).
Proof.
  intros (_ & Hph & _). unfold __rte_ring_mp_do_enqueue, __rte_ring_sp_do_enqueue.
  destruct (n =? 0); [done|]. destruct (admit_count _ _ _ _); [done|].
  cbn. by rewrite Hph, Z.eqb_refl.
Qed.

(** With at least one object the two forms agree; the multi-producer form of an
    enqueue of no object returns 0 even above the water mark. *)
Lemma mp_enqueue_fifo r obj_table n behavior :
  ring_wf r → 0 < n ≤ zlen obj_table →
  ∃ ret r', __rte_ring_mp_do_enqueue r obj_table n behavior = Some (ret, r') ∧
    enqueue_post r obj_table n behavior ret r'.
Proof.
  intros Hw Hn. rewrite mp_enqueue_sp by done.
  destruct (Z.eqb_spec n 0); [lia|].
  pose proof (sp_enqueue_fifo r obj_table n behavior Hw ltac:(lia)) as H.
  destruct (__rte_ring_sp_do_enqueue r obj_table n behavior) as [ret r'].
  by exists ret, r'.
Qed.

Lemma sc_dequeue_fifo r obj_table n behavior :
  ring_wf r → 0 ≤ n ≤ zlen obj_table →
  let '(ret, table, r') := __rte_ring_sc_do_dequeue r obj_table n behavior in
  dequeue_post r obj_table n behavior ret table r'.
Proof.
  intros Hw Hn. unfold dequeue_post, __rte_ring_sc_do_dequeue, fifo_dequeue.
  rewrite ring_entries, zlen_queue by done.
  pose proof (wrap32_range (prod_tail r - cons_tail r)) as Hr. fold (ring_used r) in Hr.
  destruct (admit_count _ _ _ _) as [ret|m] eqn:Ha; [done|].
  apply admit_count_inr in Ha; [|lia..].
  destruct (ring_pop_queue r m Hw) as (Hw' & _ & _); [lia|].
  rewrite DEQUEUE_PTRS_queue by (done || lia).
  rewrite <- queue_pop_drop by (done || lia). done.
Qed.

Lemma mc_dequeue_sc r obj_table n behavior :
  ring_wf r →
  __rte_ring_mc_do_dequeue r obj_table n behavior =
    Some (if n =? 0 then (0, obj_table, r)
          else __rte_ring_sc_do_dequeue r obj_table n behavior).
Proof.
  intros (_ & _ & Hch & _). unfold __rte_ring_mc_do_dequeue, __rte_ring_sc_do_dequeue.
  destruct (n =? 0); [done|]. destruct (admit_count _ _ _ _); [done|].
  cbn. by rewrite Hch, Z.eqb_refl.
Qed.

Lemma mc_dequeue_fifo r obj_table n behavior :
  ring_wf r → 0 ≤ n ≤ zlen obj_table →
  ∃ ret table r', __rte_ring_mc_do_dequeue r obj_table n behavior = Some (ret, table, r') ∧
    dequeue_post r obj_table n behavior ret table r'.
Proof.
  intros Hw Hn. rewrite mc_dequeue_sc by done. destruct (Z.eqb_spec n 0) as [->|].
  - exists 0, obj_table, r. split; [done|]. split_and!; [done|done|]. unfold fifo_dequeue, admit_count.
    destruct (Z.ltb_spec (zlen (queue r)) 0); [unfold zlen in *; lia|].
    by destruct behavior.
  - pose proof (sc_dequeue_fifo r obj_table n behavior Hw ltac:(lia)) as H.
    destruct (__rte_ring_sc_do_dequeue r obj_table n behavior) as [[ret table] r'].
    by exists ret, table, r'.
Qed.

(** C2. Enqueue refines the bounded FIFO queue: [rte_ring_enqueue_bulk] and
    [rte_ring_enqueue_burst], in single- or multi-producer form as the ring was
    created, always return, and their value on every path (no room, room for
    some, room for all, water mark exceeded) and the ring's contents after them
    are those of the queue, for every position of the 32-bit indices. *)
Theorem enqueue_refines_fifo r obj_table n :
  ring_wf r → 0 < n ≤ zlen obj_table →
  (∃ ret r', rte_ring_enqueue_bulk r obj_table n = Some (ret, r') ∧
     enqueue_post r obj_table n RTE_RING_QUEUE_FIXED ret r') ∧
  (∃ ret r', rte_ring_enqueue_burst r obj_table n = Some (ret, r') ∧
     enqueue_post r obj_table n RTE_RING_QUEUE_VARIABLE ret r').
Proof.
  intros Hw Hn. unfold rte_ring_enqueue_bulk, rte_ring_enqueue_burst.
  destruct (prod_sp_enqueue r); [|by split; apply mp_enqueue_fifo].
  split; unfold rte_ring_sp_enqueue_bulk, rte_ring_sp_enqueue_burst.
  - pose proof (sp_enqueue_fifo r obj_table n RTE_RING_QUEUE_FIXED Hw ltac:(lia)).
    destruct (__rte_ring_sp_do_enqueue _ _ _ _) as [ret r']. by exists ret, r'.
  - pose proof (sp_enqueue_fifo r obj_table n RTE_RING_QUEUE_VARIABLE Hw ltac:(lia)).
    destruct (__rte_ring_sp_do_enqueue _ _ _ _) as [ret r']. by exists ret, r'.
Qed.

(** C20. Dequeue refines the bounded FIFO queue: [rte_ring_dequeue_bulk] and
    [rte_ring_dequeue_burst] always return; they hand out the oldest objects in
    order, leave the rest, and on failure change neither the caller's table nor
    the ring. *)
Theorem dequeue_refines_fifo r obj_table n :
  ring_wf r → 0 ≤ n ≤ zlen obj_table →
  (∃ ret table r', rte_ring_dequeue_bulk r obj_table n = Some (ret, table, r') ∧
     dequeue_post r obj_table n RTE_RING_QUEUE_FIXED ret table r') ∧
  (∃ ret table r', rte_ring_dequeue_burst r obj_table n = Some (ret, table, r') ∧
     dequeue_post r obj_table n RTE_RING_QUEUE_VARIABLE ret table r').
Proof.
  intros Hw Hn. unfold rte_ring_dequeue_bulk, rte_ring_dequeue_burst.
  destruct (cons_sc_dequeue r); [|by split; apply mc_dequeue_fifo].
  split; unfold rte_ring_sc_dequeue_bulk, rte_ring_sc_dequeue_burst.
  - pose proof (sc_dequeue_fifo r obj_table n RTE_RING_QUEUE_FIXED Hw ltac:(lia)).
    destruct (__rte_ring_sc_do_dequeue _ _ _ _) as [[ret t] r']. by exists ret, t, r'.
  - pose proof (sc_dequeue_fifo r obj_table n RTE_RING_QUEUE_VARIABLE Hw ltac:(lia)).
    destruct (__rte_ring_sc_do_dequeue _ _ _ _) as [[ret t] r']. by exists ret, t, r'.
Qed.

(** The unrolled copy of [ENQUEUE_PTRS] (four cells a round, a falling-through
    switch, two loops at the wrap-around) equals the loop that stores object [j]
    at cell [(head + j) & mask]. *)
Lemma ENQUEUE_PTRS_ref r head n obj_table :
  ring_shape r → 0 ≤ n < prod_size r →
  ENQUEUE_PTRS r head n obj_table
  = enqueue_ref (Z.to_nat n) (prod_mask r) head 0 obj_table (ring_cells r).
Proof.
  intros Hs Hn. destruct (ENQUEUE_PTRS_cells r head n obj_table Hs Hn) as [E1 E2].
  destruct (enqueue_ref_cells (Z.to_nat n) r head 0 obj_table (ring_cells r)) as [F1 F2];
    [done|lia|lia|apply Hs|].
  apply lget_ext; [by rewrite E1, F1|]. intros x Hx. rewrite E1 in Hx.
  rewrite E2, F2 by done. cbv zeta. pose proof (Z.mod_pos_bound (x - head) (prod_size r)).
  destruct (decide (_ < n)); [rewrite decide_True by lia|rewrite decide_False by lia]; done.
Qed.

(** ** Counting and configuration *)

Lemma ring_count_used r : ring_wf r → rte_ring_count r = ring_used r.
Proof.
  intros (Hs & _ & _ & _ & _ & Hu). unfold rte_ring_count. rewrite ring_shape_land by done.
  apply Z.mod_small. unfold capacity in Hu. fold (ring_used r).
  pose proof (wrap32_range (prod_tail r - cons_tail r)). unfold ring_used in *. lia.
Qed.

Lemma ring_free_count_spec r : ring_wf r → rte_ring_free_count r = capacity r - ring_used r.
Proof.
  intros (Hs & _ & _ & _ & _ & Hu). unfold rte_ring_free_count, capacity in *.
  pose proof (wrap32_range (prod_tail r - cons_tail r)) as Hr. fold (ring_used r) in Hr.
  rewrite ring_shape_land, ring_shape_wrap by done.
  replace (cons_tail r - prod_tail r - 1) with (-1 - (prod_tail r - cons_tail r)) by lia.
  rewrite <- Zminus_mod_idemp_r, <- (ring_shape_wrap r (prod_tail r - cons_tail r)) by done.
  rewrite Zminus_mod_idemp_r. fold (ring_used r).
  rewrite <- (Z_mod_plus_full _ 1), Z.mod_small; lia.
Qed.

(** The counters of a quiescent ring are exact: [rte_ring_count] is the
    number of queued objects, [rte_ring_free_count] the room left of the
    [size - 1] usable cells, and the full and empty tests agree with them. *)
Theorem ring_counts_exact r :
  ring_wf r →
  rte_ring_count r = zlen (queue r) ∧
  rte_ring_count r + rte_ring_free_count r = prod_size r - 1 ∧
  (rte_ring_full r = true ↔ zlen (queue r) = prod_size r - 1) ∧
  (rte_ring_empty r = true ↔ queue r = []).
Proof.
  intros Hw. pose proof (ring_free_count_spec r Hw) as Hf.
  rewrite zlen_queue, (ring_count_used r Hw), Hf. unfold capacity in *.
  split_and!; [done|lia| |].
  - unfold rte_ring_full. change (Z.land _ _) with (rte_ring_free_count r).
    rewrite Hf, Z.eqb_eq. lia.
  - unfold rte_ring_empty. rewrite Z.eqb_eq. destruct Hw as (_ & _ & _ & Hp & Hc & _).
    split.
    + intros He. unfold queue, ring_used. by rewrite He, Z.sub_diag.
    + intros Hq. pose proof (zlen_queue r) as Hl. rewrite Hq in Hl. symmetry in Hl.
      change (zlen []) with 0 in Hl. unfold ring_used in Hl.
      symmetry. apply wrap32_inj; [|lia]. rewrite <- (wrap32_small (cons_tail r)) in Hl by lia.
      unfold wrap32 in *. rewrite Zminus_mod_idemp_r in Hl.
      apply Z.mod_divide in Hl; [|lia]. destruct Hl as [q Hq'].
      replace (prod_tail r) with (cons_tail r + q * 2 ^ 32) by lia.
      by rewrite Z_mod_plus_full.
Qed.

Lemma POWEROF2_spec x :
  0 ≤ x < 2 ^ 32 → POWEROF2 x = true ↔ x = 0 ∨ ∃ k, 0 ≤ k ∧ x = 2 ^ k.
Proof.
  intros Hx. unfold POWEROF2. rewrite Z.eqb_eq.
  destruct (decide (x = 0)) as [->|Hx0]; [rewrite Z.land_0_r; split; [by left|done]|].
  rewrite wrap32_small by lia. split.
  - intros Hl. right. exists (Z.log2 x). split; [apply Z.log2_nonneg|].
    destruct (Z.log2_spec x) as [H1 H2]; [lia|]. pose proof (Z.log2_nonneg x).
    destruct (decide (x = 2 ^ Z.log2 x)) as [|Hne]; [done|].
    assert (Z.testbit (Z.land (x - 1) x) (Z.log2 x) = true) as Ht.
    { assert (Z.log2 (x - 1) = Z.log2 x) as El by (apply Z.log2_unique; lia).
      rewrite Z.land_spec, (Z.bit_log2 x) by lia.
      rewrite <- El at 1. rewrite Z.bit_log2 by lia. done. }
    by rewrite Hl, Z.bits_0 in Ht.
  - intros [?|(k & Hk & ->)]; [done|]. rewrite Z.land_comm, land_mask by done.
    apply Z.mod_same. lia.
Qed.

(** Ring creation: for the argument check to pass, [count] is 0 or a power
    of two of at most 2^27; for such a power of two (and a name that fits) the
    initialised ring is a well-formed empty queue with [count - 1] usable cells,
    whose water mark no enqueue can exceed; a too long name is refused. *)
Theorem ring_create_ok cells name count flags sizeof_ring cache_line :
  0 < sizeof_ring → 0 < cache_line → 0 ≤ count < 2 ^ 32 →
  (0 ≤ rte_ring_get_memsize sizeof_ring cache_line count ↔
     count = 0 ∨ ∃ k, 0 ≤ k ≤ 27 ∧ count = 2 ^ k) ∧
  (count ≠ 0 → zlen cells = count →
   0 ≤ rte_ring_get_memsize sizeof_ring cache_line count →
   if RTE_MEMZONE_NAMESIZE <=? Z.of_nat (String.length name)
   then rte_ring_init cells name count flags = (- ENAMETOOLONG, None)
   else ∃ r, rte_ring_init cells name count flags = (0, Some r) ∧ ring_wf r ∧
     queue r = [] ∧ capacity r = count - 1 ∧
     ∀ (q : list Z) n, zlen q + n ≤ capacity r →
       fifo_enqueue_ret (prod_watermark r) (zlen q) n RTE_RING_QUEUE_FIXED = 0).
Proof.
  intros Hsz Hcl Hc.
  assert (0 ≤ rte_ring_get_memsize sizeof_ring cache_line count ↔
     count = 0 ∨ ∃ k, 0 ≤ k ≤ 27 ∧ count = 2 ^ k) as Hiff.
  { unfold rte_ring_get_memsize. pose proof (POWEROF2_spec count Hc) as Hp.
    assert (0 ≤ (sizeof_ring + count * 8 + cache_line - 1) / cache_line * cache_line).
    { apply Z.mul_nonneg_nonneg; [apply Z.div_pos|]; lia. }
    destruct (POWEROF2 count); cbn [negb orb].
    - destruct (Z.ltb_spec RTE_RING_SZ_MASK count) as [Hgt|Hle];
        unfold RTE_RING_SZ_MASK, EINVAL in *.
      + split; [lia|]. intros [->|(k & Hk & ->)]; [lia|]. pose proof (pow2_bound k Hk). lia.
      + split; [|done]. intros _. destruct Hp as [[?|(k & Hk & ->)] _]; [done|by left|].
        right. exists k. split; [|done]. split; [done|].
        apply Z.lt_succ_r, (Z.pow_lt_mono_r_iff 2); lia.
    - unfold EINVAL. split; [lia|]. intros H'. cut (false = true); [done|].
      apply Hp. destruct H' as [?|(k & Hk & ?)]; [by left|right; exists k; split; [lia|done]]. }
  split; [done|]. intros Hne Hl Hm. apply Hiff in Hm as [?|(k & Hk & Hcount)]; [done|].
  unfold rte_ring_init. destruct (_ <=? _); [done|]. eexists. split; [done|].
  pose proof (pow2_bound k Hk). unfold capacity, ring_wf, ring_shape; cbn.
  rewrite wrap32_small by lia. split_and!; try done.
  - exists k. done.
  - change (0 ≤ count - 1). lia.
  - intros q n Hq. unfold fifo_enqueue_ret; cbn. destruct (Z.ltb_spec count (zlen q + n + 1)); lia.
Qed.

(** ** Concrete instances

    A ring of eight cells whose indices are about to wrap around [2^32]; it
    holds the objects 70, 71, 72, 73, the first two before the wrap. *)
Definition wrapping_ring : rte_ring :=
  mk_ring "RX_RING_0" 3 8 true 8 7 2 2 true 8 7 (2 ^ 32 - 2) (2 ^ 32 - 2)
    [72; 73; 0; 0; 0; 0; 70; 71].

Lemma wrapping_ring_wf : ring_wf wrapping_ring.
Proof.
  unfold ring_wf, ring_shape. eval_conj.
  exists 3. vm_compute. done.
Qed.

Lemma enqueue_refines_fifo_witness :
  ring_wf wrapping_ring ∧ 0 < 3 ≤ zlen [80; 81; 82] ∧
  rte_ring_enqueue_bulk wrapping_ring [80; 81; 82] 3
    = Some (0, ring_push wrapping_ring 3 [80; 81; 82]) ∧
  queue (ring_push wrapping_ring 3 [80; 81; 82]) = [70; 71; 72; 73; 80; 81; 82] ∧
  ∃ ret r', rte_ring_enqueue_burst wrapping_ring [80; 81; 82] 3 = Some (ret, r') ∧
     enqueue_post wrapping_ring [80; 81; 82] 3 RTE_RING_QUEUE_VARIABLE ret r'.
Proof.
  eval_conj; [apply wrapping_ring_wf|].
  apply (enqueue_refines_fifo wrapping_ring [80; 81; 82] 3 wrapping_ring_wf).
  vm_compute. done.
Defined.

Lemma dequeue_refines_fifo_witness :
  ring_wf wrapping_ring ∧ 0 ≤ 3 ≤ zlen [0; 0; 0] ∧
  rte_ring_dequeue_bulk wrapping_ring [0; 0; 0] 3
    = Some (0, [70; 71; 72], ring_pop wrapping_ring 3) ∧
  ∃ ret table r', rte_ring_dequeue_burst wrapping_ring [0; 0; 0] 3 = Some (ret, table, r') ∧
     dequeue_post wrapping_ring [0; 0; 0] 3 RTE_RING_QUEUE_VARIABLE ret table r'.
Proof.
  eval_conj; [apply wrapping_ring_wf|].
  apply (dequeue_refines_fifo wrapping_ring [0; 0; 0] 3 wrapping_ring_wf).
  vm_compute. done.
Defined.

Lemma ring_counts_exact_witness :
  ring_wf wrapping_ring ∧ rte_ring_count wrapping_ring = 4 ∧
  rte_ring_free_count wrapping_ring = 3 ∧
  rte_ring_count wrapping_ring = zlen (queue wrapping_ring) ∧
  (rte_ring_full wrapping_ring = true ↔ zlen (queue wrapping_ring) = 7).
Proof.
  eval_conj; [apply wrapping_ring_wf|].
  apply (ring_counts_exact wrapping_ring wrapping_ring_wf).
Defined.

Lemma ring_create_ok_witness :
  0 < 384 ∧ 0 < 64 ∧ 0 ≤ 4 < 2 ^ 32 ∧
  rte_ring_get_memsize 384 64 4 = 448 ∧ rte_ring_get_memsize 384 64 6 = - EINVAL ∧
  ∃ r, rte_ring_init [9; 9; 9; 9] "COMMAND_RING" 4 0 = (0, Some r) ∧ ring_wf r ∧
    queue r = [] ∧ capacity r = 4 - 1 ∧
    ∀ (q : list Z) n, zlen q + n ≤ capacity r →
      fifo_enqueue_ret (prod_watermark r) (zlen q) n RTE_RING_QUEUE_FIXED = 0.
Proof.
  eval_conj.
  refine (proj2 (ring_create_ok [9; 9; 9; 9] "COMMAND_RING" 4 0 384 64 _ _ _) _ _ _);
    vm_compute; done.
Defined.
