(* ===== verification/RingConc.v ===== *)
(** * Concurrent callers of one ring (rte_ring.h)

    Several producers and consumers run [__rte_ring_mp_do_enqueue] /
    [__rte_ring_sp_do_enqueue] and [__rte_ring_mc_do_dequeue] /
    [__rte_ring_sc_do_dequeue] of [Ring] on the same ring, their memory accesses
    interleaved.  One step of a thread is one access to shared memory: the load
    of its own head, the load of the other side's tail, the compare-and-set (or,
    in the single forms, the store) of the head, one cell copied, the store of
    the tail once it is the thread's turn.  Accesses are sequentially
    consistent: on x86 the barriers of the code are compiler barriers.

    The main theorem is exactly-once FIFO delivery in every interleaving.  The
    32-bit compare-and-set has an ABA window: a thread that sleeps between its
    load and its compare-and-set while 2^32 objects pass cannot tell.  The step
    relation excludes exactly that ([not_stale]). *)

From S2P Require Import Prelude Ring.

(** ** Threads *)

(** Program points of an enqueue.  [objs], [max] and [beh] are the arguments;
    [head] is the local [prod_head]; [seen] is the unwrapped number of objects
    reserved when it was loaded (used only to state the ABA condition). *)
Inductive prod_pc :=
  | P_idle
  | P_load (objs : list Z) (max : Z) (beh : queue_behavior)
  | P_head (objs : list Z) (max : Z) (beh : queue_behavior) (head seen : Z)
  | P_cas (objs : list Z) (max : Z) (beh : queue_behavior) (head seen free n : Z)
  | P_copy (objs : list Z) (beh : queue_behavior) (head seen free n i : Z)
  | P_done (ret : Z).

Inductive cons_pc :=
  | C_idle
  | C_load (table : list Z) (max : Z) (beh : queue_behavior)
  | C_head (table : list Z) (max : Z) (beh : queue_behavior) (head seen : Z)
  | C_cas (table : list Z) (max : Z) (beh : queue_behavior) (head seen n : Z)
  | C_copy (table : list Z) (beh : queue_behavior) (head seen n i : Z)
  | C_done (ret : Z) (table : list Z).

Inductive thread := Producer (pc : prod_pc) | Consumer (pc : cons_pc).

(** The events of a run: objects made visible, objects handed out. *)
Inductive event := Tau | Enq (objs : list Z) | Deq (objs : list Z).

(** The shared ring, and how many objects were ever reserved by producers and
    claimed by consumers. *)
Record conf := mk_conf {
  c_ring : rte_ring;
  c_reserved : Z;
  c_claimed : Z;
  c_threads : gmap nat thread;
}.

(** ** Steps *)

(** One step of a producer; [None] while it spins on the tail. *)
Definition prod_step (r : rte_ring) (reserved : Z) (pc : prod_pc)
    : option (event * rte_ring * Z * prod_pc) :=
  match pc with
  | P_idle => None
  | P_load objs max beh =>
      if negb (prod_sp_enqueue r) && (max =? 0) then Some (Tau, r, reserved, P_done 0)
      else Some (Tau, r, reserved, P_head objs max beh (prod_head r) reserved)
  | P_head objs max beh head seen =>
      let free := wrap32 (prod_mask r + cons_tail r - head) in
      match admit_count max free (- ENOBUFS) beh with
      | inl ret => Some (Tau, r, reserved, P_done ret)
      | inr n => Some (Tau, r, reserved, P_cas objs max beh head seen free n)
      end
  | P_cas objs max beh head seen free n =>
      if prod_sp_enqueue r || (prod_head r =? head)
      then Some (Tau, r <| prod_head := wrap32 (head + n) |>, reserved + n,
                 P_copy objs beh head seen free n 0)
      else Some (Tau, r, reserved, P_load objs max beh)
  | P_copy objs beh head seen free n i =>
      if i <? n then
        let cell := Z.land (head + i) (prod_mask r) in
        Some (Tau, r <| ring_cells := lset (ring_cells r) cell (lget objs i) |>, reserved,
              P_copy objs beh head seen free n (i + 1))
      else if prod_sp_enqueue r || (prod_tail r =? head)
      then Some (Enq (take (Z.to_nat n) objs),
                 r <| prod_tail := wrap32 (head + n) |>, reserved,
                 P_done (enqueue_ret r free n beh))
      else None
  | P_done _ => Some (Tau, r, reserved, P_idle)
  end.

Definition cons_step (r : rte_ring) (claimed : Z) (pc : cons_pc)
    : option (event * rte_ring * Z * cons_pc) :=
  match pc with
  | C_idle => None
  | C_load table max beh =>
      if negb (cons_sc_dequeue r) && (max =? 0) then Some (Tau, r, claimed, C_done 0 table)
      else Some (Tau, r, claimed, C_head table max beh (cons_head r) claimed)
  | C_head table max beh head seen =>
      let entries := wrap32 (prod_tail r - head) in
      match admit_count max entries (- ENOENT) beh with
      | inl ret => Some (Tau, r, claimed, C_done ret table)
      | inr n => Some (Tau, r, claimed, C_cas table max beh head seen n)
      end
  | C_cas table max beh head seen n =>
      if cons_sc_dequeue r || (cons_head r =? head)
      then Some (Tau, r <| cons_head := wrap32 (head + n) |>, claimed + n,
                 C_copy table beh head seen n 0)
      else Some (Tau, r, claimed, C_load table max beh)
  | C_copy table beh head seen n i =>
      if i <? n then
        let cell := Z.land (head + i) (prod_mask r) in
        Some (Tau, r, claimed,
              C_copy (lset table i (lget (ring_cells r) cell)) beh head seen n (i + 1))
      else if cons_sc_dequeue r || (cons_tail r =? head)
      then Some (Deq (take (Z.to_nat n) table),
                 r <| cons_tail := wrap32 (head + n) |>, claimed,
                 C_done (dequeue_ret n beh) table)
      else None
  | C_done _ _ => Some (Tau, r, claimed, C_idle)
  end.

(** Fewer than 2^32 objects passed since the head was loaded. *)
Definition not_stale_prod (reserved : Z) (pc : prod_pc) : Prop :=
  match pc with P_cas _ _ _ _ seen _ _ => reserved - seen < 2 ^ 32 | _ => True end.
Definition not_stale_cons (claimed : Z) (pc : cons_pc) : Prop :=
  match pc with C_cas _ _ _ _ seen _ => claimed - seen < 2 ^ 32 | _ => True end.

Inductive step : conf → event → conf → Prop :=
  | step_prod_call r p c ts t objs max beh :
      ts !! t = Some (Producer P_idle) → 0 ≤ max ≤ zlen objs →
      step (mk_conf r p c ts) Tau
        (mk_conf r p c (<[t := Producer (P_load objs max beh)]> ts))
  | step_cons_call r p c ts t table max beh :
      ts !! t = Some (Consumer C_idle) → 0 ≤ max ≤ zlen table →
      step (mk_conf r p c ts) Tau
        (mk_conf r p c (<[t := Consumer (C_load table max beh)]> ts))
  | step_producer r p c ts t pc e r' p' pc' :
      ts !! t = Some (Producer pc) → not_stale_prod p pc →
      prod_step r p pc = Some (e, r', p', pc') →
      step (mk_conf r p c ts) e (mk_conf r' p' c (<[t := Producer pc']> ts))
  | step_consumer r p c ts t pc e r' c' pc' :
      ts !! t = Some (Consumer pc) → not_stale_cons c pc →
      cons_step r c pc = Some (e, r', c', pc') →
      step (mk_conf r p c ts) e (mk_conf r' p c' (<[t := Consumer pc']> ts)).

(** Runs with the list of their events, in order. *)
Inductive run : conf → list event → conf → Prop :=
  | run_nil c : run c [] c
  | run_snoc c1 es c2 e c3 : run c1 es c2 → step c2 e c3 → run c1 (es ++ [e]) c3.

Definition enqueued (es : list event) : list Z :=
  mjoin ((λ e, match e with Enq objs => objs | _ => [] end) <$> es).
Definition dequeued (es : list event) : list Z :=
  mjoin ((λ e, match e with Deq objs => objs | _ => [] end) <$> es).

(** A start: a freshly initialised ring of at least two cells, idle threads, one
    producer (consumer) at most when the ring is single-producer (-consumer). *)
Definition initial (c : conf) : Prop :=
  ring_wf (c_ring c) ∧ 0 < capacity (c_ring c) ∧
  prod_head (c_ring c) = 0 ∧ cons_head (c_ring c) = 0 ∧
  c_reserved c = 0 ∧ c_claimed c = 0 ∧
  (∀ t th, c_threads c !! t = Some th → th = Producer P_idle ∨ th = Consumer C_idle) ∧
  (prod_sp_enqueue (c_ring c) = true →
   ∀ t t' p p', c_threads c !! t = Some (Producer p) →
     c_threads c !! t' = Some (Producer p') → t = t') ∧
  (cons_sc_dequeue (c_ring c) = true →
   ∀ t t' p p', c_threads c !! t = Some (Consumer p) →
     c_threads c !! t' = Some (Consumer p') → t = t').

(** ** Invariant

    [ph], [pt], [ch], [ct] are the unwrapped indices and [log] the objects
    reserved so far, in the order of the reservations.  A thread in its copy
    phase owns the positions [seen, seen + n). *)

Definition prod_span (pc : prod_pc) : option (Z * Z) :=
  match pc with P_copy _ _ _ seen _ n _ => Some (seen, n) | _ => None end.
Definition cons_span (pc : cons_pc) : option (Z * Z) :=
  match pc with C_copy _ _ _ seen n _ => Some (seen, n) | _ => None end.

Definition single_ok (single : bool) (head tail : Z) (span : option (Z * Z)) : Prop :=
  single = true →
  match span with Some (seen, n) => seen = tail ∧ head = seen + n | None => tail = head end.

(** A head [head] loaded when [seen] objects were reserved (or claimed). *)
Definition loaded_ok (single : bool) (ph head seen : Z) : Prop :=
  head = wrap32 seen ∧ seen ≤ ph ∧ (single = true → seen = ph).

Definition args_ok (single : bool) (max len : Z) : Prop :=
  0 ≤ max ≤ len ∧ (single = false → 0 < max).

Definition prod_ok (r : rte_ring) (ph pt ct : Z) (log : list Z) (pc : prod_pc) : Prop :=
  let sp := prod_sp_enqueue r in
  single_ok sp ph pt (prod_span pc) ∧
  match pc with
  | P_idle | P_done _ => True
  | P_load objs max _ => 0 ≤ max ≤ zlen objs
  | P_head objs max _ head seen => args_ok sp max (zlen objs) ∧ loaded_ok sp ph head seen
  | P_cas objs max _ head seen free n =>
      0 ≤ max ≤ zlen objs ∧ args_ok sp n (zlen objs) ∧ loaded_ok sp ph head seen ∧
      ∃ ct0, ct0 ≤ ct ∧ seen - ct0 ≤ capacity r ∧
        free = wrap32 (capacity r + ct0 - seen) ∧ n ≤ free
  | P_copy objs _ head seen _ n i =>
      args_ok sp n (zlen objs) ∧ head = wrap32 seen ∧ pt ≤ seen ∧ seen + n ≤ ph ∧
      0 ≤ i ≤ n ∧ (∀ j, 0 ≤ j < n → lget log (seen + j) = lget objs j) ∧
      ∀ j, 0 ≤ j < i → lget (ring_cells r) ((seen + j) mod prod_size r) = lget objs j
  end.

Definition cons_ok (r : rte_ring) (ch ct pt : Z) (log : list Z) (pc : cons_pc) : Prop :=
  let sc := cons_sc_dequeue r in
  single_ok sc ch ct (cons_span pc) ∧
  match pc with
  | C_idle | C_done _ _ => True
  | C_load table max _ => 0 ≤ max ≤ zlen table
  | C_head table max _ head seen => args_ok sc max (zlen table) ∧ loaded_ok sc ch head seen
  | C_cas table max _ head seen n =>
      0 ≤ max ≤ zlen table ∧ args_ok sc n (zlen table) ∧ loaded_ok sc ch head seen ∧
      ∃ pt0, seen ≤ pt0 ≤ pt ∧ n ≤ wrap32 (pt0 - seen)
  | C_copy table _ head seen n i =>
      args_ok sc n (zlen table) ∧ head = wrap32 seen ∧ ct ≤ seen ∧ seen + n ≤ ch ∧
      0 ≤ i ≤ n ∧ ∀ j, 0 ≤ j < i → lget table j = lget log (seen + j)
  end.

Definition spans_apart (a b : option (Z * Z)) : Prop :=
  match a, b with
  | Some (s1, n1), Some (s2, n2) => s1 + n1 ≤ s2 ∨ s2 + n2 ≤ s1
  | _, _ => True
  end.

(** The ring against the unwrapped indices. *)
Definition indices_ok (r : rte_ring) (ph pt ch ct : Z) (log : list Z) : Prop :=
  ring_shape r ∧ 0 ≤ ct ≤ ch ∧ ch ≤ pt ≤ ph ∧ ph ≤ ct + capacity r ∧
  prod_head r = wrap32 ph ∧ prod_tail r = wrap32 pt ∧
  cons_head r = wrap32 ch ∧ cons_tail r = wrap32 ct ∧ zlen log = ph ∧
  ∀ i, ct ≤ i < pt → lget (ring_cells r) (i mod prod_size r) = lget log i.

Definition prods_ok (r : rte_ring) (ph pt ct : Z) (log : list Z) (ts : gmap nat thread) : Prop :=
  (∀ t pc, ts !! t = Some (Producer pc) → prod_ok r ph pt ct log pc) ∧
  (∀ t t' pc pc', ts !! t = Some (Producer pc) → ts !! t' = Some (Producer pc') →
     t ≠ t' → prod_sp_enqueue r = false ∧ spans_apart (prod_span pc) (prod_span pc')).

Definition conss_ok (r : rte_ring) (ch ct pt : Z) (log : list Z) (ts : gmap nat thread) : Prop :=
  (∀ t pc, ts !! t = Some (Consumer pc) → cons_ok r ch ct pt log pc) ∧
  (∀ t t' pc pc', ts !! t = Some (Consumer pc) → ts !! t' = Some (Consumer pc') →
     t ≠ t' → cons_sc_dequeue r = false ∧ spans_apart (cons_span pc) (cons_span pc')).

Definition inv (c : conf) (es : list event) : Prop :=
  ∃ pt ct log,
    indices_ok (c_ring c) (c_reserved c) pt (c_claimed c) ct log ∧
    prods_ok (c_ring c) (c_reserved c) pt ct log (c_threads c) ∧
    conss_ok (c_ring c) (c_claimed c) ct pt log (c_threads c) ∧
    enqueued es = slice log 0 pt ∧ dequeued es = slice log 0 ct.

(** ** Frame lemmas *)

Lemma enqueued_snoc es e :
  enqueued (es ++ [e]) = enqueued es ++ match e with Enq objs => objs | _ => [] end.
Proof. unfold enqueued. rewrite fmap_app, join_app. cbn. by rewrite app_nil_r. Qed.

Lemma dequeued_snoc es e :
  dequeued (es ++ [e]) = dequeued es ++ match e with Deq objs => objs | _ => [] end.
Proof. unfold dequeued. rewrite fmap_app, join_app. cbn. by rewrite app_nil_r. Qed.

(** The part of a thread's assertion that other threads' steps can disturb. *)
Lemma prod_ok_frame r r' ph ph' pt pt' ct ct' log log' pc :
  ring_config r' = ring_config r → 0 ≤ pt → ph ≤ ph' → ct ≤ ct' →
  (prod_sp_enqueue r = true → ph' = ph ∧ pt' = pt) →
  (∀ i, 0 ≤ i < ph → lget log' i = lget log i) →
  (∀ seen n, prod_span pc = Some (seen, n) → pt' ≤ seen ∧
     ∀ j, 0 ≤ j < n → lget (ring_cells r') ((seen + j) mod prod_size r)
                      = lget (ring_cells r) ((seen + j) mod prod_size r)) →
  prod_ok r ph pt ct log pc → prod_ok r' ph' pt' ct' log' pc.
Proof.
  intros Hcfg Hpt Hph Hct Hsp Hlog Hspan [Hs Hpc].
  assert (prod_sp_enqueue r' = prod_sp_enqueue r ∧ prod_size r' = prod_size r)
    as [Esp Esz] by (unfold ring_config in Hcfg; by simplify_eq).
  unfold prod_ok, capacity, single_ok, loaded_ok in *. rewrite Esp, Esz.
  split.
  { intros Hsg. destruct (Hsp Hsg) as [-> ->]. by apply Hs. }
  destruct pc as [|objs max beh|objs max beh head seen|objs max beh head seen free n
                 |objs beh head seen free n i|ret]; cbn in *; try done.
  - destruct Hpc as (? & ? & ? & Hx). split_and!; try done; [lia|].
    intros Hsg. destruct (Hsp Hsg) as [-> _]. by apply Hx.
  - destruct Hpc as (? & ? & (? & ? & Hx) & ct0 & ? & ? & ? & ?). split_and!; try done; try lia.
    + intros Hsg. destruct (Hsp Hsg) as [-> _]. by apply Hx.
    + exists ct0. split_and!; try done; lia.
  - destruct Hpc as (? & ? & ? & ? & ? & Hl & Hc).
    destruct (Hspan seen n eq_refl) as [Hpt' Hcells]. split_and!; try done; try lia.
    + intros j Hj. rewrite Hlog by lia. by apply Hl.
    + intros j Hj. rewrite Hcells by lia. by apply Hc.
Qed.

Lemma cons_ok_frame r r' ch ch' ct ct' pt pt' log log' pc :
  ring_config r' = ring_config r → 0 ≤ ct → ch ≤ ch' → pt ≤ pt' → ch ≤ pt →
  (cons_sc_dequeue r = true → ch' = ch ∧ ct' = ct) →
  (∀ i, 0 ≤ i < pt → lget log' i = lget log i) →
  (∀ seen n, cons_span pc = Some (seen, n) → ct' ≤ seen) →
  cons_ok r ch ct pt log pc → cons_ok r' ch' ct' pt' log' pc.
Proof.
  intros Hcfg Hct Hch Hpt Hchpt Hsc Hlog Hspan [Hs Hpc].
  assert (cons_sc_dequeue r' = cons_sc_dequeue r) as Esc
    by (unfold ring_config in Hcfg; by simplify_eq).
  unfold cons_ok, single_ok, loaded_ok in *. rewrite Esc. split.
  { intros Hsg. destruct (Hsc Hsg) as [-> ->]. by apply Hs. }
  destruct pc as [|tb max beh|tb max beh head seen|tb max beh head seen n
                 |tb beh head seen n i|ret tb]; cbn in *; try done.
  - destruct Hpc as (? & ? & ? & Hx). split_and!; try done; [lia|].
    intros Hsg. destruct (Hsc Hsg) as [-> _]. by apply Hx.
  - destruct Hpc as (? & ? & (? & ? & Hx) & pt0 & ? & ?). split_and!; try done; try lia.
    + intros Hsg. destruct (Hsc Hsg) as [-> _]. by apply Hx.
    + exists pt0. split_and!; try done; lia.
  - destruct Hpc as (? & ? & ? & ? & ? & Hl).
    pose proof (Hspan seen n eq_refl). split_and!; try done; try lia.
    intros j Hj. rewrite Hlog by lia. by apply Hl.
Qed.

(** Replacing one thread's state. *)
Lemma prods_ok_update r r' ph ph' pt pt' ct ct' log log' ts t pc pc' :
  ring_config r' = ring_config r → ts !! t = Some (Producer pc) →
  prods_ok r ph pt ct log ts →
  (∀ t2 pc2, t2 ≠ t → ts !! t2 = Some (Producer pc2) → prod_ok r' ph' pt' ct' log' pc2) →
  prod_ok r' ph' pt' ct' log' pc' →
  (∀ t2 pc2, t2 ≠ t → ts !! t2 = Some (Producer pc2) →
     spans_apart (prod_span pc') (prod_span pc2)) →
  prods_ok r' ph' pt' ct' log' (<[t := Producer pc']> ts).
Proof.
  intros Hcfg Ht [_ Hpair] Hoth Hpc' Hap.
  assert (prod_sp_enqueue r' = prod_sp_enqueue r) as Esp
    by (unfold ring_config in Hcfg; by simplify_eq).
  split.
  - intros t2 pc2 [[<- ?]|[? ?]]%lookup_insert_Some; simplify_eq; eauto.
  - rewrite Esp. intros t1 t2 p1 p2 [[<- [= <-]]|[? Ha]]%lookup_insert_Some
      [[<- [= <-]]|[? Hb]]%lookup_insert_Some Hne; [done| | |by eauto].
    + split; [by eapply (Hpair t t2)|by eapply Hap].
    + split; [by eapply (Hpair t1 t)|]. assert (spans_apart (prod_span pc') (prod_span p1)) as Hs
        by by eapply Hap.
      destruct (prod_span pc') as [[]|], (prod_span p1) as [[]|]; cbn in *; try done; lia.
Qed.

Lemma conss_ok_update r r' ch ch' ct ct' pt pt' log log' ts t pc pc' :
  ring_config r' = ring_config r → ts !! t = Some (Consumer pc) →
  conss_ok r ch ct pt log ts →
  (∀ t2 pc2, t2 ≠ t → ts !! t2 = Some (Consumer pc2) → cons_ok r' ch' ct' pt' log' pc2) →
  cons_ok r' ch' ct' pt' log' pc' →
  (∀ t2 pc2, t2 ≠ t → ts !! t2 = Some (Consumer pc2) →
     spans_apart (cons_span pc') (cons_span pc2)) →
  conss_ok r' ch' ct' pt' log' (<[t := Consumer pc']> ts).
Proof.
  intros Hcfg Ht [_ Hpair] Hoth Hpc' Hap.
  assert (cons_sc_dequeue r' = cons_sc_dequeue r) as Esc
    by (unfold ring_config in Hcfg; by simplify_eq).
  split.
  - intros t2 pc2 [[<- ?]|[? ?]]%lookup_insert_Some; simplify_eq; eauto.
  - rewrite Esc. intros t1 t2 p1 p2 [[<- [= <-]]|[? Ha]]%lookup_insert_Some
      [[<- [= <-]]|[? Hb]]%lookup_insert_Some Hne; [done| | |by eauto].
    + split; [by eapply (Hpair t t2)|by eapply Hap].
    + split; [by eapply (Hpair t1 t)|]. assert (spans_apart (cons_span pc') (cons_span p1)) as Hs
        by by eapply Hap.
      destruct (cons_span pc') as [[]|], (cons_span p1) as [[]|]; cbn in *; try done; lia.
Qed.

(** The consumers' view of a step of a producer, and conversely. *)
Lemma conss_ok_frame r r' ch ct pt pt' log log' ts t pc pc' :
  ring_config r' = ring_config r → ts !! t = Some (Producer pc) →
  0 ≤ ct → ch ≤ pt → pt ≤ pt' → (∀ i, 0 ≤ i < pt → lget log' i = lget log i) →
  conss_ok r ch ct pt log ts →
  conss_ok r' ch ct pt' log' (<[t := Producer pc']> ts).
Proof.
  intros Hcfg Ht ? ? ? Hlog [Hc Hpair].
  assert (cons_sc_dequeue r' = cons_sc_dequeue r) as Esc
    by (unfold ring_config in Hcfg; by simplify_eq).
  split.
  - intros t2 pc2 [[<- ?]|[? Hb]]%lookup_insert_Some; [done|].
    eapply (cons_ok_frame r r' ch ch ct ct pt pt' log log'); [done|done|lia|done|done|done|done| |by eapply Hc].
    intros seen n Hs. destruct (Hc _ _ Hb) as [_ Hpc].
    destruct pc2; cbn in *; simplify_eq; destruct_and!; lia.
  - rewrite Esc. intros t1 t2 p1 p2 [[<- ?]|[? Ha]]%lookup_insert_Some
      [[<- ?]|[? Hb]]%lookup_insert_Some Hne; simplify_eq; eauto.
Qed.

Lemma prods_ok_frame r r' ph pt ct ct' log ts t pc pc' :
  ring_config r' = ring_config r → ring_cells r' = ring_cells r →
  ts !! t = Some (Consumer pc) → 0 ≤ pt → ct ≤ ct' →
  prods_ok r ph pt ct log ts →
  prods_ok r' ph pt ct' log (<[t := Consumer pc']> ts).
Proof.
  intros Hcfg Hcells Ht ? ? [Hp Hpair].
  assert (prod_sp_enqueue r' = prod_sp_enqueue r) as Esp
    by (unfold ring_config in Hcfg; by simplify_eq).
  split.
  - intros t2 pc2 [[<- ?]|[? Hb]]%lookup_insert_Some; [done|].
    eapply (prod_ok_frame r r' ph ph pt pt ct ct' log log); [done|done|lia|done|done|done| |by eapply Hp].
    intros seen n Hs. rewrite Hcells. split; [|done]. destruct (Hp _ _ Hb) as [_ Hpc].
    destruct pc2; cbn in *; simplify_eq; destruct_and!; lia.
  - rewrite Esp. intros t1 t2 p1 p2 [[<- ?]|[? Ha]]%lookup_insert_Some
      [[<- ?]|[? Hb]]%lookup_insert_Some Hne; simplify_eq; eauto.
Qed.

(** ** Preservation *)

Lemma admit_count_pos n avail err behavior m :
  0 ≤ n → admit_count n avail err behavior = inr m → 0 < n → 0 ≤ avail → 0 < m.
Proof.
  unfold admit_count. intros ? H ? ?.
  destruct (Z.ltb_spec avail n); [destruct behavior; [done|destruct (Z.eqb_spec avail 0)]|];
    simplify_eq; lia.
Qed.

Lemma spans_apart_none a : spans_apart None a.
Proof. by destruct a as [[]|]. Qed.
#[local] Hint Resolve spans_apart_none : ipa.

Lemma inv_tau_traces (es : list event) pt ct log :
  enqueued es = slice log 0 pt → dequeued es = slice log 0 ct →
  enqueued (es ++ [Tau]) = slice log 0 pt ∧ dequeued (es ++ [Tau]) = slice log 0 ct.
Proof. rewrite enqueued_snoc, dequeued_snoc, !app_nil_r. done. Qed.

(** A step of a producer that touches only its own state. *)
Lemma inv_prod_local r p c ts es t pc pc' :
  inv (mk_conf r p c ts) es → ts !! t = Some (Producer pc) → prod_span pc' = None →
  (∀ pt ct log, indices_ok r p pt c ct log → prod_ok r p pt ct log pc →
     prod_ok r p pt ct log pc') →
  inv (mk_conf r p c (<[t := Producer pc']> ts)) (es ++ [Tau]).
Proof.
  intros (pt & ct & log & Hi & Hp & Hc & He & Hd) Ht Hs Hok. cbn in *.
  destruct (inv_tau_traces es pt ct log He Hd) as [He' Hd'].
  exists pt, ct, log; cbn. pose proof Hi as (_ & ? & ? & _). split_and!; try done.
  - eapply prods_ok_update; [done|done|done| | |].
    + intros t2 pc2 _ Ht2. by eapply Hp.
    + apply Hok; [done|]. by eapply Hp.
    + intros t2 pc2 _ _. rewrite Hs. auto with ipa.
  - by eapply (conss_ok_frame r r _ _ pt pt log log); [| | lia| lia| | |].
Qed.

Lemma inv_cons_local r p c ts es t pc pc' :
  inv (mk_conf r p c ts) es → ts !! t = Some (Consumer pc) → cons_span pc' = None →
  (∀ pt ct log, indices_ok r p pt c ct log → cons_ok r c ct pt log pc →
     cons_ok r c ct pt log pc') →
  inv (mk_conf r p c (<[t := Consumer pc']> ts)) (es ++ [Tau]).
Proof.
  intros (pt & ct & log & Hi & Hp & Hc & He & Hd) Ht Hs Hok. cbn in *.
  destruct (inv_tau_traces es pt ct log He Hd) as [He' Hd'].
  exists pt, ct, log; cbn. pose proof Hi as (_ & ? & ? & _). split_and!; try done.
  - by eapply (prods_ok_frame r r); [| | |lia| |].
  - eapply conss_ok_update; [done|done|done| | |].
    + intros t2 pc2 _ Ht2. by eapply Hc.
    + apply Hok; [done|]. by eapply Hc.
    + intros t2 pc2 _ _. rewrite Hs. auto with ipa.
Qed.

(** The compare-and-set (or store) of the producer's head. *)
Lemma inv_prod_reserve r p c ts es t objs max beh head seen free n :
  inv (mk_conf r p c ts) es →
  ts !! t = Some (Producer (P_cas objs max beh head seen free n)) →
  p - seen < 2 ^ 32 → prod_sp_enqueue r || (prod_head r =? head) = true →
  inv (mk_conf (r <| prod_head := wrap32 (head + n) |>) (p + n) c
         (<[t := Producer (P_copy objs beh head seen free n 0)]> ts)) (es ++ [Tau]).
Proof.
  intros (pt & ct & log & Hi & Hp & Hc & He & Hd) Ht Hst Hcas. cbn in *.
  destruct Hi as (Hs & Hct & Hpt & Hcap & Eph & Ept & Ech & Ect & Hlog & Hcells).
  pose proof (ring_shape_size r Hs) as Hsz. unfold capacity in *.
  destruct (proj1 Hp t _ Ht) as (Hsg & Hmax & (Hn & Hn0) & (Ehead & Hseen & Hsp) & ct0 & ? & ? & Efree & Hnf).
  assert (seen = p) as ->.
  { destruct (prod_sp_enqueue r) eqn:Esp; [by apply Hsp|].
    apply Z.eqb_eq in Hcas. rewrite Eph, Ehead in Hcas. apply wrap32_inj in Hcas; lia. }
  unfold capacity in *. rewrite wrap32_small in Efree by lia.
  set (r' := r <| prod_head := _ |>).
  set (log' := log ++ take (Z.to_nat n) objs).
  assert (zlen (take (Z.to_nat n) objs) = n) as Hlt
    by (unfold zlen in *; rewrite length_take; lia).
  assert (∀ i, 0 ≤ i < p → lget log' i = lget log i) as Hext
    by (intros i Hi; apply lget_app_l; lia).
  destruct (inv_tau_traces es pt ct log He Hd) as [He' Hd'].
  assert (∀ m, 0 ≤ m ≤ p → slice log' 0 m = slice log 0 m) as Hsl
    by (intros m Hm; apply fmap_seqZ_ext; intros i Hi; apply Hext; lia).
  exists pt, ct, log'; cbn. split_and!.
  - unfold indices_ok, capacity; cbn. rewrite Ehead, wrap32_add_l.
    split_and!; try done; try lia.
    + unfold log'. rewrite zlen_app. lia.
    + intros i Hi. rewrite Hcells, Hext by lia. done.
  - eapply (prods_ok_update r r' p (p + n) pt pt ct ct log log'); [done|done|done| | |].
    + intros t2 pc2 Hne Ht2. pose proof (proj2 Hp t2 t _ _ Ht2 Ht Hne) as [Hnsp _].
      eapply (prod_ok_frame r r' p _ pt pt ct ct log log');
        [done|lia|lia|lia|by rewrite Hnsp|done| |by eapply Hp].
      intros s2 n2 Hsp2. split; [|done]. destruct (proj1 Hp _ _ Ht2) as [_ Hpc2].
      destruct pc2; cbn in *; simplify_eq; destruct_and!; lia.
    + split; [intros Hsp1; specialize (Hsg Hsp1); cbn in *; lia|].
      cbn. split_and!; try done; try lia.
      intros j Hj. unfold log'. rewrite lget_app_r, Hlog by lia.
      replace (p + j - p) with j by lia. unfold lget. by rewrite lookup_take_lt by lia.
    + intros t2 pc2 Hne Ht2. destruct (proj1 Hp _ _ Ht2) as [_ Hpc2].
      destruct pc2; cbn in *; try done; destruct_and!; lia.
  - eapply (conss_ok_frame r r' c ct pt pt log log'); try done; try lia.
    intros i Hi. apply Hext. lia.
  - by rewrite Hsl by lia.
  - by rewrite Hsl by lia.
Qed.

(** One cell stored. *)
Lemma inv_prod_copy r p c ts es t objs beh head seen free n i :
  inv (mk_conf r p c ts) es →
  ts !! t = Some (Producer (P_copy objs beh head seen free n i)) → i < n →
  inv (mk_conf (r <| ring_cells := lset (ring_cells r) (Z.land (head + i) (prod_mask r))
                                     (lget objs i) |>) p c
         (<[t := Producer (P_copy objs beh head seen free n (i + 1))]> ts)) (es ++ [Tau]).
Proof.
  intros (pt & ct & log & Hi & Hp & Hc & He & Hd) Ht Hin. cbn in *.
  destruct Hi as (Hs & Hct & Hpt & Hcap & Eph & Ept & Ech & Ect & Hlog & Hcells).
  pose proof (ring_shape_size r Hs) as Hsz.
  assert (zlen (ring_cells r) = prod_size r) as Hlen by apply Hs.
  destruct (proj1 Hp t _ Ht) as (Hsg & (Hn & Hn0) & Ehead & Hseen & Hsn & Hij & Hl & Hw).
  unfold capacity in *.
  rewrite ring_shape_land, Ehead by done.
  rewrite <- Zplus_mod_idemp_l, ring_shape_wrap, Zplus_mod_idemp_l by done.
  set (r' := r <| ring_cells := _ |>).
  assert (∀ k, ct ≤ k < ct + prod_size r → k ≠ seen + i →
    lget (ring_cells r') (k mod prod_size r) = lget (ring_cells r) (k mod prod_size r)) as Hne.
  { intros k Hk Hki. subst r'; cbn. apply lget_lset_ne; try (apply Z.mod_pos_bound; lia).
    intros Heq. apply Hki. symmetry. apply (mod_window_inj (prod_size r)); [done|lia]. }
  destruct (inv_tau_traces es pt ct log He Hd) as [He' Hd'].
  exists pt, ct, log; cbn. split_and!; try done.
  - split; [by destruct Hs as (?&?&?&?&?); split_and!; try done; cbn; rewrite zlen_lset|].
    unfold capacity. split_and!; try done; try lia.
    intros k Hk. change (prod_size r') with (prod_size r). by rewrite Hne, Hcells by lia.
  - eapply (prods_ok_update r r' p p pt pt ct ct log log); [done|done|done| | |].
    + intros t2 pc2 Hne2 Ht2. destruct (proj2 Hp t2 t _ _ Ht2 Ht Hne2) as [Hnsp Hap].
      eapply (prod_ok_frame r r' p p pt pt ct ct log log);
        [done|lia|lia|lia|done|done| |by eapply Hp].
      intros s2 n2 Hsp2. destruct (proj1 Hp _ _ Ht2) as [_ Hpc2]. rewrite Hsp2 in Hap.
      assert (pt ≤ s2 ∧ s2 + n2 ≤ p) as [? ?]
        by (destruct pc2; cbn in *; simplify_eq; destruct_and!; lia).
      split; [done|]. intros j Hj. cbn in Hap. apply Hne; lia.
    + split; [exact Hsg|]. cbn. split_and!; try done; try lia.
      intros j Hj. destruct (decide (j = i)) as [->|].
      * apply lget_lset_eq. rewrite Hlen. apply Z.mod_pos_bound. lia.
      * change (lget (ring_cells r') ((seen + j) mod prod_size r) = lget objs j).
        rewrite Hne by lia. apply Hw. lia.
    + intros t2 pc2 Hne2 Ht2. by apply (proj2 Hp t t2 _ _ Ht Ht2).
  - by eapply (conss_ok_frame r r' c ct pt pt log log); [| |lia|lia| | |].
Qed.

(** The store of the producer's tail. *)
Lemma inv_prod_publish r p c ts es t objs beh head seen free n :
  inv (mk_conf r p c ts) es →
  ts !! t = Some (Producer (P_copy objs beh head seen free n n)) →
  prod_sp_enqueue r || (prod_tail r =? head) = true →
  ∀ ret,
  inv (mk_conf (r <| prod_tail := wrap32 (head + n) |>) p c
         (<[t := Producer (P_done ret)]> ts)) (es ++ [Enq (take (Z.to_nat n) objs)]).
Proof.
  intros (pt & ct & log & Hi & Hp & Hc & He & Hd) Ht Hturn ret. cbn in *.
  destruct Hi as (Hs & Hct & Hpt & Hcap & Eph & Ept & Ech & Ect & Hlog & Hcells).
  pose proof (ring_shape_size r Hs) as Hsz.
  destruct (proj1 Hp t _ Ht) as (Hsg & (Hn & Hn0) & Ehead & Hseen & Hsn & Hij & Hl & Hw).
  unfold capacity in *. assert (seen = pt) as ->.
  { destruct (prod_sp_enqueue r); [by destruct (Hsg eq_refl)|].
    apply Z.eqb_eq in Hturn. rewrite Ept, Ehead in Hturn. apply wrap32_inj in Hturn; lia. }
  set (r' := r <| prod_tail := _ |>).
  assert (slice log pt n = take (Z.to_nat n) objs) as Hobjs.
  { rewrite <- slice_take by lia. apply fmap_seqZ_ext. intros j Hj. rewrite Hl; done. }
  exists (pt + n), ct, log; cbn. split_and!.
  - unfold indices_ok, capacity; cbn. rewrite Ehead, wrap32_add_l.
    split_and!; try done; try lia.
    intros k Hk. destruct (decide (k < pt)); [apply Hcells; lia|].
    replace k with (pt + (k - pt)) by lia. rewrite Hw, Hl by lia. done.
  - eapply (prods_ok_update r r' p p pt (pt + n) ct ct log log); [done|done|done| | |].
    + intros t2 pc2 Hne2 Ht2. destruct (proj2 Hp t2 t _ _ Ht2 Ht Hne2) as [Hnsp Hap].
      eapply (prod_ok_frame r r' p p pt (pt + n) ct ct log log);
        [done|lia|lia|lia|by rewrite Hnsp|done| |by eapply Hp].
      intros s2 n2 Hsp2. split; [|done]. destruct (proj1 Hp _ _ Ht2) as [_ Hpc2].
      rewrite Hsp2 in Hap. specialize (Hn0 Hnsp).
      destruct pc2; cbn in *; simplify_eq. destruct Hpc2 as ([? Hn2] & ? & ? & _).
      specialize (Hn2 Hnsp). lia.
    + split; [|done]. intros Hsp1. destruct (Hsg Hsp1). cbn in *. lia.
    + intros t2 pc2 _ _. apply spans_apart_none.
  - eapply (conss_ok_frame r r' c ct pt (pt + n) log log); try done; lia.
  - by rewrite enqueued_snoc, slice_split, He, <- Hobjs by lia.
  - by rewrite dequeued_snoc, app_nil_r.
Qed.

(** A step of any producer. *)
Lemma inv_prod_step r p c ts es t pc e r' p' pc' :
  inv (mk_conf r p c ts) es → ts !! t = Some (Producer pc) → not_stale_prod p pc →
  prod_step r p pc = Some (e, r', p', pc') →
  inv (mk_conf r' p' c (<[t := Producer pc']> ts)) (es ++ [e]).
Proof.
  intros Hinv Ht Hst Hstep.
  destruct pc as [|objs max beh|objs max beh head seen|objs max beh head seen free n
                 |objs beh head seen free n i|ret]; cbn in Hstep; [done| | | | |].
  - destruct (negb (prod_sp_enqueue r) && (max =? 0)) eqn:E; injection Hstep as <- <- <- <-;
      eapply inv_prod_local; try done; intros pt ct log Hi [Hsg Hok]; split; try done.
    destruct Hi as (_ & _ & _ & _ & Eph & _). split; [|done]. split; [done|].
    intros Hsp. rewrite Hsp in E. cbn in *. lia.
  - destruct (admit_count _ _ _ _) as [ret|n] eqn:Ha; injection Hstep as <- <- <- <-;
      eapply inv_prod_local; try done; intros pt ct log Hi [Hsg ((Hm & Hm0) & Hld)];
      split; try done.
    destruct Hi as (Hs & Hct & Hpt & Hcap & _ & _ & _ & Ect & _).
    pose proof (ring_shape_size r Hs) as Hsz.
    assert (prod_mask r = capacity r) as Emask by apply Hs. rewrite Emask in *.
    split; [done|split; [|split; [done|]]].
    + pose proof (admit_count_pos _ _ _ _ _ (proj1 Hm) Ha).
      apply admit_count_inr in Ha; [|lia|apply wrap32_range]. split; [lia|]. intros Hsp.
      specialize (Hm0 Hsp). lia.
    + exists ct. destruct Hld as (-> & ? & _). split_and!; [done|lia| |].
      * rewrite Ect. unfold wrap32. rewrite Zminus_mod_idemp_r.
        rewrite Zminus_mod, Zplus_mod_idemp_r, <- Zminus_mod. done.
      * apply admit_count_inr in Ha; [|lia|apply wrap32_range]. lia.
  - destruct (prod_sp_enqueue r || (prod_head r =? head)) eqn:E; injection Hstep as <- <- <- <-.
    + by eapply inv_prod_reserve.
    + eapply inv_prod_local; try done. intros pt ct log Hi [Hsg Hok]. split; [done|].
      by destruct Hok.
  - destruct (Z.ltb_spec i n).
    + injection Hstep as <- <- <- <-. by eapply inv_prod_copy.
    + destruct (prod_sp_enqueue r || (prod_tail r =? head)) eqn:E; [|done].
      injection Hstep as <- <- <- <-. assert (i = n) as ->.
      { destruct Hinv as (pt & ct & log & _ & Hp & _).
        destruct (proj1 Hp t _ Ht) as (_ & _ & _ & _ & _ & Hij & _). lia. }
      by eapply inv_prod_publish.
  - injection Hstep as <- <- <- <-. by eapply inv_prod_local.
Qed.

(** The compare-and-set (or store) of the consumer's head. *)
Lemma inv_cons_claim r p c ts es t table max beh head seen n :
  inv (mk_conf r p c ts) es →
  ts !! t = Some (Consumer (C_cas table max beh head seen n)) →
  c - seen < 2 ^ 32 → cons_sc_dequeue r || (cons_head r =? head) = true →
  inv (mk_conf (r <| cons_head := wrap32 (head + n) |>) p (c + n)
         (<[t := Consumer (C_copy table beh head seen n 0)]> ts)) (es ++ [Tau]).
Proof.
  intros (pt & ct & log & Hi & Hp & Hc & He & Hd) Ht Hst Hcas. cbn in *.
  destruct Hi as (Hs & Hct & Hpt & Hcap & Eph & Ept & Ech & Ect & Hlog & Hcells).
  pose proof (ring_shape_size r Hs) as Hsz. unfold capacity in *.
  destruct (proj1 Hc t _ Ht) as (Hsg & Hmax & (Hn & Hn0) & (Ehead & Hseen & Hsc) & pt0 & Hpt0 & Hnf).
  assert (seen = c) as ->.
  { destruct (cons_sc_dequeue r) eqn:Esc; [by apply Hsc|].
    apply Z.eqb_eq in Hcas. rewrite Ech, Ehead in Hcas. apply wrap32_inj in Hcas; lia. }
  rewrite wrap32_small in Hnf by lia. set (r' := r <| cons_head := _ |>).
  destruct (inv_tau_traces es pt ct log He Hd) as [He' Hd'].
  exists pt, ct, log; cbn. split_and!; try done.
  - unfold indices_ok, capacity; cbn. rewrite Ehead, wrap32_add_l.
    split_and!; try done; try lia.
  - by eapply (prods_ok_frame r r'); [| | |lia| |].
  - eapply (conss_ok_update r r' c (c + n) ct ct pt pt log log); [done|done|done| | |].
    + intros t2 pc2 Hne Ht2. pose proof (proj2 Hc t2 t _ _ Ht2 Ht Hne) as [Hnsc _].
      eapply (cons_ok_frame r r' c _ ct ct pt pt log log);
        [done|lia|lia|lia|lia|by rewrite Hnsc|done| |by eapply Hc].
      intros s2 n2 Hsp2. destruct (proj1 Hc _ _ Ht2) as [_ Hpc2].
      destruct pc2; cbn in *; simplify_eq; destruct_and!; lia.
    + split; [intros Hsc1; specialize (Hsg Hsc1); cbn in *; lia|].
      cbn. split_and!; try done; lia.
    + intros t2 pc2 Hne Ht2. destruct (proj1 Hc _ _ Ht2) as [_ Hpc2].
      destruct pc2; cbn in *; try done; destruct_and!; lia.
Qed.

(** One cell loaded. *)
Lemma inv_cons_copy r p c ts es t table beh head seen n i :
  inv (mk_conf r p c ts) es →
  ts !! t = Some (Consumer (C_copy table beh head seen n i)) → i < n →
  inv (mk_conf r p c
         (<[t := Consumer (C_copy
              (lset table i (lget (ring_cells r) (Z.land (head + i) (prod_mask r))))
              beh head seen n (i + 1))]> ts)) (es ++ [Tau]).
Proof.
  intros (pt & ct & log & Hi & Hp & Hc & He & Hd) Ht Hin. cbn in *.
  pose proof Hi as (Hs & Hct & Hpt & Hcap & _ & _ & _ & _ & Hlog & Hcells).
  destruct (proj1 Hc t _ Ht) as (Hsg & (Hn & Hn0) & Ehead & Hseen & Hsn & Hij & Hl).
  rewrite ring_shape_land, Ehead by done.
  rewrite <- Zplus_mod_idemp_l, ring_shape_wrap, Zplus_mod_idemp_l by done.
  destruct (inv_tau_traces es pt ct log He Hd) as [He' Hd'].
  exists pt, ct, log; cbn. split_and!; try done.
  - by eapply (prods_ok_frame r r); [| | |lia| |].
  - eapply (conss_ok_update r r c c ct ct pt pt log log); [done|done|done| | |].
    + intros t2 pc2 _ Ht2. by eapply Hc.
    + split; [exact Hsg|]. cbn. unfold args_ok. rewrite zlen_lset.
      split_and!; try done; try lia.
      intros j Hj. destruct (decide (j = i)) as [->|].
      * rewrite lget_lset_eq by lia. apply Hcells. lia.
      * rewrite lget_lset_ne by lia. apply Hl. lia.
    + intros t2 pc2 Hne2 Ht2. by apply (proj2 Hc t t2 _ _ Ht Ht2).
Qed.

(** The store of the consumer's tail. *)
Lemma inv_cons_release r p c ts es t table beh head seen n :
  inv (mk_conf r p c ts) es →
  ts !! t = Some (Consumer (C_copy table beh head seen n n)) →
  cons_sc_dequeue r || (cons_tail r =? head) = true →
  ∀ ret,
  inv (mk_conf (r <| cons_tail := wrap32 (head + n) |>) p c
         (<[t := Consumer (C_done ret table)]> ts)) (es ++ [Deq (take (Z.to_nat n) table)]).
Proof.
  intros (pt & ct & log & Hi & Hp & Hc & He & Hd) Ht Hturn ret. cbn in *.
  destruct Hi as (Hs & Hct & Hpt & Hcap & Eph & Ept & Ech & Ect & Hlog & Hcells).
  pose proof (ring_shape_size r Hs) as Hsz. unfold capacity in *.
  destruct (proj1 Hc t _ Ht) as (Hsg & (Hn & Hn0) & Ehead & Hseen & Hsn & Hij & Hl).
  assert (seen = ct) as ->.
  { destruct (cons_sc_dequeue r); [by destruct (Hsg eq_refl)|].
    apply Z.eqb_eq in Hturn. rewrite Ect, Ehead in Hturn. apply wrap32_inj in Hturn; lia. }
  set (r' := r <| cons_tail := _ |>).
  assert (slice log ct n = take (Z.to_nat n) table) as Htable.
  { rewrite <- slice_take by lia. apply fmap_seqZ_ext. intros j Hj. rewrite <- Hl; done. }
  exists pt, (ct + n), log; cbn. split_and!.
  - unfold indices_ok, capacity; cbn. rewrite Ehead, wrap32_add_l.
    split_and!; try done; try lia. intros k Hk. apply Hcells. lia.
  - by eapply (prods_ok_frame r r' p pt ct (ct + n) log); [| | |lia|lia|].
  - eapply (conss_ok_update r r' c c ct (ct + n) pt pt log log); [done|done|done| | |].
    + intros t2 pc2 Hne2 Ht2. destruct (proj2 Hc t2 t _ _ Ht2 Ht Hne2) as [Hnsc Hap].
      eapply (cons_ok_frame r r' c c ct (ct + n) pt pt log log);
        [done|lia|lia|lia|lia|by rewrite Hnsc|done| |by eapply Hc].
      intros s2 n2 Hsp2. destruct (proj1 Hc _ _ Ht2) as [_ Hpc2].
      rewrite Hsp2 in Hap. specialize (Hn0 Hnsc).
      destruct pc2; cbn in *; simplify_eq. destruct Hpc2 as ([? Hn2] & ? & ? & _).
      specialize (Hn2 Hnsc). lia.
    + split; [|done]. intros Hsc1. destruct (Hsg Hsc1). cbn in *. lia.
    + intros t2 pc2 _ _. apply spans_apart_none.
  - by rewrite enqueued_snoc, app_nil_r.
  - by rewrite dequeued_snoc, slice_split, Hd, <- Htable by lia.
Qed.

(** A step of any consumer. *)
Lemma inv_cons_step r p c ts es t pc e r' c' pc' :
  inv (mk_conf r p c ts) es → ts !! t = Some (Consumer pc) → not_stale_cons c pc →
  cons_step r c pc = Some (e, r', c', pc') →
  inv (mk_conf r' p c' (<[t := Consumer pc']> ts)) (es ++ [e]).
Proof.
  intros Hinv Ht Hst Hstep.
  destruct pc as [|table max beh|table max beh head seen|table max beh head seen n
                 |table beh head seen n i|ret table]; cbn in Hstep; [done| | | | |].
  - destruct (negb (cons_sc_dequeue r) && (max =? 0)) eqn:E; injection Hstep as <- <- <- <-;
      eapply inv_cons_local; try done; intros pt ct log Hi [Hsg Hok]; split; try done.
    destruct Hi as (_ & _ & _ & _ & _ & _ & Ech & _). split; [|done]. split; [done|].
    intros Hsc. rewrite Hsc in E. cbn in *. lia.
  - destruct (admit_count _ _ _ _) as [ret|n] eqn:Ha; injection Hstep as <- <- <- <-;
      eapply inv_cons_local; try done; intros pt ct log Hi [Hsg ((Hm & Hm0) & Hld)];
      split; try done.
    destruct Hi as (Hs & Hct & Hpt & Hcap & _ & Ept & _).
    split; [done|split; [|split; [done|]]].
    + pose proof (admit_count_pos _ _ _ _ _ (proj1 Hm) Ha).
      apply admit_count_inr in Ha; [|lia|apply wrap32_range]. split; [lia|]. intros Hsc.
      specialize (Hm0 Hsc). lia.
    + exists pt. destruct Hld as (-> & ? & _). split; [lia|].
      apply admit_count_inr in Ha; [|lia|apply wrap32_range].
      rewrite Ept in Ha. unfold wrap32 in *. rewrite <- Zminus_mod in Ha. lia.
  - destruct (cons_sc_dequeue r || (cons_head r =? head)) eqn:E; injection Hstep as <- <- <- <-.
    + by eapply inv_cons_claim.
    + eapply inv_cons_local; try done. intros pt ct log Hi [Hsg Hok]. split; [done|].
      by destruct Hok.
  - destruct (Z.ltb_spec i n).
    + injection Hstep as <- <- <- <-. by eapply inv_cons_copy.
    + destruct (cons_sc_dequeue r || (cons_tail r =? head)) eqn:E; [|done].
      injection Hstep as <- <- <- <-. assert (i = n) as ->.
      { destruct Hinv as (pt & ct & log & _ & _ & Hc & _).
        destruct (proj1 Hc t _ Ht) as (_ & _ & _ & _ & _ & Hij & _). lia. }
      by eapply inv_cons_release.
  - injection Hstep as <- <- <- <-. by eapply inv_cons_local.
Qed.

(** ** Reachable configurations *)

Lemma inv_step c es e c' : inv c es → step c e c' → inv c' (es ++ [e]).
Proof.
  intros Hinv Hstep. destruct Hstep.
  - eapply inv_prod_local; try done. intros pt ct log _ [Hsg _]. by split.
  - eapply inv_cons_local; try done. intros pt ct log _ [Hsg _]. by split.
  - by eapply inv_prod_step.
  - by eapply inv_cons_step.
Qed.

Lemma inv_initial c : initial c → inv c [].
Proof.
  intros ((Hs & Hph & Hch & Hp & Hc & Hu) & Hcap & Hp0 & Hc0 & Hr & Hcl & Hth & Hsp & Hsc).
  exists 0, 0, []. rewrite Hr, Hcl. split_and!; try done.
  - split_and!; try done; try lia.
    + by rewrite <- Hph, Hp0.
    + by rewrite <- Hch, Hc0.
  - split.
    + intros t pc Ht. destruct (Hth _ _ Ht) as [?|?]; by simplify_eq.
    + intros t t' pc pc' Ht Ht' Hne. split.
      * destruct (prod_sp_enqueue _) eqn:E; [|done]. destruct Hne. by eapply Hsp.
      * destruct (Hth _ _ Ht) as [?|?]; by simplify_eq.
  - split.
    + intros t pc Ht. destruct (Hth _ _ Ht) as [?|?]; by simplify_eq.
    + intros t t' pc pc' Ht Ht' Hne. split.
      * destruct (cons_sc_dequeue _) eqn:E; [|done]. destruct Hne. by eapply Hsc.
      * destruct (Hth _ _ Ht) as [?|?]; by simplify_eq.
Qed.

Lemma inv_run c es c' : initial c → run c es c' → inv c' es.
Proof.
  intros Hi Hr. induction Hr as [c|c1 es c2 e c3 Hr IH Hst]; [by apply inv_initial|].
  eapply inv_step; [by apply IH|done].
Qed.

Lemma indices_queue r ph pt ch ct log :
  indices_ok r ph pt ch ct log → queue r = slice log ct (pt - ct) ∧ ring_used r = pt - ct.
Proof.
  intros (Hs & Hct & Hpt & Hcap & _ & Ept & _ & Ect & Hlog & Hcells).
  pose proof (ring_shape_size r Hs) as Hsz. unfold capacity in *.
  assert (ring_used r = pt - ct) as Hu
    by (unfold ring_used; rewrite Ept, Ect; apply wrap32_diff; lia).
  split; [|done]. unfold queue. rewrite Hu. apply fmap_seqZ_ext. intros i Hi.
  rewrite Ect, <- Zplus_mod_idemp_l, ring_shape_wrap, Zplus_mod_idemp_l by done.
  apply Hcells. lia.
Qed.

(** C1. Exactly-once FIFO delivery under concurrency: in every interleaving of
    any number of producers and consumers (single- or multi-, as the ring was
    created), what the enqueues have published so far is, object for object and
    in order, what the dequeues have handed out followed by what the ring holds
    between its tails; nothing is lost, duplicated or reordered, and the ring
    never holds more than its capacity. *)
Theorem concurrent_fifo c0 es c :
  initial c0 → run c0 es c →
  enqueued es = dequeued es ++ queue (c_ring c) ∧
  zlen (queue (c_ring c)) ≤ capacity (c_ring c).
Proof.
  intros Hi Hr. destruct (inv_run c0 es c Hi Hr) as (pt & ct & log & Hix & _ & _ & He & Hd).
  destruct (indices_queue _ _ _ _ _ _ Hix) as [Hq Hu].
  destruct Hix as (_ & Hct & Hpt & Hcap & _). rewrite zlen_queue, Hu, Hq, He, Hd. split; [|lia].
  replace pt with (ct + (pt - ct)) at 1 by lia. by rewrite slice_split by lia.
Qed.

(** ** A thread on its own *)

Lemma run_trans c1 es1 c2 es2 c3 : run c1 es1 c2 → run c2 es2 c3 → run c1 (es1 ++ es2) c3.
Proof.
  intros H1 H2. induction H2 as [|c2 es2 c4 e c5 H2 IH Hst]; [by rewrite app_nil_r|].
  rewrite app_assoc. econstructor; [by apply IH|done].
Qed.

Lemma run_prod r p c ts t pc e r' p' pc' es c' :
  ts !! t = Some (Producer pc) → not_stale_prod p pc →
  prod_step r p pc = Some (e, r', p', pc') →
  run (mk_conf r' p' c (<[t := Producer pc']> ts)) es c' →
  run (mk_conf r p c ts) (e :: es) c'.
Proof.
  intros Ht Hst Hs Hr. eapply (run_trans _ [e] _ es); [|exact Hr].
  apply (run_snoc (mk_conf r p c ts) [] (mk_conf r p c ts) e); [constructor|by eapply step_producer].
Qed.

Lemma run_copies fuel r p c ts t objs beh head seen free n i :
  ts !! t = Some (Producer (P_copy objs beh head seen free n i)) →
  i + Z.of_nat fuel = n →
  run (mk_conf r p c ts) (replicate fuel Tau)
    (mk_conf (r <| ring_cells := enqueue_ref fuel (prod_mask r) head i objs (ring_cells r) |>)
       p c (<[t := Producer (P_copy objs beh head seen free n n)]> ts)).
Proof.
  revert r ts i. induction fuel as [|fuel IH]; intros r ts i Ht Hn.
  - assert (i = n) as -> by lia. cbn. rewrite insert_id by done. destruct r. constructor.
  - cbn [replicate]. eapply run_prod; [done|done| |].
    + cbn [prod_step]. destruct (Z.ltb_spec i n); [done|lia].
    + set (ts' := <[t := Producer (P_copy objs beh head seen free n (i + 1))]> ts).
      assert (<[t := Producer (P_copy objs beh head seen free n n)]> ts
              = <[t := Producer (P_copy objs beh head seen free n n)]> ts') as ->
        by (unfold ts'; by rewrite insert_insert_eq).
      refine (IH (r <| ring_cells := lset (ring_cells r) (Z.land (head + i) (prod_mask r))
                                       (lget objs i) |>) ts' (i + 1) _ _); [|lia].
      apply lookup_insert_eq.
Qed.

(** C21. The step model and the function agree: a producer that runs without
    interference on a quiescent ring finishes, within [n + 4] steps, with the
    return value and the ring that [__rte_ring_mp_do_enqueue] of [Ring]
    computes. *)
Theorem solo_enqueue r p c ts t objs n beh :
  ring_wf r → 0 < n ≤ zlen objs → ts !! t = Some (Producer (P_load objs n beh)) →
  ∃ es ret r' p',
    run (mk_conf r p c ts) es (mk_conf r' p' c (<[t := Producer (P_done ret)]> ts)) ∧
    __rte_ring_mp_do_enqueue r objs n beh = Some (ret, r') ∧ zlen es ≤ n + 4.
Proof.
  intros Hw Hn Ht. pose proof Hw as (Hs & Hph & _).
  pose proof (ring_free_entries r Hw) as Hfree.
  pose proof (wrap32_range (prod_tail r - cons_tail r)) as Hr. fold (ring_used r) in Hr.
  assert (ring_used r ≤ capacity r) as Hu by apply Hw.
  set (free := wrap32 (prod_mask r + cons_tail r - prod_head r)) in *.
  unfold __rte_ring_mp_do_enqueue. destruct (Z.eqb_spec n 0); [lia|]. fold free.
  destruct (admit_count n free (- ENOBUFS) beh) as [ret|m] eqn:Ha.
  - exists [Tau; Tau], ret, r, p. split_and!; [|done|unfold zlen; cbn; lia].
    eapply run_prod; [done|done| |].
    { cbn. rewrite (proj2 (Z.eqb_neq n 0)), andb_false_r by done. done. }
    eapply run_prod; [apply lookup_insert_eq|done| |].
    { cbn. fold free. by rewrite Ha. }
    rewrite insert_insert_eq. constructor.
  - pose proof (admit_count_inr n free _ beh m ltac:(lia) ltac:(lia) Ha) as [Hm Hmn].
    set (r1 := r <| prod_head := wrap32 (prod_head r + m) |>).
    assert (ENQUEUE_PTRS r1 (prod_head r) m objs
      = enqueue_ref (Z.to_nat m) (prod_mask r) (prod_head r) 0 objs (ring_cells r)) as Ecells.
    { apply (ENQUEUE_PTRS_ref r1); [done|]. cbn. unfold capacity in *. lia. }
    cbn [prod_tail]. exists ([Tau; Tau; Tau] ++ replicate (Z.to_nat m) Tau ++
                             [Enq (take (Z.to_nat m) objs)]).
    do 2 eexists. exists (p + m). split_and!.
    + cbn [app]. eapply run_prod; [done|done| |].
      { cbn. rewrite (proj2 (Z.eqb_neq n 0)), andb_false_r by done. done. }
      eapply run_prod; [apply lookup_insert_eq|done| |].
      { cbn. fold free. by rewrite Ha. }
      eapply run_prod; [apply lookup_insert_eq|cbn; lia| |].
      { cbn. by rewrite Z.eqb_refl, orb_true_r. }
      eapply run_trans.
      { apply (run_copies (Z.to_nat m) r1); [apply lookup_insert_eq|lia]. }
      eapply run_prod; [apply lookup_insert_eq|done| |].
      { cbn. destruct (Z.ltb_spec m m); [lia|]. by rewrite Hph, Z.eqb_refl, orb_true_r. }
      rewrite !insert_insert_eq. constructor.
    + cbn. rewrite <- Hph, Z.eqb_refl. cbn in Ecells. by rewrite Ecells.
    + unfold zlen. rewrite !length_app, length_replicate. cbn. lia.
Qed.

(** ** A concrete run *)

(** An empty multi-producer ring of four cells. *)
Definition small_ring : rte_ring :=
  mk_ring "COMMAND_RING" 0 4 false 4 3 0 0 false 4 3 0 0 [0; 0; 0; 0].

Lemma small_ring_wf : ring_wf small_ring.
Proof.
  unfold ring_wf, ring_shape. eval_conj.
  exists 2. vm_compute. done.
Qed.

(** Two producers and a consumer. *)
Definition small_threads : gmap nat thread :=
  {[ 0%nat := Producer P_idle; 1%nat := Producer P_idle; 2%nat := Consumer C_idle ]}.
Definition small_conf : conf := mk_conf small_ring 0 0 small_threads.

Lemma small_conf_initial : initial small_conf.
Proof.
  unfold initial, small_conf; cbn [c_ring c_reserved c_claimed c_threads].
  eval_conj; [apply small_ring_wf| |done..].
  unfold small_threads. intros t th Ht.
  repeat (apply lookup_insert_Some in Ht as [[_ <-]|[_ Ht]]; [by auto|]).
  apply lookup_singleton_Some in Ht as [_ <-]. by auto.
Qed.

(** Thread 0 is called and loads the head. *)
Definition small_conf' : conf :=
  mk_conf small_ring 0 0
    (<[0%nat := Producer (P_head [7] 1 RTE_RING_QUEUE_FIXED 0 0)]>
      (<[0%nat := Producer (P_load [7] 1 RTE_RING_QUEUE_FIXED)]> small_threads)).

Lemma small_run : run small_conf ([] ++ [Tau] ++ [Tau]) small_conf'.
Proof.
  rewrite app_assoc. econstructor; [econstructor; [constructor|]|].
  - apply (step_prod_call _ _ _ _ 0%nat [7] 1 RTE_RING_QUEUE_FIXED); [done|]. vm_compute. done.
  - eapply step_producer; [apply lookup_insert_eq|exact I|reflexivity].
Qed.

Lemma concurrent_fifo_witness :
  initial small_conf ∧ run small_conf ([] ++ [Tau] ++ [Tau]) small_conf' ∧
  enqueued ([] ++ [Tau] ++ [Tau]) = dequeued ([] ++ [Tau] ++ [Tau]) ++ queue (c_ring small_conf').
Proof.
  split_and!; [apply small_conf_initial|apply small_run|].
  apply (concurrent_fifo small_conf _ small_conf' small_conf_initial small_run).
Defined.

Lemma solo_enqueue_witness :
  ring_wf small_ring ∧ 0 < 2 ≤ zlen [7; 8] ∧
  ∃ es ret r' p',
    run (mk_conf small_ring 0 0 {[ 0%nat := Producer (P_load [7; 8] 2 RTE_RING_QUEUE_FIXED) ]}) es
      (mk_conf r' p' 0 (<[0%nat := Producer (P_done ret)]>
         {[ 0%nat := Producer (P_load [7; 8] 2 RTE_RING_QUEUE_FIXED) ]})) ∧
    __rte_ring_mp_do_enqueue small_ring [7; 8] 2 RTE_RING_QUEUE_FIXED = Some (ret, r') ∧
    zlen es ≤ 2 + 4.
Proof.
  eval_conj; [apply small_ring_wf|].
  refine (solo_enqueue small_ring 0 0 {[ 0%nat := Producer (P_load [7; 8] 2 RTE_RING_QUEUE_FIXED) ]}
            0%nat [7; 8] 2 RTE_RING_QUEUE_FIXED small_ring_wf _ _); vm_compute; done.
Defined.
