(* ===== verification/Mem.v ===== *)
(** * Memory shared by the service and the applications
    (ipaugenblick_common/ipaugenblick_common.h, dpdk rte_mempool.h)

    The service creates rings and pools in huge pages; an application maps them
    and finds them by name.  [shm] is that memory: the rings (by the name that
    identifies each), the command buffers, the connection blocks and the packet
    buffers.  The operations here run on any state that has [shm] as a part;
    the [wp_*] rules state what a ring promises to its users (the bounded FIFO
    queue of [Ring]), and the components above are verified with these rules
    alone. *)

From stdpp Require Import pretty.
From S2P Require Import Prelude Ring.

(** ** Names of the rings *)

(** A mempool stands for the ring that holds its free objects. *)
Inductive ring_id :=
  | COMMAND_RING | FREE_COMMAND_POOL
  | FREE_CONNECTIONS_RING | FREE_CONNECTIONS_POOL
  | FREE_CLIENTS_RING | CLIENT_RING (idx : Z)
  | RX_RING (idx : Z) | TX_RING (idx : Z)
  | SELECTOR_RING | SELECTOR_POOL | READY_RING (idx : Z)
  | RX_MBUFS_RING | MBUFS_MEMPOOL
  | LOCAL_CACHE (app : string) (idx : Z).

#[export] Instance ring_id_eq_dec : EqDecision ring_id.
Proof. solve_decision. Defined.

Definition ring_id_code (id : ring_id) : nat * Z * string :=
  match id with
  | COMMAND_RING => (0%nat, 0, EmptyString)
  | FREE_COMMAND_POOL => (1%nat, 0, EmptyString)
  | FREE_CONNECTIONS_RING => (2%nat, 0, EmptyString)
  | FREE_CONNECTIONS_POOL => (3%nat, 0, EmptyString)
  | FREE_CLIENTS_RING => (4%nat, 0, EmptyString)
  | CLIENT_RING i => (5%nat, i, EmptyString)
  | RX_RING i => (6%nat, i, EmptyString)
  | TX_RING i => (7%nat, i, EmptyString)
  | SELECTOR_RING => (8%nat, 0, EmptyString)
  | SELECTOR_POOL => (9%nat, 0, EmptyString)
  | READY_RING i => (10%nat, i, EmptyString)
  | RX_MBUFS_RING => (11%nat, 0, EmptyString)
  | MBUFS_MEMPOOL => (12%nat, 0, EmptyString)
  | LOCAL_CACHE a i => (13%nat, i, a)
  end.

#[export] Instance ring_id_code_inj : Inj (=) (=) ring_id_code.
Proof. intros [] [] [=]; congruence. Qed.

#[export] Instance ring_id_countable : Countable ring_id.
Proof.
  refine (inj_countable ring_id_code
    (λ c, match c with
          | (0%nat, _, _) => Some COMMAND_RING
          | (1%nat, _, _) => Some FREE_COMMAND_POOL
          | (2%nat, _, _) => Some FREE_CONNECTIONS_RING
          | (3%nat, _, _) => Some FREE_CONNECTIONS_POOL
          | (4%nat, _, _) => Some FREE_CLIENTS_RING
          | (5%nat, i, _) => Some (CLIENT_RING i)
          | (6%nat, i, _) => Some (RX_RING i)
          | (7%nat, i, _) => Some (TX_RING i)
          | (8%nat, _, _) => Some SELECTOR_RING
          | (9%nat, _, _) => Some SELECTOR_POOL
          | (10%nat, i, _) => Some (READY_RING i)
          | (11%nat, _, _) => Some RX_MBUFS_RING
          | (12%nat, _, _) => Some MBUFS_MEMPOOL
          | (_, i, a) => Some (LOCAL_CACHE a i)
          end) _).
  by intros [].
Defined.

(** The names the code builds with [sprintf]; a mempool's ring has the pool's
    name behind a prefix. *)
Definition ring_id_name (id : ring_id) : string :=
  match id with
  | COMMAND_RING => "command_ring"
  | FREE_COMMAND_POOL => "MP_free_command_pool"
  | FREE_CONNECTIONS_RING => "free_connections_ring"
  | FREE_CONNECTIONS_POOL => "MP_free_connections_pool"
  | FREE_CLIENTS_RING => "free_clients_ring"
  | CLIENT_RING i => "free_clients_ring" +:+ pretty i
  | RX_RING i => "rx_ring" +:+ pretty i
  | TX_RING i => "tx_ring" +:+ pretty i
  | SELECTOR_RING => "selector_ring"
  | SELECTOR_POOL => "MP_selector_pool"
  | READY_RING i => "SELECTOR_RING_NAME" +:+ pretty i
  | RX_MBUFS_RING => "rx_mbufs_ring"
  | MBUFS_MEMPOOL => "MP_mbufs_mempool"
  | LOCAL_CACHE app i => "lrxcache" +:+ app +:+ "_" +:+ pretty i
  end.

(** ** Command buffers *)

Inductive command :=
  | DUMMY_COMMAND | OPEN_SOCKET_COMMAND | SOCKET_CONNECT_BIND_COMMAND
  | LISTEN_SOCKET_COMMAND | SETSOCKOPT_COMMAND | OPEN_SOCKET_FEEDBACK
  | SOCKET_TX_KICK_COMMAND | SOCKET_RX_KICK_COMMAND | SOCKET_ACCEPTED_COMMAND
  | SET_SOCKET_RING_COMMAND | SET_SOCKET_SELECT_COMMAND | SOCKET_READY_FEEDBACK
  | SOCKET_CLOSE_COMMAND | SOCKET_TX_POOL_EMPTY_COMMAND
  | ROUTE_ADD_COMMAND | ROUTE_DEL_COMMAND | CONNECT_CLIENT | DISCONNECT_CLIENT
  | NEW_IFACES | NEW_ADDRESSES | END_OF_RECORD
  | SOCKET_SHUTDOWN_COMMAND | SOCKET_DECLINE_COMMAND.

#[export] Instance command_eq_dec : EqDecision command.
Proof. solve_decision. Defined.

(** The enumerators' values; the first byte of an update record is one. *)
Definition command_code (c : command) : Z :=
  match c with
  | DUMMY_COMMAND => 0 | OPEN_SOCKET_COMMAND => 1 | SOCKET_CONNECT_BIND_COMMAND => 2
  | LISTEN_SOCKET_COMMAND => 3 | SETSOCKOPT_COMMAND => 4 | OPEN_SOCKET_FEEDBACK => 5
  | SOCKET_TX_KICK_COMMAND => 6 | SOCKET_RX_KICK_COMMAND => 7
  | SOCKET_ACCEPTED_COMMAND => 8 | SET_SOCKET_RING_COMMAND => 9
  | SET_SOCKET_SELECT_COMMAND => 10 | SOCKET_READY_FEEDBACK => 11
  | SOCKET_CLOSE_COMMAND => 12 | SOCKET_TX_POOL_EMPTY_COMMAND => 13
  | ROUTE_ADD_COMMAND => 14 | ROUTE_DEL_COMMAND => 15 | CONNECT_CLIENT => 16
  | DISCONNECT_CLIENT => 17 | NEW_IFACES => 18 | NEW_ADDRESSES => 19
  | END_OF_RECORD => 20 | SOCKET_SHUTDOWN_COMMAND => 21 | SOCKET_DECLINE_COMMAND => 22
  end.

(** The union [u], with the member last written.  Reading another member is
    reading leftover bytes; the code never does, and the model has no value for
    it ([None] below, a [Fault] in the code that reads). *)
Inductive cmd_u :=
  | U_none
  | U_open_sock (family type pid : Z)
  | U_accepted_socket (socket_descr ipaddr port : Z)
  | U_socket_decline (socket_descr : Z)
  | U_set_socket_ring (socket_descr pid : Z)
  | U_set_socket_select (socket_select pid : Z)
  | U_socket_connect_bind (ipaddr port is_connect : Z)
  | U_route (dest_ipaddr dest_mask next_hop metric : Z)
  | U_setsockopt (level optname optlen : Z) (optval : list Z)
  | U_socket_shutdown (how : Z).

Record ipaugenblick_cmd := mk_cmd {
  cmd_cmd : command;
  cmd_ringset_idx : Z;
  cmd_parent_idx : Z;
  cmd_union : cmd_u;
}.
#[export] Instance eta_cmd : Eta ipaugenblick_cmd := λ c,
  mk_cmd (cmd_cmd c) (cmd_ringset_idx c) (cmd_parent_idx c) (cmd_union c).

(** ** Connection blocks *)

Record ipaugenblick_socket := mk_socket {
  connection_idx : Z;
  read_ready_to_app : Z;
  write_ready_to_app : Z;
  write_done_from_app : Z;
  s_local_ipaddr : Z;
  s_local_port : Z;
  tx_space : Z;
}.
#[export] Instance eta_socket : Eta ipaugenblick_socket := λ s,
  mk_socket (connection_idx s) (read_ready_to_app s) (write_ready_to_app s)
    (write_done_from_app s) (s_local_ipaddr s) (s_local_port s) (tx_space s).

Definition SOCKET_READABLE_BIT : Z := 1.
Definition SOCKET_WRITABLE_BIT : Z := 2.
Definition SOCKET_CLOSED_BIT : Z := 4.
Definition SOCKET_READY_SHIFT : Z := 16.
Definition SOCKET_READY_MASK : Z := 0xFFFF.

Definition COMMAND_POOL_SIZE : Z := 16384 * 2.
Definition DATA_RINGS_SIZE : Z := 1024.
Definition IPAUGENBLICK_CONNECTION_POOL_SIZE : Z := 2048.
Definition IPAUGENBLICK_CLIENTS_POOL_SIZE : Z := 64.
Definition IPAUGENBLICK_SELECTOR_POOL_SIZE : Z := 64.

(** ** Packet buffers *)

(** The fields of [struct rte_mbuf] that the code uses; [mb_next = 0] is
    [NULL], [mb_buf] the bytes of the buffer, headroom included. *)
Record rte_mbuf := mk_mbuf {
  mb_data_off : Z;
  mb_refcnt : Z;
  mb_nb_segs : Z;
  mb_port : Z;
  mb_ol_flags : Z;
  mb_packet_type : Z;
  mb_pkt_len : Z;
  mb_data_len : Z;
  mb_vlan_tci : Z;
  mb_vlan_tci_outer : Z;
  mb_tx_offload : Z;
  mb_pool : ring_id;
  mb_next : Z;
  mb_buf : list Z;
}.
#[export] Instance eta_mbuf : Eta rte_mbuf := λ m,
  mk_mbuf (mb_data_off m) (mb_refcnt m) (mb_nb_segs m) (mb_port m) (mb_ol_flags m)
    (mb_packet_type m) (mb_pkt_len m) (mb_data_len m) (mb_vlan_tci m)
    (mb_vlan_tci_outer m) (mb_tx_offload m) (mb_pool m) (mb_next m) (mb_buf m).

(** ** The shared memory *)

(** Connection blocks are one array, [g_ipaugenblick_sockets]; a pointer to
    its [i]-th element is represented by [i].  Command buffers and packet
    buffers are known by their addresses. *)
Record shm := mk_shm {
  rings : gmap ring_id rte_ring;
  cmds : gmap Z ipaugenblick_cmd;
  g_sockets : gmap Z ipaugenblick_socket;
  mbufs : gmap Z rte_mbuf;
}.
#[export] Instance eta_shm : Eta shm := λ s,
  mk_shm (rings s) (cmds s) (g_sockets s) (mbufs s).

#[export] Instance part_refl S : Part S S | 100 := {| part_get := λ s, s; part_set := λ s _, s |}.
#[export] Instance part_laws_refl S : PartLaws S S.
Proof. by split. Qed.

(** ** Operations *)

Section ops.
Context {S : Type} `{Part shm S}.

Definition set_shm (f : shm → shm) : M S unit :=
  modify (λ s, part_set (f (part_get s)) s).

(** [rte_ring_lookup] and the dereference of a ring pointer. *)
Definition rte_ring_lookup (id : ring_id) : M S (option rte_ring) :=
  gets (λ s, rings (part_get s) !! id).
Definition ring_deref (id : ring_id) : M S rte_ring :=
  r ← rte_ring_lookup id; of_option r.
Definition ring_store (id : ring_id) (r : rte_ring) : M S unit :=
  set_shm (λ m, m <| rings := <[id := r]> (rings m) |>).

(** [rte_ring_create]: [reserve] is the memory-zone allocator
    ([rte_memzone_reserve]): the memory of a new zone, or [None] when there is
    none left; it also refuses a name that is taken. *)
Definition rte_ring_create (reserve : string → option (list Z)) (id : ring_id)
    (count flags : Z) : M S bool :=
  if rte_ring_get_memsize 384 64 count <? 0 then mret false
  else if RTE_MEMZONE_NAMESIZE <=? 3 + Z.of_nat (String.length (ring_id_name id))
  then mret false
  else
    old ← rte_ring_lookup id;
    match (old : option rte_ring), reserve (ring_id_name id) with
    | None, Some cells =>
        match snd (rte_ring_init cells (ring_id_name id) count flags) with
        | Some r => _ ← ring_store id r; mret true
        | None => mret false
        end
    | _, _ => mret false
    end.

(** Run an enqueue or a dequeue function of [Ring] on the ring [id].  The
    dequeue gets a table of [n] unset cells. *)
Definition on_enqueue (f : rte_ring → option (Z * rte_ring)) (id : ring_id) : M S Z :=
  r ← ring_deref id;
  '(ret, r') ← of_option (f r);
  _ ← ring_store id r';
  mret ret.
Definition on_dequeue (f : rte_ring → list Z → option (Z * list Z * rte_ring))
    (n : Z) (id : ring_id) : M S (Z * list Z) :=
  r ← ring_deref id;
  '(ret, table, r') ← of_option (f r (replicate (Z.to_nat n) 0));
  _ ← ring_store id r';
  mret (ret, table).

Definition enqueue (id : ring_id) (obj : Z) : M S Z :=
  on_enqueue (λ r, rte_ring_enqueue r obj) id.
Definition sp_enqueue_bulk (id : ring_id) (objs : list Z) (n : Z) : M S Z :=
  on_enqueue (λ r, Some (rte_ring_sp_enqueue_bulk r objs n)) id.
Definition sp_enqueue_burst (id : ring_id) (objs : list Z) (n : Z) : M S Z :=
  on_enqueue (λ r, Some (rte_ring_sp_enqueue_burst r objs n)) id.
Definition mp_enqueue_bulk (id : ring_id) (objs : list Z) (n : Z) : M S Z :=
  on_enqueue (λ r, rte_ring_mp_enqueue_bulk r objs n) id.

(** The code that dequeues one object tests the return value and reads the
    object only after a success. *)
Definition dequeue (id : ring_id) : M S (option Z) :=
  '(ret, table) ← on_dequeue (λ r table, rte_ring_dequeue_bulk r table 1) 1 id;
  mret (if ret =? 0 then Some (lget table 0) else None).
Definition sc_dequeue (id : ring_id) : M S (option Z) :=
  '(ret, table) ← on_dequeue (λ r table, Some (rte_ring_sc_dequeue_bulk r table 1)) 1 id;
  mret (if ret =? 0 then Some (lget table 0) else None).
Definition dequeue_bulk (id : ring_id) (n : Z) : M S (option (list Z)) :=
  '(ret, table) ← on_dequeue (λ r table, rte_ring_dequeue_bulk r table n) n id;
  mret (if ret =? 0 then Some table else None).
Definition mc_dequeue_bulk (id : ring_id) (n : Z) : M S (option (list Z)) :=
  '(ret, table) ← on_dequeue (λ r table, rte_ring_mc_dequeue_bulk r table n) n id;
  mret (if ret =? 0 then Some table else None).
(** A burst yields as many objects as its return value says. *)
Definition sc_dequeue_burst (id : ring_id) (n : Z) : M S (list Z) :=
  '(ret, table) ← on_dequeue (λ r table, Some (rte_ring_sc_dequeue_burst r table n)) n id;
  mret (take (Z.to_nat ret) table).

Definition ring_count (id : ring_id) : M S Z :=
  r ← ring_deref id; mret (rte_ring_count r).
Definition ring_free_count (id : ring_id) : M S Z :=
  r ← ring_deref id; mret (rte_ring_free_count r).

(** ** Mempools

    The service creates every pool with [cache_size] 0 and [flags] 0, so
    [rte_mempool_default_cache] is [NULL] and get and put go straight to the
    pool's multi-producer, multi-consumer ring. *)
Definition rte_mempool_get_bulk (pool : ring_id) (n : Z) : M S (option (list Z)) :=
  mc_dequeue_bulk pool n.
Definition rte_mempool_get (pool : ring_id) : M S (option Z) :=
  objs ← rte_mempool_get_bulk pool 1;
  mret ((λ table, lget table 0) <$> objs).
Definition rte_mempool_put_bulk (pool : ring_id) (objs : list Z) (n : Z) : M S unit :=
  _ ← mp_enqueue_bulk pool objs n; mret tt.
Definition rte_mempool_put (pool : ring_id) (obj : Z) : M S unit :=
  rte_mempool_put_bulk pool [obj] 1.
Definition rte_mempool_count (pool : ring_id) : M S Z := ring_count pool.

(** ** Command buffers *)

Definition cmd_read (p : Z) : M S ipaugenblick_cmd :=
  c ← gets (λ s, cmds (part_get s) !! p); of_option c.
Definition cmd_write (p : Z) (f : ipaugenblick_cmd → ipaugenblick_cmd) : M S unit :=
  c ← cmd_read p;
  set_shm (λ m, m <| cmds := <[p := f c]> (cmds m) |>).

Definition ipaugenblick_get_free_command_buf : M S (option Z) :=
  rte_mempool_get FREE_COMMAND_POOL.
Definition ipaugenblick_free_command_buf (cmd : Z) : M S unit :=
  rte_mempool_put FREE_COMMAND_POOL cmd.
(** Non-zero (here [true]) when the command ring is full. *)
Definition ipaugenblick_enqueue_command_buf (cmd : Z) : M S bool :=
  ret ← enqueue COMMAND_RING cmd; mret (ret =? - ENOBUFS).

(** ** Connection blocks *)

Definition sock_read (i : Z) : M S ipaugenblick_socket :=
  c ← gets (λ s, g_sockets (part_get s) !! i); of_option c.
Definition sock_write (i : Z) (f : ipaugenblick_socket → ipaugenblick_socket) : M S unit :=
  c ← sock_read i;
  set_shm (λ m, m <| g_sockets := <[i := f c]> (g_sockets m) |>).

(** [rte_atomic16_test_and_set]: true when the counter was 0 and is now 1. *)
Definition test_and_set (i : Z) (get : ipaugenblick_socket → Z)
    (set : Z → ipaugenblick_socket → ipaugenblick_socket) : M S bool :=
  c ← sock_read i;
  if get c =? 0 then _ ← sock_write i (set 1); mret true else mret false.

(** ** Packet buffers *)

Definition mbuf_read (p : Z) : M S rte_mbuf :=
  m ← gets (λ s, mbufs (part_get s) !! p); of_option m.
Definition mbuf_write (p : Z) (f : rte_mbuf → rte_mbuf) : M S unit :=
  m ← mbuf_read p;
  set_shm (λ s, s <| mbufs := <[p := f m]> (mbufs s) |>).
End ops.

(** ** What the users of a ring rely on *)

(** A ring seen as a bounded queue with a water mark. *)
Record chan := mk_chan { ch_cap : Z; ch_wm : Z; ch_q : list Z }.
Definition ring_chan (r : rte_ring) : chan :=
  mk_chan (capacity r) (prod_watermark r) (queue r).

Definition rings_ok (rs : gmap ring_id rte_ring) : Prop := map_Forall (λ _ r, ring_wf r) rs.
Definition chans (rs : gmap ring_id rte_ring) : gmap ring_id chan := ring_chan <$> rs.

(** The contents of a ring; empty when there is no such ring. *)
Definition contents (m : shm) (id : ring_id) : list Z :=
  from_option ch_q [] (chans (rings m) !! id).

(** What an enqueue, and what a dequeue, does to a channel. *)
Definition chan_enqueue (c : chan) (objs : list Z) (n : Z) (b : queue_behavior) : Z * chan :=
  let '(ret, q) := fifo_enqueue (ch_cap c) (ch_wm c) (ch_q c) objs n b in
  (ret, mk_chan (ch_cap c) (ch_wm c) q).
Definition chan_dequeue (c : chan) (n : Z) (b : queue_behavior) : Z * list Z * chan :=
  let '(ret, table, q) := fifo_dequeue (ch_q c) (replicate (Z.to_nat n) 0) n b in
  (ret, table, mk_chan (ch_cap c) (ch_wm c) q).

(** Functions of [Ring] that implement the queue's operations. *)
Definition implements_enqueue (f : rte_ring → option (Z * rte_ring))
    (objs : list Z) (n : Z) (b : queue_behavior) : Prop :=
  ∀ r, ring_wf r → ∃ ret r', f r = Some (ret, r') ∧ enqueue_post r objs n b ret r'.
Definition implements_dequeue (f : rte_ring → list Z → option (Z * list Z * rte_ring))
    (n : Z) (b : queue_behavior) : Prop :=
  ∀ r, ring_wf r → ∃ ret table r', f r (replicate (Z.to_nat n) 0) = Some (ret, table, r') ∧
    dequeue_post r (replicate (Z.to_nat n) 0) n b ret table r'.

Lemma zlen_replicate n : 0 ≤ n → zlen (replicate (Z.to_nat n) 0) = n.
Proof. intros. unfold zlen. rewrite length_replicate. lia. Qed.

Lemma implements_enqueue_bulk objs n :
  0 < n ≤ zlen objs →
  implements_enqueue (λ r, rte_ring_enqueue_bulk r objs n) objs n RTE_RING_QUEUE_FIXED.
Proof.
  intros Hn r Hw. unfold rte_ring_enqueue_bulk.
  destruct (prod_sp_enqueue r); [|by apply mp_enqueue_fifo].
  unfold rte_ring_sp_enqueue_bulk.
  pose proof (sp_enqueue_fifo r objs n RTE_RING_QUEUE_FIXED Hw ltac:(lia)) as Hs.
  destruct (__rte_ring_sp_do_enqueue _ _ _ _). eauto.
Qed.

Lemma implements_mp_enqueue_bulk objs n :
  0 < n ≤ zlen objs →
  implements_enqueue (λ r, rte_ring_mp_enqueue_bulk r objs n) objs n RTE_RING_QUEUE_FIXED.
Proof. intros Hn r Hw. by apply mp_enqueue_fifo. Qed.

Lemma implements_sp_enqueue objs n b :
  0 ≤ n ≤ zlen objs →
  implements_enqueue (λ r, Some (__rte_ring_sp_do_enqueue r objs n b)) objs n b.
Proof.
  intros Hn r Hw. pose proof (sp_enqueue_fifo r objs n b Hw ltac:(lia)) as Hs.
  destruct (__rte_ring_sp_do_enqueue _ _ _ _). eauto.
Qed.

Lemma implements_enqueue_1 obj :
  implements_enqueue (λ r, rte_ring_enqueue r obj) [obj] 1 RTE_RING_QUEUE_FIXED.
Proof. apply implements_enqueue_bulk. unfold zlen. cbn. lia. Qed.

Lemma implements_sc_dequeue n b :
  0 ≤ n → implements_dequeue (λ r t, Some (__rte_ring_sc_do_dequeue r t n b)) n b.
Proof.
  intros Hn r Hw.
  pose proof (sc_dequeue_fifo r (replicate (Z.to_nat n) 0) n b Hw) as Hs.
  rewrite zlen_replicate in Hs by done. specialize (Hs ltac:(lia)).
  destruct (__rte_ring_sc_do_dequeue _ _ _ _) as [[ret t] r']. eauto.
Qed.

Lemma implements_mc_dequeue_bulk n :
  0 ≤ n → implements_dequeue (λ r t, rte_ring_mc_dequeue_bulk r t n) n RTE_RING_QUEUE_FIXED.
Proof. intros Hn r Hw. apply mc_dequeue_fifo; [done|]. rewrite zlen_replicate; lia. Qed.

Lemma implements_dequeue_bulk n :
  0 ≤ n → implements_dequeue (λ r t, rte_ring_dequeue_bulk r t n) n RTE_RING_QUEUE_FIXED.
Proof.
  intros Hn r Hw. unfold rte_ring_dequeue_bulk.
  destruct (cons_sc_dequeue r); [by apply implements_sc_dequeue|].
  by apply implements_mc_dequeue_bulk.
Qed.

Section wp_rules.
Context {S : Type} `{PartLaws shm S}.

(** The state with its rings replaced. *)
Definition with_rings (s : S) (rs : gmap ring_id rte_ring) : S :=
  part_set ((part_get s : shm) <| rings := rs |>) s.

Lemma chans_insert rs id r : chans (<[id := r]> rs) = <[id := ring_chan r]> (chans rs).
Proof. apply fmap_insert. Qed.

Lemma config_chan r r' q :
  ring_config r' = ring_config r → queue r' = q →
  ring_chan r' = mk_chan (ch_cap (ring_chan r)) (ch_wm (ring_chan r)) q.
Proof.
  unfold ring_config, ring_chan, capacity. intros [= _ _ -> _ -> _] ->. done.
Qed.

Lemma wp_on_enqueue f objs n b id c (Q : Z → S → Prop) s :
  implements_enqueue f objs n b → rings_ok (rings (part_get s)) →
  chans (rings (part_get s)) !! id = Some c →
  (∀ rs, rings_ok rs →
     chans rs = <[id := snd (chan_enqueue c objs n b)]> (chans (rings (part_get s))) →
     Q (fst (chan_enqueue c objs n b)) (with_rings s rs)) →
  wp (on_enqueue f id) Q s.
Proof.
  intros Hf Hok Hc HQ. unfold chans in Hc. apply lookup_fmap_Some in Hc as (r & <- & Hr).
  destruct (Hf r (Hok _ _ Hr)) as (ret & r' & Hfr & Hw & Hcfg & Hq).
  unfold on_enqueue, ring_deref, rte_ring_lookup, ring_store, set_shm. wp_run.
  rewrite Hr. cbn [of_option]. wp_run. rewrite Hfr. cbn [of_option]. wp_run.
  unfold chan_enqueue in HQ. cbn [ring_chan ch_cap ch_wm ch_q] in HQ. rewrite <- Hq in HQ.
  apply (HQ (<[id:=r']> (rings (part_get s)))).
  - by apply map_Forall_insert_2.
  - rewrite chans_insert. f_equal. by apply (config_chan r).
Qed.

Lemma wp_on_dequeue f n b id c (Q : Z * list Z → S → Prop) s :
  implements_dequeue f n b → rings_ok (rings (part_get s)) →
  chans (rings (part_get s)) !! id = Some c →
  (∀ rs, rings_ok rs →
     chans rs = <[id := snd (chan_dequeue c n b)]> (chans (rings (part_get s))) →
     Q (fst (chan_dequeue c n b)) (with_rings s rs)) →
  wp (on_dequeue f n id) Q s.
Proof.
  intros Hf Hok Hc HQ. unfold chans in Hc. apply lookup_fmap_Some in Hc as (r & <- & Hr).
  destruct (Hf r (Hok _ _ Hr)) as (ret & t & r' & Hfr & Hw & Hcfg & Hq).
  unfold on_dequeue, ring_deref, rte_ring_lookup, ring_store, set_shm. wp_run.
  rewrite Hr. cbn [of_option]. wp_run. rewrite Hfr. cbn [of_option]. wp_run.
  unfold chan_dequeue in HQ. cbn [ring_chan ch_cap ch_wm ch_q] in HQ. rewrite <- Hq in HQ.
  apply (HQ (<[id:=r']> (rings (part_get s)))).
  - by apply map_Forall_insert_2.
  - rewrite chans_insert. f_equal. by apply (config_chan r).
Qed.

Lemma part_get_with_rings (s : S) rs :
  part_get (with_rings s rs) = (part_get s : shm) <| rings := rs |>.
Proof. apply part_get_set. Qed.

(** *** One object at a time *)

Lemma chan_enqueue_1 c obj :
  chan_enqueue c [obj] 1 RTE_RING_QUEUE_FIXED =
    if zlen (ch_q c) <? ch_cap c
    then (if ch_wm c <? zlen (ch_q c) + 2 then - EDQUOT else 0,
          mk_chan (ch_cap c) (ch_wm c) (ch_q c ++ [obj]))
    else (- ENOBUFS, c).
Proof.
  unfold chan_enqueue, fifo_enqueue, admit_count, fifo_enqueue_ret.
  destruct (Z.ltb_spec (ch_cap c - zlen (ch_q c)) 1), (Z.ltb_spec (zlen (ch_q c)) (ch_cap c));
    try lia; [by destruct c|].
  by replace (zlen (ch_q c) + 1 + 1) with (zlen (ch_q c) + 2) by lia.
Qed.

Lemma chan_dequeue_1 c :
  chan_dequeue c 1 RTE_RING_QUEUE_FIXED =
    match ch_q c with
    | [] => (- ENOENT, [0], c)
    | x :: q => (0, [x], mk_chan (ch_cap c) (ch_wm c) q)
    end.
Proof.
  unfold chan_dequeue, fifo_dequeue, admit_count.
  destruct c as [cap wm [|x q]]; cbn [ch_q ch_cap ch_wm]; [done|].
  replace (zlen (x :: q) <? 1) with false; [done|].
  symmetry. apply Z.ltb_ge. unfold zlen. cbn. lia.
Qed.

(** An enqueue succeeds, and adds the object, exactly when there is room. *)
Lemma wp_enqueue_with f obj id c (Q : Z → S → Prop) s :
  implements_enqueue f [obj] 1 RTE_RING_QUEUE_FIXED →
  rings_ok (rings (part_get s)) → chans (rings (part_get s)) !! id = Some c →
  (zlen (ch_q c) < ch_cap c → ∀ rs, rings_ok rs →
     chans rs = <[id := mk_chan (ch_cap c) (ch_wm c) (ch_q c ++ [obj])]>
                  (chans (rings (part_get s))) →
     Q (if ch_wm c <? zlen (ch_q c) + 2 then - EDQUOT else 0) (with_rings s rs)) →
  (ch_cap c ≤ zlen (ch_q c) → ∀ rs, rings_ok rs →
     chans rs = chans (rings (part_get s)) → Q (- ENOBUFS) (with_rings s rs)) →
  wp (on_enqueue f id) Q s.
Proof.
  intros Hf Hok Hc Hroom Hfull. eapply wp_on_enqueue; [done..|].
  intros rs Hrs Hch. rewrite chan_enqueue_1 in *.
  destruct (Z.ltb_spec (zlen (ch_q c)) (ch_cap c)); cbn [fst snd] in *.
  - by apply Hroom.
  - apply Hfull; [done..|]. by rewrite Hch, insert_id.
Qed.

Lemma wp_enqueue obj id c (Q : Z → S → Prop) s :
  rings_ok (rings (part_get s)) → chans (rings (part_get s)) !! id = Some c →
  (zlen (ch_q c) < ch_cap c → ∀ rs, rings_ok rs →
     chans rs = <[id := mk_chan (ch_cap c) (ch_wm c) (ch_q c ++ [obj])]>
                  (chans (rings (part_get s))) →
     Q (if ch_wm c <? zlen (ch_q c) + 2 then - EDQUOT else 0) (with_rings s rs)) →
  (ch_cap c ≤ zlen (ch_q c) → ∀ rs, rings_ok rs →
     chans rs = chans (rings (part_get s)) → Q (- ENOBUFS) (with_rings s rs)) →
  wp (enqueue id obj) Q s.
Proof. apply wp_enqueue_with, implements_enqueue_1. Qed.

Lemma wp_dequeue_with f id c (Q : option Z → S → Prop) s :
  implements_dequeue f 1 RTE_RING_QUEUE_FIXED →
  rings_ok (rings (part_get s)) → chans (rings (part_get s)) !! id = Some c →
  (∀ x q, ch_q c = x :: q → ∀ rs, rings_ok rs →
     chans rs = <[id := mk_chan (ch_cap c) (ch_wm c) q]> (chans (rings (part_get s))) →
     Q (Some x) (with_rings s rs)) →
  (ch_q c = [] → ∀ rs, rings_ok rs →
     chans rs = chans (rings (part_get s)) → Q None (with_rings s rs)) →
  wp ('(ret, table) ← on_dequeue f 1 id;
      mret (if ret =? 0 then Some (lget table 0) else None)) Q s.
Proof.
  intros Hf Hok Hc Hsome Hnone. rewrite wp_bind. eapply wp_on_dequeue; [done..|].
  intros rs Hrs Hch. rewrite chan_dequeue_1 in *.
  destruct (ch_q c) as [|x q]; cbn [fst snd] in *; rewrite wp_ret.
  - apply Hnone; [done..|]. by rewrite Hch, insert_id.
  - by apply (Hsome x q).
Qed.

Lemma wp_dequeue id c (Q : option Z → S → Prop) s :
  rings_ok (rings (part_get s)) → chans (rings (part_get s)) !! id = Some c →
  (∀ x q, ch_q c = x :: q → ∀ rs, rings_ok rs →
     chans rs = <[id := mk_chan (ch_cap c) (ch_wm c) q]> (chans (rings (part_get s))) →
     Q (Some x) (with_rings s rs)) →
  (ch_q c = [] → ∀ rs, rings_ok rs →
     chans rs = chans (rings (part_get s)) → Q None (with_rings s rs)) →
  wp (dequeue id) Q s.
Proof. apply wp_dequeue_with, implements_dequeue_bulk. done. Qed.

Lemma wp_sc_dequeue id c (Q : option Z → S → Prop) s :
  rings_ok (rings (part_get s)) → chans (rings (part_get s)) !! id = Some c →
  (∀ x q, ch_q c = x :: q → ∀ rs, rings_ok rs →
     chans rs = <[id := mk_chan (ch_cap c) (ch_wm c) q]> (chans (rings (part_get s))) →
     Q (Some x) (with_rings s rs)) →
  (ch_q c = [] → ∀ rs, rings_ok rs →
     chans rs = chans (rings (part_get s)) → Q None (with_rings s rs)) →
  wp (sc_dequeue id) Q s.
Proof. apply wp_dequeue_with, implements_sc_dequeue. done. Qed.

Lemma wp_mempool_get id c (Q : option Z → S → Prop) s :
  rings_ok (rings (part_get s)) → chans (rings (part_get s)) !! id = Some c →
  (∀ x q, ch_q c = x :: q → ∀ rs, rings_ok rs →
     chans rs = <[id := mk_chan (ch_cap c) (ch_wm c) q]> (chans (rings (part_get s))) →
     Q (Some x) (with_rings s rs)) →
  (ch_q c = [] → ∀ rs, rings_ok rs →
     chans rs = chans (rings (part_get s)) → Q None (with_rings s rs)) →
  wp (rte_mempool_get id) Q s.
Proof.
  intros Hok Hc Hsome Hnone.
  pose proof (wp_dequeue_with (λ r t, rte_ring_mc_dequeue_bulk r t 1) id c Q s
    (implements_mc_dequeue_bulk 1 ltac:(done)) Hok Hc Hsome Hnone) as Hw.
  unfold rte_mempool_get, rte_mempool_get_bulk, mc_dequeue_bulk.
  rewrite !wp_bind in *. eapply wp_mono; [exact Hw|].
  intros [ret t] s' Hq. rewrite !wp_ret in *. by destruct (ret =? 0).
Qed.

Lemma wp_mempool_put id obj c (Q : unit → S → Prop) s :
  rings_ok (rings (part_get s)) → chans (rings (part_get s)) !! id = Some c →
  (zlen (ch_q c) < ch_cap c → ∀ rs, rings_ok rs →
     chans rs = <[id := mk_chan (ch_cap c) (ch_wm c) (ch_q c ++ [obj])]>
                  (chans (rings (part_get s))) →
     Q tt (with_rings s rs)) →
  (ch_cap c ≤ zlen (ch_q c) → ∀ rs, rings_ok rs →
     chans rs = chans (rings (part_get s)) → Q tt (with_rings s rs)) →
  wp (rte_mempool_put id obj) Q s.
Proof.
  intros Hok Hc Hroom Hfull. unfold rte_mempool_put, rte_mempool_put_bulk, mp_enqueue_bulk.
  rewrite wp_bind.
  apply (wp_enqueue_with _ obj _ c _ _
           (implements_mp_enqueue_bulk [obj] 1 ltac:(unfold zlen; cbn; lia))); [done..| |].
  - intros Hr rs Hrs Hch. by apply Hroom.
  - intros Hr rs Hrs Hch. by apply Hfull.
Qed.
End wp_rules.

(** ** Small rings for concrete instances *)

(** A ring of eight cells that holds [objs] (at most seven). *)
Definition demo_ring (flags wm : Z) (objs : list Z) : rte_ring :=
  let n := zlen objs in
  mk_ring "demo" flags wm (negb (Z.land flags RING_F_SP_ENQ =? 0)) 8 7 n n
    (negb (Z.land flags RING_F_SC_DEQ =? 0)) 8 7 0 0
    (objs ++ replicate (8 - length objs)%nat 0).

Lemma demo_ring_wf flags wm objs : (length objs ≤ 7)%nat → ring_wf (demo_ring flags wm objs).
Proof.
  intros Hl. unfold ring_wf, ring_shape, ring_used, capacity, demo_ring, zlen.
  cbn [prod_head prod_tail cons_head cons_tail prod_size cons_size prod_mask cons_mask ring_cells].
  rewrite length_app, length_replicate. rewrite wrap32_small by lia.
  split_and!; try lia. by exists 3.
Qed.

Lemma demo_rings_ok l :
  Forall (λ p, ∃ flags wm objs, p.2 = demo_ring flags wm objs ∧ (length objs ≤ 7)%nat) l →
  rings_ok (list_to_map l).
Proof.
  intros Hl id r Hr. apply elem_of_list_to_map_2 in Hr.
  rewrite Forall_forall in Hl. destruct (Hl _ Hr) as (? & ? & objs & Heq & Hlen).
  cbn in Heq. subst. by apply demo_ring_wf.
Qed.

(** ** Counting, and taking everything *)

Section wp_rules2.
Context {S : Type} `{PartLaws shm S}.

Lemma wp_ring_count id c (Q : Z → S → Prop) s :
  rings_ok (rings (part_get s)) → chans (rings (part_get s)) !! id = Some c →
  Q (zlen (ch_q c)) s → wp (ring_count id) Q s.
Proof.
  intros Hok Hc HQ. unfold chans in Hc. apply lookup_fmap_Some in Hc as (r & <- & Hr).
  unfold ring_count, ring_deref, rte_ring_lookup. wp_run. rewrite Hr. cbn [of_option]. wp_run.
  rewrite ring_count_used by by eapply Hok. cbn in HQ. by rewrite zlen_queue in HQ.
Qed.

Lemma wp_ring_free_count id c (Q : Z → S → Prop) s :
  rings_ok (rings (part_get s)) → chans (rings (part_get s)) !! id = Some c →
  Q (ch_cap c - zlen (ch_q c)) s → wp (ring_free_count id) Q s.
Proof.
  intros Hok Hc HQ. unfold chans in Hc. apply lookup_fmap_Some in Hc as (r & <- & Hr).
  unfold ring_free_count, ring_deref, rte_ring_lookup. wp_run. rewrite Hr. cbn [of_option]. wp_run.
  rewrite ring_free_count_spec by by eapply Hok. cbn in HQ. by rewrite zlen_queue in HQ.
Qed.

Lemma chan_dequeue_all c :
  chan_dequeue c (zlen (ch_q c)) RTE_RING_QUEUE_FIXED =
    (0, ch_q c, mk_chan (ch_cap c) (ch_wm c) []).
Proof.
  unfold chan_dequeue, fifo_dequeue, admit_count. rewrite Z.ltb_irrefl. unfold zlen.
  rewrite Nat2Z.id, firstn_all2, drop_ge, drop_ge by (rewrite ?length_replicate; lia).
  by rewrite app_nil_r.
Qed.

Lemma wp_dequeue_bulk_all id c (Q : option (list Z) → S → Prop) s :
  rings_ok (rings (part_get s)) → chans (rings (part_get s)) !! id = Some c →
  (∀ rs, rings_ok rs →
     chans rs = <[id := mk_chan (ch_cap c) (ch_wm c) []]> (chans (rings (part_get s))) →
     Q (Some (ch_q c)) (with_rings s rs)) →
  wp (dequeue_bulk id (zlen (ch_q c))) Q s.
Proof.
  intros Hok Hc HQ. unfold dequeue_bulk. rewrite wp_bind.
  eapply wp_on_dequeue; [apply implements_dequeue_bulk, zlen_nonneg|done..|].
  intros rs Hrs Hch. rewrite chan_dequeue_all in *. cbn [fst snd] in *. rewrite wp_ret.
  by apply HQ.
Qed.
End wp_rules2.

(** ** Bursts *)

Lemma chan_bounded rs id c : rings_ok rs → chans rs !! id = Some c → zlen (ch_q c) ≤ ch_cap c.
Proof.
  intros Hok (r & <- & Hr)%lookup_fmap_Some. destruct (Hok _ _ Hr) as (_ & _ & _ & _ & _ & Hu).
  cbn. by rewrite zlen_queue.
Qed.

(** A burst takes what there is, up to [n] objects. *)
Lemma chan_dequeue_burst c n :
  0 ≤ n →
  chan_dequeue c n RTE_RING_QUEUE_VARIABLE =
    (Z.min n (zlen (ch_q c)),
     take (Z.to_nat n) (ch_q c) ++ drop (length (ch_q c)) (replicate (Z.to_nat n) 0),
     mk_chan (ch_cap c) (ch_wm c) (drop (Z.to_nat n) (ch_q c))).
Proof.
  intros Hn. pose proof (zlen_nonneg (ch_q c)).
  unfold chan_dequeue, fifo_dequeue, admit_count, dequeue_ret. destruct c as [cap wm q]. cbn [ch_q] in *.
  destruct (Z.ltb_spec (zlen q) n) as [Hlt|Hge].
  - rewrite Z.min_r by lia. assert (drop (Z.to_nat n) q = []) as Hd by (apply drop_ge; unfold zlen in *; lia).
    assert (take (Z.to_nat n) q = q) as Ht by (apply firstn_all2; unfold zlen in *; lia).
    destruct (Z.eqb_spec (zlen q) 0) as [H0|H0].
    + destruct q; [by destruct (Z.to_nat n)|unfold zlen in H0; cbn in H0; lia].
    + cbn [ch_cap ch_wm]. rewrite Hd, Ht. unfold zlen. rewrite Nat2Z.id, firstn_all, drop_all. done.
  - rewrite Z.min_l by lia. cbn [ch_cap ch_wm]. do 3 f_equal.
    rewrite !drop_ge by (rewrite length_replicate; unfold zlen in *; lia). done.
Qed.

Section wp_rules3.
Context {S : Type} `{PartLaws shm S}.

Lemma wp_sc_dequeue_burst id c n (Q : list Z → S → Prop) s :
  0 ≤ n → rings_ok (rings (part_get s)) → chans (rings (part_get s)) !! id = Some c →
  (∀ rs, rings_ok rs →
     chans rs = <[id := mk_chan (ch_cap c) (ch_wm c) (drop (Z.to_nat n) (ch_q c))]>
                  (chans (rings (part_get s))) →
     Q (take (Z.to_nat n) (ch_q c)) (with_rings s rs)) →
  wp (sc_dequeue_burst id n) Q s.
Proof.
  intros Hn Hok Hc HQ. unfold sc_dequeue_burst. rewrite wp_bind.
  eapply wp_on_dequeue; [by apply (implements_sc_dequeue n RTE_RING_QUEUE_VARIABLE)|done..|].
  intros rs Hrs Hch. rewrite chan_dequeue_burst in * by done. cbn [fst snd] in *. rewrite wp_ret.
  specialize (HQ rs Hrs Hch).
  replace (take (Z.to_nat (Z.min n (zlen (ch_q c)))) (take (Z.to_nat n) (ch_q c) ++ _))
    with (take (Z.to_nat n) (ch_q c)); [done|].
  rewrite take_app_le by (rewrite length_take; unfold zlen; lia).
  rewrite take_take. destruct (Z.le_ge_cases n (zlen (ch_q c))).
  - f_equal. lia.
  - rewrite !firstn_all2 by (unfold zlen in *; lia). done.
Qed.

(** A burst that fits is stored whole. *)
Lemma wp_sp_enqueue_burst id c objs (Q : Z → S → Prop) s :
  zlen (ch_q c) + zlen objs ≤ ch_cap c →
  rings_ok (rings (part_get s)) → chans (rings (part_get s)) !! id = Some c →
  (∀ ret rs, rings_ok rs →
     chans rs = <[id := mk_chan (ch_cap c) (ch_wm c) (ch_q c ++ objs)]>
                  (chans (rings (part_get s))) →
     Q ret (with_rings s rs)) →
  wp (sp_enqueue_burst id objs (zlen objs)) Q s.
Proof.
  intros Hroom Hok Hc HQ. pose proof (zlen_nonneg objs). unfold sp_enqueue_burst.
  eapply wp_on_enqueue; [by apply (implements_sp_enqueue objs (zlen objs) RTE_RING_QUEUE_VARIABLE)|done..|].
  intros rs Hrs Hch. apply HQ; [done|]. rewrite Hch. unfold chan_enqueue, fifo_enqueue, admit_count.
  rewrite (proj2 (Z.ltb_ge _ _)) by lia. cbn [snd]. unfold zlen.
  by rewrite Nat2Z.id, firstn_all.
Qed.
End wp_rules3.

(** ** Connection blocks *)

Lemma wp_sock_write {S} `{PartLaws shm S} sk blk f (Q : unit → S → Prop) s :
  g_sockets (part_get s) !! sk = Some blk →
  Q tt (part_set ((part_get s : shm) <| g_sockets := alter f sk (g_sockets (part_get s)) |>) s) →
  wp (sock_write sk f) Q s.
Proof.
  intros Hb HQ. unfold sock_write, sock_read, set_shm. wp_run. rewrite Hb. cbn [of_option]. wp_run.
  by rewrite (alter_insert_lookup _ _ _ blk) in HQ.
Qed.

Lemma wp_sock_read {S} `{PartLaws shm S} sk blk (Q : ipaugenblick_socket → S → Prop) s :
  g_sockets (part_get s) !! sk = Some blk → Q blk s → wp (sock_read sk) Q s.
Proof. intros Hb HQ. unfold sock_read. wp_run. by rewrite Hb. Qed.
