(* ===== verification/Mbuf.v ===== *)
(** * Packet buffers (dpdk-16.07/lib/librte_mbuf/rte_mbuf.h)

    A packet is a chain of segments linked by [mb_next].  Segments are
    reference counted; a segment whose count drops to 0 goes back to its pool.
    The UDP paths keep a socket address in the headroom in front of the data;
    its layout is here too, because the application writes it and the service
    reads it (and the other way round).

    Indirect buffers are never created by this program ([rte_pktmbuf_attach]
    has no caller), so the detaching branch of a free is left undefined
    ([fault]). *)

From S2P Require Import Prelude Ring Mem.

(** ** Socket addresses *)

Definition AF_INET : Z := 2.

(** Field values as the memory words hold them (port and address are in network
    order there; nothing below converts them). *)
Record sockaddr_in := mk_sockaddr {
  sin_family : Z;
  sin_port : Z;
  sin_addr : Z;
  sin_zero : list Z;
}.
#[export] Instance eta_sockaddr : Eta sockaddr_in := λ a,
  mk_sockaddr (sin_family a) (sin_port a) (sin_addr a) (sin_zero a).

Definition sizeof_sockaddr_in : Z := 16.

(** [n] bytes of a word, lowest first, and back. *)
Fixpoint le_bytes (n : nat) (x : Z) : list Z :=
  match n with O => [] | S n => x mod 256 :: le_bytes n (x / 256) end.
Fixpoint le_word (bs : list Z) : Z :=
  match bs with [] => 0 | b :: bs => b + 256 * le_word bs end.

Definition sockaddr_bytes (a : sockaddr_in) : list Z :=
  le_bytes 2 (sin_family a) ++ le_bytes 2 (sin_port a) ++ le_bytes 4 (sin_addr a) ++ sin_zero a.
Definition bytes_sockaddr (bs : list Z) : sockaddr_in :=
  mk_sockaddr (le_word (slice bs 0 2)) (le_word (slice bs 2 2)) (le_word (slice bs 4 4))
    (slice bs 8 8).

(** An address whose fields have their C width. *)
Definition sockaddr_ok (a : sockaddr_in) : Prop :=
  0 ≤ sin_family a < 2 ^ 16 ∧ 0 ≤ sin_port a < 2 ^ 16 ∧ 0 ≤ sin_addr a < 2 ^ 32 ∧
  zlen (sin_zero a) = 8.

(** ** Buffers *)

Section mbuf.
Context {S : Type} `{Part shm S}.

(** A data pointer: a buffer and an offset into it. *)
Definition rte_pktmbuf_mtod (p : Z) : M S (Z * Z) :=
  m ← mbuf_read p; mret (p, mb_data_off m).
Definition rte_pktmbuf_data_len (p : Z) : M S Z := m ← mbuf_read p; mret (mb_data_len m).
Definition rte_pktmbuf_pkt_len (p : Z) : M S Z := m ← mbuf_read p; mret (mb_pkt_len m).
Definition set_data_len (p len : Z) : M S unit :=
  mbuf_write p (λ m, m <| mb_data_len := wrap16 len |>).

Definition rte_mbuf_refcnt_update (p value : Z) : M S Z :=
  m ← mbuf_read p;
  let new := wrap16 (mb_refcnt m + value) in
  if mb_refcnt m =? 1
  then _ ← mbuf_write p (λ m, m <| mb_refcnt := wrap16 (1 + value) |>);
       mret (wrap16 (1 + value))
  else _ ← mbuf_write p (λ m, m <| mb_refcnt := new |>); mret new.

Definition rte_mbuf_raw_alloc (mp : ring_id) : M S (option Z) :=
  mb ← rte_mempool_get mp;
  match mb with
  | None => mret None
  | Some m => _ ← mbuf_write m (λ b, b <| mb_refcnt := 1 |>); mret (Some m)
  end.

Definition RTE_PKTMBUF_HEADROOM : Z := 128.

Definition rte_pktmbuf_reset (p : Z) : M S unit :=
  mbuf_write p (λ m,
    m <| mb_next := 0 |> <| mb_pkt_len := 0 |> <| mb_tx_offload := 0 |>
      <| mb_vlan_tci := 0 |> <| mb_vlan_tci_outer := 0 |> <| mb_nb_segs := 1 |>
      <| mb_port := 255 |> <| mb_ol_flags := 0 |> <| mb_packet_type := 0 |>
      <| mb_data_off := if RTE_PKTMBUF_HEADROOM <=? zlen (mb_buf m)
                        then RTE_PKTMBUF_HEADROOM else zlen (mb_buf m) |>
      <| mb_data_len := 0 |>).

Definition rte_pktmbuf_alloc (mp : ring_id) : M S (option Z) :=
  m ← rte_mbuf_raw_alloc mp;
  match m with
  | None => mret None
  | Some p => _ ← rte_pktmbuf_reset p; mret (Some p)
  end.

(** [RTE_MBUF_INDIRECT]. *)
Definition IND_ATTACHED_MBUF : Z := Z.shiftl 1 62.
Definition rte_mbuf_indirect (m : rte_mbuf) : bool :=
  negb (Z.land (mb_ol_flags m) IND_ATTACHED_MBUF =? 0).

(** True when the segment is to go back to its pool. *)
Definition __rte_pktmbuf_prefree_seg (p : Z) : M S bool :=
  count ← rte_mbuf_refcnt_update p (-1);
  if count =? 0
  then m ← mbuf_read p; _ ← require (negb (rte_mbuf_indirect m)); mret true
  else mret false.

Definition rte_pktmbuf_free_seg (p : Z) : M S unit :=
  last ← __rte_pktmbuf_prefree_seg p;
  if (last : bool)
  then _ ← mbuf_write p (λ m, m <| mb_next := 0 |>);
       m ← mbuf_read p;
       rte_mempool_put (mb_pool m) p
  else mret tt.

(** Walking a chain takes one round per segment: more rounds than there are
    buffers means the chain is cyclic. *)
Definition chain_fuel : M S nat := gets (λ s, Datatypes.S (size (mbufs (part_get s)))).

Fixpoint free_loop (fuel : nat) (p : Z) : M S unit :=
  if p =? 0 then mret tt
  else
    match fuel with
    | O => fault
    | Datatypes.S fuel =>
        m ← mbuf_read p;
        let m_next := mb_next m in
        _ ← rte_pktmbuf_free_seg p;
        free_loop fuel m_next
    end.
Definition rte_pktmbuf_free (p : Z) : M S unit :=
  fuel ← chain_fuel; free_loop fuel p.

Fixpoint refcnt_update_loop (fuel : nat) (p v : Z) : M S unit :=
  match fuel with
  | O => fault
  | Datatypes.S fuel =>
      _ ← rte_mbuf_refcnt_update p v;
      m ← mbuf_read p;
      if mb_next m =? 0 then mret tt else refcnt_update_loop fuel (mb_next m) v
  end.
Definition rte_pktmbuf_refcnt_update (p v : Z) : M S unit :=
  fuel ← chain_fuel; refcnt_update_loop fuel p v.

Fixpoint lastseg_loop (fuel : nat) (p : Z) : M S Z :=
  match fuel with
  | O => fault
  | Datatypes.S fuel =>
      m ← mbuf_read p;
      if mb_next m =? 0 then mret p else lastseg_loop fuel (mb_next m)
  end.
Definition rte_pktmbuf_lastseg (p : Z) : M S Z :=
  fuel ← chain_fuel; lastseg_loop fuel p.

(** ** Bytes of a buffer *)

(** [memcpy] to and from the buffer's memory; outside of it is undefined. *)
Definition buf_store (p off : Z) (bs : list Z) : M S unit :=
  m ← mbuf_read p;
  _ ← require ((0 <=? off) && (off + zlen bs <=? zlen (mb_buf m)));
  mbuf_write p (λ m, m <| mb_buf :=
    take (Z.to_nat off) (mb_buf m) ++ bs ++ drop (Z.to_nat (off + zlen bs)) (mb_buf m) |>).
Definition buf_load (p off n : Z) : M S (list Z) :=
  m ← mbuf_read p;
  _ ← require ((0 <=? off) && (off + n <=? zlen (mb_buf m)));
  mret (slice (mb_buf m) off n).

(** The address in front of the data: [p_addr = mtod - sizeof(sockaddr_in)]. *)
Definition store_sockaddr (p : Z) (a : sockaddr_in) : M S unit :=
  '(_, off) ← rte_pktmbuf_mtod p;
  buf_store p (off - sizeof_sockaddr_in) (sockaddr_bytes a).
Definition load_sockaddr (p : Z) : M S sockaddr_in :=
  '(_, off) ← rte_pktmbuf_mtod p;
  bs ← buf_load p (off - sizeof_sockaddr_in) sizeof_sockaddr_in;
  mret (bytes_sockaddr bs).
End mbuf.

(** ** Reading and writing a buffer *)

Section mbuf_rules.
Context {S : Type} `{PartLaws shm S}.

Lemma wp_mbuf_read p b (Q : rte_mbuf → S → Prop) s :
  mbufs (part_get s) !! p = Some b → Q b s → wp (mbuf_read p) Q s.
Proof. intros Hb HQ. unfold mbuf_read. wp_run. by rewrite Hb. Qed.

Lemma wp_mbuf_write p b f (Q : unit → S → Prop) s :
  mbufs (part_get s) !! p = Some b →
  Q tt (part_set ((part_get s : shm) <| mbufs := <[p := f b]> (mbufs (part_get s)) |>) s) →
  wp (mbuf_write p f) Q s.
Proof.
  intros Hb HQ. unfold mbuf_write, set_shm. rewrite wp_bind.
  apply (wp_mbuf_read _ b); [done|]. by wp_run.
Qed.

(** The buffer after one reference to it is dropped. *)
Definition freed_buf (b : rte_mbuf) : rte_mbuf :=
  if mb_refcnt b =? 1 then b <| mb_refcnt := 0 |> <| mb_next := 0 |>
  else b <| mb_refcnt := mb_refcnt b - 1 |>.

Definition seg_ok (pool : ring_id) (b : rte_mbuf) : Prop :=
  mb_pool b = pool ∧ rte_mbuf_indirect b = false ∧ 0 < mb_refcnt b < 2 ^ 16.

Lemma wp_prefree_seg pool p b (Q : bool → S → Prop) s :
  mbufs (part_get s) !! p = Some b → seg_ok pool b →
  Q (mb_refcnt b =? 1) (part_set ((part_get s : shm) <| mbufs :=
    <[p := b <| mb_refcnt := mb_refcnt b - 1 |>]> (mbufs (part_get s)) |>) s) →
  wp (__rte_pktmbuf_prefree_seg p) Q s.
Proof.
  intros Hb (Hpool & Hind & Hcnt) HQ. unfold __rte_pktmbuf_prefree_seg, rte_mbuf_refcnt_update.
  rewrite !wp_bind. apply (wp_mbuf_read _ b); [done|]. cbv zeta.
  assert (wrap16 (mb_refcnt b + -1) = mb_refcnt b - 1) as ->
    by (unfold wrap16; rewrite Z.mod_small; lia).
  destruct (Z.eqb_spec (mb_refcnt b) 1) as [H1|H1]; rewrite wp_bind;
    (eapply wp_mbuf_write; [done|]); rewrite wp_ret.
  - change (wrap16 (1 + -1)) with 0. rewrite Z.eqb_refl, wp_bind.
    rewrite H1 in HQ. change (1 - 1) with 0 in HQ.
    eapply wp_mbuf_read; [rewrite part_get_set; apply lookup_insert_eq|].
    cbn. change (rte_mbuf_indirect _) with (rte_mbuf_indirect b). rewrite Hind. done.
  - destruct (Z.eqb_spec (mb_refcnt b - 1) 0); [lia|]. by rewrite wp_ret.
Qed.

Lemma wp_free_seg pool p b c (Q : unit → S → Prop) s :
  rings_ok (rings (part_get s)) → chans (rings (part_get s)) !! pool = Some c →
  mbufs (part_get s) !! p = Some b → seg_ok pool b →
  (mb_refcnt b = 1 → zlen (ch_q c) < ch_cap c) →
  (∀ rs, rings_ok rs →
     chans rs = <[pool := mk_chan (ch_cap c) (ch_wm c)
                   (ch_q c ++ if mb_refcnt b =? 1 then [p] else [])]>
                  (chans (rings (part_get s))) →
     Q tt (part_set (mk_shm rs (cmds (part_get s)) (g_sockets (part_get s))
                       (<[p := freed_buf b]> (mbufs (part_get s)))) s)) →
  wp (rte_pktmbuf_free_seg p) Q s.
Proof.
  intros Hok Hc Hb Hseg Hroom HQ. unfold rte_pktmbuf_free_seg. rewrite wp_bind.
  apply (wp_prefree_seg pool _ b); [done..|]. unfold freed_buf in HQ.
  destruct (Z.eqb_spec (mb_refcnt b) 1) as [H1|H1].
  - rewrite wp_bind. eapply wp_mbuf_write; [rewrite part_get_set; apply lookup_insert_eq|].
    rewrite wp_bind. eapply wp_mbuf_read; [rewrite part_get_set; apply lookup_insert_eq|].
    destruct Hseg as (Hpool & _ & _). cbn. rewrite Hpool, !part_get_set, part_set_set. cbn.
    rewrite insert_insert_eq, H1.
    eapply wp_mempool_put; rewrite ?part_get_set; [done..| |]; cbn.
    + intros _ rs Hrs Hch. unfold with_rings. rewrite part_get_set, part_set_set.
      cbn. apply HQ; [done|]. by rewrite Hch.
    + specialize (Hroom H1). lia.
  - rewrite wp_ret. destruct (part_get s) as [rs cs gs ms] eqn:Hs. cbn in *.
    apply HQ; [done|]. rewrite app_nil_r. symmetry. apply insert_id. destruct c. exact Hc.
Qed.
End mbuf_rules.

(** ** Chains *)

(** [chain ms p l]: following [mb_next] from [p] visits [l] and ends. *)
Inductive chain (ms : gmap Z rte_mbuf) : Z → list Z → Prop :=
  | chain_nil : chain ms 0 []
  | chain_cons p b l :
      p ≠ 0 → ms !! p = Some b → chain ms (mb_next b) l → chain ms p (p :: l).

Lemma chain_det ms p l l' : chain ms p l → chain ms p l' → l = l'.
Proof.
  intros Hc. revert l'. induction Hc as [|p b l Hp Hb Hc IH]; intros l' Hc'.
  - by inversion Hc'.
  - inversion Hc' as [|? b' l'' _ Hb' Hc'']; [done|]; subst.
    rewrite Hb in Hb'. injection Hb' as <-. f_equal. by apply IH.
Qed.

Lemma chain_suffix ms p l q :
  chain ms p l → q ∈ l → ∃ l1 l2, l = l1 ++ q :: l2 ∧ chain ms q (q :: l2).
Proof.
  induction 1 as [|p b l Hp Hb Hc IH]; intros Hq; [by apply not_elem_of_nil in Hq|].
  apply elem_of_cons in Hq as [->|Hq].
  - exists [], l. split; [done|]. by econstructor.
  - destruct (IH Hq) as (l1 & l2 & -> & Hc2). by exists (p :: l1), l2.
Qed.

Lemma chain_NoDup ms p l : chain ms p l → NoDup l.
Proof.
  induction 1 as [|p b l Hp Hb Hc IH]; [constructor|]. constructor; [|done].
  intros Hin. destruct (chain_suffix ms _ l p Hc Hin) as (l1 & l2 & -> & Hc2).
  assert (chain ms p (p :: l1 ++ p :: l2)) as Hc3 by (by econstructor).
  pose proof (chain_det _ _ _ _ Hc2 Hc3) as [= Heq].
  apply (f_equal length) in Heq. rewrite length_app in Heq. cbn in Heq. lia.
Qed.

Lemma chain_lookup ms p l q : chain ms p l → q ∈ l → q ≠ 0 ∧ is_Some (ms !! q).
Proof.
  intros Hc Hq. destruct (chain_suffix ms p l q Hc Hq) as (l1 & l2 & _ & Hc2).
  inversion Hc2; subst; eauto.
Qed.

(** A chain has no more segments than there are buffers. *)
Lemma chain_length ms p l : chain ms p l → (length l ≤ size ms)%nat.
Proof.
  intros Hc. rewrite <- size_dom, <- (size_list_to_set (C := gset Z) l)
    by (by eapply chain_NoDup).
  apply subseteq_size. intros q Hq. apply elem_of_list_to_set in Hq.
  apply elem_of_dom. by eapply chain_lookup.
Qed.

(** A change of buffers outside of the chain leaves the chain alone. *)
Lemma chain_frame ms ms' p l :
  chain ms p l → (∀ q, q ∈ l → ms' !! q = ms !! q) → chain ms' p l.
Proof.
  induction 1 as [|p b l Hp Hb Hc IH]; intros Hq; [constructor|].
  econstructor; [done|rewrite Hq by constructor; done|].
  apply IH. intros q Hql. apply Hq. by constructor.
Qed.

(** The free list gains the segments nobody else references, in chain order. *)
Definition last_refs (ms : gmap Z rte_mbuf) (l : list Z) : list Z :=
  filter (λ p, mb_refcnt <$> ms !! p = Some 1) l.
(** The buffers after one reference to each segment of [l] is dropped. *)
Definition free_bufs (l : list Z) (ms : gmap Z rte_mbuf) : gmap Z rte_mbuf :=
  foldr (alter freed_buf) ms l.

Lemma free_bufs_step p l ms :
  free_bufs (p :: l) ms = alter freed_buf p (free_bufs l ms).
Proof. done. Qed.

Lemma free_bufs_notin l ms p : p ∉ l → free_bufs l ms !! p = ms !! p.
Proof.
  induction l as [|q l IH]; intros Hp; [done|]. rewrite free_bufs_step.
  apply not_elem_of_cons in Hp as [Hpq Hp]. rewrite lookup_alter_ne by congruence. by apply IH.
Qed.

Lemma free_bufs_in l ms p : NoDup l → p ∈ l → free_bufs l ms !! p = freed_buf <$> ms !! p.
Proof.
  induction 1 as [|q l Hq Hl IH]; intros Hp; [by apply not_elem_of_nil in Hp|].
  rewrite free_bufs_step. destruct (decide (p = q)) as [->|Hne].
  - by rewrite lookup_alter_eq, free_bufs_notin.
  - rewrite lookup_alter_ne by done. apply IH. by apply elem_of_cons in Hp as [?|?].
Qed.

Lemma free_bufs_cons p b l ms :
  p ∉ l → ms !! p = Some b →
  free_bufs l (<[p := freed_buf b]> ms) = free_bufs (p :: l) ms.
Proof.
  intros Hp Hb. apply map_eq. intros q. rewrite free_bufs_step.
  assert (∀ ms' : gmap Z rte_mbuf, ms' !! q = ms !! q → free_bufs l ms' !! q = free_bufs l ms !! q) as Hfr.
  { clear. intros ms' Heq. induction l as [|r l IH]; [done|]. rewrite !free_bufs_step.
    destruct (decide (r = q)) as [->|?];
      [by rewrite !lookup_alter_eq, IH|by rewrite !lookup_alter_ne]. }
  destruct (decide (p = q)) as [<-|Hne].
  - by rewrite lookup_alter_eq, !free_bufs_notin, lookup_insert_eq, Hb by done.
  - rewrite lookup_alter_ne by done. apply Hfr. by rewrite lookup_insert_ne.
Qed.

Lemma last_refs_frame ms ms' l :
  (∀ q, q ∈ l → ms' !! q = ms !! q) → last_refs ms' l = last_refs ms l.
Proof.
  unfold last_refs. induction l as [|p l IH]; intros Hq; [done|].
  rewrite !filter_cons, (Hq p) by constructor.
  by rewrite IH by (intros q Hql; apply Hq; by constructor).
Qed.

Section chain_rules.
Context {S : Type} `{PartLaws shm S}.

Lemma wp_free_loop pool l : ∀ fuel p c (Q : unit → S → Prop) s,
  (length l ≤ fuel)%nat → chain (mbufs (part_get s)) p l →
  rings_ok (rings (part_get s)) → chans (rings (part_get s)) !! pool = Some c →
  (∀ q b, q ∈ l → mbufs (part_get s) !! q = Some b → seg_ok pool b) →
  zlen (ch_q c) + zlen (last_refs (mbufs (part_get s)) l) ≤ ch_cap c →
  (∀ rs, rings_ok rs →
     chans rs = <[pool := mk_chan (ch_cap c) (ch_wm c)
                   (ch_q c ++ last_refs (mbufs (part_get s)) l)]>
                  (chans (rings (part_get s))) →
     Q tt (part_set (mk_shm rs (cmds (part_get s)) (g_sockets (part_get s))
                       (free_bufs l (mbufs (part_get s)))) s)) →
  wp (free_loop fuel p) Q s.
Proof.
  induction l as [|p' l IH]; intros fuel p c Q s Hfuel Hch Hok Hc Hseg Hroom HQ.
  { inversion Hch; subst. assert (wp (free_loop fuel 0) Q s ↔ Q tt s) as -> by (by destruct fuel).
    rewrite <- (part_set_get s).
    destruct (part_get s) as [rs cs gs ms] eqn:Hs. apply HQ; [done|]. cbn.
    rewrite app_nil_r. symmetry. apply insert_id. destruct c. exact Hc. }
  pose proof (chain_NoDup _ _ _ Hch) as Hnd. apply NoDup_cons in Hnd as [Hp Hnd].
  inversion Hch as [|? b ? Hp0 Hb Hch']; subst.
  destruct fuel as [|fuel]; [cbn in Hfuel; lia|]. cbn.
  destruct (Z.eqb_spec p' 0); [done|]. rewrite wp_bind.
  apply (wp_mbuf_read _ b); [done|]. rewrite wp_bind.
  assert (seg_ok pool b) as Hsb by (apply (Hseg p'); [constructor|done]).
  assert (∀ q, q ∈ l → <[p' := freed_buf b]> (mbufs (part_get s)) !! q
            = mbufs (part_get s) !! q) as Hfr.
  { intros q Hq. apply lookup_insert_ne. intros <-. done. }
  assert (last_refs (mbufs (part_get s)) (p' :: l)
          = (if mb_refcnt b =? 1 then [p'] else []) ++ last_refs (mbufs (part_get s)) l) as Hlast.
  { unfold last_refs. rewrite filter_cons, Hb. cbn.
    destruct (Z.eqb_spec (mb_refcnt b) 1) as [->|H1].
    - by rewrite decide_True.
    - rewrite decide_False; [done|]. by intros [= ?]. }
  rewrite Hlast in *. rewrite zlen_app in Hroom.
  pose proof (zlen_nonneg (last_refs (mbufs (part_get s)) l)).
  eapply (wp_free_seg pool _ b c); [done..| |].
  { intros Hone. rewrite Hone in Hroom. cbn in Hroom. unfold zlen at 2 in Hroom. cbn in Hroom. lia. }
  intros rs Hrs Hchs. eapply (IH fuel); rewrite ?part_get_set; cbn [rings cmds g_sockets mbufs].
  - cbn in Hfuel. lia.
  - by apply (chain_frame (mbufs (part_get s))).
  - done.
  - rewrite Hchs. apply lookup_insert_eq.
  - intros q b' Hq. rewrite Hfr by done. intros Hb'. apply (Hseg q); [by constructor|done].
  - rewrite (last_refs_frame (mbufs (part_get s))) by done. cbn [ch_q ch_cap]. rewrite zlen_app. lia.
  - intros rs' Hrs' Hchs'. rewrite part_set_set, free_bufs_cons by done.
    apply HQ; [done|]. cbn [ch_q ch_cap ch_wm] in Hchs'.
    rewrite (last_refs_frame (mbufs (part_get s))), <- app_assoc in Hchs' by done.
    by rewrite Hchs', Hchs, insert_insert_eq.
Qed.

Lemma wp_pktmbuf_free pool l p c (Q : unit → S → Prop) s :
  chain (mbufs (part_get s)) p l →
  rings_ok (rings (part_get s)) → chans (rings (part_get s)) !! pool = Some c →
  (∀ q b, q ∈ l → mbufs (part_get s) !! q = Some b → seg_ok pool b) →
  zlen (ch_q c) + zlen (last_refs (mbufs (part_get s)) l) ≤ ch_cap c →
  (∀ rs, rings_ok rs →
     chans rs = <[pool := mk_chan (ch_cap c) (ch_wm c)
                   (ch_q c ++ last_refs (mbufs (part_get s)) l)]>
                  (chans (rings (part_get s))) →
     Q tt (part_set (mk_shm rs (cmds (part_get s)) (g_sockets (part_get s))
                       (free_bufs l (mbufs (part_get s)))) s)) →
  wp (rte_pktmbuf_free p) Q s.
Proof.
  intros Hch ?????. unfold rte_pktmbuf_free, chain_fuel. rewrite wp_bind, wp_gets.
  apply (wp_free_loop pool l _ _ c); try done.
  pose proof (chain_length _ _ _ Hch). lia.
Qed.

Lemma wp_lastseg p l q (Q : Z → S → Prop) s :
  chain (mbufs (part_get s)) p (l ++ [q]) → Q q s → wp (rte_pktmbuf_lastseg p) Q s.
Proof.
  intros Hch HQ. unfold rte_pktmbuf_lastseg, chain_fuel. rewrite wp_bind, wp_gets.
  pose proof (chain_length _ _ _ Hch) as Hlen. rewrite length_app in Hlen. cbn in Hlen.
  generalize dependent p.
  assert (length l < Datatypes.S (size (mbufs (part_get s))))%nat as Hl by lia. clear Hlen.
  revert Hl. generalize (Datatypes.S (size (mbufs (part_get s)))) as fuel.
  induction l as [|p' l IH]; intros fuel Hl p Hch;
    (destruct fuel as [|fuel]; [lia|]); inversion Hch as [|? b ? Hp0 Hb Hch']; subst; cbn;
    rewrite wp_bind; (apply (wp_mbuf_read _ b); [done|]).
  - inversion Hch' as [Hn|]; subst. exact HQ.
  - assert (mb_next b ≠ 0) as Hn.
    { inversion Hch' as [Hn Hl'|? ? ? Hn]; subst; [|done]. by destruct l. }
    destruct (Z.eqb_spec (mb_next b) 0); [done|]. apply IH; [cbn in Hl; lia|done].
Qed.

(** One reference more for each segment. *)
Definition ref_bufs (l : list Z) (ms : gmap Z rte_mbuf) : gmap Z rte_mbuf :=
  foldr (alter (λ b, b <| mb_refcnt := mb_refcnt b + 1 |>)) ms l.

Lemma wp_refcnt_up p b (Q : Z → S → Prop) s :
  mbufs (part_get s) !! p = Some b → 0 < mb_refcnt b → mb_refcnt b + 1 < 2 ^ 16 →
  (∀ n, Q n (part_set ((part_get s : shm) <| mbufs := ref_bufs [p] (mbufs (part_get s)) |>) s)) →
  wp (rte_mbuf_refcnt_update p 1) Q s.
Proof.
  intros Hb Hr0 Hr1 HQ. cbn [ref_bufs foldr] in HQ. rewrite (alter_insert_lookup _ _ _ b) in HQ by done.
  unfold rte_mbuf_refcnt_update. rewrite wp_bind.
  eapply wp_mbuf_read; [done|]. cbv zeta.
  assert (wrap16 (mb_refcnt b + 1) = mb_refcnt b + 1) as -> by (apply Z.mod_small; lia).
  destruct (Z.eqb_spec (mb_refcnt b) 1) as [E|E]; rewrite wp_bind;
    (eapply wp_mbuf_write; [done|]); rewrite wp_ret; [|apply HQ].
  assert (wrap16 (1 + 1) = mb_refcnt b + 1) as -> by (rewrite E; done). apply HQ.
Qed.

Lemma ref_bufs_lookup l ms q :
  NoDup l → ref_bufs l ms !! q =
    (λ b, b <| mb_refcnt := mb_refcnt b + (if decide (q ∈ l) then 1 else 0) |>) <$> ms !! q.
Proof.
  induction 1 as [|p l Hp Hnd IH]; cbn [ref_bufs foldr].
  - destruct (ms !! q) as [b|]; [|done]. cbn. f_equal. destruct b.
    cbn. by rewrite decide_False, Z.add_0_r by (by apply not_elem_of_nil).
  - fold (ref_bufs l ms). destruct (decide (p = q)) as [<-|Hne].
    + rewrite lookup_alter_eq, IH. destruct (ms !! p) as [b|]; [|done]. cbn.
      rewrite (decide_False (P := p ∈ l)) by done. rewrite decide_True by constructor. by rewrite Z.add_0_r.
    + rewrite lookup_alter_ne, IH by done. destruct (ms !! q) as [b|]; [|done]. cbn. do 2 f_equal.
      destruct (decide (q ∈ l)).
      * by rewrite decide_True by (by constructor).
      * rewrite decide_False; [done|]. intros [->|?]%elem_of_cons; done.
Qed.

Lemma ref_bufs_one p l ms : ref_bufs l (ref_bufs [p] ms) = ref_bufs (p :: l) ms.
Proof.
  unfold ref_bufs. induction l as [|q l IH]; [done|]. cbn [foldr] in *. rewrite IH.
  destruct (decide (p = q)) as [<-|]; [done|by apply partial_alter_alter_ne].
Qed.

Lemma wp_refcnt_chain p l (Q : unit → S → Prop) s :
  chain (mbufs (part_get s)) p l → l ≠ [] →
  (∀ q b, q ∈ l → mbufs (part_get s) !! q = Some b → 0 < mb_refcnt b ∧ mb_refcnt b + 1 < 2 ^ 16) →
  Q tt (part_set ((part_get s : shm) <| mbufs := ref_bufs l (mbufs (part_get s)) |>) s) →
  wp (rte_pktmbuf_refcnt_update p 1) Q s.
Proof.
  intros Hch Hl Hr HQ. unfold rte_pktmbuf_refcnt_update, chain_fuel. rewrite wp_bind, wp_gets.
  assert (length l < Datatypes.S (size (mbufs (part_get s))))%nat as Hf
    by (pose proof (chain_length _ _ _ Hch); lia).
  revert Hf. generalize (Datatypes.S (size (mbufs (part_get s)))) as fuel.
  revert p s Hch Hl Hr HQ. induction l as [|p' l IH]; intros p s Hch Hl Hr HQ fuel Hf; [done|].
  destruct fuel as [|fuel]; [lia|]. pose proof (chain_NoDup _ _ _ Hch) as [Hp Hnd]%NoDup_cons.
  inversion Hch as [|? b ? Hp0 Hb Hch']; subst. cbn [refcnt_update_loop]. rewrite wp_bind.
  destruct (Hr p' b ltac:(constructor) Hb) as [Hr0 Hr1].
  eapply wp_refcnt_up; [done..|]. intros n. cbn beta. rewrite wp_bind.
  eapply wp_mbuf_read; [rewrite part_get_set; cbn; rewrite lookup_alter_eq, Hb; done|].
  match goal with |- context [mb_next ?x =? 0] => change (mb_next x) with (mb_next b) end.
  destruct l as [|q l].
  - assert (mb_next b = 0) as E by (by inversion Hch'). rewrite E. exact HQ.
  - assert (mb_next b = q ∧ q ≠ 0) as [E Hq0] by by inversion Hch'.
    rewrite E.
    destruct (Z.eqb_spec q 0); [done|]. rewrite E in Hch'.
    assert (∀ q', q' ∈ q :: l → ref_bufs [p'] (mbufs (part_get s)) !! q' = mbufs (part_get s) !! q') as Hfr.
    { intros q' Hq'. cbn. rewrite lookup_alter_ne; [done|]. by intros <-. }
    apply IH; rewrite ?part_get_set; cbn [mbufs]; [|done| | |cbn in Hf |- *; lia].
    + by apply (chain_frame (mbufs (part_get s))).
    + intros q' b' Hq'. change (ref_bufs [p'] (mbufs (part_get s)) !! q' = Some b' →
        0 < mb_refcnt b' ∧ mb_refcnt b' + 1 < 2 ^ 16). rewrite Hfr by done. apply Hr. by constructor.
    + rewrite part_set_set. rewrite <- ref_bufs_one in HQ.
      destruct (part_get s) as [rs cs gs ms]. exact HQ.
Qed.
End chain_rules.

(** ** Theorems *)

Lemma le_word_bytes n : ∀ x, 0 ≤ x < 256 ^ Z.of_nat n → le_word (le_bytes n x) = x.
Proof.
  induction n as [|n IH]; intros x Hx; cbn [le_bytes le_word]; [cbn in Hx; lia|].
  rewrite Nat2Z.inj_succ, Z.pow_succ_r in Hx by lia.
  rewrite IH; [|split; [apply Z.div_pos; lia|apply Z.div_lt_upper_bound; lia]].
  pose proof (Z.div_mod x 256). lia.
Qed.

Lemma length_le_bytes n x : length (le_bytes n x) = n.
Proof. revert x. induction n as [|n IH]; intros x; cbn; [done|]. by rewrite IH. Qed.

Lemma slice_app_r l k i n :
  zlen l ≤ i → slice (l ++ k) i n = slice k (i - zlen l) n.
Proof.
  intros Hi. apply fmap_seqZ_ext. intros j Hj. rewrite lget_app_r by lia. f_equal. lia.
Qed.

Lemma slice_app_l l k n : zlen l = n → slice (l ++ k) 0 n = l.
Proof.
  intros <-. transitivity (slice l 0 (zlen l)); [|apply slice_all]. apply fmap_seqZ_ext. intros j Hj.
  apply lget_app_l. lia.
Qed.

Lemma zlen_sockaddr_bytes a : sockaddr_ok a → zlen (sockaddr_bytes a) = sizeof_sockaddr_in.
Proof.
  intros (_ & _ & _ & Hz). unfold sockaddr_bytes.
  rewrite !zlen_app, Hz. unfold zlen. rewrite !length_le_bytes. done.
Qed.

Lemma bytes_sockaddr_bytes a : sockaddr_ok a → bytes_sockaddr (sockaddr_bytes a) = a.
Proof.
  intros (Hf & Hp & Ha & Hz). unfold bytes_sockaddr, sockaddr_bytes.
  assert (∀ n x, zlen (le_bytes n x) = Z.of_nat n) as Hl
    by (intros; unfold zlen; by rewrite length_le_bytes).
  set (f := le_bytes 2 (sin_family a)). set (q := le_bytes 2 (sin_port a)).
  set (d := le_bytes 4 (sin_addr a)).
  assert (zlen f = 2 ∧ zlen q = 2 ∧ zlen d = 4) as (Lf & Lq & Ld) by (unfold f, q, d; by rewrite !Hl).
  rewrite (slice_app_l f _ 2 Lf).
  rewrite (slice_app_r f _ 2) by lia. rewrite Lf, (slice_app_l q _ 2 Lq).
  rewrite (slice_app_r f _ 4), (slice_app_r q) by lia. rewrite Lf, Lq, (slice_app_l d _ 4 Ld).
  rewrite (slice_app_r f _ 8), (slice_app_r q), (slice_app_r d) by lia. rewrite Lf, Lq, Ld.
  replace (slice (sin_zero a) _ 8) with (sin_zero a) 
    by (change (8 - 2 - 2 - 4) with 0; rewrite <- Hz; symmetry; apply slice_all).
  unfold f, q, d. rewrite !le_word_bytes by (cbn; lia). by destruct a.
Qed.

Section buf_rules.
Context {S : Type} `{PartLaws shm S}.

(** The buffer [b] with [bs] written at offset [off]. *)
Definition overwrite (b : list Z) (off : Z) (bs : list Z) : list Z :=
  take (Z.to_nat off) b ++ bs ++ drop (Z.to_nat (off + zlen bs)) b.

Lemma slice_overwrite b off bs :
  0 ≤ off → off + zlen bs ≤ zlen b → slice (overwrite b off bs) off (zlen bs) = bs.
Proof.
  intros H1 H2. unfold overwrite. unfold zlen in H2.
  assert (zlen (take (Z.to_nat off) b) = off) as Ht
    by (unfold zlen; rewrite length_take; lia).
  rewrite slice_app_r by lia. rewrite Ht, Z.sub_diag. by apply slice_app_l.
Qed.

Lemma zlen_overwrite b off bs :
  0 ≤ off → off + zlen bs ≤ zlen b → zlen (overwrite b off bs) = zlen b.
Proof.
  unfold overwrite, zlen. intros. rewrite !length_app, length_take, length_drop. lia.
Qed.

Lemma wp_store_sockaddr p b a (Q : unit → S → Prop) s :
  mbufs (part_get s) !! p = Some b → sockaddr_ok a →
  sizeof_sockaddr_in ≤ mb_data_off b ≤ zlen (mb_buf b) →
  Q tt (part_set ((part_get s : shm) <| mbufs := <[p :=
    b <| mb_buf := overwrite (mb_buf b) (mb_data_off b - sizeof_sockaddr_in)
                     (sockaddr_bytes a) |>]> (mbufs (part_get s)) |>) s) →
  wp (store_sockaddr p a) Q s.
Proof.
  intros Hb Ha Hoff HQ. unfold store_sockaddr, rte_pktmbuf_mtod, buf_store.
  rewrite !wp_bind. apply (wp_mbuf_read _ b); [done|]. rewrite wp_ret, wp_bind.
  apply (wp_mbuf_read _ b); [done|]. rewrite wp_bind, wp_require.
  pose proof (zlen_sockaddr_bytes a Ha) as Hl. unfold sizeof_sockaddr_in in *.
  split; [apply andb_true_intro; split; apply Z.leb_le; lia|].
  by apply (wp_mbuf_write _ b).
Qed.

Lemma wp_load_sockaddr p b (Q : sockaddr_in → S → Prop) s :
  mbufs (part_get s) !! p = Some b →
  sizeof_sockaddr_in ≤ mb_data_off b ≤ zlen (mb_buf b) →
  Q (bytes_sockaddr (slice (mb_buf b) (mb_data_off b - sizeof_sockaddr_in)
                       sizeof_sockaddr_in)) s →
  wp (load_sockaddr p) Q s.
Proof.
  intros Hb Hoff HQ. unfold load_sockaddr, rte_pktmbuf_mtod, buf_load.
  rewrite !wp_bind. apply (wp_mbuf_read _ b); [done|]. rewrite wp_ret, !wp_bind.
  apply (wp_mbuf_read _ b); [done|]. rewrite wp_bind, wp_require.
  unfold sizeof_sockaddr_in in *.
  split; [apply andb_true_intro; split; apply Z.leb_le; lia|]. by rewrite !wp_ret.
Qed.

End buf_rules.

(** ** Changes of a buffer *)

(** A buffer with a new length, and with an address in front of its data. *)
Definition with_len (len : Z) (b : rte_mbuf) : rte_mbuf := b <| mb_data_len := wrap16 len |>.
Definition with_addr (a : sockaddr_in) (b : rte_mbuf) : rte_mbuf :=
  b <| mb_buf := overwrite (mb_buf b) (mb_data_off b - sizeof_sockaddr_in) (sockaddr_bytes a) |>.
Definition addr_room (a : sockaddr_in) (b : rte_mbuf) : Prop :=
  sockaddr_ok a ∧ sizeof_sockaddr_in ≤ mb_data_off b ≤ zlen (mb_buf b).

Lemma wp_mbuf_alter {S} `{PartLaws shm S} p f (Q : unit → S → Prop) s :
  is_Some (mbufs (part_get s) !! p) →
  Q tt (part_set ((part_get s : shm) <| mbufs := alter f p (mbufs (part_get s)) |>) s) →
  wp (mbuf_write p f) Q s.
Proof.
  intros [b Hb] HQ. apply (wp_mbuf_write _ b); [done|].
  by rewrite (alter_insert_lookup _ _ _ b) in HQ.
Qed.

Lemma wp_set_len {S} `{PartLaws shm S} p len (Q : unit → S → Prop) s :
  is_Some (mbufs (part_get s) !! p) →
  Q tt (part_set ((part_get s : shm) <| mbufs := alter (with_len len) p (mbufs (part_get s)) |>) s) →
  wp (set_data_len p len) Q s.
Proof. intros Hb HQ. by apply wp_mbuf_alter. Qed.

Lemma wp_store_alter {S} `{PartLaws shm S} p b a (Q : unit → S → Prop) s :
  mbufs (part_get s) !! p = Some b → addr_room a b →
  Q tt (part_set ((part_get s : shm) <| mbufs := alter (with_addr a) p (mbufs (part_get s)) |>) s) →
  wp (store_sockaddr p a) Q s.
Proof.
  intros Hb [Ha Hoff] HQ. apply (wp_store_sockaddr _ b); [done..|].
  by rewrite (alter_insert_lookup _ _ _ b) in HQ.
Qed.

(** ** Freeing a packet, and addresses in front of the data *)

(** C29. [rte_pktmbuf_free] drops one reference to every segment of the chain and
    puts back in the pool, in chain order, exactly the segments nobody else
    references; other buffers, rings and blocks are untouched.  Where the chain
    has a shared tail this is what keeps the tail alive. *)
Theorem pktmbuf_free_spec pool l p c (m : shm) :
  chain (mbufs m) p l → rings_ok (rings m) → chans (rings m) !! pool = Some c →
  (∀ q b, q ∈ l → mbufs m !! q = Some b → seg_ok pool b) →
  zlen (ch_q c) + zlen (last_refs (mbufs m) l) ≤ ch_cap c →
  wp (rte_pktmbuf_free p) (λ _ m',
    rings_ok (rings m') ∧ cmds m' = cmds m ∧ g_sockets m' = g_sockets m ∧
    chans (rings m') = <[pool := mk_chan (ch_cap c) (ch_wm c) (ch_q c ++ last_refs (mbufs m) l)]>
                         (chans (rings m)) ∧
    (∀ q, q ∈ l → mbufs m' !! q = freed_buf <$> mbufs m !! q) ∧
    (∀ q, q ∉ l → mbufs m' !! q = mbufs m !! q)) m.
Proof.
  intros Hch Hok Hc Hseg Hroom. apply (wp_pktmbuf_free pool l p c); [done..|].
  intros rs Hrs Hchs. cbn [rings cmds g_sockets mbufs part_set part_refl].
  split_and!; [done..| |].
  - intros q Hq. apply free_bufs_in; [by eapply chain_NoDup|done].
  - intros q Hq. by apply free_bufs_notin.
Qed.

(** An address written in front of a buffer's data is what a reader of the
    buffer finds there, for every address whose fields have their width and
    every buffer with 16 bytes of headroom; the data and the buffer's other
    fields are unchanged. *)
Theorem sockaddr_roundtrip p b a (m : shm) :
  mbufs m !! p = Some b → sockaddr_ok a → sizeof_sockaddr_in ≤ mb_data_off b ≤ zlen (mb_buf b) →
  wp (_ ← store_sockaddr p a; load_sockaddr p) (λ a' m',
    a' = a ∧ rings m' = rings m ∧
    ∃ buf, mbufs m' = <[p := b <| mb_buf := buf |>]> (mbufs m) ∧ zlen buf = zlen (mb_buf b) ∧
      ∀ i, mb_data_off b ≤ i < zlen (mb_buf b) → lget buf i = lget (mb_buf b) i) m.
Proof.
  intros Hb Ha Hoff. pose proof (zlen_sockaddr_bytes a Ha) as Hl.
  unfold sizeof_sockaddr_in in *. rewrite wp_bind. apply (wp_store_sockaddr p b); [done..|].
  set (buf := overwrite _ _ _).
  assert (zlen buf = zlen (mb_buf b)) as Hlen
    by (apply zlen_overwrite; unfold sizeof_sockaddr_in; lia).
  eapply (wp_load_sockaddr p (b <| mb_buf := buf |>)).
  { cbn. apply lookup_insert_eq. }
  { change (16 ≤ mb_data_off b ≤ zlen buf). lia. }
  split_and!; [|done|].
  - change (bytes_sockaddr (slice buf (mb_data_off b - 16) 16) = a).
    unfold buf. rewrite <- Hl at 2. unfold sizeof_sockaddr_in.
    rewrite slice_overwrite by lia. by apply bytes_sockaddr_bytes.
  - exists buf. split_and!; [done..|]. intros i Hi. unfold buf, overwrite, sizeof_sockaddr_in.
    assert (zlen (take (Z.to_nat (mb_data_off b - 16)) (mb_buf b)) = mb_data_off b - 16) as Ht
      by (unfold zlen in *; rewrite length_take; lia).
    rewrite lget_app_r by lia. rewrite Ht, lget_app_r by lia. rewrite Hl.
    unfold lget, zlen in *. rewrite lookup_drop. do 2 f_equal. lia.
Qed.

(** *** Concrete instances *)

Definition demo_mbuf (refcnt next : Z) : rte_mbuf :=
  mk_mbuf 128 refcnt 2 255 0 0 20 10 0 0 0 MBUFS_MEMPOOL next (replicate 256 0).
(** A packet of segments 10 and 11, the second shared with somebody else. *)
Definition demo_packets : shm :=
  mk_shm (list_to_map [(MBUFS_MEMPOOL, demo_ring 0 8 [12])]) ∅ ∅
    {[ 10 := demo_mbuf 1 11; 11 := demo_mbuf 2 0; 12 := demo_mbuf 0 0 ]}.
Definition demo_mbuf_pool : chan := mk_chan 7 8 [12].

Lemma demo_chain : chain (mbufs demo_packets) 10 [10; 11].
Proof. repeat (econstructor; [done|reflexivity|]). constructor. Qed.

Lemma demo_packets_rings : rings_ok (rings demo_packets).
Proof. apply demo_rings_ok. repeat constructor. do 3 eexists. split; [done|cbn; lia]. Qed.

Lemma pktmbuf_free_spec_witness :
  let c := demo_mbuf_pool in let m := demo_packets in let l := [10; 11] in
  chain (mbufs m) 10 l ∧ last_refs (mbufs m) l = [10] ∧
  wp (rte_pktmbuf_free 10) (λ _ m',
    rings_ok (rings m') ∧ cmds m' = cmds m ∧ g_sockets m' = g_sockets m ∧
    chans (rings m') = <[MBUFS_MEMPOOL := mk_chan 7 8 ([12] ++ last_refs (mbufs m) l)]>
                         (chans (rings m)) ∧
    (∀ q, q ∈ l → mbufs m' !! q = freed_buf <$> mbufs m !! q) ∧
    (∀ q, q ∉ l → mbufs m' !! q = mbufs m !! q)) m.
Proof.
  intros c m l. split; [apply demo_chain|]. split; [vm_compute; done|].
  apply (pktmbuf_free_spec MBUFS_MEMPOOL l 10 c m demo_chain demo_packets_rings).
  - vm_compute. done.
  - intros q b Hq Hb. unfold l in Hq.
    apply elem_of_cons in Hq as [->|Hq];
      [|apply list_elem_of_singleton in Hq; subst q]; cbn in Hb;
      apply (inj Some) in Hb; subst b; by repeat split.
  - vm_compute. done.
Defined.

Definition demo_sockaddr : sockaddr_in := mk_sockaddr AF_INET 0x5000 0x0100007f (replicate 8 0).
Lemma sockaddr_roundtrip_witness :
  let m := demo_packets in let b := demo_mbuf 1 11 in let a := demo_sockaddr in
  sockaddr_ok a ∧
  wp (_ ← store_sockaddr 10 a; load_sockaddr 10) (λ a' m',
    a' = a ∧ rings m' = rings m ∧
    ∃ buf, mbufs m' = <[10 := b <| mb_buf := buf |>]> (mbufs m) ∧ zlen buf = zlen (mb_buf b) ∧
      ∀ i, mb_data_off b ≤ i < zlen (mb_buf b) → lget buf i = lget (mb_buf b) i) m.
Proof.
  intros m b a. assert (sockaddr_ok a) as Ha by by vm_compute.
  split; [exact Ha|]. apply (sockaddr_roundtrip 10 b a m); [reflexivity|exact Ha|].
  vm_compute. by split.
Defined.
