(* ===== verification/App.v ===== *)
(** * The application library: state and commands
    (ipaugenblick_app_api/ipaugenblick_api.c, ipaugenblick_ring_ops.h)

    An application process keeps a descriptor per connection, a record per
    selector and statistics; all else it does to the shared memory of [Mem].
    This file has the process state, initialisation, the calls that send a
    command to the service, and the ready cache of a selector; [AppData] has
    the data path and [AppSelect] has [ipaugenblick_select].

    Arrays ([local_socket_descriptors], [selectors], the arrays of a descriptor
    set) are finite maps on their index range, so an index out of bounds is a
    [fault].  [NULL] is 0 for a buffer and [None] for a ring or a connection
    block.  Log calls are left out. *)

From S2P Require Import Prelude Ring Mem Mbuf.

(** ** State *)

Inductive stat :=
  | stats_receive_called | stats_send_called | stats_rx_kicks_sent
  | stats_tx_kicks_sent | stats_rx_full | stats_rx_dequeued
  | stats_rx_dequeued_local | stats_select_called | stats_select_returned
  | stats_tx_buf_allocation_failure | stats_send_failure | stats_recv_failure
  | stats_buffers_sent | stats_buffers_allocated | stats_cannot_allocate_cmd
  | stats_rx_returned | stats_accepted | stats_flush_local | stats_flush.

#[export] Instance stat_eq_dec : EqDecision stat.
Proof. solve_decision. Defined.

Record local_socket_descriptor := mk_lsd {
  lsd_tx_ring : option ring_id;
  lsd_rx_ring : option ring_id;
  lsd_socket : option Z;
  lsd_select : Z;
  lsd_local_cache : option ring_id;
  lsd_any_event_received : Z;
  lsd_shadow : Z;
  lsd_shadow_next : Z;
  lsd_shadow_len_remainder : Z;
  lsd_shadow_len_delievered : Z;
  lsd_local_ipaddr : Z;
  lsd_local_port : Z;
  lsd_remote_ipaddr : Z;
  lsd_remote_port : Z;
  lsd_present_in_ready_cache : Z;
  lsd_local_mask : Z;
}.
#[export] Instance eta_lsd : Eta local_socket_descriptor := λ d,
  mk_lsd (lsd_tx_ring d) (lsd_rx_ring d) (lsd_socket d) (lsd_select d) (lsd_local_cache d)
    (lsd_any_event_received d) (lsd_shadow d) (lsd_shadow_next d)
    (lsd_shadow_len_remainder d) (lsd_shadow_len_delievered d)
    (lsd_local_ipaddr d) (lsd_local_port d) (lsd_remote_ipaddr d) (lsd_remote_port d)
    (lsd_present_in_ready_cache d) (lsd_local_mask d).

(** [sel_local_ready_cache] is the TAILQ of descriptors, by index. *)
Record selector_t := mk_selector {
  sel_ready_connections : option ring_id;
  sel_local_ready_cache : list Z;
  sel_queue_length : Z;
  sel_level_mode : Z;
}.
#[export] Instance eta_selector : Eta selector_t := λ s,
  mk_selector (sel_ready_connections s) (sel_local_ready_cache s) (sel_queue_length s)
    (sel_level_mode s).

Record ipaugenblick_fdset := mk_fdset {
  interested_flags : gmap Z Z;
  returned_flags : gmap Z Z;
  returned_sockets : gmap Z Z;
  returned_idx : Z;
}.
#[export] Instance eta_fdset : Eta ipaugenblick_fdset := λ f,
  mk_fdset (interested_flags f) (returned_flags f) (returned_sockets f) (returned_idx f).

(** [app_fdsets] are the caller's descriptor sets, by address; [app_updates]
    records the calls of the update callback, as command, buffer, offset and
    length. *)
Record app := mk_app {
  lsds : gmap Z local_socket_descriptor;
  selectors : gmap Z selector_t;
  client_ring : option ring_id;
  g_client_ringset_idx : Z;
  update_cbk : bool;
  app_stats : stat → Z;
  app_pid : Z;
  app_unique_id : string;
  app_fdsets : gmap Z ipaugenblick_fdset;
  app_updates : list (Z * Z * Z * Z);
}.
#[export] Instance eta_app : Eta app := λ a,
  mk_app (lsds a) (selectors a) (client_ring a) (g_client_ringset_idx a) (update_cbk a)
    (app_stats a) (app_pid a) (app_unique_id a) (app_fdsets a) (app_updates a).

(** A process: its own state and the shared memory. *)
Record proc := mk_proc { p_shm : shm; p_app : app }.
#[export] Instance eta_proc : Eta proc := λ p, mk_proc (p_shm p) (p_app p).
#[export] Instance part_shm_proc : Part shm proc :=
  {| part_get := p_shm; part_set := λ m p, p <| p_shm := m |> |}.
#[export] Instance part_laws_proc : PartLaws shm proc.
Proof. split; by try intros ? ? []; try intros ? []; try intros []. Qed.

Definition on_app (f : app → app) : M proc unit := modify (λ p, p <| p_app := f (p_app p) |>).
Definition app_get {A} (f : app → A) : M proc A := gets (λ p, f (p_app p)).

Definition stat_add (st : stat) (n : Z) : M proc unit :=
  on_app (λ a, a <| app_stats := λ st',
    if decide (st' = st) then wrap64 (app_stats a st + n) else app_stats a st' |>).
Definition stat_inc (st : stat) : M proc unit := stat_add st 1.

Definition lsd_read (i : Z) : M proc local_socket_descriptor :=
  d ← app_get (λ a, lsds a !! i); of_option d.
Definition lsd_write (i : Z) (f : local_socket_descriptor → local_socket_descriptor)
    : M proc unit :=
  d ← lsd_read i; on_app (λ a, a <| lsds := <[i := f d]> (lsds a) |>).
Definition sel_read (i : Z) : M proc selector_t :=
  s ← app_get (λ a, selectors a !! i); of_option s.
Definition sel_write (i : Z) (f : selector_t → selector_t) : M proc unit :=
  s ← sel_read i; on_app (λ a, a <| selectors := <[i := f s]> (selectors a) |>).

(** The connection block of a descriptor; [NULL] is a fault. *)
Definition lsd_socket_ptr (i : Z) : M proc Z := d ← lsd_read i; of_option (lsd_socket d).

Definition getpid : M proc Z := app_get app_pid.

(** ** Initialisation *)

(** [lookup] is a ring or pool lookup whose failure returns -1. *)
Definition lookup_ok (id : ring_id) : M proc bool :=
  r ← rte_ring_lookup id; mret (match r : option rte_ring with Some _ => true | None => false end).

Definition zero_lsd : local_socket_descriptor :=
  mk_lsd None None None 0 None 0 0 0 0 0 0 0 0 0 0 0.

(** One round of the loop over the connections. *)
Definition init_descriptor (reserve : string → option (list Z)) (i : Z) : M proc unit :=
  rx ← lookup_ok (RX_RING i);
  if negb rx then exit_ else
  _ ← lsd_write i (λ d, d <| lsd_rx_ring := Some (RX_RING i) |>);
  tx ← lookup_ok (TX_RING i);
  if negb tx then exit_ else
  _ ← lsd_write i (λ d, d <| lsd_tx_ring := Some (TX_RING i) |> <| lsd_select := -1 |>
                          <| lsd_socket := None |>);
  uid ← app_get app_unique_id;
  let cache := LOCAL_CACHE uid i in
  created ← rte_ring_create reserve cache 64 (Z.lor RING_F_SC_DEQ RING_F_SP_ENQ);
  found ← lookup_ok cache;
  if negb (created || found) then exit_ else
  lsd_write i (λ d, d <| lsd_local_cache := Some cache |> <| lsd_any_event_received := 0 |>).

Definition init_selector (i : Z) : M proc unit :=
  ready ← lookup_ok (READY_RING i);
  if negb ready then
    _ ← sel_write i (λ s, s <| sel_ready_connections := None |>); exit_
  else
    sel_write i (λ s, s <| sel_ready_connections := Some (READY_RING i) |>
                       <| sel_local_ready_cache := [] |> <| sel_queue_length := 0 |>).

(** [eal] is the result of [rte_eal_init].  The signal handlers and the CPU
    affinity set at the end change nothing modelled. *)
Definition ipaugenblick_app_init (eal : Z) (reserve : string → option (list Z)) (uid : string)
    : M proc Z :=
  _ ← on_app (λ a, a <| app_unique_id := uid |>);
  if eal <? 0 then mret (-1) else
  clients ← lookup_ok FREE_CLIENTS_RING;
  if negb clients then exit_ else
  connections ← lookup_ok FREE_CONNECTIONS_RING;
  if negb connections then mret (-1) else
  pool ← lookup_ok FREE_CONNECTIONS_POOL;
  if negb pool then mret (-1) else
  _ ← on_app (λ a, a <| lsds := list_to_map
         ((λ i, (i, zero_lsd)) <$> seqZ 0 IPAUGENBLICK_CONNECTION_POOL_SIZE) |>);
  _ ← for_each (seqZ 0 IPAUGENBLICK_CONNECTION_POOL_SIZE) (init_descriptor reserve);
  bufs ← lookup_ok MBUFS_MEMPOOL;
  if negb bufs then mret (-1) else
  cmds ← lookup_ok FREE_COMMAND_POOL;
  if negb cmds then mret (-1) else
  ring ← lookup_ok COMMAND_RING;
  if negb ring then mret (-1) else
  rx_bufs ← lookup_ok RX_MBUFS_RING;
  if negb rx_bufs then mret (-1) else
  _ ← for_each (seqZ 0 IPAUGENBLICK_SELECTOR_POOL_SIZE) init_selector;
  mret 0.

(** ** The ready cache of a selector *)

(** [_ipaugenblick_remove_socket_from_cache]; its [select] argument is only
    logged. *)
Definition _ipaugenblick_remove_socket_from_cache (i : Z) : M proc unit :=
  d ← lsd_read i;
  if negb (lsd_select d =? -1) && negb (lsd_present_in_ready_cache d =? 0) then
    s ← sel_read (lsd_select d);
    if negb (sel_level_mode s =? 0) then
      l ← tailq_remove (sel_local_ready_cache s) i;
      _ ← sel_write (lsd_select d) (λ s, s <| sel_local_ready_cache := l |>);
      _ ← lsd_write i (λ d, d <| lsd_present_in_ready_cache := 0 |>);
      sel_write (lsd_select d) (λ s, s <| sel_queue_length := sel_queue_length s - 1 |>)
    else mret tt
  else mret tt.

Definition ipaugenblick_remove_socket_from_cache (i : Z) : M proc unit :=
  _ipaugenblick_remove_socket_from_cache i.

Definition ipaugenblick_put_to_local_cache (i : Z) : M proc unit :=
  d ← lsd_read i;
  if lsd_local_mask d =? 0 then mret tt
  else if lsd_present_in_ready_cache d =? 0 then
    s ← sel_read (lsd_select d);
    if negb (sel_level_mode s =? 0) then
      l ← tailq_insert_tail (sel_local_ready_cache s) i;
      _ ← sel_write (lsd_select d) (λ s, s <| sel_local_ready_cache := l |>);
      _ ← lsd_write i (λ d, d <| lsd_present_in_ready_cache := 1 |>);
      sel_write (lsd_select d) (λ s, s <| sel_queue_length := sel_queue_length s + 1 |>)
    else mret tt
  else mret tt.

Definition ipaugenblick_update_local_ready_cache (selector_idx i bit : Z) : M proc unit :=
  if selector_idx =? -1 then mret tt
  else
    _ ← lsd_write i (λ d, d <| lsd_local_mask := Z.land (lsd_local_mask d) (Z.lnot bit) |>);
    d ← lsd_read i;
    if negb (lsd_local_mask d =? 0) then mret tt
    else _ipaugenblick_remove_socket_from_cache i.

(** [ipaugenblick_reset_local_descriptor] clears the TAILQ links of the
    descriptor: undefined while it is linked. *)
Definition ipaugenblick_reset_local_descriptor (i : Z) : M proc unit :=
  linked ← app_get (λ a, bool_decide
    (map_Exists (λ _ s, i ∈ sel_local_ready_cache s) (selectors a)));
  _ ← require (negb linked);
  lsd_write i (λ d,
    d <| lsd_shadow_len_delievered := 0 |> <| lsd_shadow_len_remainder := 0 |>
      <| lsd_shadow := 0 |> <| lsd_shadow_next := 0 |>
      <| lsd_present_in_ready_cache := 0 |> <| lsd_local_mask := 0 |>).

(** ** Commands *)

Definition no_command_buf {A} (ret : A) : M proc A :=
  _ ← stat_inc stats_cannot_allocate_cmd; mret ret.

Definition ipaugenblick_create_client (cbk : bool) : M proc Z :=
  idx ← dequeue FREE_CLIENTS_RING;
  match idx with
  | None => mret (-1)
  | Some ringset_idx =>
      found ← lookup_ok (CLIENT_RING ringset_idx);
      _ ← on_app (λ a, a <| client_ring :=
             if (found : bool) then Some (CLIENT_RING ringset_idx) else None |>);
      if negb found then mret (-2) else
      cmd ← ipaugenblick_get_free_command_buf;
      match cmd with
      | None => no_command_buf (-3)
      | Some cmd =>
          _ ← cmd_write cmd (λ c, c <| cmd_cmd := CONNECT_CLIENT |>
                                    <| cmd_ringset_idx := wrap32 ringset_idx |>);
          full ← ipaugenblick_enqueue_command_buf cmd;
          if (full : bool) then _ ← ipaugenblick_free_command_buf cmd; mret (-3)
          else
            _ ← on_app (λ a, a <| g_client_ringset_idx := wrap32 ringset_idx |>
                               <| update_cbk := cbk |>);
            mret 0
      end
  end.

Definition ipaugenblick_read_updates : M proc Z :=
  ring ← app_get client_ring;
  id ← of_option ring;
  obj ← dequeue id;
  match obj with
  | None => mret (-1)
  | Some mbuf =>
      '(_, off) ← rte_pktmbuf_mtod mbuf;
      p ← buf_load mbuf off 1;
      len ← rte_pktmbuf_data_len mbuf;
      cbk ← app_get update_cbk;
      let call cmd := when cbk (on_app (λ a, a <| app_updates :=
                        app_updates a ++ [(cmd, mbuf, off + 1, len - 1)] |>)) in
      if lget p 0 =? command_code NEW_IFACES then _ ← call 1; mret (-1)
      else if lget p 0 =? command_code NEW_ADDRESSES then _ ← call 3; mret (-1)
      else if lget p 0 =? command_code END_OF_RECORD then mret 0
      else mret (-1)
  end.

Definition ipaugenblick_open_select : M proc Z :=
  idx ← dequeue SELECTOR_RING;
  match idx with None => mret (-1) | Some ringset_idx => mret (sint32 ringset_idx) end.

Definition ipaugenblick_set_selector_mode (select mode : Z) : M proc unit :=
  if IPAUGENBLICK_SELECTOR_POOL_SIZE <=? select then mret tt
  else sel_write select (λ s, s <| sel_level_mode := mode |>).

(** The function has no return statement on success: its value is then
    indeterminate ([None]). *)
Definition ipaugenblick_set_socket_select (sock select : Z) : M proc (option Z) :=
  if sock <? 0 then mret (Some (-1)) else
  cmd ← ipaugenblick_get_free_command_buf;
  match cmd with
  | None => no_command_buf (Some (-2))
  | Some cmd =>
      pid ← getpid;
      _ ← cmd_write cmd (λ c, c <| cmd_cmd := SET_SOCKET_SELECT_COMMAND |>
                                <| cmd_ringset_idx := wrap32 sock |>
                                <| cmd_union := U_set_socket_select select pid |>);
      full ← ipaugenblick_enqueue_command_buf cmd;
      if (full : bool) then _ ← ipaugenblick_free_command_buf cmd; mret (Some (-3))
      else _ ← lsd_write sock (λ d, d <| lsd_select := select |>); mret None
  end.

Definition ipaugenblick_open_socket (family type parent : Z) : M proc Z :=
  sock ← dequeue FREE_CONNECTIONS_RING;
  match sock with
  | None => mret (-1)
  | Some socket =>
      cmd ← ipaugenblick_get_free_command_buf;
      match cmd with
      | None => no_command_buf (-2)
      | Some cmd =>
          sk ← sock_read socket;
          let idx := connection_idx sk in
          pid ← getpid;
          _ ← cmd_write cmd (λ c, c <| cmd_cmd := OPEN_SOCKET_COMMAND |>
                                    <| cmd_ringset_idx := wrap32 idx |>
                                    <| cmd_parent_idx := parent |>
                                    <| cmd_union := U_open_sock family type pid |>);
          full ← ipaugenblick_enqueue_command_buf cmd;
          if (full : bool) then _ ← ipaugenblick_free_command_buf cmd; mret (-3)
          else
            _ ← ipaugenblick_reset_local_descriptor idx;
            _ ← lsd_write idx (λ d, d <| lsd_socket := Some socket |> <| lsd_select := parent |>);
            mret (sint32 idx)
      end
  end.

Definition ipaugenblick_bind (sock : Z) (addr : sockaddr_in) : M proc Z :=
  if negb (sin_family addr =? AF_INET) then mret (-1) else
  cmd ← ipaugenblick_get_free_command_buf;
  match cmd with
  | None => no_command_buf (-1)
  | Some cmd =>
      d ← lsd_read sock;
      _ ← cmd_write cmd (λ c, c <| cmd_cmd := SOCKET_CONNECT_BIND_COMMAND |>
             <| cmd_ringset_idx := wrap32 sock |> <| cmd_parent_idx := lsd_select d |>
             <| cmd_union := U_socket_connect_bind (sin_addr addr) (sin_port addr) 0 |>);
      full ← ipaugenblick_enqueue_command_buf cmd;
      if (full : bool) then _ ← ipaugenblick_free_command_buf cmd; mret (-2)
      else
        _ ← lsd_write sock (λ d, d <| lsd_local_ipaddr := sin_addr addr |>
                                   <| lsd_local_port := sin_port addr |>);
        mret 0
  end.

Definition ipaugenblick_connect (sock : Z) (addr : sockaddr_in) : M proc Z :=
  if negb (sin_family addr =? AF_INET) then mret (-1) else
  cmd ← ipaugenblick_get_free_command_buf;
  match cmd with
  | None => no_command_buf (-2)
  | Some cmd =>
      d ← lsd_read sock;
      _ ← cmd_write cmd (λ c, c <| cmd_cmd := SOCKET_CONNECT_BIND_COMMAND |>
             <| cmd_ringset_idx := wrap32 sock |> <| cmd_parent_idx := lsd_select d |>
             <| cmd_union := U_socket_connect_bind (sin_addr addr) (sin_port addr) 1 |>);
      full ← ipaugenblick_enqueue_command_buf cmd;
      if (full : bool) then _ ← ipaugenblick_free_command_buf cmd; mret (-2)
      else
        _ ← lsd_write sock (λ d, d <| lsd_remote_ipaddr := sin_addr addr |>
                                   <| lsd_remote_port := sin_port addr |>);
        mret 0
  end.

Definition ipaugenblick_listen_socket (sock : Z) : M proc Z :=
  cmd ← ipaugenblick_get_free_command_buf;
  match cmd with
  | None => no_command_buf (-1)
  | Some cmd =>
      d ← lsd_read sock;
      _ ← cmd_write cmd (λ c, c <| cmd_cmd := LISTEN_SOCKET_COMMAND |>
             <| cmd_ringset_idx := wrap32 sock |> <| cmd_parent_idx := lsd_select d |>);
      full ← ipaugenblick_enqueue_command_buf cmd;
      if (full : bool) then _ ← ipaugenblick_free_command_buf cmd; mret (-2) else mret 0
  end.

Definition ipaugenblick_notify_empty_tx_buffers (sock : Z) : M proc unit :=
  if sock =? -1 then mret tt else
  cmd ← ipaugenblick_get_free_command_buf;
  match cmd with
  | None => no_command_buf tt
  | Some cmd =>
      _ ← cmd_write cmd (λ c, c <| cmd_cmd := SOCKET_TX_POOL_EMPTY_COMMAND |>
                                <| cmd_ringset_idx := wrap32 sock |>);
      full ← ipaugenblick_enqueue_command_buf cmd;
      if (full : bool) then ipaugenblick_free_command_buf cmd else mret tt
  end.

Definition ipaugenblick_route_command (opcode : command) (ipaddr mask nexthop metric : Z)
    : M proc Z :=
  cmd ← ipaugenblick_get_free_command_buf;
  match cmd with
  | None => no_command_buf (-1)
  | Some cmd =>
      _ ← cmd_write cmd (λ c, c <| cmd_cmd := opcode |>
                                <| cmd_union := U_route ipaddr mask nexthop metric |>);
      full ← ipaugenblick_enqueue_command_buf cmd;
      if (full : bool) then _ ← ipaugenblick_free_command_buf cmd; mret (-2) else mret 0
  end.
Definition ipaugenblick_add_v4_route (ipaddr mask nexthop metric : Z) : M proc Z :=
  ipaugenblick_route_command ROUTE_ADD_COMMAND ipaddr mask nexthop metric.
Definition ipaugenblick_del_v4_route (ipaddr mask nexthop : Z) : M proc Z :=
  ipaugenblick_route_command ROUTE_DEL_COMMAND ipaddr mask nexthop 0.

(** [optval] holds [optlen] bytes; the command has room for 128, and the copy
    is not checked: a longer option overwrites what follows the buffer. *)
Definition sizeof_optval : Z := 128.
Definition ipaugenblick_setsockopt (sock level optname : Z) (optval : list Z) (optlen : Z)
    : M proc Z :=
  cmd ← ipaugenblick_get_free_command_buf;
  match cmd with
  | None => no_command_buf (-1)
  | Some cmd =>
      d ← lsd_read sock;
      _ ← require (optlen <=? sizeof_optval);
      _ ← cmd_write cmd (λ c, c <| cmd_cmd := SETSOCKOPT_COMMAND |>
             <| cmd_ringset_idx := wrap32 sock |> <| cmd_parent_idx := lsd_select d |>
             <| cmd_union := U_setsockopt level optname (sint32 optlen)
                               (take (Z.to_nat optlen) optval) |>);
      full ← ipaugenblick_enqueue_command_buf cmd;
      if (full : bool) then _ ← ipaugenblick_free_command_buf cmd; mret (-2) else mret 0
  end.

Definition ipaugenblick_shutdown (sock how : Z) : M proc Z :=
  cmd ← ipaugenblick_get_free_command_buf;
  match cmd with
  | None => no_command_buf (-1)
  | Some cmd =>
      d ← lsd_read sock;
      _ ← cmd_write cmd (λ c, c <| cmd_cmd := SOCKET_SHUTDOWN_COMMAND |>
             <| cmd_ringset_idx := wrap32 sock |> <| cmd_parent_idx := lsd_select d |>
             <| cmd_union := U_socket_shutdown how |>);
      full ← ipaugenblick_enqueue_command_buf cmd;
      _ ← when full (ipaugenblick_free_command_buf cmd);
      _ ← ipaugenblick_remove_socket_from_cache sock;
      mret 0
  end.

(** [rte_atomic16_test_and_set(..) > 0] under a negation. *)
Definition ipaugenblick_socket_kick (sock : Z) : M proc Z :=
  sk ← lsd_socket_ptr sock;
  first ← test_and_set sk write_done_from_app (λ v s, s <| write_done_from_app := v |>);
  if negb first then mret 0 else
  cmd ← ipaugenblick_get_free_command_buf;
  match cmd with
  | None => no_command_buf (-1)
  | Some cmd =>
      _ ← cmd_write cmd (λ c, c <| cmd_cmd := SOCKET_TX_KICK_COMMAND |>
                                <| cmd_ringset_idx := wrap32 sock |>);
      full ← ipaugenblick_enqueue_command_buf cmd;
      _ ← (if (full : bool) then ipaugenblick_free_command_buf cmd
           else stat_inc stats_tx_kicks_sent);
      mret 0
  end.

(** ** Submitting a command *)

(** The two channels commands travel through, and the buffers they hold. *)
Record cmd_mem (m : shm) (pool ring : chan) : Prop := {
  cm_rings : rings_ok (rings m);
  cm_pool : chans (rings m) !! FREE_COMMAND_POOL = Some pool;
  cm_ring : chans (rings m) !! COMMAND_RING = Some ring;
  cm_bufs : ∀ b, b ∈ ch_q pool → is_Some (cmds m !! b);
  cm_room : zlen (ch_q pool) ≤ ch_cap pool;
}.

(** What an attempt to submit a command made with [fill] does to the memory:
    there is no free buffer; or the ring is full and the buffer goes back to
    the pool; or the command is the last one of the ring. *)
Inductive submit_result := No_buffer | Ring_full | Submitted.

Definition chans_after (m : shm) (pool ring : chan) (r : submit_result)
    : gmap ring_id chan :=
  match ch_q pool, r with
  | b :: rest, Ring_full =>
      <[FREE_COMMAND_POOL := mk_chan (ch_cap pool) (ch_wm pool) (rest ++ [b])]> (chans (rings m))
  | b :: rest, Submitted =>
      <[COMMAND_RING := mk_chan (ch_cap ring) (ch_wm ring) (ch_q ring ++ [b])]>
        (<[FREE_COMMAND_POOL := mk_chan (ch_cap pool) (ch_wm pool) rest]> (chans (rings m)))
  | _, _ => chans (rings m)
  end.

Definition cmds_after (m : shm) (pool : chan) (fill : ipaugenblick_cmd → ipaugenblick_cmd)
    (r : submit_result) : gmap Z ipaugenblick_cmd :=
  match ch_q pool, r with
  | b :: _, Ring_full | b :: _, Submitted => alter fill b (cmds m)
  | _, _ => cmds m
  end.

Definition result_of (pool ring : chan) : submit_result :=
  match ch_q pool with
  | [] => No_buffer
  | _ => if zlen (ch_q ring) <? ch_cap ring then Submitted else Ring_full
  end.

(** [m'] is [m] after the attempt. *)
Definition submitted (m : shm) (pool ring : chan) (fill : ipaugenblick_cmd → ipaugenblick_cmd)
    (m' : shm) : Prop :=
  let r := result_of pool ring in
  rings_ok (rings m') ∧ chans (rings m') = chans_after m pool ring r ∧
  cmds m' = cmds_after m pool fill r ∧ g_sockets m' = g_sockets m ∧ mbufs m' = mbufs m.

Section submit.
Context {S : Type} `{PartLaws shm S}.

(** The allocation, with what follows in either case. *)
Lemma wp_get_cmd {A} pool ring (none : M S A) (some : Z → M S A) Q (s : S) :
  cmd_mem (part_get s) pool ring →
  (ch_q pool = [] → ∀ m', submitted (part_get s) pool ring (λ c, c) m' →
     wp none Q (part_set m' s)) →
  (∀ b rest c, ch_q pool = b :: rest → cmds (part_get s) !! b = Some c → ∀ rs, rings_ok rs →
     chans rs = <[FREE_COMMAND_POOL := mk_chan (ch_cap pool) (ch_wm pool) rest]>
                  (chans (rings (part_get s))) →
     wp (some b) Q (with_rings s rs)) →
  wp (cmd ← ipaugenblick_get_free_command_buf;
      match cmd with None => none | Some cmd => some cmd end) Q s.
Proof.
  intros [Hok Hp Hr Hb Hroom] Hnone Hsome. rewrite wp_bind.
  eapply wp_mempool_get; [done|exact Hp| |].
  - intros b rest Hq rs Hrs Hch.
    destruct (Hb b) as [c Hc]; [rewrite Hq; constructor|]. by eapply Hsome.
  - intros Hq rs Hrs Hch. apply Hnone; [done|].
    unfold submitted, result_of, chans_after, cmds_after. by rewrite Hq.
Qed.

(** The rest: fill the buffer, put it on the ring, free it if that is full. *)
Lemma wp_submit_with {A} pool ring b rest c rs fill (k : bool → M S A) Q (s : S) :
  cmd_mem (part_get s) pool ring →
  ch_q pool = b :: rest → cmds (part_get s) !! b = Some c → rings_ok rs →
  chans rs = <[FREE_COMMAND_POOL := mk_chan (ch_cap pool) (ch_wm pool) rest]>
               (chans (rings (part_get s))) →
  (result_of pool ring = Ring_full → ∀ m', submitted (part_get s) pool ring fill m' →
     wp (k true) Q (part_set m' s)) →
  (result_of pool ring = Submitted → ∀ m', submitted (part_get s) pool ring fill m' →
     wp (k false) Q (part_set m' s)) →
  wp (_ ← cmd_write b fill;
      full ← ipaugenblick_enqueue_command_buf b;
      _ ← when full (ipaugenblick_free_command_buf b);
      k full) Q (with_rings s rs).
Proof.
  intros [Hok Hp Hr Hb Hroom] Hq Hc Hrs Hch Hfull Hsub.
  unfold submitted, result_of, chans_after, cmds_after in Hfull, Hsub. rewrite Hq in Hfull, Hsub.
  assert (alter fill b (cmds (part_get s)) = <[b := fill c]> (cmds (part_get s))) as Halter.
  { apply map_eq. intros q. destruct (decide (q = b)) as [->|?];
      [by rewrite lookup_alter_eq, lookup_insert_eq, Hc|
       by rewrite lookup_alter_ne, lookup_insert_ne]. }
  rewrite Halter in Hfull, Hsub. clear Halter.
  unfold cmd_write, cmd_read, set_shm. wp_run. rewrite part_get_with_rings. cbn [cmds].
  change (cmds (_ <| rings := rs |>)) with (cmds (part_get s)). rewrite Hc. cbn [of_option]. wp_run.
  unfold ipaugenblick_enqueue_command_buf. wp_run.
  set (s1 := part_set _ (with_rings s rs)).
  assert (part_get s1 = mk_shm rs (<[b := fill c]> (cmds (part_get s)))
            (g_sockets (part_get s)) (mbufs (part_get s))) as Hs1.
  { unfold s1. rewrite part_get_set, part_get_with_rings. by destruct (part_get s). }
  assert (∀ m', part_set m' s1 = part_set m' s) as Hset.
  { intros m'. unfold s1, with_rings. by rewrite !part_set_set. }
  assert (chans rs !! COMMAND_RING = Some ring) as Hr1
    by (rewrite Hch, lookup_insert_ne by done; done).
  eapply (wp_enqueue _ _ ring); rewrite ?Hs1; [done..| |].
  - intros Hlt rs2 Hrs2 Hch2. cbn [rings] in Hch2.
    destruct (Z.ltb_spec (zlen (ch_q ring)) (ch_cap ring)); [|lia].
    assert (((if ch_wm ring <? zlen (ch_q ring) + 2 then - EDQUOT else 0) =? - ENOBUFS) = false)
      as -> by (by destruct (ch_wm ring <? zlen (ch_q ring) + 2)).
    wp_run. unfold with_rings. rewrite Hset, Hs1. apply Hsub; [done|].
    split_and!; try done. cbn -[chans]. by rewrite Hch2, Hch.
  - intros Hle rs2 Hrs2 Hch2. cbn [rings] in Hch2. rewrite Z.eqb_refl. wp_run.
    destruct (Z.ltb_spec (zlen (ch_q ring)) (ch_cap ring)); [lia|].
    eapply wp_mempool_put; rewrite ?part_get_with_rings, ?Hs1; cbn [rings].
    + done.
    + change (rings (_ <| rings := rs2 |>)) with rs2. rewrite Hch2, Hch. apply lookup_insert_eq.
    + change (rings (_ <| rings := rs2 |>)) with rs2. cbn [ch_q ch_cap ch_wm].
      intros Hlt rs3 Hrs3 Hch3.
      unfold with_rings. rewrite part_set_set, part_get_set, Hset, Hs1. apply Hfull; [done|].
      split_and!; try done. cbn -[chans]. by rewrite Hch3, Hch2, Hch, insert_insert_eq.
    + cbn [ch_q ch_cap]. intros Hle2. rewrite Hq in Hroom. unfold zlen in *. cbn in Hroom. lia.
Qed.

Lemma wp_if_when {A} (m : M S unit) (k1 k2 : M S A) (full : bool) Q s :
  wp (_ ← when full m; if full then k1 else k2) Q s ↔
  wp (if full then _ ← m; k1 else k2) Q s.
Proof. by destruct full. Qed.

Lemma wp_submit {A} pool ring b rest c rs fill (kfull ksub : M S A) Q (s : S) :
  cmd_mem (part_get s) pool ring →
  ch_q pool = b :: rest → cmds (part_get s) !! b = Some c → rings_ok rs →
  chans rs = <[FREE_COMMAND_POOL := mk_chan (ch_cap pool) (ch_wm pool) rest]>
               (chans (rings (part_get s))) →
  (result_of pool ring = Ring_full → ∀ m', submitted (part_get s) pool ring fill m' →
     wp kfull Q (part_set m' s)) →
  (result_of pool ring = Submitted → ∀ m', submitted (part_get s) pool ring fill m' →
     wp ksub Q (part_set m' s)) →
  wp (_ ← cmd_write b fill;
      full ← ipaugenblick_enqueue_command_buf b;
      if (full : bool) then _ ← ipaugenblick_free_command_buf b; kfull else ksub)
    Q (with_rings s rs).
Proof.
  intros Hm Hq Hc Hrs Hch Hfull Hsub.
  pose proof (wp_submit_with pool ring b rest c rs fill (λ full : bool, if full then kfull else ksub)
    Q s Hm Hq Hc Hrs Hch Hfull Hsub) as Hw.
  rewrite !wp_bind in *. eapply wp_mono; [exact Hw|]. intros [] s1 Hs1.
  rewrite wp_bind in *. eapply wp_mono; [exact Hs1|]. intros full s2 Hs2.
  cbv beta in Hs2. by apply wp_if_when.
Qed.
End submit.

(** ** The control calls *)

(** Calls that do nothing but submit one command. *)
Inductive control_call :=
  | Call_bind (sock : Z) (addr : sockaddr_in)
  | Call_connect (sock : Z) (addr : sockaddr_in)
  | Call_listen (sock : Z)
  | Call_add_route (ipaddr mask nexthop metric : Z)
  | Call_del_route (ipaddr mask nexthop : Z)
  | Call_setsockopt (sock level optname : Z) (optval : list Z) (optlen : Z)
  | Call_set_select (sock select : Z).

Definition run_control (c : control_call) : M proc (option Z) :=
  match c with
  | Call_bind sock addr => Some <$> ipaugenblick_bind sock addr
  | Call_connect sock addr => Some <$> ipaugenblick_connect sock addr
  | Call_listen sock => Some <$> ipaugenblick_listen_socket sock
  | Call_add_route ip mask hop metric => Some <$> ipaugenblick_add_v4_route ip mask hop metric
  | Call_del_route ip mask hop => Some <$> ipaugenblick_del_v4_route ip mask hop
  | Call_setsockopt sock level optname optval optlen =>
      Some <$> ipaugenblick_setsockopt sock level optname optval optlen
  | Call_set_select sock select => ipaugenblick_set_socket_select sock select
  end.

(** The command a call submits, over the buffer's old contents. *)
Definition select_of (a : app) (sock : Z) : Z := from_option lsd_select 0 (lsds a !! sock).

Definition control_fill (a : app) (c : control_call) (b : ipaugenblick_cmd) : ipaugenblick_cmd :=
  match c with
  | Call_bind sock addr =>
      mk_cmd SOCKET_CONNECT_BIND_COMMAND (wrap32 sock) (select_of a sock)
        (U_socket_connect_bind (sin_addr addr) (sin_port addr) 0)
  | Call_connect sock addr =>
      mk_cmd SOCKET_CONNECT_BIND_COMMAND (wrap32 sock) (select_of a sock)
        (U_socket_connect_bind (sin_addr addr) (sin_port addr) 1)
  | Call_listen sock =>
      mk_cmd LISTEN_SOCKET_COMMAND (wrap32 sock) (select_of a sock) (cmd_union b)
  | Call_add_route ip mask hop metric =>
      mk_cmd ROUTE_ADD_COMMAND (cmd_ringset_idx b) (cmd_parent_idx b) (U_route ip mask hop metric)
  | Call_del_route ip mask hop =>
      mk_cmd ROUTE_DEL_COMMAND (cmd_ringset_idx b) (cmd_parent_idx b) (U_route ip mask hop 0)
  | Call_setsockopt sock level optname optval optlen =>
      mk_cmd SETSOCKOPT_COMMAND (wrap32 sock) (select_of a sock)
        (U_setsockopt level optname (sint32 optlen) (take (Z.to_nat optlen) optval))
  | Call_set_select sock select =>
      mk_cmd SET_SOCKET_SELECT_COMMAND (wrap32 sock) (cmd_parent_idx b)
        (U_set_socket_select select (app_pid a))
  end.

(** The return value; a successful [set_socket_select] has none. *)
Definition control_ret (c : control_call) (r : submit_result) : option Z :=
  match c, r with
  | Call_set_select _ _, No_buffer => Some (-2)
  | Call_set_select _ _, Ring_full => Some (-3)
  | Call_set_select _ _, Submitted => None
  | Call_connect _ _, No_buffer => Some (-2)
  | _, No_buffer => Some (-1)
  | _, Ring_full => Some (-2)
  | _, Submitted => Some 0
  end.

(** The process's own state: the address bound or connected to, the selector,
    and the count of failed allocations. *)
Definition count_stat (st : stat) (n : Z) (a : app) : app :=
  a <| app_stats := λ st',
    if decide (st' = st) then wrap64 (app_stats a st + n) else app_stats a st' |>.
Definition update_lsd (i : Z) (f : local_socket_descriptor → local_socket_descriptor) (a : app)
    : app := a <| lsds := alter f i (lsds a) |>.

Definition control_app (c : control_call) (r : submit_result) (a : app) : app :=
  match r, c with
  | No_buffer, _ => count_stat stats_cannot_allocate_cmd 1 a
  | Submitted, Call_bind sock addr =>
      update_lsd sock (λ d, d <| lsd_local_ipaddr := sin_addr addr |>
                              <| lsd_local_port := sin_port addr |>) a
  | Submitted, Call_connect sock addr =>
      update_lsd sock (λ d, d <| lsd_remote_ipaddr := sin_addr addr |>
                              <| lsd_remote_port := sin_port addr |>) a
  | Submitted, Call_set_select sock select =>
      update_lsd sock (λ d, d <| lsd_select := select |>) a
  | _, _ => a
  end.

(** Arguments the calls accept. *)
Definition control_ok (c : control_call) (a : app) : Prop :=
  match c with
  | Call_bind sock addr | Call_connect sock addr =>
      is_Some (lsds a !! sock) ∧ sin_family addr = AF_INET
  | Call_listen sock => is_Some (lsds a !! sock)
  | Call_setsockopt sock _ _ _ optlen => is_Some (lsds a !! sock) ∧ optlen ≤ sizeof_optval
  | Call_set_select sock _ => is_Some (lsds a !! sock) ∧ 0 ≤ sock
  | _ => True
  end.

Lemma wp_stat_add st n (Q : unit → proc → Prop) p :
  Q tt (p <| p_app := count_stat st n (p_app p) |>) → wp (stat_add st n) Q p.
Proof. done. Qed.

Lemma wp_lsd_read i d (Q : local_socket_descriptor → proc → Prop) p :
  lsds (p_app p) !! i = Some d → Q d p → wp (lsd_read i) Q p.
Proof. intros Hd HQ. unfold lsd_read, app_get. wp_run. by rewrite Hd. Qed.

Lemma wp_lsd_write i d f (Q : unit → proc → Prop) p :
  lsds (p_app p) !! i = Some d →
  Q tt (p <| p_app := update_lsd i f (p_app p) |>) → wp (lsd_write i f) Q p.
Proof.
  intros Hd HQ. unfold lsd_write, on_app. rewrite wp_bind. apply (wp_lsd_read _ d); [done|].
  unfold update_lsd in HQ. rewrite (alter_insert_lookup _ _ _ d) in HQ by done. done.
Qed.

Lemma select_of_lookup a i d : lsds a !! i = Some d → select_of a i = lsd_select d.
Proof. unfold select_of. by intros ->. Qed.

(** Symbolic execution of a control call: allocate, read the descriptor, submit. *)
Ltac control_step :=
  match goal with
  | |- wp (_ <$> _) _ _ => rewrite wp_fmap
  | |- wp (no_command_buf _) _ _ => unfold no_command_buf, stat_inc; rewrite wp_bind; apply wp_stat_add
  | Hd : lsds _ !! _ = Some _ |- wp (lsd_read _ ≫= _) _ _ =>
      rewrite wp_bind; eapply wp_lsd_read; [exact Hd|]
  | Hd : lsds _ !! _ = Some _ |- wp (lsd_write _ _ ≫= _) _ _ =>
      rewrite wp_bind; eapply wp_lsd_write; [exact Hd|]
  | |- wp (getpid ≫= _) _ _ => unfold getpid, app_get; rewrite wp_bind, wp_gets
  | |- wp (require _ ≫= _) _ _ =>
      rewrite wp_bind, wp_require; split; [apply Z.leb_le; lia|]
  | |- wp (mret _) _ _ => rewrite wp_ret
  end.

(** The outcome of a call from [p]. *)
Definition control_post (c : control_call) (pool ring : chan) (p : proc) (ret : option Z)
    (p' : proc) : Prop :=
  let r := result_of pool ring in
  ret = control_ret c r ∧
  submitted (p_shm p) pool ring (control_fill (p_app p) c) (p_shm p') ∧
  p_app p' = control_app c r (p_app p).

Lemma control_post_none c pool ring p m' ret :
  ch_q pool = [] → submitted (p_shm p) pool ring (λ b, b) m' →
  ret = control_ret c No_buffer →
  control_post c pool ring p ret
    (mk_proc m' (count_stat stats_cannot_allocate_cmd 1 (p_app p))).
Proof.
  intros Hq Hs ->. unfold control_post. cbn [p_shm p_app].
  unfold submitted, result_of, chans_after, cmds_after in *. rewrite Hq in *.
  split_and!; try apply Hs; [done|]. by destruct c.
Qed.

Lemma control_post_some c pool ring p r m' fill ret a' :
  result_of pool ring = r → submitted (p_shm p) pool ring fill m' →
  fill = control_fill (p_app p) c → ret = control_ret c r → a' = control_app c r (p_app p) →
  control_post c pool ring p ret (mk_proc m' a').
Proof. intros <- Hs -> -> ->. by split. Qed.

(** The three ends of a call: no buffer; the ring full, or the command sent. *)
Ltac control_none :=
  let Hq := fresh "Hq" in let m' := fresh "m'" in let Hs := fresh "Hs" in
  intros Hq m' Hs; repeat (control_step; cbv beta);
  exact (control_post_none _ _ _ _ m' _ Hq Hs eq_refl).
Ltac control_end Hd :=
  let Hr := fresh "Hr" in let m' := fresh "m'" in let Hs := fresh "Hs" in
  intros Hr m' Hs; repeat (control_step; cbv beta);
  refine (control_post_some _ _ _ _ _ m' _ _ _ Hr Hs _ _ _);
    [unfold control_fill; cbv beta iota; try rewrite (select_of_lookup _ _ _ Hd); done|done|done].
Ltac control_some Hd :=
  let b := fresh "b" in let rest := fresh "rest" in let c := fresh "c" in
  let Hq := fresh "Hq" in let Hc := fresh "Hc" in let rs := fresh "rs" in
  let Hrs := fresh "Hrs" in let Hch := fresh "Hch" in
  intros b rest c Hq Hc rs Hrs Hch; repeat (control_step; cbv beta);
  eapply wp_submit; [done|exact Hq|exact Hc|done|done|control_end Hd|control_end Hd].

Lemma control_call_post c pool ring p :
  cmd_mem (p_shm p) pool ring → control_ok c (p_app p) →
  wp (run_control c) (control_post c pool ring p) p.
Proof.
  intros Hm Hok. destruct c; cbn [run_control control_ok] in *; rewrite ?wp_fmap.
  - destruct Hok as [[d Hd] Hf]. unfold ipaugenblick_bind. rewrite Hf, Z.eqb_refl. cbn [negb].
    apply (wp_get_cmd pool ring); [done|control_none|control_some Hd].
  - destruct Hok as [[d Hd] Hf]. unfold ipaugenblick_connect. rewrite Hf, Z.eqb_refl. cbn [negb].
    apply (wp_get_cmd pool ring); [done|control_none|control_some Hd].
  - destruct Hok as [d Hd]. apply (wp_get_cmd pool ring); [done|control_none|control_some Hd].
  - apply (wp_get_cmd pool ring); [done|control_none|control_some I].
  - apply (wp_get_cmd pool ring); [done|control_none|control_some I].
  - destruct Hok as [[d Hd] Hl]. apply (wp_get_cmd pool ring); [done|control_none|].
    control_some Hd.
  - destruct Hok as [[d Hd] Hl]. unfold ipaugenblick_set_socket_select.
    destruct (Z.ltb_spec sock 0); [lia|].
    apply (wp_get_cmd pool ring); [done|control_none|control_some Hd].
Qed.


(** ** Conservation of command buffers *)

Fixpoint run_controls (cs : list control_call) : M proc unit :=
  match cs with [] => mret tt | c :: cs => _ ← run_control c; run_controls cs end.

Definition pool_after (pool ring : chan) : chan :=
  match ch_q pool with
  | [] => pool
  | b :: rest => mk_chan (ch_cap pool) (ch_wm pool)
      (if zlen (ch_q ring) <? ch_cap ring then rest else rest ++ [b])
  end.
Definition ring_after (pool ring : chan) : chan :=
  match ch_q pool with
  | [] => ring
  | b :: rest => if zlen (ch_q ring) <? ch_cap ring
      then mk_chan (ch_cap ring) (ch_wm ring) (ch_q ring ++ [b]) else ring
  end.

Lemma submitted_mem m pool ring fill m' :
  cmd_mem m pool ring → submitted m pool ring fill m' →
  cmd_mem m' (pool_after pool ring) (ring_after pool ring).
Proof.
  intros [Hok Hp Hr Hb Hroom] (Hok' & Hch & Hcm & _). unfold result_of in *.
  unfold pool_after, ring_after, chans_after, cmds_after in *.
  destruct (ch_q pool) as [|b rest] eqn:Hq.
  { split; rewrite ?Hch, ?Hcm; rewrite ?Hq; done. }
  assert (∀ x, x ∈ b :: rest → is_Some (alter fill b (cmds m) !! x)) as Hb'.
  { intros x Hx. destruct (decide (b = x)) as [<-|?];
      [rewrite lookup_alter_eq, fmap_is_Some|rewrite lookup_alter_ne by done]; by apply Hb. }
  destruct (zlen (ch_q ring) <? ch_cap ring); split; try done; rewrite ?Hch, ?Hcm; cbn.
  - rewrite lookup_insert_ne by done. apply lookup_insert_eq.
  - apply lookup_insert_eq.
  - intros x Hx. apply Hb'. by constructor.
  - unfold zlen in *. cbn in *. lia.
  - apply lookup_insert_eq.
  - by rewrite lookup_insert_ne by done.
  - intros x Hx. apply Hb'. apply elem_of_app in Hx as [Hx|Hx%list_elem_of_singleton].
    + by constructor.
    + subst. constructor.
  - unfold zlen in *. rewrite length_app. cbn in *. lia.
Qed.

Lemma submitted_perm pool ring :
  ch_q (pool_after pool ring) ++ ch_q (ring_after pool ring) ≡ₚ ch_q pool ++ ch_q ring ∧
  ch_q ring `prefix_of` ch_q (ring_after pool ring).
Proof.
  unfold pool_after, ring_after. destruct (ch_q pool) as [|b rest] eqn:Hq; [by rewrite Hq|].
  destruct (_ <? _); cbn; split; try done.
  - by rewrite app_assoc, <- Permutation_cons_append.
  - by exists [b].
  - by rewrite <- Permutation_cons_append.
Qed.

Lemma control_ok_app c c' r a : control_ok c a → control_ok c (control_app c' r a).
Proof.
  assert (∀ i j f, is_Some (lsds a !! i) → is_Some (lsds (update_lsd j f a) !! i)) as Hup.
  { intros i j f Hi. unfold update_lsd. cbn.
    destruct (decide (j = i)) as [<-|?]; [rewrite lookup_alter_eq, fmap_is_Some|
      rewrite lookup_alter_ne]; done. }
  destruct c, r, c'; cbn [control_ok control_app]; intros Hok; destruct_and?; split_and?;
    first [done | by apply Hup].
Qed.

(** C23. Command buffers are conserved: whatever control calls an application makes,
    in whatever order and however they fail, every command buffer is afterwards
    either free or on the command ring, exactly once, and the commands already
    on the ring keep their places at its front. *)
Theorem command_buffers_conserved cs : ∀ pool ring p,
  cmd_mem (p_shm p) pool ring → Forall (λ c, control_ok c (p_app p)) cs →
  wp (run_controls cs) (λ _ p', ∃ pool' ring', cmd_mem (p_shm p') pool' ring' ∧
    ch_q pool' ++ ch_q ring' ≡ₚ ch_q pool ++ ch_q ring ∧
    ch_q ring `prefix_of` ch_q ring') p.
Proof.
  induction cs as [|c cs IH]; intros pool ring p Hm Hok; cbn [run_controls].
  { rewrite wp_ret. by exists pool, ring. }
  apply Forall_cons in Hok as [Hc Hcs]. rewrite wp_bind.
  eapply wp_mono; [by apply control_call_post|]. intros ret p1 (_ & Hs & Ha).
  pose proof (submitted_mem _ _ _ _ _ Hm Hs) as Hm1.
  destruct (submitted_perm pool ring) as [Hperm Hpre].
  eapply wp_mono; [apply (IH _ _ p1 Hm1)|].
  { rewrite Ha. eapply Forall_impl; [exact Hcs|]. intros c' Hc'. by apply control_ok_app. }
  intros _ p2 (pool' & ring' & Hm2 & Hperm2 & Hpre2). exists pool', ring'.
  split; [done|]. split; [by rewrite Hperm2|]. by etransitivity.
Qed.

(** ** Opening a socket *)

Definition reset_lsd (d : local_socket_descriptor) : local_socket_descriptor :=
  d <| lsd_shadow_len_delievered := 0 |> <| lsd_shadow_len_remainder := 0 |>
    <| lsd_shadow := 0 |> <| lsd_shadow_next := 0 |>
    <| lsd_present_in_ready_cache := 0 |> <| lsd_local_mask := 0 |>.

(** Connections that can be handed out: a block for each, whose number fits the
    descriptor table, and a descriptor that is on no ready cache. *)
Definition connections_ok (m : shm) (a : app) (q : list Z) : Prop :=
  ∀ i, i ∈ q → 0 ≤ i < IPAUGENBLICK_CONNECTION_POOL_SIZE ∧
    (∃ s, g_sockets m !! i = Some s ∧ connection_idx s = i) ∧
    is_Some (lsds a !! i) ∧
    map_Forall (λ _ s, i ∉ sel_local_ready_cache s) (selectors a).

Lemma cmd_mem_other m pool ring id c rs :
  cmd_mem m pool ring → id ≠ FREE_COMMAND_POOL → id ≠ COMMAND_RING → rings_ok rs →
  chans rs = <[id := c]> (chans (rings m)) → cmd_mem (m <| rings := rs |>) pool ring.
Proof.
  intros [Hok Hp Hr Hb Hroom] H1 H2 Hrs Hch.
  split; try done; change (rings (m <| rings := rs |>)) with rs;
    by rewrite Hch, lookup_insert_ne by done.
Qed.

Lemma wp_reset_local_descriptor i (Q : unit → proc → Prop) p :
  is_Some (lsds (p_app p) !! i) →
  map_Forall (λ _ s, i ∉ sel_local_ready_cache s) (selectors (p_app p)) →
  Q tt (p <| p_app := update_lsd i reset_lsd (p_app p) |>) →
  wp (ipaugenblick_reset_local_descriptor i) Q p.
Proof.
  intros [d Hd] Hfree HQ. unfold ipaugenblick_reset_local_descriptor, app_get.
  rewrite wp_bind, wp_gets, wp_bind, wp_require. split.
  - apply negb_true_iff, bool_decide_eq_false. intros (j & s & Hs & Hin). by apply (Hfree j s Hs).
  - by apply (wp_lsd_write _ d).
Qed.

(** Opening a socket takes the oldest free connection.  When the command is
    sent, its descriptor is reset and belongs to the parent selector, and the
    service is asked to create the socket.  When there is no command buffer or
    no room for the command, the call fails and the connection is on the free
    ring no more: it is lost. *)
Theorem open_socket_spec family type parent pool ring conns p :
  cmd_mem (p_shm p) pool ring →
  chans (rings (p_shm p)) !! FREE_CONNECTIONS_RING = Some conns →
  connections_ok (p_shm p) (p_app p) (ch_q conns) →
  wp (ipaugenblick_open_socket family type parent) (λ ret p',
    match ch_q conns, result_of pool ring with
    | [], _ => ret = -1 ∧ p_app p' = p_app p
    | i :: rest, r =>
        contents (p_shm p') FREE_CONNECTIONS_RING = rest ∧
        match r with
        | No_buffer => ret = -2 ∧ lsds (p_app p') = lsds (p_app p)
        | Ring_full => ret = -3 ∧ p_app p' = p_app p
        | Submitted => ret = i ∧
            (∃ b, contents (p_shm p') COMMAND_RING = ch_q ring ++ [b] ∧
               cmds (p_shm p') !! b = Some (mk_cmd OPEN_SOCKET_COMMAND i parent
                 (U_open_sock family type (app_pid (p_app p))))) ∧
            lsds (p_app p') !! i =
              (λ d, reset_lsd d <| lsd_socket := Some i |> <| lsd_select := parent |>)
                <$> lsds (p_app p) !! i
        end
    end) p.
Proof.
  intros Hm Hconns Hok. unfold ipaugenblick_open_socket. rewrite wp_bind.
  eapply wp_dequeue; [apply Hm|exact Hconns| |].
  2:{ intros Hq rs Hrs Hch. by rewrite wp_ret, Hq. }
  intros i rest Hq rs Hrs Hch. rewrite Hq.
  destruct (Hok i) as (Hi & (sk & Hsk & Hidx) & [d Hd] & Hfree); [rewrite Hq; constructor|].
  assert (cmd_mem (part_get (with_rings p rs)) pool ring) as Hm1
    by exact (cmd_mem_other (p_shm p) pool ring FREE_CONNECTIONS_RING _ rs Hm
                ltac:(done) ltac:(done) Hrs Hch).
  assert (∀ (m' : shm) (fill : ipaugenblick_cmd → ipaugenblick_cmd),
    submitted (part_get (with_rings p rs)) pool ring fill m' →
    contents m' FREE_CONNECTIONS_RING = rest) as Hrest.
  { intros m' fill (_ & Hch' & _). unfold contents. rewrite Hch'. unfold chans_after.
    change (rings (part_get (with_rings p rs))) with rs. rewrite Hch.
    destruct (ch_q pool), (result_of pool ring);
      rewrite ?(lookup_insert_ne _ COMMAND_RING), ?(lookup_insert_ne _ FREE_COMMAND_POOL),
        lookup_insert_eq; done. }
  eapply (wp_get_cmd pool ring); [done| |].
  - intros Hpq m' Hs. unfold no_command_buf, stat_inc. rewrite wp_bind. apply wp_stat_add.
    rewrite wp_ret. split; [by eapply Hrest|]. unfold result_of. by rewrite Hpq.
  - intros b brest c Hpq Hc rs2 Hrs2 Hch2. rewrite wp_bind. unfold sock_read.
    rewrite wp_bind, wp_gets. change (g_sockets _) with (g_sockets (p_shm p)). rewrite Hsk.
    cbn [of_option]. rewrite wp_ret, Hidx. cbv zeta. unfold getpid, app_get.
    rewrite wp_bind, wp_gets. eapply wp_submit; [exact Hm1|exact Hpq|exact Hc|done|done| |].
    + intros Hr m' Hs. rewrite wp_ret, Hr. split; [by eapply Hrest|done].
    + intros Hr m' Hs. rewrite wp_bind. apply wp_reset_local_descriptor; [by exists d|done|].
      rewrite wp_bind. eapply (wp_lsd_write _ (reset_lsd d)).
      { cbn. by rewrite lookup_alter_eq, Hd. }
      rewrite wp_ret, Hr. split; [by eapply Hrest|].
      unfold IPAUGENBLICK_CONNECTION_POOL_SIZE in Hi.
      split; [by apply sint32_small; lia|]. split.
      * destruct Hs as (_ & Hch' & Hcm & _). exists b. rewrite Hr in *.
        unfold contents, chans_after, cmds_after in *. rewrite Hpq in *.
        split.
        { change (from_option ch_q [] (chans (rings m') !! COMMAND_RING) = ch_q ring ++ [b]).
          by rewrite Hch', lookup_insert_eq. }
        change (cmds (p_shm _)) with (cmds m'). rewrite Hcm, lookup_alter_eq, Hc. cbn.
        by rewrite wrap32_small by lia.
      * cbn. by rewrite lookup_alter_eq, lookup_alter_eq, Hd.
Qed.

(** ** The ready cache stays consistent *)

(** A descriptor says it is cached exactly when it is on the list of its
    selector, once; the selector's count is the length of its list. *)
Record cache_ok (a : app) : Prop := {
  co_list : ∀ j s, selectors a !! j = Some s →
    NoDup (sel_local_ready_cache s) ∧ sel_queue_length s = zlen (sel_local_ready_cache s) ∧
    ∀ i, i ∈ sel_local_ready_cache s → ∃ d, lsds a !! i = Some d ∧ lsd_select d = j ∧
      lsd_present_in_ready_cache d ≠ 0;
  co_flag : ∀ i d, lsds a !! i = Some d → lsd_present_in_ready_cache d ≠ 0 →
    ∃ s, selectors a !! lsd_select d = Some s ∧ i ∈ sel_local_ready_cache s;
  co_none : selectors a !! (-1) = None;
}.

(** What caching leaves alone. *)
Definition lsd_core (d : local_socket_descriptor) := d <| lsd_present_in_ready_cache := 0 |>.
Definition sel_core (s : selector_t) := s <| sel_local_ready_cache := [] |> <| sel_queue_length := 0 |>.
Definition same_core (a a' : app) : Prop :=
  lsd_core <$> lsds a' = lsd_core <$> lsds a ∧ sel_core <$> selectors a' = sel_core <$> selectors a ∧
  app_fdsets a' = app_fdsets a.

Lemma same_core_refl a : same_core a a.
Proof. done. Qed.

Lemma same_core_lsd a a' i d :
  same_core a a' → lsds a !! i = Some d → ∃ d', lsds a' !! i = Some d' ∧ lsd_core d' = lsd_core d.
Proof.
  intros (Hl & _) Hd. apply (f_equal (lookup i)) in Hl. rewrite !lookup_fmap, Hd in Hl.
  destruct (lsds a' !! i) as [d'|]; [|done]. apply (inj Some) in Hl. by exists d'.
Qed.

(** Descriptor [i] put at the end of the list of selector [j]. *)
Definition cached (i j : Z) (a : app) : app :=
  a <| selectors := alter (λ s, s <| sel_local_ready_cache := sel_local_ready_cache s ++ [i] |>
                               <| sel_queue_length := sel_queue_length s + 1 |>) j (selectors a) |>
    <| lsds := alter (λ d, d <| lsd_present_in_ready_cache := 1 |>) i (lsds a) |>.
Definition uncached (i j : Z) (a : app) : app :=
  a <| selectors := alter (λ s, s <| sel_local_ready_cache :=
                                       filter (.≠ i) (sel_local_ready_cache s) |>
                               <| sel_queue_length := sel_queue_length s - 1 |>) j (selectors a) |>
    <| lsds := alter (λ d, d <| lsd_present_in_ready_cache := 0 |>) i (lsds a) |>.

Lemma cached_core i j a : same_core a (cached i j a).
Proof. split_and!; [by apply fmap_alter_core..|done]. Qed.
Lemma uncached_core i j a : same_core a (uncached i j a).
Proof. split_and!; [by apply fmap_alter_core..|done]. Qed.

Lemma cached_ok i j a d s :
  cache_ok a → lsds a !! i = Some d → lsd_present_in_ready_cache d = 0 → lsd_select d = j →
  selectors a !! j = Some s → cache_ok (cached i j a) ∧ i ∉ sel_local_ready_cache s.
Proof.
  intros [Hlist Hflag Hnone] Hd Hp Hj Hs.
  assert (i ∉ sel_local_ready_cache s) as Hni.
  { intros Hin. destruct (Hlist j s Hs) as (_ & _ & Hm). destruct (Hm i Hin) as (d' & Hd' & _ & Hp').
    congruence. }
  split; [|done]. split; cbn.
  - intros j' s' Hs'. destruct (decide (j' = j)) as [->|Hne].
    + rewrite lookup_alter_eq, Hs in Hs'. cbn in Hs'. injection Hs' as <-. cbn.
      destruct (Hlist j s Hs) as (Hnd & Hlen & Hm). split; [by apply NoDup_snoc|].
      split; [rewrite Hlen, zlen_app; done|]. intros x Hx.
      apply elem_of_app in Hx as [Hx|Hx%list_elem_of_singleton].
      * destruct (Hm x Hx) as (dx & Hdx & Hsx & Hpx).
        rewrite lookup_alter_ne by (intros <-; done). by exists dx.
      * subst x. rewrite lookup_alter_eq, Hd. cbn. by eexists.
    + rewrite lookup_alter_ne in Hs' by done. destruct (Hlist j' s' Hs') as (Hnd & Hlen & Hm).
      split; [done|]. split; [done|]. intros x Hx. destruct (Hm x Hx) as (dx & Hdx & Hsx & Hpx).
      rewrite lookup_alter_ne; [by exists dx|]. intros <-. congruence.
  - intros x dx Hdx Hpx. destruct (decide (x = i)) as [->|Hne].
    + rewrite lookup_alter_eq, Hd in Hdx. cbn in Hdx. injection Hdx as <-. cbn. rewrite Hj.
      rewrite lookup_alter_eq, Hs. cbn. eexists. split; [done|]. cbn.
      apply elem_of_app. right. constructor.
    + rewrite lookup_alter_ne in Hdx by done. destruct (Hflag x dx Hdx Hpx) as (sx & Hsx & Hin).
      destruct (decide (lsd_select dx = j)) as [Heq|?].
      * rewrite Heq in *. rewrite lookup_alter_eq, Hsx. cbn. eexists. split; [done|]. cbn.
        apply elem_of_app. by left.
      * rewrite lookup_alter_ne by done. eauto.
  - rewrite lookup_alter_ne; [done|]. intros ->. congruence.
Qed.

Lemma uncached_ok i j a d s :
  cache_ok a → lsds a !! i = Some d → lsd_present_in_ready_cache d ≠ 0 → lsd_select d = j →
  selectors a !! j = Some s → cache_ok (uncached i j a) ∧ i ∈ sel_local_ready_cache s.
Proof.
  intros [Hlist Hflag Hnone] Hd Hp Hj Hs.
  assert (i ∈ sel_local_ready_cache s) as Hin.
  { destruct (Hflag i d Hd Hp) as (s' & Hs' & ?). congruence. }
  split; [|done]. split; cbn.
  - intros j' s' Hs'. destruct (decide (j' = j)) as [->|Hne].
    + rewrite lookup_alter_eq, Hs in Hs'. cbn in Hs'. injection Hs' as <-. cbn.
      destruct (Hlist j s Hs) as (Hnd & Hlen & Hm). split; [by apply NoDup_filter|].
      pose proof (length_filter_ne _ i Hnd Hin). split; [unfold zlen in *; lia|].
      intros x Hx. apply list_elem_of_filter in Hx as [Hxi Hx].
      destruct (Hm x Hx) as (dx & Hdx & ?). rewrite lookup_alter_ne by congruence. by exists dx.
    + rewrite lookup_alter_ne in Hs' by done. destruct (Hlist j' s' Hs') as (Hnd & Hlen & Hm).
      split; [done|]. split; [done|]. intros x Hx. destruct (Hm x Hx) as (dx & Hdx & Hsx & Hpx).
      rewrite lookup_alter_ne; [by exists dx|]. intros <-. congruence.
  - intros x dx Hdx Hpx. destruct (decide (x = i)) as [->|Hne].
    + rewrite lookup_alter_eq, Hd in Hdx. cbn in Hdx. injection Hdx as <-. done.
    + rewrite lookup_alter_ne in Hdx by done. destruct (Hflag x dx Hdx Hpx) as (sx & Hsx & Hx).
      destruct (decide (lsd_select dx = j)) as [Heq|?].
      * rewrite Heq in *. rewrite lookup_alter_eq, Hsx. cbn. eexists. split; [done|]. cbn.
        by apply list_elem_of_filter.
      * rewrite lookup_alter_ne by done. eauto.
  - rewrite lookup_alter_ne; [done|]. intros ->. congruence.
Qed.

Lemma wp_sel_read j s (Q : selector_t → proc → Prop) p :
  selectors (p_app p) !! j = Some s → Q s p → wp (sel_read j) Q p.
Proof. intros Hs HQ. unfold sel_read, app_get. wp_run. by rewrite Hs. Qed.

Definition update_sel (j : Z) (f : selector_t → selector_t) (a : app) : app :=
  a <| selectors := alter f j (selectors a) |>.

Lemma wp_sel_write j s f (Q : unit → proc → Prop) p :
  selectors (p_app p) !! j = Some s →
  Q tt (p <| p_app := update_sel j f (p_app p) |>) →
  wp (sel_write j f) Q p.
Proof.
  intros Hs HQ. unfold sel_write, on_app. rewrite wp_bind. apply (wp_sel_read _ s); [done|].
  unfold update_sel in HQ. rewrite (alter_insert_lookup _ _ _ s) in HQ by done. exact HQ.
Qed.

(** What putting a descriptor in the cache, and taking it out, amounts to. *)
Definition level_selector (d : local_socket_descriptor) (a : app) : bool :=
  match selectors a !! lsd_select d with Some s => negb (sel_level_mode s =? 0) | None => false end.
Definition put_app (i : Z) (d : local_socket_descriptor) (a : app) : app :=
  if negb (lsd_local_mask d =? 0) && (lsd_present_in_ready_cache d =? 0) && level_selector d a
  then cached i (lsd_select d) a else a.
Definition remove_app (i : Z) (d : local_socket_descriptor) (a : app) : app :=
  if negb (lsd_present_in_ready_cache d =? 0) && level_selector d a
  then uncached i (lsd_select d) a else a.

Lemma wp_put_to_local_cache i d (Q : unit → proc → Prop) p :
  cache_ok (p_app p) → lsds (p_app p) !! i = Some d →
  (lsd_local_mask d ≠ 0 → is_Some (selectors (p_app p) !! lsd_select d)) →
  Q tt (p <| p_app := put_app i d (p_app p) |>) →
  wp (ipaugenblick_put_to_local_cache i) Q p.
Proof.
  intros Hok Hd Hsel HQ. unfold put_app, level_selector in HQ.
  assert (p <| p_app := p_app p |> = p) as Hp0 by by destruct p.
  unfold ipaugenblick_put_to_local_cache. rewrite wp_bind. apply (wp_lsd_read _ d); [done|].
  destruct (Z.eqb_spec (lsd_local_mask d) 0) as [|Hm]; cbn [negb andb] in HQ;
    [by rewrite wp_ret, <- Hp0|].
  destruct (Z.eqb_spec (lsd_present_in_ready_cache d) 0) as [Hp|]; cbn [negb andb] in HQ;
    [|by rewrite wp_ret, <- Hp0].
  destruct (Hsel Hm) as [s Hs]. rewrite Hs in HQ. rewrite wp_bind. apply (wp_sel_read _ s); [done|].
  destruct (Z.eqb_spec (sel_level_mode s) 0); cbn [negb] in *; [by rewrite wp_ret, <- Hp0|].
  destruct (cached_ok i _ _ d s Hok Hd Hp eq_refl Hs) as [Hok' Hni].
  rewrite wp_bind, wp_tailq_insert_tail. split; [done|].
  rewrite wp_bind. apply (wp_sel_write _ s); [done|]. rewrite wp_bind. apply (wp_lsd_write _ d); [done|].
  eapply wp_sel_write.
  { cbn. by rewrite lookup_alter_eq, Hs. }
  unfold update_lsd, update_sel. cbn. rewrite alter_alter_eq.
  unfold cached in HQ. cbn in HQ. erewrite (alter_at (_ ∘ _)); [exact HQ|exact Hs|reflexivity].
Qed.

Lemma wp_remove_socket_from_cache i d (Q : unit → proc → Prop) p :
  cache_ok (p_app p) → lsds (p_app p) !! i = Some d →
  Q tt (p <| p_app := remove_app i d (p_app p) |>) →
  wp (_ipaugenblick_remove_socket_from_cache i) Q p.
Proof.
  intros Hok Hd HQ. unfold remove_app, level_selector in HQ.
  assert (p <| p_app := p_app p |> = p) as Hp0 by by destruct p.
  unfold _ipaugenblick_remove_socket_from_cache. rewrite wp_bind. apply (wp_lsd_read _ d); [done|].
  destruct (Z.eqb_spec (lsd_select d) (-1)) as [Hm1|]; cbn [negb andb].
  { rewrite Hm1, (co_none _ Hok), andb_false_r in HQ. by rewrite wp_ret, <- Hp0. }
  destruct (Z.eqb_spec (lsd_present_in_ready_cache d) 0) as [|Hp]; cbn [negb andb] in *;
    [by rewrite wp_ret, <- Hp0|].
  destruct (co_flag _ Hok i d Hd Hp) as (s & Hs & _). rewrite Hs in HQ.
  rewrite wp_bind. apply (wp_sel_read _ s); [done|].
  destruct (Z.eqb_spec (sel_level_mode s) 0); cbn [negb] in *; [by rewrite wp_ret, <- Hp0|].
  destruct (uncached_ok i _ _ d s Hok Hd Hp eq_refl Hs) as [Hok' Hin].
  rewrite wp_bind, wp_tailq_remove. split; [done|].
  rewrite wp_bind. apply (wp_sel_write _ s); [done|]. rewrite wp_bind. apply (wp_lsd_write _ d); [done|].
  eapply wp_sel_write.
  { cbn. by rewrite lookup_alter_eq, Hs. }
  unfold update_lsd, update_sel. cbn. rewrite alter_alter_eq.
  unfold uncached in HQ. cbn in HQ. erewrite (alter_at (_ ∘ _)); [exact HQ|exact Hs|reflexivity].
Qed.

(** Whether descriptor [i] is on the list of its selector. *)
Definition in_cache (i : Z) (a : app) : Prop :=
  ∃ d s, lsds a !! i = Some d ∧ selectors a !! lsd_select d = Some s ∧
    i ∈ sel_local_ready_cache s.

Lemma in_cache_flag i d a :
  cache_ok a → lsds a !! i = Some d → in_cache i a ↔ lsd_present_in_ready_cache d ≠ 0.
Proof.
  intros Hok Hd. split.
  - intros (d' & s & Hd' & Hs & Hin). destruct (co_list _ Hok _ _ Hs) as (_ & _ & Hm).
    destruct (Hm i Hin) as (d2 & Hd2 & _ & Hp). congruence.
  - intros Hp. destruct (co_flag _ Hok i d Hd Hp) as (s & Hs & Hin). by exists d, s.
Qed.

(** Each operation on one descriptor leaves the others where they are. *)
Lemma in_cache_other i k j v f a :
  k ≠ i →
  (∀ s, k ∈ sel_local_ready_cache (f s) ↔ k ∈ sel_local_ready_cache s) →
  in_cache k (a <| selectors := alter f j (selectors a) |> <| lsds := alter v i (lsds a) |>)
    ↔ in_cache k a.
Proof.
  intros Hk Hf. unfold in_cache. cbn. setoid_rewrite (lookup_alter_ne v _ i k); [|done].
  split; intros (d & s & Hd & Hs & Hin); exists d.
  - destruct (decide (lsd_select d = j)) as [<-|?].
    + rewrite lookup_alter_eq in Hs. destruct (selectors a !! lsd_select d) as [s0|]; [|done].
      apply (inj Some) in Hs. subst s. exists s0. split_and!; [done..|]. by apply Hf.
    + rewrite lookup_alter_ne in Hs by done. by exists s.
  - destruct (decide (lsd_select d = j)) as [<-|?].
    + exists (f s). rewrite lookup_alter_eq, Hs. split_and!; [done..|]. by apply Hf.
    + exists s. by rewrite lookup_alter_ne by done.
Qed.

Lemma put_app_spec i d a :
  cache_ok a → lsds a !! i = Some d →
  cache_ok (put_app i d a) ∧ same_core a (put_app i d a) ∧
  (∀ k, k ≠ i → in_cache k (put_app i d a) ↔ in_cache k a) ∧
  (level_selector d a = true → in_cache i (put_app i d a) ↔ in_cache i a ∨ lsd_local_mask d ≠ 0).
Proof.
  intros Hok Hd. unfold put_app, level_selector.
  destruct (Z.eqb_spec (lsd_local_mask d) 0) as [Hm|Hm]; cbn [negb andb];
    [split_and!; try done; tauto|].
  pose proof (in_cache_flag i d a Hok Hd) as Hfl.
  destruct (Z.eqb_spec (lsd_present_in_ready_cache d) 0) as [Hp|Hp]; cbn [negb andb];
    [|split_and!; try done; tauto].
  destruct (selectors a !! lsd_select d) as [s|] eqn:Hs; [|by split_and!].
  destruct (Z.eqb_spec (sel_level_mode s) 0); cbn [negb]; [by split_and!|].
  destruct (cached_ok i _ a d s Hok Hd Hp eq_refl Hs) as [Hok' Hni].
  split_and!; [done|apply cached_core| |].
  - intros k Hk. apply in_cache_other; [done|]. intros s0. cbn. rewrite elem_of_app, list_elem_of_singleton.
    tauto.
  - intros _. split; [tauto|]. intros _.
    apply (in_cache_flag i (d <| lsd_present_in_ready_cache := 1 |>) _ Hok'); [|done].
    cbn. by rewrite lookup_alter_eq, Hd.
Qed.

Lemma remove_app_spec i d a :
  cache_ok a → lsds a !! i = Some d →
  cache_ok (remove_app i d a) ∧ same_core a (remove_app i d a) ∧
  (∀ k, k ≠ i → in_cache k (remove_app i d a) ↔ in_cache k a) ∧
  (level_selector d a = true → ¬ in_cache i (remove_app i d a)).
Proof.
  intros Hok Hd. unfold remove_app, level_selector.
  pose proof (in_cache_flag i d a Hok Hd) as Hfl.
  destruct (Z.eqb_spec (lsd_present_in_ready_cache d) 0) as [Hp|Hp]; cbn [negb andb];
    [split_and!; try done; tauto|].
  destruct (selectors a !! lsd_select d) as [s|] eqn:Hs; [|by split_and!].
  destruct (Z.eqb_spec (sel_level_mode s) 0); cbn [negb]; [by split_and!|].
  destruct (uncached_ok i _ a d s Hok Hd Hp eq_refl Hs) as [Hok' Hin].
  split_and!; [done|apply uncached_core| |].
  - intros k Hk. apply in_cache_other; [done|]. intros s0. cbn. rewrite list_elem_of_filter. tauto.
  - intros _ Hc.
    apply (in_cache_flag i (d <| lsd_present_in_ready_cache := 0 |>) _ Hok') in Hc; [done|].
    cbn. by rewrite lookup_alter_eq, Hd.
Qed.

(** Operations on the cache by number of the socket.  The call sites of
    [ipaugenblick_update_local_ready_cache] pass the descriptor's own selector. *)
Inductive cache_op := Cache_put (i : Z) | Cache_remove (i : Z) | Cache_clear (i bit : Z).
Definition run_cache_op (o : cache_op) : M proc unit :=
  match o with
  | Cache_put i => ipaugenblick_put_to_local_cache i
  | Cache_remove i => ipaugenblick_remove_socket_from_cache i
  | Cache_clear i bit => d ← lsd_read i; ipaugenblick_update_local_ready_cache (lsd_select d) i bit
  end.
Definition op_socket (o : cache_op) : Z :=
  match o with Cache_put i | Cache_remove i | Cache_clear i _ => i end.

(** The events of a socket, and which socket waits on which selector. *)
Definition mask_of (i : Z) (a : app) : Z := from_option lsd_local_mask 0 (lsds a !! i).
Definition wired (a : app) : Prop :=
  ∀ i d, lsds a !! i = Some d → lsd_select d = -1 ∨ is_Some (selectors a !! lsd_select d).

Lemma clear_mask_ok i f a :
  (∀ d, lsd_select (f d) = lsd_select d ∧
        lsd_present_in_ready_cache (f d) = lsd_present_in_ready_cache d) →
  cache_ok a → cache_ok (update_lsd i f a).
Proof.
  intros Hf [Hlist Hflag Hnone]. split; [| |done]; cbn.
  - intros j s Hs. destruct (Hlist j s Hs) as (Hnd & Hlen & Hm). split_and!; [done..|].
    intros k Hk. destruct (Hm k Hk) as (d & Hd & Hsel & Hp). destruct (decide (k = i)) as [->|].
    + rewrite lookup_alter_eq, Hd. destruct (Hf d). exists (f d). split; [done|]. by split; congruence.
    + rewrite lookup_alter_ne by done. by exists d.
  - intros k d Hd Hp. destruct (decide (k = i)) as [->|].
    + rewrite lookup_alter_eq in Hd. destruct (lsds a !! i) as [d0|] eqn:Hd0; [|done].
      apply (inj Some) in Hd. subst d. destruct (Hf d0) as [Hs0 Hp0]. rewrite Hs0.
      apply (Hflag i d0); [done|congruence].
    + rewrite lookup_alter_ne in Hd by done. by apply (Hflag k d).
Qed.

Lemma wired_core a a' : same_core a a' → wired a → wired a'.
Proof.
  intros (Hl & Hs & _) Hw i d' Hd'.
  apply (f_equal (lookup i)) in Hl. rewrite !lookup_fmap, Hd' in Hl.
  destruct (lsds a !! i) as [d|] eqn:Hd; [|done]. apply (inj Some) in Hl.
  assert (lsd_select d' = lsd_select d) as -> by by injection Hl.
  destruct (Hw i d Hd) as [?|[s Hsel]]; [by left|right].
  apply (f_equal (lookup (lsd_select d))) in Hs. rewrite !lookup_fmap, Hsel in Hs.
  by destruct (selectors a' !! lsd_select d).
Qed.

Lemma mask_of_core a a' i : same_core a a' → mask_of i a' = mask_of i a.
Proof.
  intros (Hl & _). apply (f_equal (lookup i)) in Hl. rewrite !lookup_fmap in Hl. unfold mask_of.
  destruct (lsds a' !! i), (lsds a !! i); try done. apply (inj Some) in Hl. cbn. by injection Hl.
Qed.

Lemma mask_of_lookup a i d : lsds a !! i = Some d → mask_of i a = lsd_local_mask d.
Proof. unfold mask_of. by intros ->. Qed.

(** Taking a bit out of the mask leaves the lists alone. *)
Lemma clear_mask_spec i d m a :
  let d' := d <| lsd_local_mask := m |> in
  let a' := update_lsd i (λ d, d <| lsd_local_mask := m |>) a in
  cache_ok a → wired a → lsds a !! i = Some d →
  cache_ok a' ∧ wired a' ∧ lsds a' !! i = Some d' ∧ selectors a' = selectors a ∧
  ∀ k, in_cache k a' ↔ in_cache k a.
Proof.
  intros d' a' Hok Hw Hd.
  assert (cache_ok a') as Hok' by by apply clear_mask_ok.
  assert (lsds a' !! i = Some d') as Hd' by (cbn; by rewrite lookup_alter_eq, Hd).
  split_and!; try done.
  - intros k e He. destruct (decide (k = i)) as [->|Hk].
    + rewrite Hd' in He. apply (inj Some) in He. subst e. apply (Hw i d Hd).
    + cbn in He. rewrite lookup_alter_ne in He by done. by apply (Hw k e).
  - intros k. destruct (decide (k = i)) as [->|Hk].
    + by rewrite (in_cache_flag i d' a' Hok' Hd'), (in_cache_flag i d a Hok Hd).
    + unfold in_cache. cbn. by setoid_rewrite (lookup_alter_ne _ _ i k); [|done].
Qed.

(** What the cache operations never change: everything of the process but the
    lists and the events, and of a descriptor everything but its events. *)
Definition lsd_static (d : local_socket_descriptor) := (lsd_core d) <| lsd_local_mask := 0 |>.
Definition cache_frame (a a' : app) : Prop :=
  lsd_static <$> lsds a' = lsd_static <$> lsds a ∧
  ∃ ls ss, a' = a <| lsds := ls |> <| selectors := ss |>.

Lemma cache_frame_core a a' :
  same_core a a' → (∃ ls ss, a' = a <| lsds := ls |> <| selectors := ss |>) → cache_frame a a'.
Proof.
  intros (Hl & _) Hex. split; [|done].
  assert (∀ m : gmap Z local_socket_descriptor,
            lsd_static <$> m = (λ d, d <| lsd_local_mask := 0 |>) <$> (lsd_core <$> m)) as Hc
    by (intros m; by rewrite <- map_fmap_compose).
  by rewrite !Hc, Hl.
Qed.

Lemma put_app_frame i d a : ∃ ls ss, put_app i d a = a <| lsds := ls |> <| selectors := ss |>.
Proof. unfold put_app. case_match; [by do 2 eexists|exists (lsds a), (selectors a); by destruct a]. Qed.
Lemma remove_app_frame i d a :
  ∃ ls ss, remove_app i d a = a <| lsds := ls |> <| selectors := ss |>.
Proof. unfold remove_app. case_match; [by do 2 eexists|exists (lsds a), (selectors a); by destruct a]. Qed.

(** An event is taken out of a socket's mask. *)
Record event_cleared (i bit : Z) (d : local_socket_descriptor) (a a' : app) : Prop := {
  ec_ok : cache_ok a';
  ec_wired : wired a';
  ec_frame : cache_frame a a';
  ec_others : ∀ k, k ≠ i → in_cache k a' ↔ in_cache k a;
  ec_mask : mask_of i a' = if decide (lsd_select d = -1) then mask_of i a
                           else Z.land (mask_of i a) (Z.lnot bit);
  ec_in : lsd_select d ≠ -1 → level_selector d a = true →
          in_cache i a' ↔ in_cache i a ∧ mask_of i a' ≠ 0;
}.

Lemma wp_update_local_ready_cache i d bit (Q : unit → proc → Prop) p :
  cache_ok (p_app p) → wired (p_app p) → lsds (p_app p) !! i = Some d →
  (∀ a', event_cleared i bit d (p_app p) a' → Q tt (p <| p_app := a' |>)) →
  wp (ipaugenblick_update_local_ready_cache (lsd_select d) i bit) Q p.
Proof.
  intros Hok Hw Hd HQ. set (m := Z.land (lsd_local_mask d) (Z.lnot bit)).
  set (a1 := update_lsd i (λ d, d <| lsd_local_mask := m |>) (p_app p)).
  destruct (clear_mask_spec i d m _ Hok Hw Hd) as (Hok1 & Hw1 & Hd1 & Hsel1 & Hin1).
  fold a1 in Hok1, Hw1, Hd1, Hsel1, Hin1. unfold ipaugenblick_update_local_ready_cache.
  destruct (Z.eqb_spec (lsd_select d) (-1)) as [Hsel|Hsel].
  { rewrite wp_ret. replace p with (p <| p_app := p_app p |>) at 1 by by destruct p.
    apply HQ. split; try done; [|by rewrite decide_True].
    split; [done|]. exists (lsds (p_app p)), (selectors (p_app p)). by destruct (p_app p). }
  rewrite wp_bind. apply (wp_lsd_write _ d); [done|].
  assert (update_lsd i (λ d, d <| lsd_local_mask := Z.land (lsd_local_mask d) (Z.lnot bit) |>)
            (p_app p) = a1) as ->.
  { unfold a1, update_lsd.
    by rewrite (alter_at (λ d, d <| lsd_local_mask := Z.land (lsd_local_mask d) (Z.lnot bit) |>)
                  (λ d, d <| lsd_local_mask := m |>) _ _ d Hd eq_refl). }
  rewrite wp_bind. apply (wp_lsd_read _ (d <| lsd_local_mask := m |>)); [done|].
  cbn [lsd_local_mask set_field].
  assert (mask_of i a1 = m) as Hm1 by by rewrite (mask_of_lookup _ _ _ Hd1).
  assert (m = Z.land (mask_of i (p_app p)) (Z.lnot bit)) as Hm by by rewrite (mask_of_lookup _ _ _ Hd).
  assert (lsd_static <$> lsds a1 = lsd_static <$> lsds (p_app p)) as Hst by by apply fmap_alter_core.
  destruct (Z.eqb_spec m 0) as [Hm0|Hm0]; cbn [negb].
  - destruct (remove_app_spec i _ _ Hok1 Hd1) as (Hok' & Hcore & Hk & Hi).
    destruct (cache_frame_core _ _ Hcore (remove_app_frame i _ a1)) as (Hst2 & ls & ss & Heq).
    apply (wp_remove_socket_from_cache i (d <| lsd_local_mask := m |>)); [done..|].
    apply (HQ (remove_app i (d <| lsd_local_mask := m |>) a1)). split.
    + done.
    + by eapply wired_core.
    + split; [exact (eq_trans Hst2 Hst)|]. exists ls, ss. exact Heq.
    + intros k Hne. by rewrite Hk.
    + rewrite decide_False by done. by rewrite (mask_of_core _ _ i Hcore), Hm1.
    + intros _ Hlev. rewrite (mask_of_core _ _ i Hcore), Hm1. split; [|by intros [_ []]].
      intros Hin. exfalso. revert Hin. by apply Hi.
  - rewrite wp_ret. apply HQ. split; try done.
    + split; [done|]. exists (lsds a1), (selectors a1). by destruct (p_app p).
    + rewrite decide_False by done. by rewrite Hm1.
    + intros _ _. rewrite Hin1, Hm1. tauto.
Qed.

(** The ready cache of a selector is consistent - a socket is on the list
    of its selector, once, exactly when its flag says so, and the selector's
    count is the length of its list - and the three operations keep it so,
    touch neither the shared memory nor another socket's place, and on a
    selector in level mode do what they are for: [put] adds a socket that has
    an event pending, [remove] takes it out, and clearing an event takes it
    out when no event is left. *)
Theorem ready_cache_consistent o p d :
  let i := op_socket o in
  cache_ok (p_app p) → wired (p_app p) → lsds (p_app p) !! i = Some d → lsd_select d ≠ -1 →
  wp (run_cache_op o) (λ _ p',
    let a := p_app p in let a' := p_app p' in
    p_shm p' = p_shm p ∧ cache_ok a' ∧ wired a' ∧
    (∀ k, k ≠ i → in_cache k a' ↔ in_cache k a) ∧
    mask_of i a' = match o with
                   | Cache_clear _ bit => Z.land (mask_of i a) (Z.lnot bit)
                   | _ => mask_of i a
                   end ∧
    (level_selector d a = true →
     match o with
     | Cache_put _ => in_cache i a' ↔ in_cache i a ∨ mask_of i a ≠ 0
     | Cache_remove _ => ¬ in_cache i a'
     | Cache_clear _ _ => in_cache i a' ↔ in_cache i a ∧ mask_of i a' ≠ 0
     end)) p.
Proof.
  intros i Hok Hw Hd Hsel. unfold i in *. clear i.
  destruct o as [i|i|i bit]; cbn [op_socket run_cache_op] in *.
  - destruct (put_app_spec i d _ Hok Hd) as (Hok' & Hcore & Hk & Hi).
    apply (wp_put_to_local_cache i d); [done..| |].
    + intros _. by destruct (Hw i d Hd).
    + cbn zeta. cbn [p_app p_shm set_field]. rewrite (mask_of_core _ _ i Hcore), (mask_of_lookup _ _ _ Hd).
      split_and!; try done. by eapply wired_core.
  - destruct (remove_app_spec i d _ Hok Hd) as (Hok' & Hcore & Hk & Hi).
    apply (wp_remove_socket_from_cache i d); [done..|]. cbn zeta. cbn [p_app p_shm set_field].
    rewrite (mask_of_core _ _ i Hcore). split_and!; try done. by eapply wired_core.
  - rewrite wp_bind. apply (wp_lsd_read _ d); [done|].
    apply (wp_update_local_ready_cache i d bit); [done..|]. intros a' [Hok' Hw' _ Hk Hm Hi].
    rewrite decide_False in Hm by done. cbn [p_app p_shm set_field]. split_and!; auto.
Qed.

(** ** Concrete instances *)

(** A process with sockets 5 and 6 on selector 2, two free command buffers and
    an empty command ring. *)
Definition demo_shm : shm :=
  mk_shm
    (list_to_map [(FREE_COMMAND_POOL, demo_ring 0 8 [100; 101]); (COMMAND_RING, demo_ring 2 8 []);
                  (FREE_CONNECTIONS_RING, demo_ring 0 8 [7]);
                  (READY_RING 2, demo_ring 3 8 [])])
    {[ 100 := mk_cmd DUMMY_COMMAND 0 0 U_none; 101 := mk_cmd DUMMY_COMMAND 0 0 U_none ]}
    {[ 5 := mk_socket 5 0 0 0 0 0 0; 6 := mk_socket 6 0 0 0 0 0 0; 7 := mk_socket 7 0 0 0 0 0 0 ]}
    ∅.
Definition demo_lsd (i : Z) (sel : Z) : local_socket_descriptor :=
  mk_lsd (Some (TX_RING i)) (Some (RX_RING i)) (Some i) sel (Some (LOCAL_CACHE "demo" i))
    0 0 0 0 0 0 0 0 0 0 0.
Definition demo_app : app :=
  mk_app {[ 5 := demo_lsd 5 2; 6 := demo_lsd 6 2; 7 := demo_lsd 7 (-1) ]}
    {[ 2 := mk_selector (Some (READY_RING 2)) [] 0 1 ]}
    None 0 false (λ _, 0) 4242 "demo" ∅ [].
Definition demo_proc : proc := mk_proc demo_shm demo_app.

Definition demo_pool : chan := mk_chan 7 8 [100; 101].
Definition demo_cmd_ring : chan := mk_chan 7 8 [].

Lemma demo_cmd_mem : cmd_mem (p_shm demo_proc) demo_pool demo_cmd_ring.
Proof.
  split; [|vm_compute; done|vm_compute; done| |vm_compute; done].
  - apply demo_rings_ok. repeat constructor; (do 3 eexists; split; [done|cbn; lia]).
  - intros b Hb. cbn in Hb. repeat (apply elem_of_cons in Hb as [->|Hb]; [by eexists|]).
    by apply not_elem_of_nil in Hb.
Qed.

Definition demo_addr : sockaddr_in := mk_sockaddr AF_INET 0x5000 0x0100007f (replicate 8 0).


Lemma command_buffers_conserved_witness :
  let cs := [Call_listen 5; Call_connect 6 demo_addr; Call_set_select 5 3] in
  cmd_mem (p_shm demo_proc) demo_pool demo_cmd_ring ∧
  Forall (λ c, control_ok c (p_app demo_proc)) cs ∧
  wp (run_controls cs) (λ _ p', ∃ pool' ring', cmd_mem (p_shm p') pool' ring' ∧
    ch_q pool' ++ ch_q ring' ≡ₚ ch_q demo_pool ++ ch_q demo_cmd_ring ∧
    ch_q demo_cmd_ring `prefix_of` ch_q ring') demo_proc.
Proof.
  intros cs. assert (Forall (λ c, control_ok c (p_app demo_proc)) cs) as Hok.
  { apply Forall_cons; split; [by eexists|]. apply Forall_cons; split; [by split; [eexists|]|].
    apply Forall_cons; split; [by split; [eexists|]|done]. }
  split; [apply demo_cmd_mem|]. split; [exact Hok|].
  apply (command_buffers_conserved cs demo_pool demo_cmd_ring demo_proc demo_cmd_mem Hok).
Defined.

Lemma open_socket_spec_witness :
  ipaugenblick_open_socket 2 1 2 demo_proc ≠ Fault ∧
  connections_ok (p_shm demo_proc) (p_app demo_proc) [7] ∧
  wp (ipaugenblick_open_socket 2 1 2) (λ ret p',
    match [7], result_of demo_pool demo_cmd_ring with
    | [], _ => ret = -1 ∧ p_app p' = p_app demo_proc
    | i :: rest, r =>
        contents (p_shm p') FREE_CONNECTIONS_RING = rest ∧
        match r with
        | No_buffer => ret = -2 ∧ lsds (p_app p') = lsds (p_app demo_proc)
        | Ring_full => ret = -3 ∧ p_app p' = p_app demo_proc
        | Submitted => ret = i ∧
            (∃ b, contents (p_shm p') COMMAND_RING = ch_q demo_cmd_ring ++ [b] ∧
               cmds (p_shm p') !! b = Some (mk_cmd OPEN_SOCKET_COMMAND i 2
                 (U_open_sock 2 1 (app_pid (p_app demo_proc))))) ∧
            lsds (p_app p') !! i =
              (λ d, reset_lsd d <| lsd_socket := Some i |> <| lsd_select := 2 |>)
                <$> lsds (p_app demo_proc) !! i
        end
    end) demo_proc.
Proof.
  assert (connections_ok (p_shm demo_proc) (p_app demo_proc) [7]) as Hc.
  { intros i ->%list_elem_of_singleton. split; [done|]. split; [by eexists|].
    split; [by eexists|]. intros j s Hs. cbn in Hs. apply lookup_singleton_Some in Hs as [_ <-].
    cbn. apply not_elem_of_nil. }
  split; [by vm_compute|]. split; [exact Hc|].
  apply (open_socket_spec 2 1 2 demo_pool demo_cmd_ring (mk_chan 7 8 [7]) demo_proc demo_cmd_mem);
    [by vm_compute|exact Hc].
Defined.

(** The demo process's cache is empty and its sockets are wired. *)
Lemma demo_lsds i d : lsds demo_app !! i = Some d →
  d = demo_lsd 5 2 ∨ d = demo_lsd 6 2 ∨ d = demo_lsd 7 (-1).
Proof.
  cbn. intros Hd. rewrite !lookup_insert_Some, lookup_singleton_Some in Hd.
  destruct Hd as [[_ <-]|[_ [[_ <-]|[_ [_ <-]]]]]; auto.
Qed.

Lemma demo_cache_ok : cache_ok demo_app.
Proof.
  split; [| |done].
  - intros j s Hs. cbn in Hs. apply lookup_singleton_Some in Hs as [<- <-]. cbn.
    split_and!; [apply NoDup_nil_2|done|]. by intros i Hi%not_elem_of_nil.
  - intros i d Hd Hp. by destruct (demo_lsds i d Hd) as [->|[->| ->]].
Qed.

Lemma demo_wired : wired demo_app.
Proof.
  intros i d Hd. destruct (demo_lsds i d Hd) as [->|[->| ->]]; [right|right|by left]; by eexists.
Qed.

(** Socket 5 becomes readable and is put in the cache of selector 2. *)
Lemma ready_cache_consistent_witness :
  let p := demo_proc <| p_app := update_lsd 5 (λ d, d <| lsd_local_mask := 1 |>) demo_app |> in
  cache_ok (p_app p) ∧ wired (p_app p) ∧
  wp (run_cache_op (Cache_put 5)) (λ _ p',
    let a := p_app p in let a' := p_app p' in
    p_shm p' = p_shm p ∧ cache_ok a' ∧ wired a' ∧
    (∀ k, k ≠ 5 → in_cache k a' ↔ in_cache k a) ∧
    mask_of 5 a' = mask_of 5 a ∧
    (level_selector ((demo_lsd 5 2) <| lsd_local_mask := 1 |>) a = true →
     in_cache 5 a' ↔ in_cache 5 a ∨ mask_of 5 a ≠ 0)) p.
Proof.
  intros p.
  destruct (clear_mask_spec 5 (demo_lsd 5 2) 1 demo_app demo_cache_ok demo_wired eq_refl)
    as (Hok & Hw & Hd & _).
  split; [exact Hok|]. split; [exact Hw|].
  apply (ready_cache_consistent (Cache_put 5) p _ Hok Hw Hd). done.
Defined.
