(* ===== verification/AppData.v ===== *)
(** * The application library: data path
    (ipaugenblick_app_api/ipaugenblick_api.c, ipaugenblick_ring_ops.h)

    Sending queues buffers on the connection's transmit ring and takes their
    length off the connection's [tx_space]; receiving moves buffers from the
    receive ring through a local cache to the caller, keeping in the
    descriptor's shadow what exceeds the length the caller asked for. *)

From S2P Require Import Prelude Ring Mem Mbuf App.

(** ** Rings of a connection (ipaugenblick_ring_ops.h) *)

Definition MAX_PKT_BURST : Z := 32.

Definition lsd_ring (f : local_socket_descriptor → option ring_id) (i : Z) : M proc ring_id :=
  d ← lsd_read i; of_option (f d).

Definition ipaugenblick_enqueue_tx_buf (i mbuf : Z) : M proc bool :=
  ring ← lsd_ring lsd_tx_ring i;
  ret ← sp_enqueue_bulk ring [mbuf] 1;
  mret (ret =? - ENOBUFS).
Definition ipaugenblick_enqueue_tx_bufs_bulk (i : Z) (mbufs : list Z) (count : Z) : M proc bool :=
  ring ← lsd_ring lsd_tx_ring i;
  ret ← sp_enqueue_bulk ring mbufs count;
  mret (ret =? - ENOBUFS).
Definition ipaugenblick_socket_tx_space (i : Z) : M proc Z :=
  ring ← lsd_ring lsd_tx_ring i; ring_free_count ring.

(** The connection block of descriptor [sock & SOCKET_READY_MASK]. *)
Definition masked_socket (sock : Z) : M proc Z := lsd_socket_ptr (Z.land sock SOCKET_READY_MASK).

(** A burst from the receive ring to the local cache, as far as it has room. *)
Definition fetch_burst (i : Z) (cache : ring_id) : M proc unit :=
  rx ← lsd_ring lsd_rx_ring i;
  count ← ring_count rx;
  if 0 <? count then
    free ← ring_free_count cache;
    let burst := if MAX_PKT_BURST <? free then MAX_PKT_BURST else free in
    if 0 <? burst then
      mbufs ← sc_dequeue_burst rx burst;
      if 0 <? zlen mbufs then
        _ ← stat_inc stats_rx_dequeued;
        _ ← sp_enqueue_burst cache mbufs (zlen mbufs);
        mret tt
      else mret tt
    else mret tt
  else mret tt.

(** The command to the service; a full command ring goes unnoticed. *)
Definition rx_kick (i : Z) : M proc unit :=
  cmd ← ipaugenblick_get_free_command_buf;
  match cmd : option Z with
  | Some cmd =>
      _ ← cmd_write cmd (λ c, c <| cmd_cmd := SOCKET_RX_KICK_COMMAND |>
                                <| cmd_ringset_idx := wrap32 i |>);
      _ ← ipaugenblick_enqueue_command_buf cmd;
      stat_inc stats_rx_kicks_sent
  | None => mret tt
  end.

(** Counting a packet on its way out. *)
Definition count_segs (m : Z) : M proc Z :=
  b ← mbuf_read m; _ ← stat_add stats_rx_dequeued_local (mb_nb_segs b); mret m.

Definition ipaugenblick_dequeue_rx_buf (i : Z) : M proc Z :=
  cache ← lsd_ring lsd_local_cache i;
  first ← sc_dequeue cache;
  sk ← masked_socket i;
  _ ← sock_write sk (λ s, s <| read_ready_to_app := 0 |>);
  _ ← fetch_burst i cache;
  mbuf ← (match first : option Z with
          | Some m => count_segs m
          | None =>
              second ← sc_dequeue cache;
              match second : option Z with Some m => count_segs m | None => mret 0 end
          end);
  _ ← rx_kick i;
  mret mbuf.

(** The two draining loops; [fuel] bounds the objects in the ring. *)
Fixpoint drain {S} `{Part shm S} (fuel : nat) (next : M S (option Z)) (each : Z → M S unit)
    : M S unit :=
  match fuel with
  | O => fault
  | Datatypes.S fuel =>
      obj ← next;
      match obj with
      | None => mret tt
      | Some m => _ ← each m; drain fuel next each
      end
  end.
Definition drain_fuel {S} `{Part shm S} (id : ring_id) : M S nat :=
  n ← ring_count id; mret (Datatypes.S (Z.to_nat n)).

Definition flush_buf (st : stat) (mbuf : Z) : M proc unit :=
  b ← mbuf_read mbuf;
  _ ← stat_add st (mb_nb_segs b);
  rte_pktmbuf_free mbuf.

Definition ipaugenblick_flush_rx (i : Z) : M proc unit :=
  cache ← lsd_ring lsd_local_cache i;
  fuel ← drain_fuel cache;
  _ ← drain fuel (dequeue cache) (flush_buf stats_flush_local);
  rx ← lsd_ring lsd_rx_ring i;
  fuel ← drain_fuel rx;
  _ ← drain fuel (mbufs ← sc_dequeue_burst rx 1;
                  mret (if zlen mbufs =? 1 then Some (lget mbufs 0) else None))
        (flush_buf stats_flush);
  d ← lsd_read i;
  _ ← (if negb (lsd_shadow d =? 0) then
         _ ← flush_buf stats_flush (lsd_shadow d);
         lsd_write i (λ d, d <| lsd_shadow := 0 |>)
       else mret tt);
  d ← lsd_read i;
  _ ← (if negb (lsd_shadow_next d =? 0) then
         _ ← flush_buf stats_flush (lsd_shadow_next d);
         lsd_write i (λ d, d <| lsd_shadow_next := 0 |>)
       else mret tt);
  lsd_write i (λ d, d <| lsd_shadow_len_delievered := 0 |> <| lsd_shadow_len_remainder := 0 |>).

(** ** Closing *)

Definition ipaugenblick_close (sock : Z) : M proc unit :=
  cmd ← ipaugenblick_get_free_command_buf;
  match cmd with
  | None => no_command_buf tt
  | Some cmd =>
      d ← lsd_read sock;
      _ ← cmd_write cmd (λ c, c <| cmd_cmd := SOCKET_CLOSE_COMMAND |>
             <| cmd_ringset_idx := wrap32 sock |> <| cmd_parent_idx := lsd_select d |>);
      full ← ipaugenblick_enqueue_command_buf cmd;
      _ ← when full (ipaugenblick_free_command_buf cmd);
      _ ← ipaugenblick_flush_rx sock;
      _ ← ipaugenblick_remove_socket_from_cache sock;
      lsd_write sock (λ d, d <| lsd_select := -1 |>)
  end.

(** [sig_handler] for a terminating signal: every open connection is closed and
    the client disconnected; the process is then killed by the signal. *)
Definition sig_handler : M proc unit :=
  _ ← for_each (seqZ 0 IPAUGENBLICK_CONNECTION_POOL_SIZE) (λ i,
        d ← lsd_read i;
        match lsd_socket d with
        | Some sk => s ← sock_read sk; ipaugenblick_close (sint32 (connection_idx s))
        | None => mret tt
        end);
  cmd ← ipaugenblick_get_free_command_buf;
  match cmd with
  | None => mret tt
  | Some cmd =>
      idx ← app_get g_client_ringset_idx;
      _ ← cmd_write cmd (λ c, c <| cmd_cmd := DISCONNECT_CLIENT |> <| cmd_ringset_idx := idx |>);
      full ← ipaugenblick_enqueue_command_buf cmd;
      when full (ipaugenblick_free_command_buf cmd)
  end.

(** ** Sending *)

Definition ipaugenblick_get_socket_tx_space (sock : Z) : M proc Z :=
  ring_space ← ipaugenblick_socket_tx_space sock;
  free_bufs_count ← rte_mempool_count MBUFS_MEMPOOL;
  let rc := if free_bufs_count <? ring_space
            then (if 0 <? free_bufs_count then free_bufs_count else 0) else ring_space in
  sk ← masked_socket sock;
  s ← sock_read sk;
  let space := Z.quot (sint32 (tx_space s)) 1448 in
  let rc := if space <? rc then space else rc in
  if rc <? 10 then
    _ ← sock_write sk (λ s, s <| write_ready_to_app := 0 |>);
    _ ← ipaugenblick_notify_empty_tx_buffers sock;
    mret rc
  else mret rc.

Definition ipaugenblick_get_socket_tx_space_own_buffer (sock : Z) : M proc Z :=
  ring_space ← ipaugenblick_socket_tx_space sock;
  sk ← masked_socket sock;
  s ← sock_read sk;
  let space := Z.quot (sint32 (tx_space s)) 1448 in
  let rc := if space <? ring_space then space else ring_space in
  if rc =? 0 then
    _ ← sock_write sk (λ s, s <| write_ready_to_app := 0 |>);
    _ ← ipaugenblick_notify_empty_tx_buffers sock;
    mret rc
  else mret rc.

Definition tx_space_sub (sk len : Z) : M proc unit :=
  sock_write sk (λ s, s <| tx_space := wrap32 (tx_space s - len) |>).

(** The common end of the sending calls. *)
Definition after_enqueue (sock sk len : Z) (full : bool) : M proc Z :=
  _ ← (if full then
         d ← lsd_read sock;
         ipaugenblick_update_local_ready_cache (lsd_select d) sock SOCKET_WRITABLE_BIT
       else tx_space_sub sk len);
  _ ← stat_add stats_send_failure (if full then 1 else 0);
  mret (if full then 1 else 0).

Definition ipaugenblick_send (sock pdesc offset length : Z) : M proc Z :=
  _ ← stat_inc stats_send_called;
  _ ← set_data_len pdesc length;
  _ ← mbuf_write pdesc (λ m, m <| mb_next := 0 |>);
  sk ← masked_socket sock;
  _ ← sock_write sk (λ s, s <| write_ready_to_app := 0 |>);
  full ← ipaugenblick_enqueue_tx_buf sock pdesc;
  after_enqueue sock sk length full.

(** [bufs] are the descriptors' buffers with the lengths to send. *)
Fixpoint set_lengths (bufs : list (Z * Z)) (total : Z) : M proc Z :=
  match bufs with
  | [] => mret total
  | (mbuf, len) :: bufs => _ ← set_data_len mbuf len; set_lengths bufs (sint32 (total + len))
  end.

Definition ipaugenblick_send_bulk (sock : Z) (bufs : list (Z * Z)) : M proc Z :=
  total_length ← set_lengths bufs 0;
  _ ← stat_inc stats_send_called;
  _ ← stat_add stats_buffers_sent (zlen bufs);
  sk ← lsd_socket_ptr sock;
  _ ← sock_write sk (λ s, s <| write_ready_to_app := 0 |>);
  full ← ipaugenblick_enqueue_tx_bufs_bulk sock (fst <$> bufs) (zlen bufs);
  after_enqueue sock sk total_length full.

Definition ipaugenblick_sendto (sock pdesc offset length : Z) (addr : sockaddr_in) : M proc Z :=
  _ ← stat_inc stats_send_called;
  _ ← set_data_len pdesc length;
  _ ← store_sockaddr pdesc addr;
  sk ← masked_socket sock;
  _ ← sock_write sk (λ s, s <| write_ready_to_app := 0 |>);
  full ← ipaugenblick_enqueue_tx_buf sock pdesc;
  after_enqueue sock sk length full.

(** Each buffer with its length and its address ([addr++] in the loop). *)
Fixpoint set_lengths_addrs (bufs : list (Z * Z * sockaddr_in)) (total : Z) : M proc Z :=
  match bufs with
  | [] => mret total
  | (mbuf, len, addr) :: bufs =>
      _ ← set_data_len mbuf len;
      _ ← store_sockaddr mbuf addr;
      set_lengths_addrs bufs (sint32 (total + len))
  end.

Definition ipaugenblick_sendto_bulk (sock : Z) (bufs : list (Z * Z * sockaddr_in)) : M proc Z :=
  total_length ← set_lengths_addrs bufs 0;
  _ ← stat_inc stats_send_called;
  _ ← stat_add stats_buffers_sent (zlen bufs);
  sk ← masked_socket sock;
  _ ← sock_write sk (λ s, s <| write_ready_to_app := 0 |>);
  full ← ipaugenblick_enqueue_tx_bufs_bulk sock ((λ b, fst (fst b)) <$> bufs) (zlen bufs);
  after_enqueue sock sk total_length full.

(** ** Receiving *)

Definition ipaugenblick_get_from_shadow (sock : Z) : M proc Z :=
  d ← lsd_read sock;
  let mbuf := lsd_shadow d in
  if mbuf =? 0 then mret 0
  else
    _ ← lsd_write sock (λ d, d <| lsd_shadow := 0 |>);
    _ ← set_data_len mbuf (lsd_shadow_len_remainder d);
    _ ← mbuf_write mbuf (λ m, m <| mb_data_off :=
          wrap16 (mb_data_off m + lsd_shadow_len_delievered d) |>);
    m ← mbuf_read mbuf;
    _ ← (if negb (mb_next m =? 0) then
           next_len ← rte_pktmbuf_pkt_len (mb_next m);
           mbuf_write mbuf (λ m, m <| mb_pkt_len := wrap32 (mb_data_len m + next_len) |>)
         else mbuf_write mbuf (λ m, m <| mb_pkt_len := mb_data_len m |>));
    _ ← mbuf_write mbuf (λ m, m <| mb_next := lsd_shadow_next d |>);
    _ ← lsd_write sock (λ d, d <| lsd_shadow_next := 0 |>);
    mret mbuf.

(** The loop of [ipaugenblick_try_read_exact_amount]: from [tmp] with [curr_len]
    bytes before it, the first segment at which [total_len] is reached (0 when
    the chain is shorter), the segment before it and the bytes before it. *)
Fixpoint find_segment (fuel : nat) (total_len tmp prev curr_len : Z) : M proc (Z * Z * Z) :=
  if tmp =? 0 then mret (tmp, prev, curr_len)
  else
    match fuel with
    | O => fault
    | Datatypes.S fuel =>
        m ← mbuf_read tmp;
        if mb_data_len m + curr_len <? total_len
        then find_segment fuel total_len (mb_next m) tmp (curr_len + mb_data_len m)
        else mret (tmp, prev, curr_len)
    end.

(** Returns the new [total_len] and [first_segment_len]. *)
Definition ipaugenblick_try_read_exact_amount (mbuf sock total_len first_segment_len : Z)
    : M proc (Z * Z) :=
  fuel ← chain_fuel;
  '(tmp, prev, curr_len) ← find_segment fuel total_len mbuf 0 0;
  if negb (tmp =? 0) then
    t ← mbuf_read tmp;
    first_segment_len ←
      (if total_len <? curr_len + mb_data_len t then
         let remainder := curr_len + mb_data_len t - total_len in
         let delievered := mb_data_len t - remainder in
         _ ← lsd_write sock (λ d, d <| lsd_shadow := tmp |> <| lsd_shadow_next := mb_next t |>
               <| lsd_shadow_len_remainder := remainder |>
               <| lsd_shadow_len_delievered := delievered |>);
         _ ← set_data_len tmp delievered;
         mret delievered
       else
         b ← mbuf_read mbuf;
         let first := mb_data_len b in
         if negb (mb_next t =? 0) then
           n ← mbuf_read (mb_next t);
           _ ← lsd_write sock (λ d, d <| lsd_shadow := mb_next t |>
                                      <| lsd_shadow_next := mb_next n |>);
           if negb (mb_next n =? 0) then
             n2 ← mbuf_read (mb_next n);
             _ ← lsd_write sock (λ d, d <| lsd_shadow_len_remainder := mb_data_len n2 |>
                                        <| lsd_shadow_len_delievered := 0 |>);
             mret first
           else mret first
         else mret first);
    _ ← mbuf_write tmp (λ m, m <| mb_next := 0 |>);
    _ ← (if (curr_len =? total_len) && negb (prev =? 0)
         then mbuf_write prev (λ m, m <| mb_next := 0 |>) else mret tt);
    mret (total_len, first_segment_len)
  else
    b ← mbuf_read mbuf;
    mret (curr_len, mb_data_len b).

(** Put the socket on its selector's ready ring again: there is more to read. *)
Definition renotify_readable (sock : Z) : M proc unit :=
  d ← lsd_read sock;
  if negb (lsd_shadow d =? 0) && negb (lsd_select d =? -1) then
    s ← sel_read (lsd_select d);
    ring ← of_option (sel_ready_connections s);
    _ ← enqueue ring (wrap32 (Z.lor sock (Z.shiftl SOCKET_READABLE_BIT SOCKET_READY_SHIFT)));
    mret tt
  else mret tt.

(** What a receiving call hands back: its return value, the data pointer, the
    total length, the first segment's length and the descriptor. *)
Record received := mk_received {
  rcv_ret : Z;
  rcv_buffer : option (Z * Z);
  rcv_total_len : Z;
  rcv_first_segment_len : Z;
  rcv_pdesc : Z;
}.

Definition ipaugenblick_receive (sock total_len first_segment_len : Z) : M proc received :=
  _ ← stat_inc stats_receive_called;
  mbuf ← ipaugenblick_get_from_shadow sock;
  if negb (mbuf =? 0) && (0 <? total_len) then
    '(total_len2, first) ← ipaugenblick_try_read_exact_amount mbuf sock total_len first_segment_len;
    ptr ← rte_pktmbuf_mtod mbuf;
    total ←
      (if (0 <? total_len2) && (total_len2 <? total_len) then
         mbuf2 ← ipaugenblick_dequeue_rx_buf sock;
         if mbuf2 =? 0 then mret total_len2
         else
           '(total_len3, _) ←
              ipaugenblick_try_read_exact_amount mbuf2 sock (total_len - total_len2) 0;
           last_mbuf ← rte_pktmbuf_lastseg mbuf;
           _ ← mbuf_write last_mbuf (λ m, m <| mb_next := mbuf2 |>);
           mret (total_len2 + total_len3)
       else mret total_len);
    _ ← renotify_readable sock;
    mret (mk_received 0 (Some ptr) total first mbuf)
  else if negb (mbuf =? 0) then
    mbuf2 ← ipaugenblick_dequeue_rx_buf sock;
    last_mbuf ← rte_pktmbuf_lastseg mbuf;
    _ ← mbuf_write last_mbuf (λ m, m <| mb_next := mbuf2 |>);
    _ ← (if negb (mbuf2 =? 0) then
           len2 ← rte_pktmbuf_pkt_len mbuf2;
           mbuf_write mbuf (λ m, m <| mb_pkt_len := wrap32 (mb_pkt_len m + len2) |>)
         else mret tt);
    b ← mbuf_read mbuf;
    ptr ← rte_pktmbuf_mtod mbuf;
    mret (mk_received 0 (Some ptr) (mb_pkt_len b) (mb_data_len b) mbuf)
  else
    mbuf ← ipaugenblick_dequeue_rx_buf sock;
    if negb (mbuf =? 0) then
      '(total, first) ←
        (if 0 <? total_len then
           '(total_len2, first) ←
              ipaugenblick_try_read_exact_amount mbuf sock total_len first_segment_len;
           _ ← renotify_readable sock;
           mret (total_len2, first)
         else
           b ← mbuf_read mbuf;
           _ ← stat_add stats_rx_returned (mb_nb_segs b);
           mret (mb_pkt_len b, mb_data_len b));
      ptr ← rte_pktmbuf_mtod mbuf;
      mret (mk_received 0 (Some ptr) total first mbuf)
    else
      let i := Z.land sock SOCKET_READY_MASK in
      d ← lsd_read i;
      _ ← ipaugenblick_update_local_ready_cache (lsd_select d) i SOCKET_READABLE_BIT;
      _ ← stat_inc stats_recv_failure;
      mret (mk_received (-1) None total_len first_segment_len 0).

(** [len], the sender's address and the descriptor, when a datagram is there. *)
Definition ipaugenblick_receivefrom (sock : Z)
    : M proc (Z * option (Z * Z * Z * sockaddr_in)) :=
  mbuf ← ipaugenblick_dequeue_rx_buf sock;
  _ ← stat_inc stats_receive_called;
  if mbuf =? 0 then
    d ← lsd_read sock;
    _ ← ipaugenblick_update_local_ready_cache (lsd_select d) sock SOCKET_READABLE_BIT;
    _ ← stat_inc stats_recv_failure;
    mret (-1, None)
  else
    '(_, off) ← rte_pktmbuf_mtod mbuf;
    len ← rte_pktmbuf_pkt_len mbuf;
    addr ← load_sockaddr mbuf;
    mret (0, Some (mbuf, off, len, addr)).

(** ** Buffers *)

Definition ipaugenblick_get_buffer (length owner_sock : Z) : M proc (option (Z * Z)) :=
  mbuf ← rte_pktmbuf_alloc MBUFS_MEMPOOL;
  match mbuf with
  | None =>
      _ ← ipaugenblick_notify_empty_tx_buffers owner_sock;
      _ ← stat_inc stats_tx_buf_allocation_failure;
      mret None
  | Some m =>
      _ ← stat_inc stats_buffers_allocated;
      ptr ← rte_pktmbuf_mtod m;
      mret (Some ptr)
  end.

Definition ipaugenblick_get_buffers_bulk (length owner_sock count : Z)
    : M proc (Z * list Z) :=
  mbufs ← rte_mempool_get_bulk MBUFS_MEMPOOL count;
  match mbufs with
  | None =>
      _ ← ipaugenblick_notify_empty_tx_buffers owner_sock;
      _ ← stat_inc stats_tx_buf_allocation_failure;
      mret (1, [])
  | Some mbufs =>
      _ ← for_each mbufs (λ m, _ ← rte_pktmbuf_reset m; rte_pktmbuf_refcnt_update m 1);
      _ ← stat_add stats_buffers_allocated count;
      mret (0, mbufs)
  end.

Definition ipaugenblick_release_tx_buffer (pdesc : Z) : M proc unit := rte_pktmbuf_free_seg pdesc.

(** [ipaugenblick_release_rx_buffer]: the inner loop gathers at most
    [MAX_PKT_BURST] segments whose last reference this was; it stops for good
    at the segment kept in the shadow.  It returns the segments gathered and
    where the chain goes on. *)
Fixpoint gather_segments (fuel : nat) (shadow count mbuf : Z) (acc : list Z)
    : M proc (list Z * Z) :=
  if (count <? MAX_PKT_BURST) && negb (mbuf =? 0) then
    match fuel with
    | O => fault
    | Datatypes.S fuel =>
        if mbuf =? shadow then mret (acc, 0)
        else
          m ← mbuf_read mbuf;
          last ← __rte_pktmbuf_prefree_seg mbuf;
          if (last : bool) then
            _ ← mbuf_write mbuf (λ m, m <| mb_next := 0 |>);
            gather_segments fuel shadow (count + 1) (mb_next m) (acc ++ [mbuf])
          else gather_segments fuel shadow count (mb_next m) acc
    end
  else mret (acc, mbuf).

Fixpoint release_loop (fuel : nat) (shadow mbuf : Z) : M proc unit :=
  if mbuf =? 0 then mret tt
  else
    match fuel with
    | O => fault
    | Datatypes.S fuel' =>
        '(segs, rest) ← gather_segments fuel shadow 0 mbuf [];
        _ ← (if 0 <? zlen segs then
               m ← mbuf_read (lget segs 0);
               rte_mempool_put_bulk (mb_pool m) segs (zlen segs)
             else mret tt);
        release_loop fuel' shadow rest
    end.

Definition ipaugenblick_release_rx_buffer (pdesc sock : Z) : M proc unit :=
  d ← lsd_read sock;
  fuel ← chain_fuel;
  release_loop fuel (lsd_shadow d) pdesc.

(** The next segment of a received chain: its length and data pointer. *)
Definition ipaugenblick_get_next_buffer_segment (pdesc : Z) : M proc (option (Z * Z * Z)) :=
  m ← mbuf_read pdesc;
  let next := mb_next m in
  if next =? 0 then mret None
  else
    len ← rte_pktmbuf_data_len next;
    '(_, off) ← rte_pktmbuf_mtod next;
    mret (Some (next, off, len)).

Definition ipaugenblick_get_next_buffer_segment_and_detach_first (pdesc : Z)
    : M proc (option (Z * Z * Z)) :=
  m ← mbuf_read pdesc;
  let next := mb_next m in
  if next =? 0 then mret None
  else
    len ← rte_pktmbuf_data_len next;
    _ ← mbuf_write next (λ m, m <| mb_next := 0 |> <| mb_nb_segs := 1 |>);
    '(_, off) ← rte_pktmbuf_mtod next;
    mret (Some (next, off, len)).

Definition ipaugenblick_set_buffer_data_len (buffer len : Z) : M proc unit :=
  set_data_len buffer len.
Definition ipaugenblick_get_buffer_data_len (buffer : Z) : M proc Z := rte_pktmbuf_data_len buffer.
Definition ipaugenblick_get_data_ptr (desc : Z) : M proc (Z * Z) := rte_pktmbuf_mtod desc.
Definition ipaugenblick_update_rfc (desc delta : Z) : M proc unit :=
  _ ← rte_mbuf_refcnt_update desc delta; mret tt.

(** ** Accepting, addresses *)

(** The peer's address is stored over [addr]. *)
Definition ipaugenblick_accept (sock : Z) (addr : sockaddr_in) : M proc (Z * sockaddr_in) :=
  sk ← lsd_socket_ptr sock;
  _ ← sock_write sk (λ s, s <| read_ready_to_app := 0 |>);
  rx ← lsd_ring lsd_rx_ring sock;
  obj ← dequeue rx;
  match obj with
  | None =>
      d ← lsd_read sock;
      _ ← ipaugenblick_update_local_ready_cache (lsd_select d) sock SOCKET_READABLE_BIT;
      mret (-1, addr)
  | Some cmd =>
      free ← dequeue FREE_CONNECTIONS_RING;
      c ← cmd_read cmd;
      match cmd_union c, free : option Z with
      | U_accepted_socket descr _ _, None =>
          _ ← cmd_write cmd (λ c, c <| cmd_cmd := SOCKET_DECLINE_COMMAND |>
                                    <| cmd_union := U_socket_decline descr |>);
          full ← ipaugenblick_enqueue_command_buf cmd;
          if (full : bool) then _ ← ipaugenblick_free_command_buf cmd; mret (-4, addr)
          else mret (-3, addr)
      | U_accepted_socket descr ipaddr port, Some socket =>
          let addr := addr <| sin_family := AF_INET |> <| sin_addr := ipaddr |>
                           <| sin_port := port |> in
          s ← sock_read socket;
          let idx := connection_idx s in
          _ ← ipaugenblick_reset_local_descriptor idx;
          _ ← lsd_write idx (λ d, d <| lsd_remote_ipaddr := ipaddr |> <| lsd_remote_port := port |>);
          listener ← lsd_read sock;
          _ ← lsd_write idx (λ d, d <| lsd_local_ipaddr := lsd_local_ipaddr listener |>
                                    <| lsd_local_port := lsd_local_port listener |>
                                    <| lsd_socket := Some socket |>);
          pid ← getpid;
          _ ← cmd_write cmd (λ c, c <| cmd_cmd := SET_SOCKET_RING_COMMAND |>
                 <| cmd_ringset_idx := wrap32 idx |> <| cmd_parent_idx := -1 |>
                 <| cmd_union := U_set_socket_ring descr pid |>);
          full ← ipaugenblick_enqueue_command_buf cmd;
          if (full : bool) then _ ← ipaugenblick_free_command_buf cmd; mret (-2, addr)
          else _ ← stat_inc stats_accepted; mret (sint32 idx, addr)
      | _, _ => fault
      end
  end.

Definition ipaugenblick_getsockname (sock is_local : Z) (addr : sockaddr_in) : M proc sockaddr_in :=
  d ← lsd_read sock;
  let addr := addr <| sin_family := AF_INET |> in
  if negb (is_local =? 0) then
    sk ← lsd_socket_ptr sock;
    s ← sock_read sk;
    if negb (s_local_ipaddr s =? 0)
    then mret (addr <| sin_addr := s_local_ipaddr s |> <| sin_port := s_local_port s |>)
    else mret (addr <| sin_addr := lsd_local_ipaddr d |>
                    <| sin_port := wrap16 (lsd_local_port d) |>)
  else mret (addr <| sin_addr := lsd_remote_ipaddr d |>
                  <| sin_port := wrap16 (lsd_remote_port d) |>).

Definition ipaugenblick_is_connected (sock : Z) : M proc Z :=
  d ← lsd_read sock; mret (lsd_any_event_received d).

(** ** Rings of the caller's own *)

Definition ipaugenblick_create_ring (reserve : string → option (list Z)) (id : ring_id)
    (element_number : Z) : M proc bool :=
  found ← lookup_ok id;
  if (found : bool) then mret true
  else rte_ring_create reserve id element_number (Z.lor RING_F_SC_DEQ RING_F_SP_ENQ).
Definition ipaugenblick_ring_get (ring : ring_id) : M proc Z :=
  obj ← dequeue ring; mret (default 0 obj).
Definition ipaugenblick_ring_free (ring : ring_id) (obj : Z) : M proc unit :=
  _ ← enqueue ring obj; mret tt.

(** ** Sending: what the service sees, and the accounting *)

Inductive send_call :=
  | Send (pdesc offset length : Z)
  | Sendto (pdesc offset length : Z) (addr : sockaddr_in)
  | Send_bulk (bufs : list (Z * Z))
  | Sendto_bulk (bufs : list (Z * Z * sockaddr_in)).

Definition run_send (sock : Z) (c : send_call) : M proc Z :=
  match c with
  | Send p off len => ipaugenblick_send sock p off len
  | Sendto p off len addr => ipaugenblick_sendto sock p off len addr
  | Send_bulk bufs => ipaugenblick_send_bulk sock bufs
  | Sendto_bulk bufs => ipaugenblick_sendto_bulk sock bufs
  end.

(** The buffers of a call, in order, and the bytes it sends. *)
Definition send_bufs (c : send_call) : list Z :=
  match c with
  | Send p _ _ | Sendto p _ _ _ => [p]
  | Send_bulk bufs => bufs.*1
  | Sendto_bulk bufs => bufs.*1.*1
  end.
Definition send_len (c : send_call) : Z :=
  match c with
  | Send _ _ len | Sendto _ _ len _ => len
  | Send_bulk bufs => foldr (λ b t, b.2 + t) 0 bufs
  | Sendto_bulk bufs => foldr (λ b t, b.1.2 + t) 0 bufs
  end.

(** What a call writes into its buffers. *)
Definition prepare (c : send_call) (ms : gmap Z rte_mbuf) : gmap Z rte_mbuf :=
  match c with
  | Send p _ len => alter (λ b, (with_len len b) <| mb_next := 0 |>) p ms
  | Sendto p _ len a => alter (λ b, with_addr a (with_len len b)) p ms
  | Send_bulk bufs => foldl (λ ms b, alter (with_len b.2) b.1 ms) ms bufs
  | Sendto_bulk bufs =>
      foldl (λ ms b, alter (λ m, with_addr b.2 (with_len b.1.2 m)) b.1.1 ms) ms bufs
  end.
Definition send_ok (c : send_call) (ms : gmap Z rte_mbuf) : Prop :=
  match c with
  | Send p _ _ => is_Some (ms !! p)
  | Sendto p _ _ a => ∃ b, ms !! p = Some b ∧ addr_room a b
  | Send_bulk bufs => ∀ b, b ∈ bufs → is_Some (ms !! b.1)
  | Sendto_bulk bufs => ∀ b, b ∈ bufs → ∃ m, ms !! b.1.1 = Some m ∧ addr_room b.2 m
  end.

(** A connected descriptor: its block, its transmit ring. *)
Record connected (sock : Z) (d : local_socket_descriptor) (sk : Z) (blk : ipaugenblick_socket)
    (ring : ring_id) (c : chan) (p : proc) : Prop := {
  cn_range : 0 ≤ sock < 2 ^ 16;
  cn_lsd : lsds (p_app p) !! sock = Some d;
  cn_sock : lsd_socket d = Some sk;
  cn_blk : g_sockets (p_shm p) !! sk = Some blk;
  cn_ring : lsd_tx_ring d = Some ring;
  cn_rings : rings_ok (rings (p_shm p));
  cn_chan : chans (rings (p_shm p)) !! ring = Some c;
}.

Lemma masked_id sock : 0 ≤ sock < 2 ^ 16 → Z.land sock SOCKET_READY_MASK = sock.
Proof.
  intros. change SOCKET_READY_MASK with (2 ^ 16 - 1). rewrite land_mask by lia.
  by apply Z.mod_small.
Qed.

Lemma event_cleared_stats i bit d a st a' :
  event_cleared i bit d (a <| app_stats := st |>) a' →
  event_cleared i bit d a (a' <| app_stats := app_stats a |>).
Proof.
  intros [[Hl Hf Hn] Hw (Hst & ls & ss & Heq) Hk Hm Hi]. split; try done.
  split; [done|]. exists ls, ss. rewrite Heq. by destruct a.
Qed.

Lemma event_cleared_same i bit d a a' :
  event_cleared i bit d a a' → event_cleared i bit d a (a' <| app_stats := app_stats a |>).
Proof. intros Hec. apply (event_cleared_stats _ _ _ _ (app_stats a)). by destruct a. Qed.

(** The outcome of a sending call, statistics aside: with room for all its
    buffers they are on the transmit ring in order and the space left shrinks by
    their bytes; otherwise the ring and the space are as before and the socket is
    no longer taken to be writable. *)
Record sent (sock : Z) (d : local_socket_descriptor) (sk : Z) (ring : ring_id) (c : chan)
    (objs : list Z) (len : Z) (full : bool) (p p' : proc) : Prop := {
  sn_rings : rings_ok (rings (p_shm p'));
  sn_chans : chans (rings (p_shm p')) =
    if full then chans (rings (p_shm p))
    else <[ring := mk_chan (ch_cap c) (ch_wm c) (ch_q c ++ objs)]> (chans (rings (p_shm p)));
  sn_cmds : cmds (p_shm p') = cmds (p_shm p);
  sn_socks : g_sockets (p_shm p') = alter (λ s, s <| write_ready_to_app := 0 |>
    <| tx_space := if full then tx_space s else wrap32 (tx_space s - len) |>) sk (g_sockets (p_shm p));
  sn_app :
    let a' := (p_app p') <| app_stats := app_stats (p_app p) |> in
    if full then event_cleared sock SOCKET_WRITABLE_BIT d (p_app p) a' else a' = p_app p;
}.

Lemma chan_enqueue_bulk c objs n :
  n = zlen objs →
  chan_enqueue c objs n RTE_RING_QUEUE_FIXED =
    if ch_cap c - zlen (ch_q c) <? zlen objs then (- ENOBUFS, c)
    else (if ch_wm c <? zlen (ch_q c) + n + 1 then - EDQUOT else 0,
          mk_chan (ch_cap c) (ch_wm c) (ch_q c ++ objs)).
Proof.
  intros ->. unfold chan_enqueue, fifo_enqueue, admit_count, fifo_enqueue_ret.
  destruct (Z.ltb_spec (ch_cap c - zlen (ch_q c)) (zlen objs)); [by destruct c|].
  unfold zlen at 3. by rewrite Nat2Z.id, firstn_all2 by lia.
Qed.

Lemma wp_send_tail sock d sk blk ring c objs n len (Q : Z → proc → Prop) p :
  connected sock d sk blk ring c p → cache_ok (p_app p) → wired (p_app p) → n = zlen objs →
  (∀ p', let full := ch_cap c - zlen (ch_q c) <? zlen objs in
     sent sock d sk ring c objs len full p p' → mbufs (p_shm p') = mbufs (p_shm p) →
     Q (if full then 1 else 0) p') →
  wp (_ ← sock_write sk (λ s, s <| write_ready_to_app := 0 |>);
      full ← (ring ← lsd_ring lsd_tx_ring sock;
              ret ← sp_enqueue_bulk ring objs n; mret (ret =? - ENOBUFS));
      after_enqueue sock sk len full) Q p.
Proof.
  intros [Hr Hd Hsk Hblk Hring Hok Hc] Hca Hw Hn HQ. cbv zeta in HQ.
  rewrite wp_bind. apply (wp_sock_write _ blk); [done|].
  unfold lsd_ring. rewrite !wp_bind. apply (wp_lsd_read _ d); [done|]. rewrite Hring. cbn [of_option].
  rewrite wp_ret, wp_bind. unfold sp_enqueue_bulk.
  eapply (wp_on_enqueue _ objs n RTE_RING_QUEUE_FIXED _ c).
  { apply (implements_sp_enqueue objs n RTE_RING_QUEUE_FIXED). pose proof (zlen_nonneg objs). lia. }
  { done. }
  { done. }
  intros rs Hrs Hch. rewrite wp_ret, (chan_enqueue_bulk c objs n Hn) in *.
  destruct (Z.ltb_spec (ch_cap c - zlen (ch_q c)) (zlen objs)) as [Hfull|Hroom];
    cbn [fst snd] in *; unfold after_enqueue, tx_space_sub.
  - rewrite Z.eqb_refl, !wp_bind. apply (wp_lsd_read _ d); [done|].
    apply (wp_update_local_ready_cache sock d); [done..|]. intros a' Hec.
    rewrite wp_bind. apply wp_stat_add. rewrite wp_ret. apply HQ; [|done]. split; try done.
    + change (chans rs = chans (rings (p_shm p))). by rewrite Hch, insert_id.
    + by apply event_cleared_same in Hec.
  - assert (((if ch_wm c <? zlen (ch_q c) + n + 1 then - EDQUOT else 0) =? - ENOBUFS) = false) as ->
      by by destruct (ch_wm c <? zlen (ch_q c) + n + 1).
    rewrite wp_bind. eapply wp_sock_write.
    { cbn. by rewrite lookup_alter_eq, Hblk. }
    rewrite wp_bind. apply wp_stat_add. rewrite wp_ret. apply HQ; [|done]. split; try done.
    + cbn. rewrite alter_alter_eq. by apply (alter_at _ _ _ _ blk).
    + cbn. by destruct (p_app p).
Qed.

(** A process with other buffers and statistics. *)
Definition with_bufs (ms : gmap Z rte_mbuf) (st : stat → Z) (p : proc) : proc :=
  mk_proc ((p_shm p) <| mbufs := ms |>) ((p_app p) <| app_stats := st |>).

Lemma with_bufs_id p : with_bufs (mbufs (p_shm p)) (app_stats (p_app p)) p = p.
Proof. by destruct p as [[] []]. Qed.

Lemma connected_bufs sock d sk blk ring c ms st p :
  connected sock d sk blk ring c p → connected sock d sk blk ring c (with_bufs ms st p).
Proof. by intros [? ? ? ? ? ? ?]. Qed.

Lemma wrap32_sub_r x y z : wrap32 y = wrap32 z → wrap32 (x - y) = wrap32 (x - z).
Proof.
  unfold wrap32. intros Heq. by rewrite Zminus_mod, Heq, <- Zminus_mod.
Qed.

Lemma sent_from_bufs sock d sk ring c objs len len' full ms st p p' :
  wrap32 len = wrap32 len' →
  sent sock d sk ring c objs len full (with_bufs ms st p) p' → sent sock d sk ring c objs len' full p p'.
Proof.
  intros Hlen [Hr Hch Hcm Hs Ha]. split; try done.
  - rewrite Hs. apply alter_ext. intros s _. destruct full; [done|].
    by rewrite (wrap32_sub_r _ _ _ Hlen).
  - cbn in Ha |- *. destruct full.
    + by apply event_cleared_stats in Ha.
    + apply (f_equal (λ a, a <| app_stats := app_stats (p_app p) |>)) in Ha.
      destruct (p_app p), (p_app p'). exact Ha.
Qed.

Lemma wrap32_sint32 x : wrap32 (sint32 x) = wrap32 x.
Proof.
  unfold wrap32, sint32. rewrite Zminus_mod_idemp_l. f_equal. lia.
Qed.
Lemma sint32_total {A} (f : A → Z) l t :
  wrap32 (foldl (λ t b, sint32 (t + f b)) t l) = wrap32 (t + foldr (λ b t, f b + t) 0 l).
Proof.
  revert t. induction l as [|b l IH]; intros t; cbn; [by rewrite Z.add_0_r|].
  rewrite IH, <- wrap32_add_l, wrap32_sint32, wrap32_add_l. f_equal. lia.
Qed.

Lemma wp_set_lengths bufs : ∀ total (Q : Z → proc → Prop) st ms p,
  (∀ b, b ∈ bufs → is_Some (ms !! b.1)) →
  Q (foldl (λ t b, sint32 (t + b.2)) total bufs)
    (with_bufs (foldl (λ ms b, alter (with_len b.2) b.1 ms) ms bufs) st p) →
  wp (set_lengths bufs total) Q (with_bufs ms st p).
Proof.
  induction bufs as [|[b len] bufs IH]; intros total Q st ms p Hb HQ; [exact HQ|].
  cbn [set_lengths]. rewrite wp_bind. apply wp_set_len; [apply (Hb (b, len)); constructor|].
  apply (IH _ Q st (alter (with_len len) b ms) p); [|exact HQ].
  intros b' Hb'. apply lookup_alter_is_Some, Hb. by constructor.
Qed.

Lemma addr_room_with a' b a len :
  addr_room a' b → addr_room a b → addr_room a (with_addr a' (with_len len b)).
Proof.
  intros [Ha' Hoff] [Ha _]. split; [done|]. unfold with_addr. cbn -[overwrite sockaddr_bytes].
  pose proof (zlen_sockaddr_bytes a' Ha') as Hl. rewrite zlen_overwrite by lia. lia.
Qed.

Lemma wp_set_lengths_addrs bufs : ∀ total (Q : Z → proc → Prop) st ms p,
  (∀ b, b ∈ bufs → ∃ m, ms !! b.1.1 = Some m ∧ addr_room b.2 m) →
  Q (foldl (λ t b, sint32 (t + b.1.2)) total bufs)
    (with_bufs (foldl (λ ms b, alter (λ m, with_addr b.2 (with_len b.1.2 m)) b.1.1 ms) ms bufs) st p) →
  wp (set_lengths_addrs bufs total) Q (with_bufs ms st p).
Proof.
  induction bufs as [|[[b len] a] bufs IH]; intros total Q st ms p Hb HQ; [exact HQ|].
  cbn [set_lengths_addrs]. rewrite wp_bind.
  destruct (Hb (b, len, a)) as (m & Hm & Hroom); [constructor|]. cbn in Hm, Hroom.
  apply wp_set_len; [by eexists|]. rewrite wp_bind.
  apply (wp_store_alter b (with_len len m)).
  { cbn. by rewrite lookup_alter_eq, Hm. }
  { done. }
  assert (alter (with_addr a) b (alter (with_len len) b ms)
          = alter (λ m, with_addr a (with_len len m)) b ms) as Heq by by rewrite alter_alter_eq.
  cbn [foldl fst snd] in HQ. rewrite <- Heq in HQ.
  apply (IH _ Q st (alter (with_addr a) b (alter (with_len len) b ms)) p); [|exact HQ].
  intros b' Hb'. rewrite Heq. destruct (Hb b') as (m' & Hm' & Hroom'); [by constructor|].
  destruct (decide (b'.1.1 = b)) as [Hbb|Hne].
  - rewrite Hbb in Hm'. rewrite Hbb, lookup_alter_eq, Hm'. eexists. split; [done|].
    apply addr_room_with; [|done]. congruence.
  - rewrite lookup_alter_ne by done. eauto.
Qed.

Lemma zlen_send_bufs_fmap {A B} (f : A → B) (l : list A) : zlen (f <$> l) = zlen l.
Proof. unfold zlen. by rewrite length_fmap. Qed.

(** The accounting of one call, once its buffers are prepared. *)
Lemma wp_send_prepared sock d sk blk ring c objs n len len' st ms (Q : Z → proc → Prop) p :
  connected sock d sk blk ring c p → cache_ok (p_app p) → wired (p_app p) →
  n = zlen objs → wrap32 len = wrap32 len' →
  (∀ p', let full := ch_cap c - zlen (ch_q c) <? zlen objs in
     sent sock d sk ring c objs len' full p p' → mbufs (p_shm p') = ms →
     Q (if full then 1 else 0) p') →
  wp (_ ← sock_write sk (λ s, s <| write_ready_to_app := 0 |>);
      full ← (ring ← lsd_ring lsd_tx_ring sock;
              ret ← sp_enqueue_bulk ring objs n; mret (ret =? - ENOBUFS));
      after_enqueue sock sk len full) Q (with_bufs ms st p).
Proof.
  intros Hcn [Hl Hf Hn0] Hw Hn Hlen HQ.
  apply (wp_send_tail sock d sk blk ring c objs n len); [by apply connected_bufs|done..|].
  intros p' full Hs Hms. apply HQ; [|done]. by eapply sent_from_bufs.
Qed.

Lemma wp_masked_socket sock d sk (Q : Z → proc → Prop) p :
  0 ≤ sock < 2 ^ 16 → lsds (p_app p) !! sock = Some d → lsd_socket d = Some sk → Q sk p →
  wp (masked_socket sock) Q p.
Proof.
  intros Hr Hd Hsk HQ. unfold masked_socket, lsd_socket_ptr. rewrite masked_id by done.
  rewrite wp_bind. apply (wp_lsd_read _ d); [done|]. rewrite Hsk. exact HQ.
Qed.


(** ** The transmit space a caller is promised *)

Lemma wp_bind_tt {S} (m : M S unit) (Q : unit → S → Prop) s :
  wp (_ ← m; mret tt) Q s ↔ wp m Q s.
Proof. rewrite wp_bind. unfold wp. by destruct (m s) as [[[] s']| |]. Qed.

Definition tx_pool_empty_cmd (sock : Z) (b : ipaugenblick_cmd) : ipaugenblick_cmd :=
  b <| cmd_cmd := SOCKET_TX_POOL_EMPTY_COMMAND |> <| cmd_ringset_idx := wrap32 sock |>.

Lemma wp_notify_empty sock pool ring (Q : unit → proc → Prop) p :
  sock ≠ -1 → cmd_mem (p_shm p) pool ring →
  (∀ m' st, submitted (p_shm p) pool ring (tx_pool_empty_cmd sock) m' →
     Q tt (mk_proc m' ((p_app p) <| app_stats := st |>))) →
  wp (ipaugenblick_notify_empty_tx_buffers sock) Q p.
Proof.
  intros Hs Hm HQ. unfold ipaugenblick_notify_empty_tx_buffers.
  destruct (Z.eqb_spec sock (-1)); [done|].
  assert (∀ m', part_set m' p = mk_proc m' ((p_app p) <| app_stats := app_stats (p_app p) |>)) as Hp
    by (intros m'; by destruct p as [? []]).
  apply (wp_get_cmd pool ring); [done| |].
  - intros Hq m' Hsub. unfold no_command_buf, stat_inc. rewrite wp_bind. apply wp_stat_add.
    rewrite wp_ret. apply (HQ m'). unfold submitted, result_of, chans_after, cmds_after in *.
    by rewrite Hq in *.
  - intros b rest c Hq Hc rs Hrs Hch.
    pose proof (wp_submit_with pool ring b rest c rs (tx_pool_empty_cmd sock) (λ _, mret tt) Q p
      Hm Hq Hc Hrs Hch) as Hw.
    rewrite !wp_bind in Hw. rewrite wp_bind. eapply wp_mono.
    + apply Hw; intros _ m' Hsub; rewrite wp_ret, Hp; by apply HQ.
    + intros [] s Hk. rewrite wp_bind in *. eapply wp_mono; [exact Hk|]. intros full s' Hk2.
      cbv beta in Hk2. rewrite wp_bind_tt in Hk2. by destruct full.
Qed.

Lemma quot_1448 space k : 0 ≤ k ≤ Z.quot space 1448 → 1448 * k ≤ space ∨ k = 0.
Proof.
  intros Hk. destruct (Z.leb_spec 0 space).
  - left. pose proof (Z.quot_rem' space 1448). pose proof (Z.rem_bound_pos space 1448). lia.
  - right. pose proof (Z.quot_opp_l space 1448). pose proof (Z.quot_pos (- space) 1448). lia.
Qed.


(** ** Releasing a received chain *)

(** The segments in front of [sh]. *)
Fixpoint before (sh : Z) (l : list Z) : list Z :=
  match l with [] => [] | x :: l => if x =? sh then [] else x :: before sh l end.

Lemma before_incl sh l x : x ∈ before sh l → x ∈ l.
Proof.
  induction l as [|y l IH]; cbn; [done|]. destruct (y =? sh); [by intros ?%not_elem_of_nil|].
  intros [->|Hx]%elem_of_cons; constructor; auto.
Qed.

Definition set_mbufs (ms : gmap Z rte_mbuf) (p : proc) : proc :=
  p <| p_shm := (p_shm p) <| mbufs := ms |> |>.

Lemma set_mbufs_id p : set_mbufs (mbufs (p_shm p)) p = p.
Proof. by destruct p as [[] ?]. Qed.

(** One segment: its reference is dropped, and it is unlinked if that was the
    last. *)
Lemma wp_prefree_unlink {A} pool q b (k : bool → M proc A) Q p :
  mbufs (p_shm p) !! q = Some b → seg_ok pool b →
  wp (k (mb_refcnt b =? 1)) Q (set_mbufs (<[q := freed_buf b]> (mbufs (p_shm p))) p) →
  wp (last ← __rte_pktmbuf_prefree_seg q;
      if (last : bool) then _ ← mbuf_write q (λ m, m <| mb_next := 0 |>); k true else k false) Q p.
Proof.
  intros Hb Hok HQ. rewrite wp_bind. apply (wp_prefree_seg pool q b); [done..|].
  unfold freed_buf in HQ. destruct (Z.eqb_spec (mb_refcnt b) 1) as [H1|]; [|exact HQ].
  rewrite wp_bind. eapply wp_mbuf_write; [apply lookup_insert_eq|].
  change (part_get (part_set ?m p)) with m. cbn [mbufs set_field].
  rewrite insert_insert_eq, H1. exact HQ.
Qed.

Lemma last_refs_cons ms q b l :
  ms !! q = Some b →
  last_refs ms (q :: l) = (if mb_refcnt b =? 1 then [q] else []) ++ last_refs ms l.
Proof.
  intros Hb. unfold last_refs. rewrite filter_cons, Hb. cbn.
  destruct (Z.eqb_spec (mb_refcnt b) 1) as [->|H1]; [by rewrite decide_True|].
  rewrite decide_False; [done|]. by intros [= ?].
Qed.

(** One pass of the gathering loop stops at the end or at the shadow, or further
    down the chain. *)
Lemma wp_gather pool sh l : ∀ fuel count q acc (Q : list Z * Z → proc → Prop) p,
  (length l < fuel)%nat → chain (mbufs (p_shm p)) q l →
  (∀ x b, x ∈ l → mbufs (p_shm p) !! x = Some b → seg_ok pool b) →
  (∀ l1 rest, l1 `prefix_of` l →
     (rest = 0 ∧ l1 = before sh l ∨
      ∃ l2, (l1 ≠ [] ∨ MAX_PKT_BURST ≤ count) ∧ l = l1 ++ l2 ∧ before sh l = l1 ++ before sh l2 ∧
            chain (mbufs (p_shm p)) rest l2) →
     Q (acc ++ last_refs (mbufs (p_shm p)) l1, rest)
       (set_mbufs (free_bufs l1 (mbufs (p_shm p))) p)) →
  wp (gather_segments fuel sh count q acc) Q p.
Proof.
  induction l as [|q' l IH]; intros fuel count q acc Q p Hf Hch Hseg HQ.
  - inversion Hch; subst. specialize (HQ [] 0). rewrite app_nil_r in HQ. cbn in HQ.
    rewrite set_mbufs_id in HQ.
    destruct fuel as [|fuel]; cbn [gather_segments]; rewrite Z.eqb_refl, andb_false_r;
      rewrite wp_ret; apply HQ; [done|by left|done|by left].
  - pose proof (chain_NoDup _ _ _ Hch) as [Hnq Hnd]%NoDup_cons.
    inversion Hch as [|? b ? Hq0 Hb Hch']; subst. destruct fuel as [|fuel]; [cbn in Hf; lia|].
    cbn [gather_segments]. destruct (Z.eqb_spec q' 0); [done|]. rewrite andb_true_r.
    destruct (Z.ltb_spec count MAX_PKT_BURST) as [Hc|Hc].
    2: { rewrite wp_ret. specialize (HQ [] q'). rewrite app_nil_r in HQ. cbn [free_bufs foldr] in HQ.
         rewrite set_mbufs_id in HQ. apply HQ; [apply prefix_nil|]. right. exists (q' :: l).
         split_and!; auto. }
    destruct (Z.eqb_spec q' sh) as [->|Hsh].
    { rewrite wp_ret. specialize (HQ [] 0). rewrite app_nil_r in HQ. cbn [free_bufs foldr] in HQ.
      rewrite set_mbufs_id in HQ. apply HQ; [apply prefix_nil|]. left. cbn. by rewrite Z.eqb_refl. }
    rewrite wp_bind. apply (wp_mbuf_read _ b); [done|].
    assert (seg_ok pool b) as Hsb by (apply (Hseg q'); [constructor|done]).
    apply (wp_prefree_unlink pool q' b
      (λ last : bool, gather_segments fuel sh (if last then count + 1 else count) (mb_next b)
                 (if last then acc ++ [q'] else acc))); [done..|].
    set (ms := mbufs (p_shm p)) in *. set (ms' := <[q' := freed_buf b]> ms).
    assert (∀ x, x ∈ l → ms' !! x = ms !! x) as Hfr
      by (intros x Hx; apply lookup_insert_ne; intros ->; done).
    assert (chain ms' (mb_next b) l) as Hch2 by by apply (chain_frame ms).
    apply IH; [cbn in Hf; lia|exact Hch2| |].
    { intros x b' Hx Hb'. apply (Hseg x); [by constructor|]. change (ms' !! x = Some b') in Hb'.
      by rewrite Hfr in Hb'. }
    change (mbufs (p_shm (set_mbufs ms' p))) with ms'. intros l1 rest Hpre Hrest.
    assert (∀ x, x ∈ l1 → x ∈ l) as Hin1 by (intros x Hx; destruct Hpre as [k ->]; apply elem_of_app; auto).
    assert (q' ∉ l1) as Hq1 by auto.
    assert ((if mb_refcnt b =? 1 then acc ++ [q'] else acc) ++ last_refs ms' l1
            = acc ++ last_refs ms (q' :: l1)) as ->.
    { rewrite (last_refs_cons ms q' b) by done. rewrite (last_refs_frame ms) by auto.
      destruct (mb_refcnt b =? 1); by rewrite <- ?app_assoc. }
    change (set_mbufs (free_bufs l1 ms') (set_mbufs ms' p)) with (set_mbufs (free_bufs l1 ms') p).
    unfold ms'. rewrite free_bufs_cons by done.
    apply HQ; [by apply prefix_cons|]. cbn [before]. destruct (Z.eqb_spec q' sh); [done|].
    destruct Hrest as [[-> ->]|(l2 & _ & -> & Hbf & Hch3)]; [by left|right].
    exists l2. split_and!; [by left|done|by rewrite Hbf|]. apply (chain_frame ms'); [done|].
    intros x Hx. symmetry. apply Hfr. apply elem_of_app. by right.
Qed.

Lemma free_bufs_app l1 l2 ms : free_bufs (l1 ++ l2) ms = free_bufs l1 (free_bufs l2 ms).
Proof. unfold free_bufs. by rewrite foldr_app. Qed.

Lemma free_bufs_comm l1 l2 ms :
  NoDup (l1 ++ l2) → free_bufs l2 (free_bufs l1 ms) = free_bufs (l1 ++ l2) ms.
Proof.
  intros (Hn1 & Hd & Hn2)%NoDup_app. rewrite free_bufs_app. apply map_eq. intros x.
  destruct (decide (x ∈ l1)) as [Hx1|Hx1], (decide (x ∈ l2)) as [Hx2|Hx2].
  - by destruct (Hd x Hx1).
  - by rewrite (free_bufs_notin l2), !free_bufs_in, (free_bufs_notin l2) by done.
  - by rewrite (free_bufs_in l2), (free_bufs_notin l1), (free_bufs_notin l1), (free_bufs_in l2).
  - by rewrite !free_bufs_notin.
Qed.

Lemma last_refs_in ms l x : x ∈ last_refs ms l → x ∈ l ∧ ∃ b, ms !! x = Some b ∧ mb_refcnt b = 1.
Proof.
  intros [Hx Hl]%list_elem_of_filter. split; [done|]. destruct (ms !! x) as [b|]; [|done].
  apply (inj Some) in Hx. by exists b.
Qed.

Lemma last_refs_app ms l1 l2 : last_refs ms (l1 ++ l2) = last_refs ms l1 ++ last_refs ms l2.
Proof. apply filter_app. Qed.

(** The pool after a bulk put that fits. *)
Lemma wp_mempool_put_bulk {S} `{PartLaws shm S} pool objs c (Q : unit → S → Prop) s :
  0 < zlen objs → rings_ok (rings (part_get s)) → chans (rings (part_get s)) !! pool = Some c →
  zlen (ch_q c) + zlen objs ≤ ch_cap c →
  (∀ rs, rings_ok rs →
     chans rs = <[pool := mk_chan (ch_cap c) (ch_wm c) (ch_q c ++ objs)]> (chans (rings (part_get s))) →
     Q tt (with_rings s rs)) →
  wp (rte_mempool_put_bulk pool objs (zlen objs)) Q s.
Proof.
  intros Hn Hok Hc Hroom HQ. unfold rte_mempool_put_bulk, mp_enqueue_bulk. rewrite wp_bind.
  eapply (wp_on_enqueue _ objs (zlen objs) RTE_RING_QUEUE_FIXED _ c); [|done..|].
  { apply implements_mp_enqueue_bulk. lia. }
  intros rs Hrs Hch. rewrite wp_ret, (chan_enqueue_bulk c objs _ eq_refl) in *.
  destruct (Z.ltb_spec (ch_cap c - zlen (ch_q c)) (zlen objs)); [lia|]. by apply HQ.
Qed.

(** The memory after the segments [l1] are released to [pool]. *)
Definition released (pool : ring_id) (c : chan) (l1 : list Z) (m m' : shm) : Prop :=
  rings_ok (rings m') ∧ cmds m' = cmds m ∧ g_sockets m' = g_sockets m ∧
  mbufs m' = free_bufs l1 (mbufs m) ∧
  chans (rings m') = <[pool := mk_chan (ch_cap c) (ch_wm c) (ch_q c ++ last_refs (mbufs m) l1)]>
                       (chans (rings m)).

(** The bulk put at the end of a pass. *)
Lemma wp_put_gathered pool c l1 (Q : unit → proc → Prop) p ms :
  rings_ok (rings (p_shm p)) → chans (rings (p_shm p)) !! pool = Some c → NoDup l1 →
  (∀ x b, x ∈ l1 → ms !! x = Some b → seg_ok pool b) →
  zlen (ch_q c) + zlen (last_refs ms l1) ≤ ch_cap c →
  (∀ m', released pool c l1 ((p_shm p) <| mbufs := ms |>) m' → Q tt (p <| p_shm := m' |>)) →
  wp (let segs := last_refs ms l1 in
      if 0 <? zlen segs then
        m ← mbuf_read (lget segs 0); rte_mempool_put_bulk (mb_pool m) segs (zlen segs)
      else mret tt) Q (set_mbufs (free_bufs l1 ms) p).
Proof.
  intros Hok Hc Hnd Hseg Hroom HQ. cbv zeta. unfold released in HQ. cbn [mbufs set_field] in HQ.
  destruct (Z.ltb_spec 0 (zlen (last_refs ms l1))) as [Hpos|Hzero].
  - assert (lget (last_refs ms l1) 0 ∈ last_refs ms l1) as Hin.
    { destruct (last_refs ms l1) as [|x r]; [unfold zlen in Hpos; cbn in Hpos; lia|]. constructor. }
    destruct (last_refs_in _ _ _ Hin) as (Hin1 & b & Hb & Hb1).
    destruct (Hseg _ b Hin1 Hb) as (Hp & _).
    rewrite wp_bind. apply (wp_mbuf_read _ (freed_buf b)).
    { change (free_bufs l1 ms !! lget (last_refs ms l1) 0 = Some (freed_buf b)).
      by rewrite free_bufs_in, Hb. }
    assert (mb_pool (freed_buf b) = pool) as -> by (unfold freed_buf; by destruct (mb_refcnt b =? 1)).
    apply (wp_mempool_put_bulk pool _ c); [done..|]. intros rs Hrs Hch.
    apply (HQ (mk_shm rs (cmds (p_shm p)) (g_sockets (p_shm p)) (free_bufs l1 ms))). by split_and!.
  - rewrite wp_ret.
    apply (HQ (mk_shm (rings (p_shm p)) (cmds (p_shm p)) (g_sockets (p_shm p)) (free_bufs l1 ms))).
    split_and!; try done. assert (last_refs ms l1 = []) as ->.
    { destruct (last_refs ms l1); [done|]. unfold zlen in Hzero. cbn in Hzero. lia. }
    rewrite app_nil_r, insert_id; [done|]. by destruct c.
Qed.

Lemma released_then pool c l1 l2 m m1 m2 :
  NoDup (l1 ++ l2) → released pool c l1 m m1 →
  released pool (mk_chan (ch_cap c) (ch_wm c) (ch_q c ++ last_refs (mbufs m) l1)) l2 m1 m2 →
  released pool c (l1 ++ l2) m m2.
Proof.
  intros Hnd (_ & Hcm1 & Hgs1 & Hms1 & Hch1) (Hok2 & Hcm2 & Hgs2 & Hms2 & Hch2).
  split_and!; [done|congruence|congruence| |].
  - by rewrite Hms2, Hms1, free_bufs_comm.
  - cbn [ch_q ch_cap ch_wm] in Hch2. rewrite Hch2, Hch1, insert_insert_eq, Hms1, last_refs_app.
    rewrite (last_refs_frame (mbufs m) (free_bufs l1 (mbufs m)) l2); [by rewrite app_assoc|].
    intros x Hx. apply free_bufs_notin. intros Hx1. apply NoDup_app in Hnd as (_ & Hd & _).
    by apply (Hd x).
Qed.

Lemma NoDup_before sh l : NoDup l → NoDup (before sh l).
Proof.
  induction 1 as [|x l Hx Hl IH]; cbn; [constructor|]. destruct (x =? sh); [constructor|].
  constructor; [|done]. intros Hin%before_incl. done.
Qed.

Lemma wp_release_loop pool sh : ∀ fuel l q c (Q : unit → proc → Prop) p,
  (length l < fuel)%nat → chain (mbufs (p_shm p)) q l → rings_ok (rings (p_shm p)) →
  chans (rings (p_shm p)) !! pool = Some c →
  (∀ x b, x ∈ l → mbufs (p_shm p) !! x = Some b → seg_ok pool b) →
  zlen (ch_q c) + zlen (last_refs (mbufs (p_shm p)) (before sh l)) ≤ ch_cap c →
  (∀ m', released pool c (before sh l) (p_shm p) m' → Q tt (p <| p_shm := m' |>)) →
  wp (release_loop fuel sh q) Q p.
Proof.
  induction fuel as [|fuel IH]; intros l q c Q p Hf Hch Hok Hc Hseg Hroom HQ; [lia|].
  assert (∀ f, wp (release_loop f sh 0) Q p ↔ Q tt p) as Hnil by (by intros []).
  destruct (Z.eqb_spec q 0) as [->|Hq].
  { inversion Hch; subst; [|done]. apply Hnil. replace p with (p <| p_shm := p_shm p |>) by by destruct p.
    apply HQ. split_and!; try done. cbn. rewrite app_nil_r, insert_id; [done|]. by destruct c. }
  cbn [release_loop]. destruct (Z.eqb_spec q 0); [done|]. rewrite wp_bind.
  pose proof (chain_NoDup _ _ _ Hch) as Hnd. set (ms := mbufs (p_shm p)) in *.
  apply (wp_gather pool sh l); [done..|]. intros l1 rest Hpre Hrest. fold ms in Hrest |- *.
  assert (NoDup l1) as Hnd1 by (destruct Hpre as [k ->]; by apply NoDup_app in Hnd as [??]).
  assert (∀ x b, x ∈ l1 → ms !! x = Some b → seg_ok pool b) as Hseg1.
  { intros x b Hx. apply Hseg. destruct Hpre as [k ->]. apply elem_of_app. by left. }
  assert (∃ l2, before sh l = l1 ++ before sh l2 ∧ chain ms rest l2 ∧ (length l2 < fuel)%nat ∧
            (rest ≠ 0 → l = l1 ++ l2) ∧ (rest = 0 → l2 = [])) as (l2 & Hbf & Hch2 & Hlen & Hl & Hl2).
  { destruct Hrest as [[-> ->]|(l2 & [Hne|Hcnt] & -> & Hbf & Hch2)].
    - exists []. rewrite app_nil_r. split_and!; try done; [constructor|].
      destruct l; [by inversion Hch; subst|]. cbn in Hf |- *. lia.
    - exists l2. split_and!; try done.
      + rewrite length_app in Hf. destruct l1; [done|]. cbn in Hf. lia.
      + intros ->. by inversion Hch2.
    - by vm_compute in Hcnt. }
  rewrite Hbf in Hroom. rewrite last_refs_app, zlen_app in Hroom.
  pose proof (zlen_nonneg (last_refs ms (before sh l2))).
  rewrite wp_bind. apply (wp_put_gathered pool c l1); [done..|lia|].
  intros m1 Hm1. pose proof Hm1 as (Hok1 & _ & _ & Hms1 & Hch1). cbn [mbufs set_field] in Hms1, Hch1.
  change (ms ) with (mbufs ((p_shm p) <| mbufs := ms |>)) in Hms1.
  assert (∀ x, x ∈ l2 → mbufs m1 !! x = ms !! x) as Hfr.
  { intros x Hx. change (mbufs m1 = free_bufs l1 ms) in Hms1. rewrite Hms1. apply free_bufs_notin. intros Hx1.
    destruct (decide (rest = 0)) as [H0|H0]; [by rewrite Hl2 in Hx; [apply not_elem_of_nil in Hx|]|].
    rewrite Hl in Hnd by done. apply NoDup_app in Hnd as (_ & Hd & _). by apply (Hd x). }
  assert (∀ x, x ∈ l2 → x ∈ l) as Hin2.
  { intros x Hx. destruct (decide (rest = 0)) as [H0|H0];
      [by rewrite Hl2 in Hx; [apply not_elem_of_nil in Hx|]|].
    rewrite Hl by done. apply elem_of_app. by right. }
  apply (IH l2 rest (mk_chan (ch_cap c) (ch_wm c) (ch_q c ++ last_refs ms l1))); try done.
  - by apply (chain_frame ms).
  - change (chans (rings m1) !! pool = Some (mk_chan (ch_cap c) (ch_wm c) (ch_q c ++ last_refs ms l1))).
    rewrite Hch1. apply lookup_insert_eq.
  - intros x b Hx Hb. change (mbufs m1 !! x = Some b) in Hb. rewrite Hfr in Hb by done. by apply (Hseg x); [apply Hin2|].
  - change (zlen (ch_q c ++ last_refs ms l1) + zlen (last_refs (mbufs m1) (before sh l2)) ≤ ch_cap c).
    rewrite (last_refs_frame ms (mbufs m1)) by (intros x Hx; apply Hfr; by eapply before_incl).
    rewrite zlen_app. lia.
  - intros m2 Hm2. apply HQ. rewrite Hbf.
    apply (released_then pool c l1 (before sh l2) (p_shm p) m1 m2); [|by destruct (p_shm p)|done].
    rewrite <- Hbf. by apply NoDup_before.
Qed.

(** C28. Releasing a received chain gives back exactly the segments in front of the
    one kept for the next read (all of them when none is kept): each loses one
    reference, those nobody else references are put in the pool once, in chain
    order, in bursts of at most 32, and the kept segment and everything behind
    it is untouched.  It terminates on every chain. *)
Theorem release_rx_buffer_spec pool l sock d q c p :
  lsds (p_app p) !! sock = Some d → chain (mbufs (p_shm p)) q l →
  rings_ok (rings (p_shm p)) → chans (rings (p_shm p)) !! pool = Some c →
  (∀ x b, x ∈ l → mbufs (p_shm p) !! x = Some b → seg_ok pool b) →
  let l1 := before (lsd_shadow d) l in
  zlen (ch_q c) + zlen (last_refs (mbufs (p_shm p)) l1) ≤ ch_cap c →
  wp (ipaugenblick_release_rx_buffer q sock) (λ _ p',
    p_app p' = p_app p ∧ released pool c l1 (p_shm p) (p_shm p') ∧
    (∀ x, x ∈ l1 → mbufs (p_shm p') !! x = freed_buf <$> mbufs (p_shm p) !! x) ∧
    (∀ x, x ∉ l1 → mbufs (p_shm p') !! x = mbufs (p_shm p) !! x)) p.
Proof.
  intros Hd Hch Hok Hc Hseg l1 Hroom. unfold ipaugenblick_release_rx_buffer.
  rewrite wp_bind. apply (wp_lsd_read _ d); [done|]. unfold chain_fuel. rewrite wp_bind, wp_gets.
  pose proof (chain_length _ _ _ Hch).
  apply (wp_release_loop pool (lsd_shadow d) _ l q c); [cbn; lia|done..|].
  intros m' Hrel. pose proof Hrel as (_ & _ & _ & Hms & _). split_and!; [done|done| |].
  - intros x Hx. cbn [p_shm set_field]. rewrite Hms. apply free_bufs_in; [|done].
    eapply NoDup_before, chain_NoDup, Hch.
  - intros x Hx. cbn [p_shm set_field]. rewrite Hms. by apply free_bufs_notin.
Qed.

(** ** Reading an exact amount *)

(** The bytes of a segment and of a chain. *)
Definition seg_bytes (b : rte_mbuf) : list Z := slice (mb_buf b) (mb_data_off b) (mb_data_len b).
Definition payload (ms : gmap Z rte_mbuf) (l : list Z) : list Z :=
  l ≫= λ x, from_option seg_bytes [] (ms !! x).
Definition total (ms : gmap Z rte_mbuf) (l : list Z) : Z := zlen (payload ms l).
(** Data within the buffer, in 16 bits. *)
Definition data_ok (b : rte_mbuf) : Prop :=
  0 ≤ mb_data_off b ∧ 0 ≤ mb_data_len b ∧ mb_data_off b + mb_data_len b < 2 ^ 16.

Lemma zlen_seg_bytes b : data_ok b → zlen (seg_bytes b) = mb_data_len b.
Proof. intros (_ & ? & _). by apply zlen_slice. Qed.

Lemma payload_cons ms x b l :
  ms !! x = Some b → payload ms (x :: l) = seg_bytes b ++ payload ms l.
Proof. intros Hb. unfold payload. cbn. by rewrite Hb. Qed.
Lemma payload_app ms l1 l2 : payload ms (l1 ++ l2) = payload ms l1 ++ payload ms l2.
Proof. apply bind_app. Qed.
Lemma payload_frame ms ms' l :
  (∀ x, x ∈ l → ms' !! x = ms !! x) → payload ms' l = payload ms l.
Proof.
  intros Hf. unfold payload. induction l as [|x l IH]; [done|]. cbn.
  rewrite Hf by constructor. f_equal. apply IH. intros y Hy. apply Hf. by constructor.
Qed.

Lemma take_zlen_app (a b : list Z) n :
  zlen a ≤ n → take (Z.to_nat n) (a ++ b) = a ++ take (Z.to_nat (n - zlen a)) b.
Proof.
  unfold zlen. intros Hn. rewrite take_app_ge by lia. do 2 f_equal. lia.
Qed.
Lemma drop_zlen_app (a b : list Z) n :
  zlen a ≤ n → drop (Z.to_nat n) (a ++ b) = drop (Z.to_nat (n - zlen a)) b.
Proof. unfold zlen. intros Hn. rewrite drop_app_ge by lia. f_equal. lia. Qed.

Lemma take_slice l i n k : 0 ≤ k ≤ n → take (Z.to_nat k) (slice l i n) = slice l i k.
Proof.
  intros Hk. unfold slice. rewrite <- fmap_take. f_equal. apply list_eq. intros j.
  destruct (decide (j < Z.to_nat k)%nat).
  - by rewrite lookup_take_lt, !lookup_seqZ_lt by lia.
  - by rewrite lookup_take_ge, lookup_seqZ_ge by lia.
Qed.
Lemma drop_slice l i n k :
  0 ≤ k ≤ n → drop (Z.to_nat k) (slice l i n) = slice l (i + k) (n - k).
Proof.
  intros Hk. unfold slice. apply list_eq. intros j. rewrite lookup_drop, !list_lookup_fmap.
  destruct (decide (j < Z.to_nat (n - k))%nat).
  - rewrite !lookup_seqZ_lt by lia. cbn. do 2 f_equal. lia.
  - by rewrite !lookup_seqZ_ge by lia.
Qed.

Lemma wp_find_segment n l : ∀ fuel q prev curr (Q : Z * Z * Z → proc → Prop) p,
  (length l ≤ fuel)%nat → chain (mbufs (p_shm p)) q l → curr < n →
  (∀ x b, x ∈ l → mbufs (p_shm p) !! x = Some b → data_ok b) →
  (∀ prev', curr + total (mbufs (p_shm p)) l < n →
     Q (0, prev', curr + total (mbufs (p_shm p)) l) p) →
  (∀ prev' l1 t l2 b, l = l1 ++ t :: l2 → mbufs (p_shm p) !! t = Some b →
     let c := curr + total (mbufs (p_shm p)) l1 in
     c < n ≤ c + mb_data_len b → Q (t, prev', c) p) →
  wp (find_segment fuel n q prev curr) Q p.
Proof.
  induction l as [|q' l IH]; intros fuel q prev curr Q p Hf Hch Hn Hd Hshort Hin.
  - inversion Hch; subst. specialize (Hshort prev).
    change (total (mbufs (p_shm p)) []) with 0 in Hshort.
    rewrite Z.add_0_r in Hshort. destruct fuel; by apply Hshort.
  - inversion Hch as [|? b ? Hq0 Hb Hch']; subst. destruct fuel as [|fuel]; [cbn in Hf; lia|].
    cbn [find_segment]. destruct (Z.eqb_spec q' 0); [done|].
    rewrite wp_bind. apply (wp_mbuf_read _ b); [done|].
    assert (data_ok b) as Hdb by (apply (Hd q'); [constructor|done]).
    assert (∀ k, curr + total (mbufs (p_shm p)) (q' :: k)
                 = curr + mb_data_len b + total (mbufs (p_shm p)) k) as Ht.
    { intros k. unfold total. rewrite (payload_cons _ _ b), zlen_app, zlen_seg_bytes by done. lia. }
    destruct (Z.ltb_spec (mb_data_len b + curr) n) as [Hlt|Hge].
    + apply IH; [cbn in Hf; lia|done|lia| | |].
      * intros x b' Hx. apply Hd. by constructor.
      * intros prev'. rewrite <- Ht. apply Hshort.
      * intros prev' l1 t l2 b' -> Hb'. rewrite <- Ht. by apply (Hin prev' (q' :: l1) t l2 b').
    + rewrite wp_ret. specialize (Hin prev [] q' l b eq_refl Hb). cbv zeta in Hin.
      change (total (mbufs (p_shm p)) []) with 0 in Hin. rewrite Z.add_0_r in Hin.
      apply Hin. lia.
Qed.

(** A chain cut behind [t]. *)
Lemma chain_cut ms ms' q l1 t l2 b' :
  chain ms q (l1 ++ t :: l2) → (∀ x, x ∈ l1 → ms' !! x = ms !! x) → ms' !! t = Some b' →
  mb_next b' = 0 → chain ms' q (l1 ++ [t]).
Proof.
  revert q. induction l1 as [|x l1 IH]; intros q Hch Hf Ht Hn; cbn in *.
  - inversion Hch; subst. econstructor; [done|done|]. rewrite Hn. constructor.
  - inversion Hch as [|? b ? Hq Hb Hch']; subst. econstructor; [done|by rewrite Hf by constructor|].
    apply IH; [done| |done..]. intros y Hy. apply Hf. by constructor.
Qed.

Lemma chain_next ms q l1 t l2 : chain ms q (l1 ++ t :: l2) →
  ∃ b, t ≠ 0 ∧ ms !! t = Some b ∧ chain ms (mb_next b) l2.
Proof.
  revert q. induction l1 as [|x l1 IH]; intros q Hch; cbn in *; inversion Hch; subst; eauto.
Qed.

(** What the descriptor remembers of the rest of the chain: the segment the read
    ended in, with how much of it was delivered; or the segment behind it. *)
Definition keep_split (t next remainder delivered : Z) (d : local_socket_descriptor) :=
  d <| lsd_shadow := t |> <| lsd_shadow_next := next |> <| lsd_shadow_len_remainder := remainder |>
    <| lsd_shadow_len_delievered := delivered |>.
Definition keep_behind (ms : gmap Z rte_mbuf) (l2 : list Z) (d : local_socket_descriptor) :=
  match l2 with
  | [] => d
  | [u] => d <| lsd_shadow := u |> <| lsd_shadow_next := 0 |>
  | u :: v :: _ => d <| lsd_shadow := u |> <| lsd_shadow_next := v |>
      <| lsd_shadow_len_remainder := from_option mb_data_len 0 (ms !! v) |>
      <| lsd_shadow_len_delievered := 0 |>
  end.
Definition set_lsd (sock : Z) (f : local_socket_descriptor → local_socket_descriptor)
    (ms : gmap Z rte_mbuf) (p : proc) : proc :=
  mk_proc ((p_shm p) <| mbufs := ms |>) (update_lsd sock f (p_app p)).

Lemma chain_head ms q l : chain ms q l → q = default 0 (head l).
Proof. by inversion 1. Qed.

Lemma update_lsd_id i a : update_lsd i (λ d, d) a = a.
Proof. unfold update_lsd. rewrite alter_id by done. by destruct a. Qed.

Lemma wp_keep_behind sock d t q l1 l2 b (Q : unit → proc → Prop) p :
  lsds (p_app p) !! sock = Some d → mbufs (p_shm p) !! t = Some b →
  chain (mbufs (p_shm p)) q (l1 ++ t :: l2) →
  Q tt (set_lsd sock (keep_behind (mbufs (p_shm p)) l2) (mbufs (p_shm p)) p) →
  wp (if negb (mb_next b =? 0) then
        n ← mbuf_read (mb_next b);
        _ ← lsd_write sock (λ d, d <| lsd_shadow := mb_next b |> <| lsd_shadow_next := mb_next n |>);
        if negb (mb_next n =? 0) then
          n2 ← mbuf_read (mb_next n);
          _ ← lsd_write sock (λ d, d <| lsd_shadow_len_remainder := mb_data_len n2 |>
                                     <| lsd_shadow_len_delievered := 0 |>);
          mret tt
        else mret tt
      else mret tt) Q p.
Proof.
  intros Hd Hb Hch HQ. destruct (chain_next _ _ _ _ _ Hch) as (b' & _ & Hb' & Hch2).
  rewrite Hb in Hb'. apply (inj Some) in Hb'. subst b'.
  inversion Hch2 as [Hz|u bu l3 Hu Hbu Hch3 Hnext]; subst; unfold set_lsd, keep_behind in HQ.
  { rewrite Z.eqb_refl. cbn [negb]. rewrite wp_ret.
    rewrite update_lsd_id in HQ. by destruct p as [[] ?]. }
  destruct (Z.eqb_spec (mb_next b) 0); [done|]. cbn [negb].
  rewrite wp_bind. apply (wp_mbuf_read _ bu); [done|].
  rewrite wp_bind. apply (wp_lsd_write _ d); [done|].
  inversion Hch3 as [Hz|v bv l4 Hv Hbv Hch4 Hnext3]; subst.
  { rewrite Z.eqb_refl. cbn [negb]. rewrite wp_ret.
    by destruct p as [[] ?]. }
  destruct (Z.eqb_spec (mb_next bu) 0); [done|]. cbn [negb].
  rewrite wp_bind. apply (wp_mbuf_read _ bv); [done|].
  rewrite wp_bind. eapply wp_lsd_write.
  { cbn. by rewrite lookup_alter_eq, Hd. }
  rewrite wp_ret. rewrite Hbv in HQ. cbn [from_option] in HQ.
  unfold update_lsd in *. cbn. rewrite alter_alter_eq. by destruct p as [[] ?].
Qed.

Lemma wp_map_ret {A B S} (m : M S A) (f : A → B) (Q : B → S → Prop) s :
  wp (a ← m; mret (f a)) Q s ↔ wp m (λ a, Q (f a)) s.
Proof. by rewrite wp_bind. Qed.

Lemma wp_try_read n sock d l q first (Q : Z * Z → proc → Prop) p :
  lsds (p_app p) !! sock = Some d → chain (mbufs (p_shm p)) q l → q ≠ 0 → 0 < n →
  (∀ x b, x ∈ l → mbufs (p_shm p) !! x = Some b → data_ok b) →
  let ms := mbufs (p_shm p) in
  (∀ b0, ms !! q = Some b0 → total ms l < n → Q (total ms l, mb_data_len b0) p) →
  (∀ l1 t l2 b, l = l1 ++ t :: l2 → ms !! t = Some b →
     let k := n - total ms l1 in 0 < k < mb_data_len b →
     Q (n, k) (set_lsd sock (keep_split t (mb_next b) (mb_data_len b - k) k)
                 (alter (λ m, (with_len k m) <| mb_next := 0 |>) t ms) p)) →
  (∀ l1 t l2 b b0, l = l1 ++ t :: l2 → ms !! t = Some b → ms !! q = Some b0 →
     0 < mb_data_len b → total ms l1 + mb_data_len b = n →
     Q (n, mb_data_len b0) (set_lsd sock (keep_behind ms l2) (alter (λ m, m <| mb_next := 0 |>) t ms) p)) →
  wp (ipaugenblick_try_read_exact_amount q sock n first) Q p.
Proof.
  intros Hd Hch Hq Hn Hok ms Hshort Hsplit Hexact.
  assert (∃ b0, ms !! q = Some b0) as [b0 Hb0] by (inversion Hch; subst; eauto; done).
  unfold ipaugenblick_try_read_exact_amount, chain_fuel. rewrite wp_bind, wp_gets.
  pose proof (chain_length _ _ _ Hch) as Hlen. rewrite wp_bind.
  apply (wp_find_segment n l); [cbn; lia|done|done|done| |]; fold ms.
  - intros prev' Ht. cbn beta iota. rewrite Z.eqb_refl. cbn [negb].
    rewrite wp_bind. apply (wp_mbuf_read _ b0); [done|]. rewrite wp_ret. by apply Hshort.
  - intros prev' l1 t l2 b -> Hb c Hc. cbn beta iota.
    destruct (chain_next _ _ _ _ _ Hch) as (b' & Ht0 & _).
    destruct (Z.eqb_spec t 0); [done|]. cbn [negb].
    rewrite wp_bind. apply (wp_mbuf_read _ b); [done|].
    change c with (0 + total ms l1) in *. rewrite Z.add_0_l in *. clear c.
    set (k := n - total ms l1) in *.
    destruct (Z.eqb_spec (total ms l1) n); [lia|]. cbn [andb].
    destruct (Z.ltb_spec n (total ms l1 + mb_data_len b)) as [Hlt|Hge]; cbv zeta.
    + rewrite !wp_bind. apply (wp_lsd_write _ d); [done|]. rewrite wp_bind.
      apply wp_set_len; [by eexists|]. rewrite wp_ret, wp_bind.
      apply wp_mbuf_alter; [apply lookup_alter_is_Some; by eexists|]. rewrite wp_bind, !wp_ret.
      replace (total ms l1 + mb_data_len b - n) with (mb_data_len b - k) by lia.
      replace (mb_data_len b - (mb_data_len b - k)) with k by lia.
      specialize (Hsplit l1 t l2 b eq_refl Hb ltac:(lia)). cbv zeta in Hsplit.
      fold k in Hsplit. unfold set_lsd in Hsplit.
      assert (alter (λ m, (with_len k m) <| mb_next := 0 |>) t ms
              = alter (λ m, m <| mb_next := 0 |>) t (alter (with_len k) t ms)) as Heq
        by by rewrite alter_alter_eq.
      rewrite Heq in Hsplit.
      by destruct p as [[] ?].
    + rewrite wp_bind.
      apply (wp_mono _ (λ f p', f = mb_data_len b0 ∧
               p' = set_lsd sock (keep_behind ms l2) (mbufs (p_shm p)) p)).
      * rewrite wp_bind. apply (wp_mbuf_read _ b0); [done|].
        pose proof (wp_keep_behind sock d t q l1 l2 b (λ _ p', mb_data_len b0 = mb_data_len b0 ∧
          p' = set_lsd sock (keep_behind ms l2) (mbufs (p_shm p)) p) p Hd Hb Hch (conj eq_refl eq_refl)) as Hw.
        cbv zeta. revert Hw. destruct (negb (mb_next b =? 0)); [|done].
        rewrite !wp_bind. intros Hw. eapply wp_mono; [exact Hw|]. intros nb s1. rewrite !wp_bind.
        intros Hw1. eapply wp_mono; [exact Hw1|]. intros [] s2. destruct (negb (mb_next nb =? 0)); [|done].
        rewrite !wp_bind. intros Hw2. eapply wp_mono; [exact Hw2|]. intros nb2 s3. rewrite !wp_bind.
        intros Hw3. eapply wp_mono; [exact Hw3|]. by intros [] s4.
      * intros f p' [-> ->]. rewrite wp_bind. apply wp_mbuf_alter; [by eexists|].
        rewrite wp_bind, !wp_ret.
        by apply (Hexact l1 t l2 b b0); [..|lia|lia].
Qed.

(** The segment kept in the shadow becomes the head of the next delivery. *)
Definition from_shadow (d : local_socket_descriptor) (b : rte_mbuf) : rte_mbuf :=
  b <| mb_data_len := wrap16 (lsd_shadow_len_remainder d) |>
    <| mb_data_off := wrap16 (mb_data_off b + lsd_shadow_len_delievered d) |>
    <| mb_pkt_len := wrap16 (lsd_shadow_len_remainder d) |> <| mb_next := lsd_shadow_next d |>.

Lemma wp_get_from_shadow sock d b (Q : Z → proc → Prop) p :
  lsds (p_app p) !! sock = Some d → lsd_shadow d ≠ 0 →
  mbufs (p_shm p) !! lsd_shadow d = Some b → mb_next b = 0 →
  Q (lsd_shadow d) (set_lsd sock (λ d, d <| lsd_shadow := 0 |> <| lsd_shadow_next := 0 |>)
                      (alter (from_shadow d) (lsd_shadow d) (mbufs (p_shm p))) p) →
  wp (ipaugenblick_get_from_shadow sock) Q p.
Proof.
  intros Hd Hs Hb Hn HQ. unfold ipaugenblick_get_from_shadow.
  rewrite wp_bind. apply (wp_lsd_read _ d); [done|]. cbv zeta.
  destruct (Z.eqb_spec (lsd_shadow d) 0); [done|].
  rewrite wp_bind. apply (wp_lsd_write _ d); [done|].
  rewrite wp_bind. apply wp_set_len; [by eexists|].
  rewrite wp_bind. apply wp_mbuf_alter; [apply lookup_alter_is_Some; by eexists|].
  rewrite wp_bind. eapply wp_mbuf_read.
  { cbn. by rewrite !lookup_alter_eq, Hb. }
  cbn [mb_next set_field]. change (mb_next (with_len _ b)) with (mb_next b). rewrite Hn, Z.eqb_refl.
  cbn [negb]. rewrite wp_bind. apply wp_mbuf_alter; [cbn; rewrite !lookup_alter_is_Some; by eexists|].
  rewrite wp_bind. apply wp_mbuf_alter; [cbn; rewrite !lookup_alter_is_Some; by eexists|].
  rewrite wp_bind. eapply wp_lsd_write.
  { cbn. by rewrite lookup_alter_eq, Hd. }
  rewrite wp_ret. unfold set_lsd, update_lsd in *. cbn. rewrite !alter_alter_eq.
  destruct p as [[] []]. exact HQ.
Qed.

Lemma prefix_payload ms l1 t l2 b k :
  ms !! t = Some b → data_ok b → 0 ≤ k ≤ mb_data_len b →
  take (Z.to_nat (total ms l1 + k)) (payload ms (l1 ++ t :: l2)) =
    payload ms l1 ++ slice (mb_buf b) (mb_data_off b) k.
Proof.
  intros Hb Hok Hk. rewrite payload_app, (payload_cons _ _ b) by done.
  rewrite take_zlen_app by (unfold total; lia). f_equal. unfold total.
  replace (zlen (payload ms l1) + k - zlen (payload ms l1)) with k by lia.
  pose proof (zlen_seg_bytes b Hok). rewrite firstn_app.
  replace (Z.to_nat k - length (seg_bytes b))%nat with 0%nat by (unfold zlen in *; lia).
  rewrite take_0, app_nil_r. by apply take_slice.
Qed.

Lemma suffix_payload ms l1 t l2 b k :
  ms !! t = Some b → data_ok b → 0 ≤ k ≤ mb_data_len b →
  drop (Z.to_nat (total ms l1 + k)) (payload ms (l1 ++ t :: l2)) =
    slice (mb_buf b) (mb_data_off b + k) (mb_data_len b - k) ++ payload ms l2.
Proof.
  intros Hb Hok Hk. rewrite payload_app, (payload_cons _ _ b) by done.
  rewrite drop_zlen_app by (unfold total; lia). unfold total.
  replace (zlen (payload ms l1) + k - zlen (payload ms l1)) with k by lia.
  pose proof (zlen_seg_bytes b Hok). rewrite skipn_app.
  replace (Z.to_nat k - length (seg_bytes b))%nat with 0%nat by (unfold zlen in *; lia).
  cbn [drop]. f_equal. by apply drop_slice.
Qed.

(** The part of a chain in front of and behind one segment. *)
Lemma payload_seg ms f l1 t l2 b :
  NoDup (l1 ++ t :: l2) → ms !! t = Some b →
  payload (alter f t ms) (l1 ++ [t]) = payload ms l1 ++ seg_bytes (f b) ∧
  payload (alter f t ms) (t :: l2) = seg_bytes (f b) ++ payload ms l2 ∧
  (∀ x, x ∈ l1 ∨ x ∈ l2 → alter f t ms !! x = ms !! x).
Proof.
  intros (Hn1 & Hd & Hn2)%NoDup_app Hb. apply NoDup_cons in Hn2 as [Ht _].
  assert (∀ x, x ∈ l1 ∨ x ∈ l2 → alter f t ms !! x = ms !! x) as Hf.
  { intros x Hx. apply lookup_alter_ne. intros <-. destruct Hx as [Hx|Hx]; [|done].
    apply (Hd t Hx). constructor. }
  assert (alter f t ms !! t = Some (f b)) as Hfb by by rewrite lookup_alter_eq, Hb.
  split_and!; [| |done].
  - rewrite payload_app, (payload_cons _ t (f b)) by done. cbn. rewrite app_nil_r.
    f_equal. apply payload_frame. auto.
  - rewrite (payload_cons _ t (f b)) by done. f_equal. apply payload_frame. auto.
Qed.

Lemma total_app ms l1 l2 : total ms (l1 ++ l2) = total ms l1 + total ms l2.
Proof. unfold total. by rewrite payload_app, zlen_app. Qed.

Lemma total_cons ms t b l :
  ms !! t = Some b → data_ok b → total ms (t :: l) = mb_data_len b + total ms l.
Proof. intros Hb Hok. unfold total. by rewrite (payload_cons _ _ b), zlen_app, zlen_seg_bytes. Qed.

(** A byte position lies in one segment only. *)
Lemma position_unique ms n l1 t l2 b l1' t' l2' b' :
  l1 ++ t :: l2 = l1' ++ t' :: l2' → ms !! t = Some b → ms !! t' = Some b' →
  data_ok b → data_ok b' → total ms l1 < n ≤ total ms l1 + mb_data_len b →
  total ms l1' < n ≤ total ms l1' + mb_data_len b' → l1 = l1' ∧ t = t' ∧ l2 = l2' ∧ b = b'.
Proof.
  assert (∀ l1 t b k, ms !! t = Some b → data_ok b → total ms l1 + mb_data_len b ≤ total ms (l1 ++ t :: k))
    as Hmono.
  { intros k1 x c k Hc Hok. rewrite total_app, (total_cons _ _ c) by done.
    pose proof (zlen_nonneg (payload ms k)). unfold total at 3. lia. }
  intros Heq Hb Hb' Hok Hok' H1 H2. destruct (app_eq_app _ _ _ _ Heq) as (k & [[-> Hk]|[-> Hk]]).
  - destruct k as [|x k].
    + rewrite app_nil_r. cbn in Hk. injection Hk as -> ->. by rewrite Hb in Hb'; injection Hb' as ->.
    + injection Hk as -> ->. pose proof (Hmono l1' x b' k Hb' Hok'). lia.
  - destruct k as [|x k].
    + rewrite app_nil_r. cbn in Hk. injection Hk as -> ->. by rewrite Hb in Hb'; injection Hb' as ->.
    + injection Hk as -> ->. pose proof (Hmono l1 x b k Hb Hok). lia.
Qed.

(** C26. A read of [n] bytes from a received chain hands out, as a chain, exactly the
    first [n] bytes of it in order, or all of them when there are fewer, and
    reports that many.  This holds wherever the [n]-th byte falls. *)
Theorem read_exact_prefix n sock d l q first p :
  let ms := mbufs (p_shm p) in
  lsds (p_app p) !! sock = Some d → chain ms q l → q ≠ 0 → 0 < n →
  (∀ x b, x ∈ l → ms !! x = Some b → data_ok b) →
  wp (ipaugenblick_try_read_exact_amount q sock n first) (λ ret p',
    ret.1 = Z.min n (total ms l) ∧
    ∃ l', l' `prefix_of` l ∧ chain (mbufs (p_shm p')) q l' ∧
      payload (mbufs (p_shm p')) l' = take (Z.to_nat n) (payload ms l)) p.
Proof.
  intros ms Hd Hch Hq Hn Hok. pose proof (chain_NoDup _ _ _ Hch) as Hnd.
  apply (wp_try_read n sock d l); try done; fold ms.
  - intros b0 _ Ht. split; [cbn; lia|]. exists l. split_and!; [done|done|].
    symmetry. apply firstn_all2. unfold total, zlen in Ht. fold ms. lia.
  - intros l1 t l2 b -> Hb k Hk.
    assert (data_ok b) as Hdb by (apply (Hok t); [apply elem_of_app; right; constructor|done]).
    destruct (payload_seg ms (λ m, (with_len k m) <| mb_next := 0 |>) l1 t l2 b Hnd Hb) as (Hp & _ & Hf).
    split.
    + rewrite total_app, (total_cons _ _ b) by done. pose proof (zlen_nonneg (payload ms l2)).
      unfold total in *. cbn. lia.
    + exists (l1 ++ [t]). split_and!.
      * apply prefix_app, prefix_cons, prefix_nil.
      * apply (chain_cut ms _ q l1 t l2 ((with_len k b) <| mb_next := 0 |>)); [done| |cbn|done].
        { intros x Hx. apply Hf. by left. }
        { by rewrite lookup_alter_eq, Hb. }
      * cbn [p_shm mbufs set_lsd set_field]. rewrite Hp. replace n with (total ms l1 + k) by lia.
        rewrite (prefix_payload _ _ _ _ b) by (done || lia). f_equal. unfold seg_bytes. cbn.
        f_equal. destruct Hdb as (? & ? & ?). unfold wrap16. rewrite Z.mod_small; lia.
  - intros l1 t l2 b b0 -> Hb _ Hpos Hsum.
    assert (data_ok b) as Hdb by (apply (Hok t); [apply elem_of_app; right; constructor|done]).
    destruct (payload_seg ms (λ m, m <| mb_next := 0 |>) l1 t l2 b Hnd Hb) as (Hp & _ & Hf).
    split.
    + rewrite total_app, (total_cons _ _ b) by done. pose proof (zlen_nonneg (payload ms l2)).
      unfold total in *. cbn. lia.
    + exists (l1 ++ [t]). split_and!.
      * apply prefix_app, prefix_cons, prefix_nil.
      * apply (chain_cut ms _ q l1 t l2 (b <| mb_next := 0 |>)); [done| |cbn|done].
        { intros x Hx. apply Hf. by left. }
        { by rewrite lookup_alter_eq, Hb. }
      * cbn [p_shm mbufs set_lsd set_field]. rewrite Hp. rewrite <- Hsum.
        rewrite (prefix_payload _ _ _ _ b) by (done || lia). done.
Qed.


(** When the [n]-th byte is the last of a segment the code goes wrong.  The
    segment behind it is kept, but the length and the offset of the next
    delivery are whatever an earlier read left in the descriptor: after a fresh
    start they are 0, and the bytes of that segment are never delivered. *)
Theorem boundary_read_loses n sock d l1 t u b bu q first p :
  let ms := mbufs (p_shm p) in let l := l1 ++ [t; u] in
  lsds (p_app p) !! sock = Some d → chain ms q l →
  (∀ x b, x ∈ l → ms !! x = Some b → data_ok b) → ms !! t = Some b → ms !! u = Some bu →
  0 < mb_data_len b → total ms l1 + mb_data_len b = n →
  lsd_shadow_len_remainder d = 0 → lsd_shadow_len_delievered d = 0 →
  wp (ipaugenblick_try_read_exact_amount q sock n first) (λ ret p1,
    ret.1 = n ∧
    wp (ipaugenblick_get_from_shadow sock) (λ ret2 p2,
      ret2 = u ∧ chain (mbufs (p_shm p2)) u [u] ∧
      payload (mbufs (p_shm p2)) [u] = [] ∧
      drop (Z.to_nat n) (payload ms l) = seg_bytes bu) p1) p.
Proof.
  intros ms l Hd Hch Hok Hb Hbu Hpos Hsum Hrem Hdel. pose proof (chain_NoDup _ _ _ Hch) as Hnd.
  assert (∀ x c, ms !! x = Some c → x ∈ l → data_ok c) as Hdok by eauto.
  assert (t ∈ l) as Hin by (apply elem_of_app; right; constructor).
  assert (data_ok b) as Hdb by eauto.
  destruct (chain_next _ _ _ _ _ Hch) as (b' & Ht0 & Hb' & Hch2).
  rewrite Hb in Hb'. apply (inj Some) in Hb'. subst b'.
  inversion Hch2 as [|? bu' ? Hu0 Hbu' Hch3 Hnu]; subst. rewrite Hbu in Hbu'. apply (inj Some) in Hbu'.
  subst bu'. inversion Hch3 as [Hz|]; subst.
  apply (wp_try_read _ sock d l); try done; fold ms.
  { intros ->. unfold l in Hch. destruct l1; by inversion Hch. }
  { pose proof (zlen_nonneg (payload ms l1)). unfold total. lia. }
  { intros b0 _ Ht. unfold l in Ht. rewrite total_app, (total_cons _ _ b) in Ht by done.
    pose proof (zlen_nonneg (payload ms [mb_next b])). unfold total in *. lia. }
  { intros l1' t' l2' b' Heq Hb' k' Hk'. exfalso.
    assert (data_ok b') as Hdb' by (apply (Hdok t'); [done|]; rewrite Heq; apply elem_of_app; right; constructor).
    destruct (position_unique ms (total ms l1 + mb_data_len b) l1 t [mb_next b] b l1' t' l2' b')
      as (-> & -> & _ & ->); try done; unfold k' in Hk'; lia. }
  intros l1' t' l2' b' b0 Heq Hb' _ Hpos' Hsum'.
  assert (data_ok b') as Hdb' by (apply (Hdok t'); [done|]; rewrite Heq; apply elem_of_app; right; constructor).
  destruct (position_unique ms (total ms l1 + mb_data_len b) l1 t [mb_next b] b l1' t' l2' b')
    as (<- & <- & <- & <-); try done; [lia..|].
  set (f := λ m : rte_mbuf, m <| mb_next := 0 |>). set (u := mb_next b) in *.
  set (d1 := keep_behind ms [u] d). split; [done|].
  assert (t ≠ u) as Htu.
  { intros Heq2. apply NoDup_app in Hnd as (_ & _ & Hnd2). apply NoDup_cons in Hnd2 as [Hni _].
    apply Hni. rewrite Heq2. constructor. }
  apply (wp_get_from_shadow sock d1 bu).
  { cbn. by rewrite lookup_alter_eq, Hd. }
  { done. }
  { cbn. by rewrite lookup_alter_ne. }
  { done. }
  split; [done|]. cbn [p_shm mbufs set_lsd set_field]. change (lsd_shadow d1) with u.
  assert (alter (from_shadow d1) u (alter f t ms) !! u = Some (from_shadow d1 bu)) as Hlk
    by by rewrite lookup_alter_eq, lookup_alter_ne, Hbu.
  split_and!.
  - econstructor; [done|exact Hlk|]. constructor.
  - rewrite (payload_cons _ _ (from_shadow d1 bu)) by done. cbn. rewrite app_nil_r.
    unfold seg_bytes, from_shadow. cbn. by rewrite Hrem.
  - unfold l. rewrite (suffix_payload _ _ _ _ b) by (done || lia). rewrite Z.sub_diag.
    change (slice _ _ 0) with (@nil Z).
    rewrite app_nil_l, (payload_cons _ _ bu) by done. apply app_nil_r.
Qed.

(** *** Concrete instances *)

(** The process of [App] with the rings of socket 5, four buffers in the pool
    and a packet of three segments: 20, 21 and 22. *)
Definition demo_data_shm : shm :=
  mk_shm
    (list_to_map [(FREE_COMMAND_POOL, demo_ring 0 8 [100; 101]); (COMMAND_RING, demo_ring 2 8 []);
                  (READY_RING 2, demo_ring 3 8 []);
                  (TX_RING 5, demo_ring 3 1 [24]); (RX_RING 5, demo_ring 3 1 []);
                  (LOCAL_CACHE "demo" 5, demo_ring 3 8 []);
                  (MBUFS_MEMPOOL, demo_ring 0 8 [25; 26])])
    {[ 100 := mk_cmd DUMMY_COMMAND 0 0 U_none; 101 := mk_cmd DUMMY_COMMAND 0 0 U_none ]}
    {[ 5 := mk_socket 5 1 1 0 0 0 14480 ]}
    {[ 20 := demo_mbuf 1 21; 21 := demo_mbuf 2 22; 22 := demo_mbuf 1 0; 24 := demo_mbuf 1 0;
       25 := demo_mbuf 0 0; 26 := demo_mbuf 0 0 ]}.
Definition demo_data : proc := mk_proc demo_data_shm demo_app.
Definition demo_tx : chan := mk_chan 7 1 [24].

Lemma demo_data_rings : rings_ok (rings demo_data_shm).
Proof. apply demo_rings_ok. repeat constructor; (do 3 eexists; split; [done|cbn; lia]). Qed.

Lemma demo_connected :
  connected 5 (demo_lsd 5 2) 5 (mk_socket 5 1 1 0 0 0 14480) (TX_RING 5) demo_tx demo_data.
Proof. split; try done. apply demo_data_rings. Qed.


Definition demo_bufs : chan := mk_chan 7 8 [25; 26].
Lemma demo_data_cmd_mem : cmd_mem demo_data_shm demo_pool demo_cmd_ring.
Proof.
  split; [apply demo_data_rings|done|done| |done].
  intros b Hb. cbn in Hb. repeat (apply elem_of_cons in Hb as [->|Hb]; [by eexists|]).
  by apply not_elem_of_nil in Hb.
Qed.


(** Releasing the packet 20, 21, 22 while 22 is kept: 20 goes back to the pool,
    21 is still referenced by somebody else. *)
Lemma release_rx_buffer_spec_witness :
  let p := demo_data <| p_app := update_lsd 5 (λ d, d <| lsd_shadow := 22 |>) demo_app |> in
  let d := (demo_lsd 5 2) <| lsd_shadow := 22 |> in let l := [20; 21; 22] in
  let l1 := before (lsd_shadow d) l in
  chain (mbufs (p_shm p)) 20 l ∧ l1 = [20; 21] ∧ last_refs (mbufs (p_shm p)) l1 = [20] ∧
  wp (ipaugenblick_release_rx_buffer 20 5) (λ _ p',
    p_app p' = p_app p ∧ released MBUFS_MEMPOOL demo_bufs l1 (p_shm p) (p_shm p') ∧
    (∀ x, x ∈ l1 → mbufs (p_shm p') !! x = freed_buf <$> mbufs (p_shm p) !! x) ∧
    (∀ x, x ∉ l1 → mbufs (p_shm p') !! x = mbufs (p_shm p) !! x)) p.
Proof.
  intros p d l l1.
  assert (chain (mbufs (p_shm p)) 20 [20; 21; 22]) as Hch
    by (repeat (econstructor; [done|reflexivity|]); constructor).
  split; [exact Hch|]. split; [reflexivity|]. split; [vm_compute; reflexivity|].
  apply (release_rx_buffer_spec MBUFS_MEMPOOL l 5 d 20 demo_bufs p);
    [reflexivity|exact Hch|apply demo_data_rings|reflexivity| |vm_compute; done].
  intros x b Hx Hb. unfold l in Hx.
  repeat (apply elem_of_cons in Hx as [->|Hx];
    [cbn in Hb; apply (inj Some) in Hb; subst b; by repeat split|]).
  by apply not_elem_of_nil in Hx.
Defined.

Lemma demo_data_chain : chain (mbufs (p_shm demo_data)) 20 [20; 21; 22].
Proof. repeat (econstructor; [done|reflexivity|]). constructor. Qed.

Lemma demo_data_ok x b :
  x ∈ [20; 21; 22] → mbufs (p_shm demo_data) !! x = Some b → data_ok b.
Proof.
  intros Hx Hb.
  repeat (apply elem_of_cons in Hx as [->|Hx]; [cbn in Hb; apply (inj Some) in Hb; subst b; by vm_compute|]).
  by apply not_elem_of_nil in Hx.
Qed.

(** Fifteen of the thirty bytes of the packet 20, 21, 22. *)
Lemma read_exact_prefix_witness :
  let p := demo_data in let l := [20; 21; 22] in
  chain (mbufs (p_shm p)) 20 l ∧
  wp (ipaugenblick_try_read_exact_amount 20 5 15 0) (λ ret p',
    ret.1 = Z.min 15 (total (mbufs (p_shm p)) l) ∧
    ∃ l', l' `prefix_of` l ∧ chain (mbufs (p_shm p')) 20 l' ∧
      payload (mbufs (p_shm p')) l' = take (Z.to_nat 15) (payload (mbufs (p_shm p)) l)) p.
Proof.
  intros p l. split; [apply demo_data_chain|].
  apply (read_exact_prefix 15 5 (demo_lsd 5 2) l 20 0 p);
    [reflexivity|apply demo_data_chain|done|done|apply demo_data_ok].
Defined.


(** Twenty bytes: the third segment is kept, but with length 0. *)
Lemma boundary_read_loses_witness :
  let p := demo_data in let ms := mbufs (p_shm p) in
  zlen (seg_bytes (demo_mbuf 1 0)) = 10 ∧
  wp (ipaugenblick_try_read_exact_amount 20 5 20 0) (λ ret p1,
    ret.1 = 20 ∧
    wp (ipaugenblick_get_from_shadow 5) (λ ret2 p2,
      ret2 = 22 ∧ chain (mbufs (p_shm p2)) 22 [22] ∧
      payload (mbufs (p_shm p2)) [22] = [] ∧
      drop (Z.to_nat 20) (payload ms ([20] ++ [21; 22])) = seg_bytes (demo_mbuf 1 0)) p1) p.
Proof.
  intros p ms. split; [vm_compute; reflexivity|].
  apply (boundary_read_loses 20 5 (demo_lsd 5 2) [20] 21 22 (demo_mbuf 2 22) (demo_mbuf 1 0) 20 0 p);
    [reflexivity|apply demo_data_chain|apply demo_data_ok|reflexivity|reflexivity|done|vm_compute; done|done|done].
Defined.
