(* ===== verification/AppRecv.v ===== *)
(** * The application library: taking packets off a connection
    (ipaugenblick_dequeue_rx_buf, ipaugenblick_ring_ops.h)

    Packets reach the caller through the descriptor's local cache, a ring of the
    process's own: a call moves a burst from the connection's receive ring to the
    cache and hands out the cache's oldest packet.  It also clears the flag that
    tells the service to announce the next packet, and kicks the service with a
    command.  The theorem is that the detour keeps the order of arrival. *)

From S2P Require Import Prelude Ring Mem Mbuf App AppData.

(** ** The receiving descriptor *)

Record rx_ready (sock : Z) (d : local_socket_descriptor) (sk : Z) (blk : ipaugenblick_socket)
    (cid rid : ring_id) (cc rc pool ring : chan) (p : proc) : Prop := {
  rr_range : 0 ≤ sock < 2 ^ 16;
  rr_lsd : lsds (p_app p) !! sock = Some d;
  rr_cache : lsd_local_cache d = Some cid;
  rr_ring : lsd_rx_ring d = Some rid;
  rr_sock : lsd_socket d = Some sk;
  rr_blk : g_sockets (p_shm p) !! sk = Some blk;
  rr_cmds : cmd_mem (p_shm p) pool ring;
  rr_cchan : chans (rings (p_shm p)) !! cid = Some cc;
  rr_rchan : chans (rings (p_shm p)) !! rid = Some rc;
  rr_cap : 0 < ch_cap cc;
  rr_distinct : NoDup [cid; rid; FREE_COMMAND_POOL; COMMAND_RING];
  rr_bufs : ∀ m, m ∈ ch_q cc ++ ch_q rc → m ≠ 0 ∧ is_Some (mbufs (p_shm p) !! m);
}.

(** The packets waiting, oldest first. *)
Definition waiting (cc rc : chan) : list Z := ch_q cc ++ ch_q rc.

(** How many packets a call moves to the local cache, which holds [n] of them
    after the oldest was taken from it. *)
Definition moved (cc : chan) (n : nat) (rc : chan) : nat :=
  Z.to_nat (Z.min (Z.min MAX_PKT_BURST (ch_cap cc - Z.of_nat n)) (zlen (ch_q rc))).

(** The process with the rings [rs] (and the flag of [sk] cleared), whose
    channels are those of [p] except that the cache holds [cq] and the ring [rq]. *)
Definition with_rx (p : proc) (sk : Z) (rs : gmap ring_id rte_ring) (st : stat → Z) : proc :=
  mk_proc (mk_shm rs (cmds (p_shm p))
             (alter (λ s, s <| read_ready_to_app := 0 |>) sk (g_sockets (p_shm p)))
             (mbufs (p_shm p)))
    ((p_app p) <| app_stats := st |>).
Definition rx_chans (p : proc) (cid rid : ring_id) (cc rc : chan) (cq rq : list Z)
    (rs : gmap ring_id rte_ring) : Prop :=
  rings_ok rs ∧
  chans rs = <[cid := mk_chan (ch_cap cc) (ch_wm cc) cq]>
               (<[rid := mk_chan (ch_cap rc) (ch_wm rc) rq]> (chans (rings (p_shm p)))).

Section receive.
Context (sock : Z) (d : local_socket_descriptor) (sk : Z) (blk : ipaugenblick_socket).
Context (cid rid : ring_id) (cc rc pool ring : chan) (p : proc).
Hypothesis Hready : rx_ready sock d sk blk cid rid cc rc pool ring p.

Lemma rx_ne : cid ≠ rid.
Proof. pose proof (rr_distinct _ _ _ _ _ _ _ _ _ _ _ Hready) as Hd. inversion Hd. set_solver. Qed.

Lemma rx_chan_cache cq rq rs :
  rx_chans p cid rid cc rc cq rq rs → chans rs !! cid = Some (mk_chan (ch_cap cc) (ch_wm cc) cq).
Proof. intros [_ Hch]. rewrite Hch. apply lookup_insert_eq. Qed.
Lemma rx_chan_ring cq rq rs :
  rx_chans p cid rid cc rc cq rq rs → chans rs !! rid = Some (mk_chan (ch_cap rc) (ch_wm rc) rq).
Proof. intros [_ Hch]. rewrite Hch, lookup_insert_ne by apply rx_ne. apply lookup_insert_eq. Qed.

Lemma rx_set_cache cq rq cq' rs rs' :
  rx_chans p cid rid cc rc cq rq rs → rings_ok rs' →
  chans rs' = <[cid := mk_chan (ch_cap cc) (ch_wm cc) cq']> (chans rs) →
  rx_chans p cid rid cc rc cq' rq rs'.
Proof. intros [_ Hch] Hok Heq. split; [done|]. by rewrite Heq, Hch, insert_insert_eq. Qed.
Lemma rx_set_ring cq rq rq' rs rs' :
  rx_chans p cid rid cc rc cq rq rs → rings_ok rs' →
  chans rs' = <[rid := mk_chan (ch_cap rc) (ch_wm rc) rq']> (chans rs) →
  rx_chans p cid rid cc rc cq rq' rs'.
Proof.
  intros [_ Hch] Hok Heq. split; [done|]. rewrite Heq, Hch.
  rewrite insert_insert_ne by (apply not_eq_sym, rx_ne). by rewrite insert_insert_eq.
Qed.

(** *** The burst *)

Lemma wp_fetch_burst cq rs st (Q : unit → proc → Prop) :
  rx_chans p cid rid cc rc cq (ch_q rc) rs → zlen cq ≤ ch_cap cc →
  (∀ rs' st', let k := moved cc (length cq) rc in
     rx_chans p cid rid cc rc (cq ++ take k (ch_q rc)) (drop k (ch_q rc)) rs' →
     Q tt (with_rx p sk rs' st')) →
  wp (fetch_burst sock cid) Q (with_rx p sk rs st).
Proof.
  intros Hrx Hlen HQ. cbv zeta in HQ. destruct Hready as [Hr Hd Hcid Hrid Hsk Hb Hm Hcc Hrc Hcap Hnd Hbufs].
  pose proof (zlen_nonneg (ch_q rc)) as Hq0.
  assert (moved cc (length cq) rc = 0%nat → Q tt (with_rx p sk rs st)) as Hnone.
  { intros Hk. apply HQ. by rewrite Hk, app_nil_r. }
  unfold fetch_burst, lsd_ring. rewrite !wp_bind. apply (wp_lsd_read _ d); [done|]. rewrite Hrid.
  cbn [of_option]. rewrite wp_ret, wp_bind.
  eapply wp_ring_count; [exact (proj1 Hrx)|exact (rx_chan_ring _ _ _ Hrx)|]. cbn [ch_q].
  destruct (Z.ltb_spec 0 (zlen (ch_q rc))) as [Hpos|Hzero];
    [|rewrite wp_ret; apply Hnone; unfold moved; lia].
  rewrite wp_bind. eapply wp_ring_free_count; [exact (proj1 Hrx)|exact (rx_chan_cache _ _ _ Hrx)|].
  cbn [ch_q ch_cap]. set (free := ch_cap cc - zlen cq).
  assert ((if MAX_PKT_BURST <? free then MAX_PKT_BURST else free) = Z.min MAX_PKT_BURST free) as ->
    by (destruct (Z.ltb_spec MAX_PKT_BURST free); lia).
  cbv zeta. destruct (Z.ltb_spec 0 (Z.min MAX_PKT_BURST free)) as [Hburst|Hburst];
    [|rewrite wp_ret; apply Hnone; unfold moved, free, zlen in *; lia].
  rewrite wp_bind.
  eapply wp_sc_dequeue_burst; [lia|exact (proj1 Hrx)|exact (rx_chan_ring _ _ _ Hrx)|].
  intros rs1 Hrs1 Hch1. cbn [ch_q ch_cap ch_wm] in *.
  set (k := moved cc (length cq) rc) in *.
  assert (take (Z.to_nat (Z.min MAX_PKT_BURST free)) (ch_q rc) = take k (ch_q rc) ∧
          drop (Z.to_nat (Z.min MAX_PKT_BURST free)) (ch_q rc) = drop k (ch_q rc) ∧
          zlen (take k (ch_q rc)) = Z.of_nat k ∧ 0 < Z.of_nat k ≤ free) as (Ht & Hdr & Hl & Hk).
  { assert (Z.of_nat k = Z.min (Z.min MAX_PKT_BURST free) (zlen (ch_q rc))) as Hkz
      by (unfold k, moved; fold (zlen cq); fold free; lia).
    clearbody k free. unfold zlen in *.
    destruct (Z.le_ge_cases (Z.min MAX_PKT_BURST free) (Z.of_nat (length (ch_q rc)))) as [Hle|Hge].
    - replace (Z.to_nat (Z.min MAX_PKT_BURST free)) with k by lia. rewrite length_take.
      split_and!; try done; lia.
    - rewrite !firstn_all2, !drop_ge by lia. split_and!; try done; lia. }
  rewrite Ht, Hdr in *. rewrite Hl. rewrite (proj2 (Z.ltb_lt 0 (Z.of_nat k))) by lia.
  rewrite wp_bind. apply wp_stat_add. rewrite wp_bind.
  apply (rx_set_ring _ _ (drop k (ch_q rc)) _ rs1 Hrx Hrs1) in Hch1 as Hrx1.
  rewrite <- Hl.
  eapply wp_sp_enqueue_burst; [|exact Hrs1|exact (rx_chan_cache _ _ _ Hrx1)|]; cbn [ch_q ch_cap ch_wm].
  - unfold free in *. lia.
  - intros ret rs2 Hrs2 Hch2. rewrite wp_ret.
    apply (HQ rs2 (app_stats (count_stat stats_rx_dequeued 1 ((p_app p) <| app_stats := st |>)))).
    by apply (rx_set_cache _ _ _ _ rs2 Hrx1).
Qed.
End receive.

(** ** The kick *)

Definition rx_kick_cmd (sock : Z) (c : ipaugenblick_cmd) : ipaugenblick_cmd :=
  c <| cmd_cmd := SOCKET_RX_KICK_COMMAND |> <| cmd_ringset_idx := wrap32 sock |>.

(** The command is sent if there is a buffer for it; when the command ring is
    full the buffer is not given back: it is in neither ring any more. *)
Definition kicked (sock : Z) (m : shm) (pool ring : chan) (m' : shm) : Prop :=
  rings_ok (rings m') ∧ g_sockets m' = g_sockets m ∧ mbufs m' = mbufs m ∧
  match ch_q pool with
  | [] => chans (rings m') = chans (rings m) ∧ cmds m' = cmds m
  | b :: rest =>
      let taken := <[FREE_COMMAND_POOL := mk_chan (ch_cap pool) (ch_wm pool) rest]> (chans (rings m)) in
      cmds m' = alter (rx_kick_cmd sock) b (cmds m) ∧
      chans (rings m') =
        if zlen (ch_q ring) <? ch_cap ring
        then <[COMMAND_RING := mk_chan (ch_cap ring) (ch_wm ring) (ch_q ring ++ [b])]> taken
        else taken
  end.

Lemma wp_rx_kick sock m a pool ring (Q : unit → proc → Prop) :
  cmd_mem m pool ring →
  (∀ m' st, kicked sock m pool ring m' → Q tt (mk_proc m' (a <| app_stats := st |>))) →
  wp (rx_kick sock) Q (mk_proc m a).
Proof.
  intros [Hok Hp Hr Hb Hroom] HQ. unfold rx_kick, ipaugenblick_get_free_command_buf. rewrite wp_bind.
  eapply wp_mempool_get; [exact Hok|exact Hp| |].
  - intros b rest Hq rs Hrs Hch. unfold kicked in HQ. rewrite Hq in HQ.
    destruct (Hb b) as [c Hc]; [rewrite Hq; constructor|].
    unfold cmd_write, cmd_read, set_shm. wp_run.
    change (cmds (part_get (with_rings (mk_proc m a) rs))) with (cmds m).
    rewrite Hc. cbn [of_option]. wp_run. unfold ipaugenblick_enqueue_command_buf. rewrite wp_bind.
    assert (<[b := rx_kick_cmd sock c]> (cmds m) = alter (rx_kick_cmd sock) b (cmds m)) as Hcmds
      by (symmetry; by apply alter_insert_lookup).
    assert (chans rs !! COMMAND_RING = Some ring) as Hring by by rewrite Hch, lookup_insert_ne.
    eapply wp_enqueue; [exact Hrs|exact Hring|..].
    + intros Hlt rs' Hrs' Hch'. rewrite wp_ret. apply wp_stat_add.
      apply (HQ (mk_shm rs' (<[b := rx_kick_cmd sock c]> (cmds m)) (g_sockets m) (mbufs m))).
      split_and!; [done..|]. rewrite (proj2 (Z.ltb_lt _ _) Hlt). cbn [rings].
      change (chans rs' = <[COMMAND_RING := mk_chan (ch_cap ring) (ch_wm ring) (ch_q ring ++ [b])]> (chans rs)) in Hch'.
      by rewrite Hch', Hch.
    + intros Hge rs' Hrs' Hch'. rewrite wp_ret. apply wp_stat_add.
      apply (HQ (mk_shm rs' (<[b := rx_kick_cmd sock c]> (cmds m)) (g_sockets m) (mbufs m))).
      split_and!; [done..|]. rewrite (proj2 (Z.ltb_ge _ _) Hge). cbn [rings].
      change (chans rs' = chans rs) in Hch'. by rewrite Hch', Hch.
  - intros Hq rs Hrs Hch. unfold kicked in HQ. rewrite Hq in HQ. rewrite wp_ret.
    specialize (HQ (m <| rings := rs |>) (app_stats a)).
    replace (a <| app_stats := app_stats a |>) with a in HQ by by destruct a. by apply HQ.
Qed.

Lemma wp_count_segs m p (Q : Z → proc → Prop) :
  is_Some (mbufs (p_shm p) !! m) →
  (∀ st, Q m (mk_proc (p_shm p) ((p_app p) <| app_stats := st |>))) → wp (count_segs m) Q p.
Proof.
  intros [b Hb] HQ. unfold count_segs, mbuf_read. wp_run.
  change (mbufs (part_get p)) with (mbufs (p_shm p)). rewrite Hb. cbn [of_option]. wp_run.
  apply wp_stat_add. rewrite wp_ret.
  apply (HQ (app_stats (count_stat stats_rx_dequeued_local (mb_nb_segs b) (p_app p)))).
Qed.

(** ** The whole call *)

(** What the call leaves behind, its statistics aside. *)
Record rx_after (sock sk : Z) (cid rid : ring_id) (cc rc pool ring : chan) (p p' : proc) : Prop := {
  ra_cache : contents (p_shm p') cid ++ contents (p_shm p') rid = tail (waiting cc rc);
  ra_ring : contents (p_shm p') rid = drop (moved cc (length (tail (ch_q cc))) rc) (ch_q rc);
  ra_rings : rings_ok (rings (p_shm p'));
  ra_socks : g_sockets (p_shm p') =
    alter (λ s, s <| read_ready_to_app := 0 |>) sk (g_sockets (p_shm p));
  ra_mbufs : mbufs (p_shm p') = mbufs (p_shm p);
  ra_app : (p_app p') <| app_stats := app_stats (p_app p) |> = p_app p;
  ra_pool : contents (p_shm p') FREE_COMMAND_POOL = tail (ch_q pool);
  ra_kick : contents (p_shm p') COMMAND_RING =
    ch_q ring ++ (if zlen (ch_q ring) <? ch_cap ring then take 1 (ch_q pool) else []);
  ra_others : ∀ id, id ∉ [cid; rid; FREE_COMMAND_POOL; COMMAND_RING] →
    contents (p_shm p') id = contents (p_shm p) id;
  ra_caps : ∀ id c, chans (rings (p_shm p)) !! id = Some c →
    ∃ c', chans (rings (p_shm p')) !! id = Some c' ∧ ch_cap c' = ch_cap c ∧ ch_wm c' = ch_wm c;
  ra_cmds : cmds (p_shm p') = match head (ch_q pool) with
    | Some b => alter (rx_kick_cmd sock) b (cmds (p_shm p))
    | None => cmds (p_shm p)
    end;
}.

Section call.
Context (sock : Z) (d : local_socket_descriptor) (sk : Z) (blk : ipaugenblick_socket).
Context (cid rid : ring_id) (cc rc pool ring : chan) (p : proc).
Hypothesis Hready : rx_ready sock d sk blk cid rid cc rc pool ring p.

(** Once the packets are where they belong, the kick completes the call. *)
Lemma rx_after_kick cq rq rs st m' st' :
  rx_chans p cid rid cc rc cq rq rs →
  cq ++ rq = tail (waiting cc rc) → rq = drop (moved cc (length (tail (ch_q cc))) rc) (ch_q rc) →
  kicked sock (p_shm (with_rx p sk rs st)) pool ring m' →
  rx_after sock sk cid rid cc rc pool ring p
    (mk_proc m' ((p_app (with_rx p sk rs st)) <| app_stats := st' |>)).
Proof.
  intros Hrx Hq Hrq (Hok & Hsk & Hmb & Hk).
  pose proof (rr_distinct _ _ _ _ _ _ _ _ _ _ _ Hready) as Hnd.
  repeat match goal with H : NoDup (_ :: _) |- _ => apply NoDup_cons in H as [? H] end.
  assert (∀ id, id ∉ [FREE_COMMAND_POOL; COMMAND_RING] → chans (rings m') !! id = chans rs !! id) as Hsame.
  { intros id Hid. destruct (ch_q pool) as [|b rest]; [by destruct Hk as [-> _]|].
    destruct Hk as [_ ->]. destruct (_ <? _); rewrite !lookup_insert_ne by set_solver; done. }
  assert (chans rs !! FREE_COMMAND_POOL = Some pool ∧ chans rs !! COMMAND_RING = Some ring) as [Hpl Hrg].
  { pose proof (rr_cmds _ _ _ _ _ _ _ _ _ _ _ Hready) as [_ Hp Hr _ _].
    rewrite (proj2 Hrx), !lookup_insert_ne by set_solver. done. }
  split; cbn [p_shm p_app with_rx set_field]; unfold contents.
  - rewrite !Hsame by set_solver.
    rewrite (rx_chan_cache _ _ _ _ _ _ _ _ Hrx), (rx_chan_ring sock d sk blk _ _ _ _ pool ring p Hready _ _ _ Hrx).
    exact Hq.
  - rewrite Hsame by set_solver. rewrite (rx_chan_ring sock d sk blk _ _ _ _ pool ring p Hready _ _ _ Hrx).
    exact Hrq.
  - exact Hok.
  - exact Hsk.
  - exact Hmb.
  - by destruct (p_app p).
  - destruct (ch_q pool) as [|b rest] eqn:Hpq.
    + destruct Hk as [-> _]. change (from_option ch_q [] (chans rs !! FREE_COMMAND_POOL) = []).
      by rewrite Hpl.
    + destruct Hk as [_ ->]. destruct (_ <? _); [rewrite lookup_insert_ne by done|]; by rewrite lookup_insert_eq.
  - destruct (ch_q pool) as [|b rest] eqn:Hpq.
    + destruct Hk as [-> _]. change (from_option ch_q [] (chans rs !! COMMAND_RING) =
        ch_q ring ++ (if zlen (ch_q ring) <? ch_cap ring then [] else [])). rewrite Hrg.
      destruct (_ <? _); by rewrite app_nil_r.
    + destruct Hk as [_ ->]. destruct (_ <? _); [by rewrite lookup_insert_eq|].
      rewrite lookup_insert_ne by done. change (from_option ch_q [] (chans rs !! COMMAND_RING) = ch_q ring ++ []).
      by rewrite Hrg, app_nil_r.
  - intros id Hid. rewrite Hsame by set_solver. rewrite (proj2 Hrx), !lookup_insert_ne by set_solver. done.
  - intros id c Hc.
    assert (∃ c1, chans rs !! id = Some c1 ∧ ch_cap c1 = ch_cap c ∧ ch_wm c1 = ch_wm c) as (c1 & Hc1 & E1 & E2).
    { rewrite (proj2 Hrx), !lookup_insert. pose proof (rr_cchan _ _ _ _ _ _ _ _ _ _ _ Hready).
      pose proof (rr_rchan _ _ _ _ _ _ _ _ _ _ _ Hready).
      repeat case_decide; subst; [..|by exists c]; eexists; (split; [done|]); split; cbn; congruence. }
    rewrite <- E1, <- E2. destruct (ch_q pool) as [|b rest]; [destruct Hk as [-> _]; by exists c1|].
    destruct Hk as [_ ->]. destruct (_ <? _); rewrite ?lookup_insert;
      repeat case_decide; subst; try (by exists c1); eexists; (split; [done|]); split; cbn; congruence.
  - destruct (ch_q pool) as [|b rest]; [by destruct Hk as [_ ->]|by destruct Hk as [-> _]].
Qed.

Lemma waiting_head m : head (waiting cc rc) = Some m → m ≠ 0 ∧ is_Some (mbufs (p_shm p) !! m).
Proof.
  intros Hm. apply (rr_bufs _ _ _ _ _ _ _ _ _ _ _ Hready). unfold waiting in Hm.
  destruct (ch_q cc ++ ch_q rc); [done|]. injection Hm as ->. constructor.
Qed.

Lemma waiting_zero m :
  m = default 0 (head (waiting cc rc)) → m = 0 ↔ waiting cc rc = [].
Proof.
  intros ->. pose proof waiting_head as Hh. destruct (waiting cc rc) as [|x l]; [done|].
  destruct (Hh x eq_refl) as [Hx _]. by split.
Qed.

Lemma cmd_mem_rx cq rq rs st :
  rx_chans p cid rid cc rc cq rq rs → cmd_mem (p_shm (with_rx p sk rs st)) pool ring.
Proof.
  intros [Hok Hch]. pose proof (rr_distinct _ _ _ _ _ _ _ _ _ _ _ Hready) as Hnd.
  repeat match goal with H : NoDup (_ :: _) |- _ => apply NoDup_cons in H as [? H] end.
  pose proof (rr_cmds _ _ _ _ _ _ _ _ _ _ _ Hready) as [_ Hp Hr Hb Hroom].
  split; [exact Hok| | |exact Hb|exact Hroom]; cbn [p_shm rings with_rx];
    rewrite Hch, !lookup_insert_ne by set_solver; done.
Qed.

(** The end of the call, from the packet that goes out. *)
Lemma wp_hand_out m cq rq rs st st0 (Q : Z → proc → Prop) :
  rx_chans p cid rid cc rc cq rq rs →
  cq ++ rq = tail (waiting cc rc) → rq = drop (moved cc (length (tail (ch_q cc))) rc) (ch_q rc) →
  (∀ p', rx_after sock sk cid rid cc rc pool ring p p' → Q m p') →
  wp (_ ← rx_kick sock; mret m) Q
    (mk_proc (p_shm (with_rx p sk rs st)) ((p_app (with_rx p sk rs st)) <| app_stats := st0 |>)).
Proof.
  intros Hrx Hq Hrq HQ. rewrite wp_bind.
  apply (wp_rx_kick sock _ _ pool ring); [by apply (cmd_mem_rx cq rq)|].
  intros m' st' Hk. rewrite wp_ret. apply HQ.
  apply (rx_after_kick cq rq rs st m' st' Hrx Hq Hrq Hk).
Qed.

(** What the call promises, as a postcondition. *)
Definition handed_out (m : Z) (p' : proc) : Prop :=
  m = default 0 (head (waiting cc rc)) ∧ (m = 0 ↔ waiting cc rc = []) ∧
  rx_after sock sk cid rid cc rc pool ring p p'.

Lemma handed_out_intro m p' :
  m = default 0 (head (waiting cc rc)) → rx_after sock sk cid rid cc rc pool ring p p' →
  handed_out m p'.
Proof. intros Hm Hp'. split_and!; [done|by apply waiting_zero|done]. Qed.

(** With a packet from the cache in hand, after the burst. *)
Lemma wp_first m rest rs st :
  ch_q cc = m :: rest → let k := moved cc (length rest) rc in
  rx_chans p cid rid cc rc (rest ++ take k (ch_q rc)) (drop k (ch_q rc)) rs →
  wp (mbuf ← count_segs m; _ ← rx_kick sock; mret mbuf) handed_out (with_rx p sk rs st).
Proof.
  intros Hcq k Hrx.
  assert (head (waiting cc rc) = Some m ∧ tail (waiting cc rc) = rest ++ ch_q rc) as [Hhd Htl]
    by (unfold waiting; by rewrite Hcq).
  rewrite wp_bind. apply wp_count_segs; [by apply (waiting_head m)|]. intros st2.
  apply (wp_hand_out m _ _ rs st st2 _ Hrx).
  - by rewrite Htl, <- app_assoc, take_drop.
  - by rewrite Hcq.
  - intros p' Hp'. apply handed_out_intro; [by rewrite Hhd|done].
Qed.

(** Nothing was in the cache: the packet comes with the burst, if there was one. *)
Lemma wp_second rs st :
  ch_q cc = [] → let k := moved cc 0 rc in
  rx_chans p cid rid cc rc (take k (ch_q rc)) (drop k (ch_q rc)) rs →
  wp (mbuf ← (second ← sc_dequeue cid;
              match second : option Z with Some m => count_segs m | None => mret 0 end);
      _ ← rx_kick sock; mret mbuf) handed_out (with_rx p sk rs st).
Proof.
  intros Hcq k Hrx.
  assert (waiting cc rc = ch_q rc) as Hw by (unfold waiting; by rewrite Hcq).
  assert (drop k (ch_q rc) = drop (moved cc (length (tail (ch_q cc))) rc) (ch_q rc)) as Hk
    by by rewrite Hcq.
  rewrite !wp_bind. eapply wp_sc_dequeue; [exact (proj1 Hrx)|exact (rx_chan_cache _ _ _ _ _ _ _ _ Hrx)|..].
  - intros m q Hq rs2 Hrs2 Hch2. cbn [ch_q ch_cap ch_wm] in *.
    pose proof (rx_set_cache _ _ _ _ _ _ _ q rs rs2 Hrx Hrs2 Hch2) as Hrx2.
    assert (ch_q rc = m :: q ++ drop k (ch_q rc)) as He
      by (rewrite <- (take_drop k (ch_q rc)) at 1; by rewrite Hq).
    assert (head (waiting cc rc) = Some m ∧ tail (waiting cc rc) = q ++ drop k (ch_q rc)) as [Hhd Htl]
      by (rewrite Hw; split; by rewrite He at 1).
    apply wp_count_segs; [by apply (waiting_head m)|]. intros st2.
    apply (wp_hand_out m _ _ rs2 st st2 _ Hrx2); [done|done|].
    intros p' Hp'. apply handed_out_intro; [by rewrite Hhd|done].
  - intros Hq rs2 Hrs2 Hch2. cbn [ch_q ch_cap ch_wm] in *.
    assert (rx_chans p cid rid cc rc [] (drop k (ch_q rc)) rs2) as Hrx2.
    { split; [done|]. change (chans rs2 = chans rs) in Hch2. rewrite Hch2, (proj2 Hrx). by rewrite Hq. }
    assert (ch_q rc = []) as Hnil.
    { pose proof (rr_cap _ _ _ _ _ _ _ _ _ _ _ Hready) as Hcap.
      destruct (ch_q rc) as [|x l] eqn:Hrcq; [done|]. exfalso. subst k. unfold moved in Hq.
      rewrite Hrcq in Hq. unfold zlen, MAX_PKT_BURST in Hq. cbn [length] in Hq.
      destruct (Z.to_nat _) eqn:Hz in Hq; [lia|done]. }
    rewrite wp_ret. apply (wp_hand_out 0 _ _ rs2 st st _ Hrx2); [|done|].
    + rewrite Hw, Hnil. by rewrite drop_nil.
    + intros p' Hp'. apply handed_out_intro; [by rewrite Hw, Hnil|done].
Qed.

(** The call from the moment the cache was looked at. *)
Lemma wp_rest_of_call rs rest (first : option Z) :
  rings_ok rs →
  chans rs = <[cid := mk_chan (ch_cap cc) (ch_wm cc) rest]> (chans (rings (p_shm p))) →
  rest = tail (ch_q cc) → first = head (ch_q cc) →
  wp (sk ← masked_socket sock;
      _ ← sock_write sk (λ s, s <| read_ready_to_app := 0 |>);
      _ ← fetch_burst sock cid;
      mbuf ← (match first : option Z with
              | Some m => count_segs m
              | None =>
                  second ← sc_dequeue cid;
                  match second : option Z with Some m => count_segs m | None => mret 0 end
              end);
      _ ← rx_kick sock;
      mret mbuf) handed_out (with_rings p rs).
Proof.
  intros Hrs Hch Hrest Hfirst.
  pose proof Hready as [Hr Hd Hcid Hrid Hsk Hb Hm Hcc Hrc Hcap Hnd Hbufs].
  rewrite wp_bind. apply (wp_masked_socket sock d sk); [done..|].
  rewrite wp_bind. apply (wp_sock_write sk blk); [done|].
  assert (∀ P, P (with_rx p sk rs (app_stats (p_app p))) →
    P (part_set ((part_get (with_rings p rs) : shm) <| g_sockets :=
         alter (λ s, s <| read_ready_to_app := 0 |>) sk (g_sockets (part_get (with_rings p rs))) |>)
       (with_rings p rs))) as Hconv by (intros P; by destruct p as [[] []]).
  apply Hconv. clear Hconv.
  assert (rx_chans p cid rid cc rc rest (ch_q rc) rs) as Hrx.
  { split; [done|]. rewrite Hch. f_equal. symmetry. rewrite insert_id; [done|]. rewrite Hrc. by destruct rc. }
  assert (zlen rest ≤ ch_cap cc) as Hlen.
  { pose proof (chan_bounded _ _ _ (cm_rings _ _ _ Hm) Hcc). subst rest. unfold zlen in *.
    destruct (ch_q cc); cbn in *; lia. }
  rewrite wp_bind. apply (wp_fetch_burst sock d sk blk cid rid cc rc pool ring p Hready rest rs _ _ Hrx Hlen).
  intros rs1 st1. cbv zeta. intros Hrx1.
  destruct (ch_q cc) as [|m q] eqn:Hcq; cbn in Hrest, Hfirst; subst rest first.
  - by apply wp_second.
  - by apply (wp_first m q).
Qed.

Lemma dequeue_rx_buf_post : wp (ipaugenblick_dequeue_rx_buf sock) handed_out p.
Proof.
  pose proof Hready as [Hr Hd Hcid Hrid Hsk Hb Hm Hcc Hrc Hcap Hnd Hbufs].
  pose proof (cm_rings _ _ _ Hm) as Hok.
  unfold ipaugenblick_dequeue_rx_buf, lsd_ring. rewrite !wp_bind. apply (wp_lsd_read _ d); [done|].
  rewrite Hcid. cbn [of_option]. rewrite wp_ret, wp_bind.
  eapply wp_sc_dequeue; [exact Hok|exact Hcc|..].
  - intros m q Hq rs Hrs Hch. apply (wp_rest_of_call rs q (Some m)); [done..| |]; by rewrite Hq.
  - intros Hq rs Hrs Hch. apply (wp_rest_of_call rs [] None); [done| | |]; rewrite ?Hq; try done.
    change (chans rs = chans (rings (p_shm p))) in Hch. rewrite Hch. symmetry. apply insert_id.
    rewrite Hcc. rewrite <- Hq. by destruct cc.
Qed.
End call.

(** C32. Packets are handed out in the order they arrived.  A call returns the oldest
    packet that waits, in the local cache or in the receive ring, and nothing
    exactly when none waits; the others stay, in order, up to 32 of them moved to
    the cache.  The flag is cleared, so the next packet is announced again, and
    the service is kicked when a command buffer is free - a buffer that is lost
    when the command ring is full. *)
Theorem rx_fifo sock d sk blk cid rid cc rc pool ring p :
  rx_ready sock d sk blk cid rid cc rc pool ring p →
  wp (ipaugenblick_dequeue_rx_buf sock)
    (λ m p', m = default 0 (head (waiting cc rc)) ∧ (m = 0 ↔ waiting cc rc = []) ∧
       rx_after sock sk cid rid cc rc pool ring p p') p.
Proof. exact (dequeue_rx_buf_post sock d sk blk cid rid cc rc pool ring p). Qed.

(** *** Concrete instances *)

(** One packet in the local cache, two in the receive ring. *)
Definition receiving_shm : shm :=
  mk_shm (list_to_map [(LOCAL_CACHE "demo" 5, demo_ring 3 8 [24]); (RX_RING 5, demo_ring 3 1 [25; 26]);
                       (FREE_COMMAND_POOL, demo_ring 0 8 [100; 101]); (COMMAND_RING, demo_ring 2 8 [])])
    (cmds demo_shm) {[5 := mk_socket 5 1 0 0 0 0 0]}
    {[24 := demo_mbuf 1 0; 25 := demo_mbuf 1 0; 26 := demo_mbuf 1 0]}.
Definition receiver : proc := mk_proc receiving_shm demo_app.

Lemma receiving_rings : rings_ok (rings receiving_shm).
Proof. apply demo_rings_ok. repeat constructor; (do 3 eexists; split; [done|cbn; lia]). Qed.

Lemma receiver_ready :
  rx_ready 5 (demo_lsd 5 2) 5 (mk_socket 5 1 0 0 0 0 0) (LOCAL_CACHE "demo" 5) (RX_RING 5)
    (mk_chan 7 8 [24]) (mk_chan 7 1 [25; 26]) demo_pool demo_cmd_ring receiver.
Proof.
  split; try done.
  - split; [exact receiving_rings|done|done|exact (cm_bufs _ _ _ demo_cmd_mem)|done].
  - repeat constructor; set_solver.
  - intros m Hm. cbn in Hm.
    repeat (apply elem_of_cons in Hm as [->|Hm]; [split; [done|by eexists]|]).
    by apply not_elem_of_nil in Hm.
Qed.

Lemma rx_fifo_witness :
  wp (ipaugenblick_dequeue_rx_buf 5) (λ m p', m = 24 ∧ (m = 0 ↔ [24; 25; 26] = []) ∧
    rx_after 5 5 (LOCAL_CACHE "demo" 5) (RX_RING 5) (mk_chan 7 8 [24]) (mk_chan 7 1 [25; 26])
      demo_pool demo_cmd_ring receiver p') receiver.
Proof. exact (rx_fifo _ _ _ _ _ _ _ _ _ _ _ receiver_ready). Defined.
