(* ===== verification/AppSelect.v ===== *)
(** * The application library: descriptor sets and select
    (ipaugenblick_app_api/ipaugenblick_api.c, ipaugenblick_api.h)

    [ipaugenblick_select] reports the sockets that are ready, from the
    selector's local cache (in level mode) and from its ready ring.  A
    descriptor set says which sockets the caller is interested in and receives
    the ones that are ready, each at most once.  Sets are objects in the
    process's memory ([app_fdsets]), so two arguments may be the same set; 0 is
    a null argument. *)

From S2P Require Import Prelude Ring Mem Mbuf App AppData.

Definition IPAUGENBLICK_MAX_SOCKETS : Z := 2048.

Definition fdset_read (p : Z) : M proc ipaugenblick_fdset :=
  f ← app_get (λ a, app_fdsets a !! p); of_option f.
Definition fdset_write (p : Z) (f : ipaugenblick_fdset → ipaugenblick_fdset) : M proc unit :=
  s ← fdset_read p; on_app (λ a, a <| app_fdsets := <[p := f s]> (app_fdsets a) |>).

(** Elements of the arrays of a set; out of bounds is a fault. *)
Definition arr_read (arr : gmap Z Z) (i : Z) : M proc Z := of_option (arr !! i).
Definition arr_write (arr : gmap Z Z) (i v : Z) : M proc (gmap Z Z) :=
  _ ← arr_read arr i; mret (<[i := v]> arr).

(** ** The set's own operations *)

(** [ipaugenblick_fdset], the function. *)
Definition fdset_add (sock p : Z) : M proc unit :=
  s ← fdset_read p;
  a ← arr_write (interested_flags s) sock 1;
  _ ← fdset_write p (λ s, s <| interested_flags := a |>);
  ipaugenblick_put_to_local_cache sock.

Definition ipaugenblick_fdclear (sock p : Z) : M proc unit :=
  s ← fdset_read p;
  a ← arr_write (interested_flags s) sock 0;
  b ← arr_write (returned_flags s) sock 0;
  _ ← fdset_write p (λ s, s <| interested_flags := a |> <| returned_flags := b |>);
  ipaugenblick_remove_socket_from_cache sock.

Definition zero_array : gmap Z Z := list_to_map ((λ i, (i, 0)) <$> seqZ 0 IPAUGENBLICK_MAX_SOCKETS).
Definition zero_fdset : ipaugenblick_fdset := mk_fdset zero_array zero_array zero_array 0.
Definition ipaugenblick_fdzero (p : Z) : M proc unit := fdset_write p (λ _, zero_fdset).

Definition ipaugenblick_fdisset (sock p : Z) : M proc bool :=
  s ← fdset_read p; v ← arr_read (returned_flags s) sock; mret (negb (v =? 0)).
Definition ipaugenblick_fd_idx2sock (p idx : Z) : M proc Z :=
  s ← fdset_read p; arr_read (returned_sockets s) idx.

(** Report socket [idx] in the set, unless it is there already. *)
Definition ipaugenblick_update_fdset (idx p : Z) : M proc Z :=
  s ← fdset_read p;
  i ← arr_read (interested_flags s) idx;
  if negb (i =? 0) then
    r ← arr_read (returned_flags s) idx;
    if r =? 0 then
      socks ← arr_write (returned_sockets s) (returned_idx s) idx;
      flags ← arr_write (returned_flags s) idx 1;
      _ ← fdset_write p (λ s, s <| returned_sockets := socks |> <| returned_flags := flags |>
                                <| returned_idx := returned_idx s + 1 |>);
      mret 1
    else mret 0
  else mret 0.

(** ** Select *)

(** The loop that clears what the last call returned, and the count. *)
Fixpoint clear_returned (n : nat) (i p : Z) : M proc unit :=
  match n with
  | O => mret tt
  | Datatypes.S n =>
      s ← fdset_read p;
      sock ← arr_read (returned_sockets s) i;
      flags ← arr_write (returned_flags s) sock 0;
      _ ← fdset_write p (λ s, s <| returned_flags := flags |>);
      clear_returned n (i + 1) p
  end.
Definition reset_fdset (p : Z) : M proc unit :=
  if p =? 0 then mret tt
  else
    s ← fdset_read p;
    _ ← clear_returned (Z.to_nat (returned_idx s)) 0 p;
    fdset_write p (λ s, s <| returned_idx := 0 |>).

(** A set that is given, and whose caller is interested in [idx]. *)
Definition interested (p idx : Z) : M proc bool :=
  if p =? 0 then mret false
  else s ← fdset_read p; v ← arr_read (interested_flags s) idx; mret (negb (v =? 0)).

Definition report_if (b : bool) (idx p : Z) : M proc unit :=
  if b then _ ← ipaugenblick_update_fdset idx p; mret tt else mret tt.

(** One socket of the local cache. *)
Definition report_cached (readp writep excp idx : Z) : M proc unit :=
  d ← lsd_read idx;
  let mask := lsd_local_mask d in
  _ ← (if negb (Z.land mask SOCKET_READABLE_BIT =? 0) then
         b ← interested readp idx; report_if b idx readp else mret tt);
  _ ← (if negb (Z.land mask SOCKET_WRITABLE_BIT =? 0) then
         b ← interested writep idx; report_if b idx writep else mret tt);
  if negb (Z.land mask SOCKET_CLOSED_BIT =? 0) then
    b ← interested excp idx; report_if b idx excp else mret tt.

(** The walk over the cache, [limit] sockets at most. *)
Fixpoint walk_cache (l : list Z) (limit : Z) (readp writep excp : Z) : M proc unit :=
  match l with
  | [] => mret tt
  | idx :: l =>
      if limit =? 0 then mret tt
      else _ ← report_cached readp writep excp idx;
           walk_cache l (limit - 1) readp writep excp
  end.

Definition returned_count (p : Z) : M proc Z :=
  if p =? 0 then mret 0 else s ← fdset_read p; mret (returned_idx s).

(** One element of the ready ring: a connection index and its events. *)
Definition handle_ready (readp writep excp : Z) (entry : Z) : M proc unit :=
  let i := Z.land entry SOCKET_READY_MASK in
  let events := Z.shiftr entry SOCKET_READY_SHIFT in
  if IPAUGENBLICK_CONNECTION_POOL_SIZE <=? i then exit_
  else
    d ← lsd_read i;
    if lsd_select d =? -1 then mret tt
    else
      _ ← lsd_write i (λ d, d <| lsd_any_event_received := 1 |>
            <| lsd_local_mask := Z.lor (lsd_local_mask d) events |>);
      _ ← ipaugenblick_put_to_local_cache i;
      _ ← report_if (negb (Z.land events SOCKET_READABLE_BIT =? 0) && negb (readp =? 0)) i readp;
      if negb (Z.land events SOCKET_CLOSED_BIT =? 0) && negb (excp =? 0)
      then report_if true i excp
      else report_if (negb (Z.land events SOCKET_WRITABLE_BIT =? 0) && negb (writep =? 0)) i writep.

(** A timeout: [None] waits for ever, [Some (0, 0)] does not wait. *)
Definition timeout := option (Z * Z).

(** From [restart_waiting].  [wait] is what other processes do to the shared
    memory while this one sleeps in [pselect]; each of the [fuel] rounds is one
    pass of the loop. *)
Fixpoint select_loop (fuel : nat) (wait : nat → shm → shm) (selector readp writep excp : Z)
    (tmo : timeout) (exit_after_check : bool) : M proc Z :=
  match fuel with
  | O => fault
  | Datatypes.S fuel =>
      r ← returned_count readp; w ← returned_count writep; e ← returned_count excp;
      if negb (r + w + e =? 0) then mret (r + w + e)
      else
        s ← sel_read selector;
        ring ← of_option (sel_ready_connections s);
        ready_count ← ring_count ring;
        let sleep :=
          if exit_after_check then mret (-1)
          else if bool_decide (tmo = Some (0, 0)) then mret (-1)
          else
            _ ← modify (λ p, p <| p_shm := wait fuel (p_shm p) |>);
            select_loop fuel wait selector readp writep excp tmo
              (exit_after_check || bool_decide (tmo ≠ None)) in
        if ready_count =? 0 then sleep
        else
          entries ← dequeue_bulk ring ready_count;
          match entries with
          | None => sleep
          | Some entries =>
              _ ← stat_inc stats_select_returned;
              _ ← for_each entries (handle_ready readp writep excp);
              select_loop fuel wait selector readp writep excp tmo exit_after_check
          end
  end.

Definition ipaugenblick_select (fuel : nat) (wait : nat → shm → shm)
    (selector readp writep excp : Z) (tmo : timeout) : M proc Z :=
  s ← sel_read selector;
  _ ← reset_fdset readp;
  _ ← reset_fdset writep;
  _ ← reset_fdset excp;
  _ ← stat_inc stats_select_called;
  _ ← walk_cache (sel_local_ready_cache s) (sel_queue_length s) readp writep excp;
  select_loop fuel wait selector readp writep excp tmo false.

(** ** A descriptor set *)

Definition returned (s : ipaugenblick_fdset) : list Z :=
  (λ j, default 0 (returned_sockets s !! j)) <$> seqZ 0 (returned_idx s).

Definition arr_total (a : gmap Z Z) : Prop :=
  ∀ i, 0 ≤ i < IPAUGENBLICK_MAX_SOCKETS → is_Some (a !! i).
Definition in_range (i : Z) : Prop := 0 ≤ i < IPAUGENBLICK_MAX_SOCKETS.

(** During a call: the sockets listed are distinct, in range, of interest, and the
    ones whose flag is set. *)
Record fdset_ok (s : ipaugenblick_fdset) : Prop := {
  fo_interested : arr_total (interested_flags s);
  fo_flags : arr_total (returned_flags s);
  fo_socks : arr_total (returned_sockets s);
  fo_idx : 0 ≤ returned_idx s;
  fo_nodup : NoDup (returned s);
  fo_range : ∀ i, i ∈ returned s → in_range i;
  fo_flag : ∀ i v, returned_flags s !! i = Some v → v ≠ 0 ↔ i ∈ returned s;
  fo_wanted : ∀ i, i ∈ returned s → interested_flags s !! i ≠ Some 0;
}.

(** Between calls, whatever sockets the caller has added or removed meanwhile. *)
Record fdset_wf (s : ipaugenblick_fdset) : Prop := {
  fw_interested : arr_total (interested_flags s);
  fw_flags : arr_total (returned_flags s);
  fw_socks : arr_total (returned_sockets s);
  fw_idx : 0 ≤ returned_idx s ≤ IPAUGENBLICK_MAX_SOCKETS;
  fw_range : ∀ i, i ∈ returned s → in_range i;
  fw_flag : ∀ i v, returned_flags s !! i = Some v → v ≠ 0 → i ∈ returned s;
}.

Lemma arr_total_insert a i v : arr_total a → arr_total (<[i := v]> a).
Proof. intros Ha j Hj. apply lookup_insert_is_Some'. auto. Qed.

Lemma length_returned s : 0 ≤ returned_idx s → zlen (returned s) = returned_idx s.
Proof. intros. by apply zlen_fmap_seqZ. Qed.

(** A list of distinct sockets is no longer than the arrays. *)
Lemma sockets_bound l : NoDup l → (∀ i, i ∈ l → in_range i) → zlen l ≤ IPAUGENBLICK_MAX_SOCKETS.
Proof.
  intros Hnd Hr.
  assert (l ⊆+ seqZ 0 IPAUGENBLICK_MAX_SOCKETS) as Hs.
  { apply NoDup_submseteq; [done|]. intros i Hi%Hr. apply elem_of_seqZ.
    unfold in_range, IPAUGENBLICK_MAX_SOCKETS in *. lia. }
  apply submseteq_length in Hs. rewrite length_seqZ in Hs.
  unfold zlen, IPAUGENBLICK_MAX_SOCKETS in *. lia.
Qed.

Lemma fdset_ok_wf s : fdset_ok s → fdset_wf s.
Proof.
  intros [Hi Hf Hs Hx Hnd Hr Hfl _]. split; try done.
  - split; [done|]. rewrite <- length_returned by done. by apply sockets_bound.
  - intros i v Hv Hnz. by apply (Hfl i v).
Qed.

(** What [ipaugenblick_update_fdset] makes of a set. *)
Definition fresh (i : Z) (s : ipaugenblick_fdset) : bool :=
  negb (default 0 (interested_flags s !! i) =? 0) && (default 0 (returned_flags s !! i) =? 0).
Definition report (i : Z) (s : ipaugenblick_fdset) : ipaugenblick_fdset :=
  if fresh i s then
    s <| returned_sockets := <[returned_idx s := i]> (returned_sockets s) |>
      <| returned_flags := <[i := 1]> (returned_flags s) |> <| returned_idx := returned_idx s + 1 |>
  else s.

Lemma returned_report i s :
  0 ≤ returned_idx s → returned (report i s) = returned s ++ (if fresh i s then [i] else []).
Proof.
  intros Hx. unfold report. destruct (fresh i s); [|by rewrite app_nil_r].
  unfold returned. cbn [returned_sockets returned_idx set_field].
  rewrite fmap_seqZ_app by lia. f_equal.
  - apply fmap_seqZ_ext. intros j Hj. by rewrite lookup_insert_ne by lia.
  - change (seqZ 0 1) with [0]. cbn. by rewrite Z.add_0_r, lookup_insert_eq.
Qed.

Lemma report_ok i s : fdset_ok s → in_range i → fdset_ok (report i s).
Proof.
  intros Hok Hi. destruct Hok as [Hint Hf Hs Hx Hnd Hr Hfl Hw] eqn:He. clear He.
  pose proof (returned_report i s Hx) as Hret. unfold report in *.
  destruct (fresh i s) eqn:Hfr; [|done].
  unfold fresh in Hfr. apply andb_true_iff in Hfr as [Hwant Hflag].
  apply negb_true_iff, Z.eqb_neq in Hwant. apply Z.eqb_eq in Hflag.
  assert (i ∉ returned s) as Hni.
  { destruct (Hf i Hi) as [v Hv]. rewrite Hv in Hflag. cbn in Hflag. intros Hin.
    apply (Hfl i v Hv) in Hin. done. }
  split; cbn [interested_flags returned_flags returned_sockets returned_idx set_field]; try done.
  - by apply arr_total_insert.
  - by apply arr_total_insert.
  - lia.
  - rewrite Hret. by apply NoDup_snoc.
  - rewrite Hret. intros j [Hj|Hj%list_elem_of_singleton]%elem_of_app; [auto|by subst].
  - rewrite Hret. intros j v Hv. rewrite elem_of_app, list_elem_of_singleton.
    destruct (decide (j = i)) as [->|Hj].
    + rewrite lookup_insert_eq in Hv. apply (inj Some) in Hv. subst v. split; [by right|done].
    + rewrite lookup_insert_ne in Hv by done. rewrite (Hfl j v Hv). split; [by left|by intros [?|?]].
  - rewrite Hret. intros j [Hj|Hj%list_elem_of_singleton]%elem_of_app; [auto|subst].
    intros H0. by rewrite H0 in Hwant.
Qed.

Lemma report_listed i s : fdset_ok s → in_range i →
  interested_flags (report i s) !! i = Some 0 ∨ i ∈ returned (report i s).
Proof.
  intros Hok Hi. destruct (fo_interested _ Hok i Hi) as [v Hv], (fo_flags _ Hok i Hi) as [w Hw].
  rewrite (returned_report i s) by apply (fo_idx _ Hok).
  destruct (fresh i s) eqn:Hfr; [right; apply elem_of_app; right; constructor|].
  unfold report. rewrite Hfr. unfold fresh in Hfr. rewrite Hv, Hw in Hfr. cbn in Hfr.
  destruct (Z.eqb_spec v 0) as [->|Hvn]; [by left|]. destruct (Z.eqb_spec w 0) as [|Hwn]; [done|].
  right. rewrite app_nil_r. by apply (fo_flag _ Hok i w).
Qed.

Lemma wp_fdset_read p s (Q : ipaugenblick_fdset → proc → Prop) pr :
  app_fdsets (p_app pr) !! p = Some s → Q s pr → wp (fdset_read p) Q pr.
Proof. intros Hs HQ. unfold fdset_read, app_get. wp_run. by rewrite Hs. Qed.

Definition set_fdset (p : Z) (s : ipaugenblick_fdset) (a : app) : app :=
  a <| app_fdsets := <[p := s]> (app_fdsets a) |>.
Lemma wp_fdset_write p s f (Q : unit → proc → Prop) pr :
  app_fdsets (p_app pr) !! p = Some s →
  Q tt (pr <| p_app := set_fdset p (f s) (p_app pr) |>) → wp (fdset_write p f) Q pr.
Proof. intros Hs HQ. unfold fdset_write. rewrite wp_bind. by apply (wp_fdset_read _ s). Qed.

Lemma wp_arr_read (a : gmap Z Z) i v (Q : Z → proc → Prop) s :
  a !! i = Some v → Q v s → wp (arr_read a i) Q s.
Proof. intros Hv HQ. unfold arr_read. by rewrite Hv. Qed.
Lemma wp_arr_write (a : gmap Z Z) i v (Q : gmap Z Z → proc → Prop) s :
  is_Some (a !! i) → Q (<[i := v]> a) s → wp (arr_write a i v) Q s.
Proof. intros [w Hw] HQ. unfold arr_write, arr_read. rewrite wp_bind, Hw. done. Qed.

Lemma set_fdset_id p s a : app_fdsets a !! p = Some s → set_fdset p s a = a.
Proof. intros Hs. unfold set_fdset. rewrite insert_id by done. by destruct a. Qed.

(** [ipaugenblick_update_fdset] never writes out of bounds. *)
Lemma wp_update_fdset i p s (Q : Z → proc → Prop) pr :
  app_fdsets (p_app pr) !! p = Some s → fdset_ok s → in_range i →
  Q (if fresh i s then 1 else 0) (pr <| p_app := set_fdset p (report i s) (p_app pr) |>) →
  wp (ipaugenblick_update_fdset i p) Q pr.
Proof.
  intros Hs Hok Hi HQ.
  assert (fresh i s = false → Q 0 pr) as Hsame.
  { intros Hf. unfold report in HQ. rewrite Hf, set_fdset_id in HQ by done. by destruct pr. }
  destruct (fo_interested _ Hok i Hi) as [v Hv], (fo_flags _ Hok i Hi) as [w Hw].
  pose proof (report_ok i s Hok Hi) as Hok'. unfold fresh in Hsame, HQ. rewrite Hv, Hw in Hsame, HQ.
  unfold report, fresh in Hok', HQ. rewrite Hv, Hw in Hok', HQ. cbn [default from_option id] in *.
  unfold ipaugenblick_update_fdset. rewrite wp_bind. apply (wp_fdset_read _ s); [done|].
  rewrite wp_bind. apply (wp_arr_read _ _ v); [done|].
  destruct (Z.eqb_spec v 0); cbn [negb andb] in *; [rewrite wp_ret; auto|].
  rewrite wp_bind. apply (wp_arr_read _ _ w); [done|].
  destruct (Z.eqb_spec w 0); cbn [negb andb] in *; [|rewrite wp_ret; auto].
  rewrite wp_bind. apply wp_arr_write.
  { apply (fo_socks _ Hok). split; [apply (fo_idx _ Hok)|].
    apply fdset_ok_wf in Hok'. destruct (fw_idx _ Hok') as [_ Hb].
    cbn [returned_idx set_field] in Hb. lia. }
  rewrite wp_bind. apply wp_arr_write; [by eexists|].
  rewrite wp_bind. apply (wp_fdset_write _ s); [done|]. by rewrite wp_ret.
Qed.

(** ** Clearing what the last call returned *)

Lemma wp_clear_returned p n : ∀ i s (Q : unit → proc → Prop) pr,
  app_fdsets (p_app pr) !! p = Some s → fdset_wf s → 0 ≤ i → i + Z.of_nat n = returned_idx s →
  (∀ F, arr_total F →
     (∀ k v, F !! k = Some v → v ≠ 0 →
        returned_flags s !! k = Some v ∧ ∀ j, i ≤ j < returned_idx s → returned_sockets s !! j ≠ Some k) →
     Q tt (pr <| p_app := set_fdset p (s <| returned_flags := F |>) (p_app pr) |>)) →
  wp (clear_returned n i p) Q pr.
Proof.
  induction n as [|n IH]; intros i s Q pr Hs Hwf Hi Hn HQ; cbn [clear_returned].
  - rewrite wp_ret. specialize (HQ (returned_flags s) (fw_flags _ Hwf)).
    replace (s <| returned_flags := returned_flags s |>) with s in HQ by by destruct s.
    rewrite set_fdset_id in HQ by done. replace (pr <| p_app := p_app pr |>) with pr in HQ by by destruct pr.
    apply HQ. intros k v Hk _. split; [done|]. intros j Hj. lia.
  - pose proof Hwf as [Hint Hfl Hso [Hx0 Hx] Hr Hflag].
    destruct (Hso i) as [k Hk]; [unfold IPAUGENBLICK_MAX_SOCKETS in *; lia|].
    assert (in_range k) as Hkr.
    { apply Hr. unfold returned. apply list_elem_of_fmap. exists i. rewrite Hk. split; [done|].
      apply elem_of_seqZ. lia. }
    rewrite wp_bind. apply (wp_fdset_read _ s); [done|].
    rewrite wp_bind. apply (wp_arr_read _ _ k); [done|].
    rewrite wp_bind. apply wp_arr_write; [by apply Hfl|].
    rewrite wp_bind. apply (wp_fdset_write _ s); [done|].
    apply (IH (i + 1) (s <| returned_flags := <[k := 0]> (returned_flags s) |>)).
    + apply lookup_insert_eq.
    + split; cbn [interested_flags returned_flags returned_sockets returned_idx set_field]; try done.
      * by apply arr_total_insert.
      * intros j v Hv Hnz. destruct (decide (j = k)) as [->|Hj].
        { rewrite lookup_insert_eq in Hv. by apply (inj Some) in Hv. }
        rewrite lookup_insert_ne in Hv by done. by apply (Hflag j v).
    + lia.
    + cbn. lia.
    + intros F HF Hclear. unfold set_fdset in *. cbn in Hclear |- *.
      rewrite insert_insert_eq. apply HQ; [done|]. intros x v Hv Hnz.
      destruct (Hclear x v Hv Hnz) as [Hfx Hj]. destruct (decide (x = k)) as [->|Hxk].
      { rewrite lookup_insert_eq in Hfx. by apply (inj Some) in Hfx. }
      rewrite lookup_insert_ne in Hfx by done. split; [done|]. intros j Hjr.
      destruct (decide (j = i)) as [->|?]; [congruence|]. apply Hj. lia.
Qed.

Lemma wp_reset_fdset p (Q : unit → proc → Prop) pr :
  (p ≠ 0 → ∃ s, app_fdsets (p_app pr) !! p = Some s ∧ fdset_wf s) →
  (p = 0 → Q tt pr) →
  (∀ s s', app_fdsets (p_app pr) !! p = Some s → fdset_ok s' → returned s' = [] →
     interested_flags s' = interested_flags s →
     Q tt (pr <| p_app := set_fdset p s' (p_app pr) |>)) →
  wp (reset_fdset p) Q pr.
Proof.
  intros Hwf H0 HQ. unfold reset_fdset. destruct (Z.eqb_spec p 0) as [->|Hp]; [rewrite wp_ret; auto|].
  destruct (Hwf Hp) as (s & Hs & Hw). pose proof Hw as [Hint Hfl Hso [Hx0 Hx] Hr Hflag].
  rewrite wp_bind. apply (wp_fdset_read _ s); [done|]. rewrite wp_bind.
  apply (wp_clear_returned p _ 0 s); [done|done|lia|lia|]. intros F HF Hclear.
  eapply wp_fdset_write; [apply lookup_insert_eq|].
  set (s' := s <| returned_flags := F |> <| returned_idx := 0 |>).
  unfold set_fdset in *. cbn -[s']. rewrite insert_insert_eq. apply (HQ s s'); try done.
  split; cbn [s' interested_flags returned_flags returned_sockets returned_idx set_field]; try done.
  - constructor.
  - intros i Hi. by apply not_elem_of_nil in Hi.
  - intros i v Hv. split; [|by intros Hi%not_elem_of_nil]. intros Hnz. exfalso.
    destruct (Hclear i v Hv Hnz) as [Hfi Hj]. pose proof (Hflag i v Hfi Hnz) as Hin.
    unfold returned in Hin. apply list_elem_of_fmap in Hin as (j & Hij & Hjr%elem_of_seqZ).
    destruct (Hso j) as [k Hk]; [unfold IPAUGENBLICK_MAX_SOCKETS in *; lia|].
    apply (Hj j); [lia|]. rewrite Hk in Hij |- *. by subst i.
  - intros i Hi. by apply not_elem_of_nil in Hi.
Qed.

(** ** Reporting *)

(** [i] needs no further report in set [p]: there is no such set, the caller is
    not interested, or it is listed. *)
Definition listed (i p : Z) (a : app) : Prop :=
  p = 0 ∨ ∃ s, app_fdsets a !! p = Some s ∧ (interested_flags s !! i = Some 0 ∨ i ∈ returned s).

(** The state select works on: every descriptor exists, the cache is consistent,
    and the sets are in order. *)
Record sel_inv (ps : list Z) (a : app) : Prop := {
  si_cache : cache_ok a;
  si_wired : wired a;
  si_lsds : ∀ i, in_range i ↔ is_Some (lsds a !! i);
  si_sets : ∀ p, p ∈ ps → p ≠ 0 → ∃ s, app_fdsets a !! p = Some s ∧ fdset_ok s;
}.

(** Progress of a call: events and reports only accumulate, sockets only enter
    the cache, nothing else changes. *)
Record progress (a a' : app) : Prop := {
  pg_mask : ∀ i, ∃ ev, mask_of i a' = Z.lor (mask_of i a) ev;
  pg_cache : ∀ i, in_cache i a → in_cache i a';
  pg_sets : ∀ p s, app_fdsets a !! p = Some s → ∃ s', app_fdsets a' !! p = Some s' ∧
    interested_flags s' = interested_flags s ∧ returned s `prefix_of` returned s';
  pg_select : ∀ i, select_of a' i = select_of a i;
  pg_sels : sel_core <$> selectors a' = sel_core <$> selectors a;
}.

Lemma progress_refl a : progress a a.
Proof.
  split; try done.
  - intros i. exists 0. by rewrite Z.lor_0_r.
  - intros p s Hs. by exists s.
Qed.
Lemma progress_trans a b c : progress a b → progress b c → progress a c.
Proof.
  intros [Hm1 Hc1 Hs1 Hl1 Hk1] [Hm2 Hc2 Hs2 Hl2 Hk2]. split.
  - intros i. destruct (Hm1 i) as [e1 E1], (Hm2 i) as [e2 E2]. exists (Z.lor e1 e2).
    by rewrite E2, E1, Z.lor_assoc.
  - auto.
  - intros p s Hs. destruct (Hs1 p s Hs) as (s1 & E1 & I1 & P1).
    destruct (Hs2 p s1 E1) as (s2 & E2 & I2 & P2). exists s2.
    split_and!; [done|congruence|by etrans].
  - intros i. by rewrite Hl2.
  - congruence.
Qed.
#[export] Hint Resolve progress_refl : core.
#[export] Instance progress_preorder : PreOrder progress.
Proof. split; [exact progress_refl|exact progress_trans]. Qed.

Lemma listed_progress i p a a' : progress a a' → listed i p a → listed i p a'.
Proof.
  intros Hp [->|(s & Hs & Hl)]; [by left|right].
  destruct (pg_sets _ _ Hp p s Hs) as (s' & Hs' & Hi & Hpre). exists s'. split; [done|].
  rewrite Hi. destruct Hl as [?|Hin]; [by left|right]. destruct Hpre as [k ->].
  apply elem_of_app. by left.
Qed.

Lemma cache_ok_fdsets f a : cache_ok a → cache_ok (a <| app_fdsets := f |>).
Proof. by intros [? ? ?]. Qed.

Lemma set_fdset_inv ps p s a :
  sel_inv ps a → (p ∈ ps → fdset_ok s) → sel_inv ps (set_fdset p s a).
Proof.
  intros [Hc Hw Hl Hs] Hok. split; [by apply cache_ok_fdsets|done|done|].
  intros q Hq Hq0. unfold set_fdset. cbn. destruct (decide (q = p)) as [->|?].
  - rewrite lookup_insert_eq. eauto.
  - rewrite lookup_insert_ne by done. auto.
Qed.

Lemma wp_report_if ps b i p (Q : unit → proc → Prop) pr :
  sel_inv ps (p_app pr) → p ∈ ps → in_range i → (b = true → p ≠ 0) →
  (∀ a', sel_inv ps a' → progress (p_app pr) a' → (b = true → listed i p a') →
     Q tt (pr <| p_app := a' |>)) →
  wp (report_if b i p) Q pr.
Proof.
  intros Hinv Hp Hi Hb HQ. unfold report_if. destruct b.
  2: { rewrite wp_ret. replace pr with (pr <| p_app := p_app pr |>) by by destruct pr. by apply HQ. }
  destruct (si_sets _ _ Hinv p Hp (Hb eq_refl)) as (s & Hs & Hok).
  rewrite wp_bind. apply (wp_update_fdset i p s); [done..|]. rewrite wp_ret. apply HQ.
  - apply set_fdset_inv; [done|]. intros _. by apply report_ok.
  - split; try done.
    + intros j. exists 0. by rewrite Z.lor_0_r.
    + intros q sq Hsq. unfold set_fdset. cbn. destruct (decide (q = p)) as [->|?].
      * rewrite lookup_insert_eq. rewrite Hs in Hsq. apply (inj Some) in Hsq. subst sq.
        eexists. split; [done|]. rewrite returned_report by apply (fo_idx _ Hok).
        split; [|by eexists]. unfold report. by destruct (fresh i s).
      * rewrite lookup_insert_ne by done. by exists sq.
  - intros _. right. exists (report i s). unfold set_fdset. cbn. rewrite lookup_insert_eq.
    split; [done|]. by apply report_listed.
Qed.

Lemma proc_eta (Q : unit → proc → Prop) pr : Q tt (pr <| p_app := p_app pr |>) → Q tt pr.
Proof. by destruct pr. Qed.

(** An event of a socket is reported. *)
Definition event_listed (bit mask i p : Z) (a : app) : Prop := Z.land mask bit ≠ 0 → listed i p a.

Lemma wp_report_interested ps bit mask i p (Q : unit → proc → Prop) pr :
  sel_inv ps (p_app pr) → p ∈ ps → in_range i →
  (∀ a', sel_inv ps a' → progress (p_app pr) a' → event_listed bit mask i p a' →
     Q tt (pr <| p_app := a' |>)) →
  wp (if negb (Z.land mask bit =? 0) then b ← interested p i; report_if b i p else mret tt) Q pr.
Proof.
  intros Hinv Hp Hi HQ.
  destruct (Z.eqb_spec (Z.land mask bit) 0) as [H0|Hbit]; cbn [negb].
  { rewrite wp_ret. apply proc_eta, HQ; [done..|]. by intros []. }
  rewrite wp_bind. unfold interested. destruct (Z.eqb_spec p 0) as [->|Hp0].
  { rewrite wp_ret. cbn [report_if]. rewrite wp_ret. apply proc_eta, HQ; [done..|]. intros _. by left. }
  destruct (si_sets _ _ Hinv p Hp Hp0) as (s & Hs & Hok).
  destruct (fo_interested _ Hok i Hi) as [v Hv].
  rewrite wp_bind. apply (wp_fdset_read _ s); [done|].
  rewrite wp_bind. apply (wp_arr_read _ _ v); [done|]. rewrite wp_ret.
  destruct (Z.eqb_spec v 0) as [->|Hv0]; cbn [negb].
  - change (Q tt pr). apply proc_eta, HQ; [done..|]. intros _. right. exists s. auto.
  - apply (wp_report_if ps); [done..|]. intros a' Hinv' Hpg Hl. apply HQ; [done..|]. intros _. auto.
Qed.

Definition sel_ptrs (readp writep excp : Z) : list Z := [readp; writep; excp].

(** A cached socket is reported in each set for the events it has pending. *)
Definition cached_listed (readp writep excp i : Z) (a : app) : Prop :=
  event_listed SOCKET_READABLE_BIT (mask_of i a) i readp a ∧
  event_listed SOCKET_WRITABLE_BIT (mask_of i a) i writep a ∧
  event_listed SOCKET_CLOSED_BIT (mask_of i a) i excp a.

(** Reporting does not touch the masks. *)
Definition same_masks (a a' : app) : Prop := lsds a' = lsds a ∧ selectors a' = selectors a.

Lemma wp_report_same ps bit mask i p (Q : unit → proc → Prop) pr :
  sel_inv ps (p_app pr) → p ∈ ps → in_range i →
  (∀ a', sel_inv ps a' → progress (p_app pr) a' → same_masks (p_app pr) a' →
     event_listed bit mask i p a' → Q tt (pr <| p_app := a' |>)) →
  wp (if negb (Z.land mask bit =? 0) then b ← interested p i; report_if b i p else mret tt) Q pr.
Proof.
  intros Hinv Hp Hi HQ.
  assert (wp (if negb (Z.land mask bit =? 0) then b ← interested p i; report_if b i p else mret tt)
    (λ _ p', same_masks (p_app pr) (p_app p')) pr) as Hsame.
  { destruct (negb _); [|by rewrite wp_ret]. rewrite wp_bind. unfold interested.
    destruct (Z.eqb_spec p 0) as [->|Hp0]; [by rewrite wp_ret|].
    destruct (si_sets _ _ Hinv p Hp Hp0) as (s & Hs & Hok).
    destruct (fo_interested _ Hok i Hi) as [v Hv].
    rewrite wp_bind. apply (wp_fdset_read _ s); [done|].
    rewrite wp_bind. apply (wp_arr_read _ _ v); [done|]. rewrite wp_ret.
    destruct (negb (v =? 0)); cbn [report_if]; [|by rewrite wp_ret].
    rewrite wp_bind. apply (wp_update_fdset i p s); [done..|]. by rewrite wp_ret. }
  pose proof (wp_report_interested ps bit mask i p (λ _ p', p' = pr <| p_app := p_app p' |> ∧
    sel_inv ps (p_app p') ∧ progress (p_app pr) (p_app p') ∧ event_listed bit mask i p (p_app p'))
    pr Hinv Hp Hi) as Hw.
  specialize (Hw ltac:(intros a' ???; by split_and!)).
  eapply wp_mono; [exact (wp_conj _ _ _ _ Hsame Hw)|].
  intros [] p' (Hsm & -> & ? & ? & ?). by apply HQ.
Qed.

Lemma wp_report_cached readp writep excp i (Q : unit → proc → Prop) pr :
  let ps := sel_ptrs readp writep excp in
  sel_inv ps (p_app pr) → in_range i →
  (∀ a', sel_inv ps a' → progress (p_app pr) a' → same_masks (p_app pr) a' →
     cached_listed readp writep excp i a' → Q tt (pr <| p_app := a' |>)) →
  wp (report_cached readp writep excp i) Q pr.
Proof.
  intros ps Hinv Hi HQ. unfold report_cached. destruct (proj1 (si_lsds _ _ Hinv i) Hi) as [d Hd].
  rewrite wp_bind. apply (wp_lsd_read _ d); [done|]. cbv zeta.
  rewrite <- (mask_of_lookup _ _ _ Hd). set (m := mask_of i (p_app pr)).
  assert (readp ∈ ps ∧ writep ∈ ps ∧ excp ∈ ps) as (Hr & Hw & He) by (unfold ps, sel_ptrs; set_solver).
  rewrite wp_bind. apply (wp_report_same ps); [done..|]. intros a1 Hi1 Hp1 [Hl1 Hs1] He1.
  rewrite wp_bind. apply (wp_report_same ps); [done..|]. intros a2 Hi2 Hp2 [Hl2 Hs2] He2.
  apply (wp_report_same ps); [done..|]. intros a3 Hi3 Hp3 [Hl3 Hs3] He3.
  cbn [p_app set_field] in *. apply HQ; [done|by do 2 (etrans; [done|])|split; congruence|].
  assert (mask_of i a3 = m) as Hm by (unfold m, mask_of; by rewrite Hl3, Hl2, Hl1).
  unfold cached_listed. rewrite Hm. split_and!; [| |done]; intros Hb.
  - eapply listed_progress, He1, Hb. by etrans.
  - by eapply listed_progress, He2, Hb.
Qed.

Lemma cached_listed_progress readp writep excp i a a' :
  progress a a' → same_masks a a' → cached_listed readp writep excp i a →
  cached_listed readp writep excp i a'.
Proof.
  intros Hp [Hl _] (H1 & H2 & H3). assert (mask_of i a' = mask_of i a) as Hm by (unfold mask_of; by rewrite Hl).
  unfold cached_listed. rewrite Hm.
  split_and!; intros Hb; eapply listed_progress; eauto.
Qed.

Lemma wp_walk_cache readp writep excp l : ∀ limit (Q : unit → proc → Prop) pr,
  let ps := sel_ptrs readp writep excp in
  sel_inv ps (p_app pr) → (∀ i, i ∈ l → in_range i) → zlen l ≤ limit →
  (∀ a', sel_inv ps a' → progress (p_app pr) a' → same_masks (p_app pr) a' →
     (∀ i, i ∈ l → cached_listed readp writep excp i a') → Q tt (pr <| p_app := a' |>)) →
  wp (walk_cache l limit readp writep excp) Q pr.
Proof.
  induction l as [|i l IH]; intros limit Q pr ps Hinv Hr Hlim HQ; cbn [walk_cache].
  - rewrite wp_ret. replace pr with (pr <| p_app := p_app pr |>) by by destruct pr.
    apply HQ; [done..|]. by intros i Hi%not_elem_of_nil.
  - unfold zlen in Hlim. cbn in Hlim. destruct (Z.eqb_spec limit 0); [lia|].
    rewrite wp_bind. apply wp_report_cached; [done|apply Hr; constructor|].
    intros a1 Hi1 Hp1 Hm1 Hl1. apply IH; [done| |unfold zlen; lia|].
    + intros j Hj. apply Hr. by constructor.
    + cbn [p_app set_field]. intros a2 Hi2 Hp2 Hm2 Hl2. apply HQ; [done|by etrans| |].
      * destruct Hm1, Hm2. split; congruence.
      * intros j [->|Hj]%elem_of_cons; [|auto]. by eapply cached_listed_progress.
Qed.

(** ** Entries of the ready ring *)

Definition entry_socket (e : Z) : Z := Z.land e SOCKET_READY_MASK.
Definition entry_events (e : Z) : Z := Z.shiftr e SOCKET_READY_SHIFT.
Definition entry_ok (e : Z) : Prop := entry_socket e < IPAUGENBLICK_CONNECTION_POOL_SIZE.

Definition level_of (i : Z) (a : app) : bool :=
  match selectors a !! select_of a i with Some s => negb (sel_level_mode s =? 0) | None => false end.

(** An entry is dealt with: its socket waits on no selector; or its events are in
    the socket's mask, reported in the sets given, and in level mode the socket is
    in the cache, so that later calls report it too.  An event that comes with
    CLOSED is reported writable only if no set for exceptions is given. *)
Definition handled (readp writep excp e : Z) (a : app) : Prop :=
  let i := entry_socket e in let ev := entry_events e in
  select_of a i = -1 ∨
  (Z.lor (mask_of i a) ev = mask_of i a ∧
   event_listed SOCKET_READABLE_BIT ev i readp a ∧
   event_listed SOCKET_CLOSED_BIT ev i excp a ∧
   (Z.land ev SOCKET_CLOSED_BIT = 0 ∨ excp = 0 → event_listed SOCKET_WRITABLE_BIT ev i writep a) ∧
   (level_of i a = true → ev ≠ 0 → in_cache i a)).

Lemma level_of_progress i a a' : progress a a' → level_of i a' = level_of i a.
Proof.
  intros Hp. unfold level_of. rewrite (pg_select _ _ Hp). pose proof (pg_sels _ _ Hp) as Hs.
  apply (f_equal (lookup (select_of a i))) in Hs. rewrite !lookup_fmap in Hs.
  destruct (selectors a' !! _), (selectors a !! _); try done.
  apply (inj Some) in Hs. injection Hs as _ ->. done.
Qed.

Lemma handled_progress readp writep excp e a a' :
  progress a a' → handled readp writep excp e a → handled readp writep excp e a'.
Proof.
  intros Hp [Hs|(Hm & Hr & Hc & Hw & Hl)]; [left; by rewrite (pg_select _ _ Hp)|right].
  destruct (pg_mask _ _ Hp (entry_socket e)) as [x Hx]. split_and!.
  - by rewrite Hx, <- Z.lor_assoc, (Z.lor_comm x), Z.lor_assoc, Hm.
  - intros Hb. by eapply listed_progress, Hr, Hb.
  - intros Hb. by eapply listed_progress, Hc, Hb.
  - intros Hno Hb. by eapply listed_progress, Hw, Hb.
  - rewrite (level_of_progress _ _ _ Hp). intros Hlev Hev. by apply (pg_cache _ _ Hp), Hl.
Qed.

Lemma entry_socket_range e : entry_ok e → in_range (entry_socket e).
Proof.
  intros He. split; [|exact He]. unfold entry_socket. apply Z.land_nonneg. right. by vm_compute.
Qed.

Lemma select_of_core a a' i : same_core a a' → select_of a' i = select_of a i.
Proof.
  intros (Hl & _). apply (f_equal (lookup i)) in Hl. rewrite !lookup_fmap in Hl. unfold select_of.
  destruct (lsds a' !! i), (lsds a !! i); try done. apply (inj Some) in Hl. cbn. by injection Hl.
Qed.

Lemma same_core_progress a a' :
  same_core a a' → (∀ i, in_cache i a → in_cache i a') → progress a a'.
Proof.
  intros Hc Hin. pose proof Hc as (_ & Hs & Hf). split; try done.
  - intros i. exists 0. by rewrite Z.lor_0_r, (mask_of_core _ _ i Hc).
  - intros p s Hp. rewrite Hf. by exists s.
  - intros i. by apply select_of_core.
Qed.

Lemma same_core_dom a a' i : same_core a a' → is_Some (lsds a' !! i) ↔ is_Some (lsds a !! i).
Proof.
  intros (Hl & _). apply (f_equal (lookup i)) in Hl. rewrite !lookup_fmap in Hl.
  rewrite <- (fmap_is_Some lsd_core (lsds a' !! i)), <- (fmap_is_Some lsd_core (lsds a !! i)).
  by rewrite Hl.
Qed.

(** The event is noted in the descriptor and the socket goes to the cache. *)
Definition noted (ev : Z) (d : local_socket_descriptor) : local_socket_descriptor :=
  d <| lsd_any_event_received := 1 |> <| lsd_local_mask := Z.lor (lsd_local_mask d) ev |>.

Lemma update_noted i ev d ps a :
  sel_inv ps a → lsds a !! i = Some d →
  let a1 := update_lsd i (noted ev) a in
  sel_inv ps a1 ∧ progress a a1 ∧ lsds a1 !! i = Some (noted ev d) ∧
  mask_of i a1 = Z.lor (mask_of i a) ev.
Proof.
  intros [Hc Hw Hl Hs] Hd a1.
  assert (lsds a1 !! i = Some (noted ev d)) as Hd1 by (cbn; by rewrite lookup_alter_eq, Hd).
  assert (cache_ok a1) as Hc1 by by apply clear_mask_ok.
  assert (mask_of i a1 = Z.lor (mask_of i a) ev) as Hm
    by by rewrite (mask_of_lookup _ _ _ Hd1), (mask_of_lookup _ _ _ Hd).
  assert (∀ k, k ≠ i → lsds a1 !! k = lsds a !! k) as Hne by (intros k Hk; by apply lookup_alter_ne).
  split_and!; [split; try done| |done|done].
  - intros k e He. destruct (decide (k = i)) as [->|Hk].
    + rewrite Hd1 in He. apply (inj Some) in He. subst e. apply (Hw i d Hd).
    + rewrite Hne in He by done. by apply (Hw k e).
  - intros k. rewrite Hl. destruct (decide (k = i)) as [->|Hk]; [by rewrite Hd1, Hd|by rewrite Hne].
  - split; try done.
    + intros k. destruct (decide (k = i)) as [->|Hk]; [by exists ev|].
      exists 0. unfold mask_of. by rewrite Hne, Z.lor_0_r.
    + intros k. destruct (decide (k = i)) as [->|Hk].
      * rewrite (in_cache_flag i d a Hc Hd), (in_cache_flag i _ a1 Hc1 Hd1). done.
      * unfold in_cache. by rewrite Hne.
    + intros p s Hp. by exists s.
    + intros k. destruct (decide (k = i)) as [->|Hk].
      * unfold select_of. by rewrite Hd1, Hd.
      * unfold select_of. by rewrite Hne.
Qed.

(** Noting puts the connection on its selector's cache. *)
Lemma put_noted i ev d ps a1 : sel_inv ps a1 → lsds a1 !! i = Some (noted ev d) →
  let a2 := put_app i (noted ev d) a1 in
  sel_inv ps a2 ∧ progress a1 a2 ∧ mask_of i a2 = mask_of i a1 ∧
  (level_of i a1 = true → in_cache i a2 ↔ in_cache i a1 ∨ Z.lor (lsd_local_mask d) ev ≠ 0).
Proof.
  intros Hi1 Hd1 a2. destruct (put_app_spec i (noted ev d) a1 (si_cache _ _ Hi1) Hd1) as (Hc2 & Hcore & Hk & Hin).
  fold a2 in Hc2, Hcore, Hk, Hin.
  assert (level_selector (noted ev d) a1 = level_of i a1) as Hlev
    by (unfold level_selector, level_of; by rewrite (select_of_lookup _ _ _ Hd1)).
  split_and!; [split; [done|by eapply wired_core, Hi1| |]| |by rewrite (mask_of_core a1 a2 i)|].
  - intros k. rewrite (si_lsds _ _ Hi1). by rewrite (same_core_dom a1 a2).
  - intros p Hp Hp0. destruct Hcore as (_ & _ & ->). by apply (si_sets _ _ Hi1).
  - apply same_core_progress; [done|]. intros k Hck. destruct (decide (k = i)) as [->|Hki]; [|by apply Hk].
    destruct (level_selector (noted ev d) a1) eqn:Hl; [apply Hin; auto|].
    unfold a2, put_app. by rewrite Hl, andb_false_r.
  - rewrite <- Hlev. exact Hin.
Qed.

(** What is reported last: closing to [excp], or room to [writep]. *)
Lemma wp_report_last readp writep excp i ev (Q : unit → proc → Prop) pr :
  let ps := sel_ptrs readp writep excp in
  sel_inv ps (p_app pr) → in_range i →
  (∀ a', sel_inv ps a' → progress (p_app pr) a' → event_listed SOCKET_CLOSED_BIT ev i excp a' →
     (Z.land ev SOCKET_CLOSED_BIT = 0 ∨ excp = 0 → event_listed SOCKET_WRITABLE_BIT ev i writep a') →
     Q tt (pr <| p_app := a' |>)) →
  wp (if negb (Z.land ev SOCKET_CLOSED_BIT =? 0) && negb (excp =? 0) then report_if true i excp
      else report_if (negb (Z.land ev SOCKET_WRITABLE_BIT =? 0) && negb (writep =? 0)) i writep) Q pr.
Proof.
  intros ps Hinv Hir Hend. assert (writep ∈ ps ∧ excp ∈ ps) as (Hw & Hx) by (unfold ps, sel_ptrs; set_solver).
  assert ((Z.land ev SOCKET_CLOSED_BIT = 0 ∨ excp = 0) →
    wp (report_if (negb (Z.land ev SOCKET_WRITABLE_BIT =? 0) && negb (writep =? 0)) i writep) Q pr) as Hroom.
  { intros Hno. apply (wp_report_if ps); [done..| |].
    { intros [_ Hne]%andb_true_iff. by apply negb_true_iff, Z.eqb_neq in Hne. }
    intros a' Hi' Hp' Hl'. apply Hend; [done..| |].
    - intros Hc. destruct Hno as [?| ->]; [done|by left].
    - intros _ Hb. destruct (Z.eqb_spec writep 0) as [->|]; [by left|]. apply Hl'.
      by destruct (Z.eqb_spec (Z.land ev SOCKET_WRITABLE_BIT) 0). }
  destruct (Z.eqb_spec (Z.land ev SOCKET_CLOSED_BIT) 0) as [Hcl|Hcl]; cbn [negb andb]; [apply Hroom; by left|].
  destruct (Z.eqb_spec excp 0) as [He0|He0]; cbn [negb andb]; [apply Hroom; by right|].
  apply (wp_report_if ps); [done..|]. intros a' Hi' Hp' Hl'. apply Hend; [done..| |].
  - intros _. by apply Hl'.
  - intros [?|?]; done.
Qed.

Lemma wp_handle_ready readp writep excp e (Q : unit → proc → Prop) pr :
  let ps := sel_ptrs readp writep excp in
  sel_inv ps (p_app pr) → entry_ok e →
  (∀ a', sel_inv ps a' → progress (p_app pr) a' → handled readp writep excp e a' →
     Q tt (pr <| p_app := a' |>)) →
  wp (handle_ready readp writep excp e) Q pr.
Proof.
  intros ps Hinv He HQ. pose proof (entry_socket_range e He) as Hir.
  assert (readp ∈ ps ∧ writep ∈ ps ∧ excp ∈ ps) as (Hr & Hw & Hx) by (unfold ps, sel_ptrs; set_solver).
  unfold handle_ready. cbv zeta. fold (entry_socket e) (entry_events e).
  set (i := entry_socket e) in *. set (ev := entry_events e).
  destruct (Z.leb_spec IPAUGENBLICK_CONNECTION_POOL_SIZE i) as [Hbad|_];
    [unfold entry_ok in He; fold i in He; lia|].
  destruct (proj1 (si_lsds _ _ Hinv i) Hir) as [d Hd].
  rewrite wp_bind. apply (wp_lsd_read _ d); [done|].
  destruct (Z.eqb_spec (lsd_select d) (-1)) as [Hsel|Hsel].
  { rewrite wp_ret. apply proc_eta, HQ; [done..|]. left. fold i. by rewrite (select_of_lookup _ _ _ Hd). }
  rewrite wp_bind. apply (wp_lsd_write _ d); [done|].
  destruct (update_noted i ev d ps _ Hinv Hd) as (Hi1 & Hp1 & Hd1 & Hm1).
  change (λ d0, d0 <| lsd_any_event_received := 1 |> <| lsd_local_mask := Z.lor (lsd_local_mask d0) ev |>)
    with (noted ev).
  set (a1 := update_lsd i (noted ev) (p_app pr)) in *.
  destruct (put_noted i ev d ps a1 Hi1 Hd1) as (Hi2 & Hp2 & Hm2 & Hin). rewrite Hm1 in Hm2.
  rewrite wp_bind. apply (wp_put_to_local_cache i (noted ev d)); [apply Hi1|done| |].
  { intros _. destruct (si_wired _ _ Hi1 i _ Hd1) as [?|?]; done. }
  set (a2 := put_app i (noted ev d) a1) in *. change (put_app i _ (p_app _)) with a2.
  rewrite wp_bind. apply (wp_report_if ps); [done..| |].
  { intros [_ Hne]%andb_true_iff. by apply negb_true_iff, Z.eqb_neq in Hne. }
  cbn [p_app set_field]. intros a3 Hi3 Hp3 Hl3.
  assert (progress (p_app pr) a3) as Hp03 by (do 2 (etrans; [done|]); done).
  apply (wp_report_last readp); [done..|]. cbn [p_app set_field]. intros a' Hi' Hp' Hcl Hwr.
  apply HQ; [done|by etrans|]. right. fold i ev.
  assert (progress a2 a') as Hp2' by by etrans. split_and!; [| |done|done|].
  - destruct (pg_mask _ _ Hp2' i) as [x ->]. rewrite Hm2, <- !Z.lor_assoc, (Z.lor_comm x ev).
    by rewrite (Z.lor_assoc ev ev), Z.lor_diag.
  - intros Hb. eapply listed_progress; [exact Hp'|]. destruct (Z.eqb_spec readp 0) as [->|Hr0]; [by left|].
    apply Hl3. destruct (Z.eqb_spec (Z.land ev SOCKET_READABLE_BIT) 0); [done|].
    destruct (Z.eqb_spec readp 0); done.
  - rewrite (level_of_progress _ _ _ Hp2'), (level_of_progress _ _ _ Hp2).
    intros Hl Hev. apply (pg_cache _ _ Hp2'), Hin; [done|]. right. rewrite Z.lor_eq_0_iff. tauto.
Qed.

(** ** The call *)

Lemma wp_for_each_ready readp writep excp l : ∀ (Q : unit → proc → Prop) pr,
  let ps := sel_ptrs readp writep excp in
  sel_inv ps (p_app pr) → Forall entry_ok l →
  (∀ a', sel_inv ps a' → progress (p_app pr) a' →
     (∀ e, e ∈ l → handled readp writep excp e a') → Q tt (pr <| p_app := a' |>)) →
  wp (for_each l (handle_ready readp writep excp)) Q pr.
Proof.
  induction l as [|e l IH]; intros Q pr ps Hinv Hl HQ; cbn [for_each].
  - rewrite wp_ret. apply proc_eta, HQ; [done..|]. by intros e He%not_elem_of_nil.
  - apply Forall_cons in Hl as [He Hl]. rewrite wp_bind. apply wp_handle_ready; [done..|].
    intros a1 Hi1 Hp1 Hh1. apply IH; [done..|]. cbn [p_app set_field]. intros a2 Hi2 Hp2 Hh2.
    apply HQ; [done|by etrans|]. intros x [->|Hx]%elem_of_cons; [|auto].
    by eapply handled_progress.
Qed.

Definition cnt (p : Z) (a : app) : Z :=
  if p =? 0 then 0 else from_option returned_idx 0 (app_fdsets a !! p).
Definition cnt_all (readp writep excp : Z) (a : app) : Z := cnt readp a + cnt writep a + cnt excp a.

Lemma wp_returned_count ps p (Q : Z → proc → Prop) pr :
  sel_inv ps (p_app pr) → p ∈ ps → Q (cnt p (p_app pr)) pr → wp (returned_count p) Q pr.
Proof.
  intros Hinv Hp HQ. unfold returned_count, cnt in *. destruct (Z.eqb_spec p 0); [by rewrite wp_ret|].
  destruct (si_sets _ _ Hinv p Hp) as (s & Hs & _); [done|]. rewrite Hs in HQ.
  rewrite wp_bind. apply (wp_fdset_read _ s); [done|]. by rewrite wp_ret.
Qed.

Lemma cnt_nonneg ps p a : sel_inv ps a → p ∈ ps → 0 ≤ cnt p a.
Proof.
  intros Hinv Hp. unfold cnt. destruct (Z.eqb_spec p 0); [done|].
  destruct (si_sets _ _ Hinv p Hp) as (s & -> & Hok); [done|]. apply (fo_idx _ Hok).
Qed.

(** The ready ring holds connection indices in range. *)
Definition ready_mem (ring : ring_id) (m : shm) : Prop :=
  rings_ok (rings m) ∧ ∃ c, chans (rings m) !! ring = Some c ∧ Forall entry_ok (ch_q c).

Lemma count_stat_inv ps st n a : sel_inv ps a → sel_inv ps (count_stat st n a).
Proof. intros [[? ? ?] ? ? ?]. by split. Qed.
Lemma count_stat_progress st n a : progress a (count_stat st n a).
Proof.
  split; try done.
  - intros i. exists 0. by rewrite Z.lor_0_r.
  - intros p s Hs. by exists s.
Qed.

(** What a call that began with [a] and the entries [q] ends with. *)
Record select_post (readp writep excp : Z) (q : list Z) (a : app) (ret : Z) (a' : app) : Prop := {
  sp_inv : sel_inv (sel_ptrs readp writep excp) a';
  sp_progress : progress a a';
  sp_ret : ret = -1 ∧ cnt_all readp writep excp a' = 0 ∨
           0 < ret ∧ ret = cnt_all readp writep excp a';
  sp_handled : cnt_all readp writep excp a = 0 → ∀ e, e ∈ q → handled readp writep excp e a';
}.

(** The passes the loop still needs: one to return, one if there are entries to
    take, and two more if it may yet sleep. *)
Definition passes (exit_after_check : bool) (q : list Z) : nat :=
  ((if exit_after_check then 0 else 2) + match q with [] => 0 | _ => 1 end + 1)%nat.

Lemma wp_select_loop wait selector readp writep excp tmo ring : ∀ fuel ex s c (Q : Z → proc → Prop) pr,
  let ps := sel_ptrs readp writep excp in
  (passes ex (ch_q c) ≤ fuel)%nat → tmo ≠ None →
  (∀ n m, ready_mem ring m → ready_mem ring (wait n m)) →
  sel_inv ps (p_app pr) → selectors (p_app pr) !! selector = Some s →
  sel_ready_connections s = Some ring →
  rings_ok (rings (p_shm pr)) → chans (rings (p_shm pr)) !! ring = Some c → Forall entry_ok (ch_q c) →
  (∀ ret pr', select_post readp writep excp (ch_q c) (p_app pr) ret (p_app pr') →
     (cnt_all readp writep excp (p_app pr) ≠ 0 → pr' = pr) → Q ret pr') →
  wp (select_loop fuel wait selector readp writep excp tmo ex) Q pr.
Proof.
  induction fuel as [|fuel IH]; intros ex s c Q pr ps Hf Ht Hwait Hinv Hs Hring Hok Hc Hent HQ.
  { unfold passes in Hf. destruct ex, (ch_q c); lia. }
  assert (readp ∈ ps ∧ writep ∈ ps ∧ excp ∈ ps) as (Hr & Hw & Hx) by (unfold ps, sel_ptrs; set_solver).
  pose proof (cnt_nonneg _ _ _ Hinv Hr). pose proof (cnt_nonneg _ _ _ Hinv Hw).
  pose proof (cnt_nonneg _ _ _ Hinv Hx).
  cbn [select_loop]. rewrite wp_bind. apply (wp_returned_count ps); [done..|].
  rewrite wp_bind. apply (wp_returned_count ps); [done..|].
  rewrite wp_bind. apply (wp_returned_count ps); [done..|].
  fold (cnt_all readp writep excp (p_app pr)).
  destruct (Z.eqb_spec (cnt_all readp writep excp (p_app pr)) 0) as [Hz|Hnz]; cbn [negb].
  2: { rewrite wp_ret. apply HQ; [|done]. split; [done..| |done]. right. split; [|done].
       unfold cnt_all in *. lia. }
  rewrite wp_bind. apply (wp_sel_read _ s); [done|]. rewrite wp_bind, Hring. cbn [of_option].
  rewrite wp_ret, wp_bind. apply (wp_ring_count _ c); [done..|].
  destruct (ch_q c) as [|e0 q0] eqn:Hq.
  - change (zlen [] =? 0) with true. cbv zeta iota.
    destruct ex.
    { rewrite wp_ret. apply HQ; [|done]. split; [done..|by left|]. by intros _ e He%not_elem_of_nil. }
    match goal with |- wp (if ?b then _ else _) _ _ => destruct b end.
    { rewrite wp_ret. apply HQ; [|done]. split; [done..|by left|]. by intros _ e He%not_elem_of_nil. }
    rewrite wp_bind, wp_modify. rewrite bool_decide_true by done. cbn [orb].
    destruct (Hwait fuel (p_shm pr)) as (Hok' & c' & Hc' & Hent').
    { split; [done|]. exists c. by rewrite Hq. }
    apply (IH true s c'); try done.
    { unfold passes in *. destruct (ch_q c'); lia. }
    intros ret pr' [Hi' Hp' Hret Hh] _. apply HQ; [|done]. split; [done..|].
    by intros _ e He%not_elem_of_nil.
  - destruct (Z.eqb_spec (zlen (e0 :: q0)) 0) as [Hl|_]; [unfold zlen in Hl; cbn in Hl; lia|].
    rewrite wp_bind, <- Hq. apply (wp_dequeue_bulk_all ring c); [done..|].
    intros rs Hrs Hch. unfold stat_inc. rewrite wp_bind. apply wp_stat_add.
    rewrite wp_bind. rewrite <- Hq in Hent. apply wp_for_each_ready; [by apply count_stat_inv|done|].
    cbn [p_app set_field with_rings part_set part_shm_proc]. intros a1 Hi1 Hp1 Hh1.
    assert (progress (p_app pr) a1) as Hp01 by (etrans; [apply count_stat_progress|exact Hp1]).
    pose proof (pg_sels _ _ Hp01) as Hsels. apply (f_equal (lookup selector)) in Hsels.
    rewrite !lookup_fmap, Hs in Hsels.
    destruct (selectors a1 !! selector) as [s1|] eqn:Hs1; [|done].
    apply (inj Some) in Hsels.
    assert (sel_ready_connections s1 = Some ring) as Hring1 by (rewrite <- Hring; by injection Hsels).
    apply (IH ex s1 (mk_chan (ch_cap c) (ch_wm c) [])); try done.
    { unfold passes in *. cbn. lia. }
    { change (chans rs !! ring = Some (mk_chan (ch_cap c) (ch_wm c) [])). rewrite Hch.
      apply lookup_insert_eq. }
    cbn [p_app set_field with_rings part_set part_shm_proc ch_q].
    intros ret pr' [Hi' Hp' Hret Hh] _. apply HQ; [|done].
    split; [done|by etrans|done|]. intros _ e He. eapply handled_progress; [exact Hp'|].
    apply Hh1. by rewrite Hq.
Qed.

(** The state before a call: as during one, but for the sets. *)
Record select_pre (ps : list Z) (a : app) : Prop := {
  pre_cache : cache_ok a;
  pre_wired : wired a;
  pre_lsds : ∀ i, in_range i ↔ is_Some (lsds a !! i);
  pre_sets : ∀ p, p ∈ ps → p ≠ 0 → ∃ s, app_fdsets a !! p = Some s ∧ fdset_wf s;
}.

(** The caller's interest is not the call's to change. *)
Definition same_interest (a a' : app) : Prop :=
  ∀ p s, app_fdsets a !! p = Some s →
    ∃ s', app_fdsets a' !! p = Some s' ∧ interested_flags s' = interested_flags s.

Lemma same_interest_trans a b c : same_interest a b → same_interest b c → same_interest a c.
Proof.
  intros H1 H2 p s Hs. destruct (H1 p s Hs) as (s1 & Hs1 & E1).
  destruct (H2 p s1 Hs1) as (s2 & Hs2 & E2). exists s2. split; [done|congruence].
Qed.
Lemma progress_interest a a' : progress a a' → same_interest a a'.
Proof. intros Hp p s Hs. destruct (pg_sets _ _ Hp p s Hs) as (s' & ? & ? & _). by exists s'. Qed.

(** The sets in [dn] are cleared. *)
Definition cleared (dn : list Z) (a : app) : Prop :=
  ∀ p, p ∈ dn → p ≠ 0 → ∃ s, app_fdsets a !! p = Some s ∧ fdset_ok s ∧ returned s = [].

Lemma wp_reset_step ps dn p (Q : unit → proc → Prop) pr :
  select_pre ps (p_app pr) → cleared dn (p_app pr) → p ∈ ps →
  (∀ a', select_pre ps a' → cleared (p :: dn) a' → same_interest (p_app pr) a' →
     same_masks (p_app pr) a' → Q tt (pr <| p_app := a' |>)) →
  wp (reset_fdset p) Q pr.
Proof.
  intros Hpre Hcl Hp HQ. apply wp_reset_fdset; [by apply (pre_sets _ _ Hpre)| |].
  - intros ->. apply proc_eta, HQ; [done| |by intros q s ?; exists s|done].
    intros q [->|Hq]%elem_of_cons; [done|auto].
  - intros s s' Hs Hok Hret Hint. apply HQ; [| | |done].
    + destruct Hpre as [Hc Hw Hl Hsets]. split; [by apply cache_ok_fdsets|done|done|].
      intros q Hq Hq0. unfold set_fdset. cbn. destruct (decide (q = p)) as [->|?].
      * rewrite lookup_insert_eq. eexists. split; [done|]. by apply fdset_ok_wf.
      * rewrite lookup_insert_ne by done. auto.
    + intros q Hq Hq0. unfold set_fdset. cbn. destruct (decide (q = p)) as [->|?].
      * rewrite lookup_insert_eq. eauto.
      * rewrite lookup_insert_ne by done. apply elem_of_cons in Hq as [?|Hq]; [done|]. auto.
    + intros q sq Hsq. unfold set_fdset. cbn. destruct (decide (q = p)) as [->|?].
      * rewrite lookup_insert_eq. rewrite Hs in Hsq. apply (inj Some) in Hsq. subst sq. eauto.
      * rewrite lookup_insert_ne by done. eauto.
Qed.

Lemma cleared_inv ps a : select_pre ps a → cleared ps a → sel_inv ps a.
Proof.
  intros [Hc Hw Hl _] Hcl. split; try done. intros p Hp Hp0.
  destruct (Hcl p Hp Hp0) as (s & ? & ? & _). by exists s.
Qed.


(** *** Concrete instances *)

(** An array filled by a function of the index. *)
Lemma lookup_array {A} (f : Z → A) n i :
  (list_to_map ((λ j, (j, f j)) <$> seqZ 0 n) : gmap Z A) !! i =
    if bool_decide (0 ≤ i < n) then Some (f i) else None.
Proof.
  assert (((λ j, (j, f j)) <$> seqZ 0 n).*1 = seqZ 0 n) as Hfst
    by (rewrite <- list_fmap_compose; apply list_fmap_id).
  case_bool_decide as Hi.
  - apply elem_of_list_to_map; [rewrite Hfst; apply NoDup_seqZ|].
    apply list_elem_of_fmap. exists i. split; [done|]. apply elem_of_seqZ. lia.
  - apply not_elem_of_list_to_map. rewrite Hfst. intros Hin%elem_of_seqZ. lia.
Qed.

Lemma zero_array_total : arr_total zero_array.
Proof. intros i Hi. unfold zero_array. rewrite lookup_array, bool_decide_true by exact Hi. by eexists. Qed.

(** A zeroed set is in order, and stays so when sockets are added to it. *)
Lemma fdset_wf_interested F : arr_total F → fdset_wf (zero_fdset <| interested_flags := F |>).
Proof.
  intros HF. split; [exact HF|exact zero_array_total|exact zero_array_total| | |].
  - change (0 ≤ 0 ≤ 2048). lia.
  - intros i Hi. change (i ∈ []) in Hi. by apply not_elem_of_nil in Hi.
  - intros i v Hv. change (zero_array !! i = Some v) in Hv. unfold zero_array in Hv.
    rewrite lookup_array in Hv. case_bool_decide; [|done]. by apply (inj Some) in Hv as <-.
Qed.

Definition demo_set : ipaugenblick_fdset :=
  zero_fdset <| interested_flags := <[5 := 1]> (<[6 := 1]> zero_array) |>.
(** A process whose sockets all wait on selector 2, in level mode.  Its ready
    ring says that sockets 5 and 6 are readable and 7 writable. *)
Definition demo_array : gmap Z local_socket_descriptor :=
  list_to_map ((λ i, (i, demo_lsd i 2)) <$> seqZ 0 IPAUGENBLICK_MAX_SOCKETS).
Lemma lookup_demo_array i :
  demo_array !! i = if bool_decide (0 ≤ i < IPAUGENBLICK_MAX_SOCKETS) then Some (demo_lsd i 2) else None.
Proof. exact (lookup_array (λ i, demo_lsd i 2) _ i). Qed.
Definition demo_select_app : app :=
  mk_app demo_array
    {[ 2 := mk_selector (Some (READY_RING 2)) [] 0 1 ]}
    None 0 false (λ _, 0) 4242 "demo" {[ 900 := demo_set ]} [].
Definition demo_select : proc :=
  mk_proc (mk_shm (list_to_map [(READY_RING 2, demo_ring 3 8 [0x10005; 0x10006; 0x20007])]) ∅ ∅ ∅)
    demo_select_app.
Definition demo_ready : chan := mk_chan 7 8 [0x10005; 0x10006; 0x20007].

Lemma demo_select_pre : select_pre (sel_ptrs 900 0 0) demo_select_app.
Proof.
  split; cbn [demo_select_app lsds app_fdsets].
  - split; [| |done].
    + intros j s Hs. cbn in Hs. apply lookup_singleton_Some in Hs as [<- <-]. cbn.
      split_and!; [apply NoDup_nil_2|done|]. by intros i Hi%not_elem_of_nil.
    + intros i d Hd Hp. cbn [demo_select_app lsds] in Hd. rewrite lookup_demo_array in Hd. case_bool_decide; [|done]. by apply (inj Some) in Hd as <-.
  - intros i d Hd. cbn [demo_select_app lsds] in Hd. rewrite lookup_demo_array in Hd. case_bool_decide; [|done]. apply (inj Some) in Hd as <-.
    right. by eexists.
  - intros i. rewrite lookup_demo_array. unfold in_range.
    case_bool_decide; [split; [by eexists|done]|split; [done|by intros []]].
  - intros p Hp Hp0. assert (p = 900) as -> by (unfold sel_ptrs in Hp; rewrite !elem_of_cons in Hp;
      destruct Hp as [?|[?|[?|Hn]]]; [done..|by apply not_elem_of_nil in Hn]).
    exists demo_set. split; [done|]. apply fdset_wf_interested.
    by apply arr_total_insert, arr_total_insert, zero_array_total.
Qed.

Lemma demo_ready_mem : ready_mem (READY_RING 2) (p_shm demo_select).
Proof.
  split; [apply demo_rings_ok; repeat constructor; (do 3 eexists; split; [done|cbn; lia])|].
  exists demo_ready. split; [done|]. repeat constructor.
Qed.

