(* ===== verification/Service.v ===== *)
(** * The service: state and interface to the TCP/IP stack

    The service owns the shared memory, a record per connection
    ([socket_satelite_data]) and the ready queues of [porting/app_glue.c]; the
    stack below it is the ported Linux TCP/IP stack.

    The stack is an interface here ([Stack]): its entry points are computations
    on the service's state, because the stack calls back into the service
    (it pulls transmit buffers with [user_get_buffer], and reports events
    through the [sk_*] callbacks).  A [struct socket] and the [struct sock] it
    points to are one record, named by one address; [so_sk] says whether the
    pointer is non-null. *)

From S2P Require Import Prelude Ring Mem Mbuf.

(** ** Sockets *)

Definition SOCK_STREAM : Z := 1.
Definition SOCK_DGRAM : Z := 2.
Definition SOCK_RAW : Z := 3.
Definition TCP_ESTABLISHED : Z := 1.
Definition TCP_LISTEN : Z := 10.
(** Bits of [sock->flags] and of [sk->sk_flags]. *)
Definition SOCK_NOSPACE : Z := 2.

(** The functions a [sk_*] callback is set to. *)
Inductive callback :=
  | app_glue_sock_readable_cb | app_glue_sock_write_space_cb
  | app_glue_sock_error_report_cb | app_glue_sock_wakeup_cb
  | sock_def_readable_cb | sock_def_write_space_cb | sk_stream_write_space_cb
  | sock_def_error_report_cb | sock_def_wakeup_cb.

(** [sk_user_data] is the connection's index in [socket_satelite_data].
    [sk_refcnt] counts the references the ready queues take. *)
Record socket := mk_sock {
  so_type : Z;
  so_flags : Z;
  so_sk : bool;
  read_queue_present : bool;
  write_queue_present : bool;
  accept_queue_present : bool;
  closed_queue_present : bool;
  buffers_available_present : bool;
  sk_state : Z;
  sk_user_data : option Z;
  sk_use_write_queue : bool;
  sk_daddr : Z;
  sk_dport : Z;
  sk_refcnt : Z;
  sk_data_ready : callback;
  sk_write_space : callback;
  sk_error_report : callback;
  sk_state_change : callback;
}.
#[export] Instance eta_sock : Eta socket := λ s,
  mk_sock (so_type s) (so_flags s) (so_sk s) (read_queue_present s) (write_queue_present s)
    (accept_queue_present s) (closed_queue_present s) (buffers_available_present s)
    (sk_state s) (sk_user_data s) (sk_use_write_queue s) (sk_daddr s) (sk_dport s)
    (sk_refcnt s) (sk_data_ready s) (sk_write_space s) (sk_error_report s) (sk_state_change s).

(** ** Connections, clients *)

(** The rings of a connection are created with it and never change. *)
Record socket_satelite_data_t := mk_satelite {
  sat_socket : Z;
  sat_ringset_idx : Z;
  sat_parent_idx : Z;
  sat_tx_ring : option ring_id;
  sat_rx_ring : option ring_id;
  sat_apppid : Z;
}.
#[export] Instance eta_satelite : Eta socket_satelite_data_t := λ s,
  mk_satelite (sat_socket s) (sat_ringset_idx s) (sat_parent_idx s) (sat_tx_ring s)
    (sat_rx_ring s) (sat_apppid s).

Record ipaugenblick_client := mk_client {
  cl_client_ring : option ring_id;
  cl_is_busy : bool;
}.
#[export] Instance eta_client : Eta ipaugenblick_client := λ c,
  mk_client (cl_client_ring c) (cl_is_busy c).

(** ** Counters *)

Inductive user_stat :=
  | tx_opportunity_called | tx_getbuff_called | tx_nothing_to_tx | tx_api_failed
  | tx_mbufs_sent | tx_socket_full | tx_cannot_get_buff | rx_called | rx_exhausted
  | rx_mbufs | kick_tx | kick_rx | kick_select_rx | kick_select_tx | rx_ring_full
  | client_app_accepted | pending_accept | sockets_closed | sockets_shutdown
  | flush_tx_cnt | flush_rx_cnt | readable_called | writable_called | periodic_called
  | tx_queues_process | rx_queues_process.

#[export] Instance user_stat_eq_dec : EqDecision user_stat.
Proof. solve_decision. Defined.

(** ** The ready queues and the poll timers of app_glue.c *)

Record glue := mk_glue {
  read_ready : list Z;
  read_sockets_queue_len : Z;
  write_ready : list Z;
  write_sockets_queue_len : Z;
  accept_ready : list Z;
  closed_ready : list Z;
  drv_poll_interval : Z;
  timer_poll_interval : Z;
  tx_poll_interval : Z;
  rx_poll_interval : Z;
  drv_last_poll_ts : Z;
  timer_last_poll_ts : Z;
  tx_last_poll_ts : Z;
  rx_last_poll_ts : Z;
}.
#[export] Instance eta_glue : Eta glue := λ g,
  mk_glue (read_ready g) (read_sockets_queue_len g) (write_ready g)
    (write_sockets_queue_len g) (accept_ready g) (closed_ready g)
    (drv_poll_interval g) (timer_poll_interval g) (tx_poll_interval g) (rx_poll_interval g)
    (drv_last_poll_ts g) (timer_last_poll_ts g) (tx_last_poll_ts g) (rx_last_poll_ts g).

(** ** The service *)

(** [sv_signals] records the processes [kill]ed with SIGUSR1, [sv_stack] is the
    stack's private state. *)
Record svc (K : Type) := mk_svc {
  sv_shm : shm;
  socket_satelite_data : gmap Z socket_satelite_data_t;
  g_selectors : gmap Z (option ring_id);
  clients : gmap Z ipaugenblick_client;
  clients_list : list Z;
  buffers_available : list Z;
  sockets : gmap Z socket;
  sv_glue : glue;
  sv_stats : user_stat → Z;
  sv_signals : list Z;
  sv_stack : K;
}.
Arguments mk_svc {K} _ _ _ _ _ _ _ _ _ _ _.
Arguments sv_shm {K} _. Arguments socket_satelite_data {K} _. Arguments g_selectors {K} _.
Arguments clients {K} _. Arguments clients_list {K} _. Arguments buffers_available {K} _.
Arguments sockets {K} _. Arguments sv_glue {K} _. Arguments sv_stats {K} _.
Arguments sv_signals {K} _. Arguments sv_stack {K} _.

#[export] Instance eta_svc K : Eta (svc K) := λ s,
  mk_svc (sv_shm s) (socket_satelite_data s) (g_selectors s) (clients s) (clients_list s)
    (buffers_available s) (sockets s) (sv_glue s) (sv_stats s) (sv_signals s) (sv_stack s).
#[export] Instance part_shm_svc K : Part shm (svc K) :=
  {| part_get := sv_shm; part_set := λ m s, s <| sv_shm := m |> |}.
#[export] Instance part_laws_svc K : PartLaws shm (svc K).
Proof. split; by try intros ? ? []; try intros ? []; try intros []. Qed.

Section state.
Context {K : Type}.

Definition on_svc (f : svc K → svc K) : M (svc K) unit := modify f.
Definition on_glue (f : glue → glue) : M (svc K) unit :=
  modify (λ s, s <| sv_glue := f (sv_glue s) |>).
Definition glue_get {A} (f : glue → A) : M (svc K) A := gets (λ s, f (sv_glue s)).
Definition user_add (st : user_stat) (n : Z) : M (svc K) unit :=
  on_svc (λ s, s <| sv_stats := λ st',
    if decide (st' = st) then (sv_stats s st + n) mod 2 ^ 64 else sv_stats s st' |>).
Definition user_inc (st : user_stat) : M (svc K) unit := user_add st 1.

Definition sat_read (i : Z) : M (svc K) socket_satelite_data_t :=
  d ← gets (λ s, socket_satelite_data s !! i); of_option d.
Definition sat_write (i : Z) (f : socket_satelite_data_t → socket_satelite_data_t)
    : M (svc K) unit :=
  d ← sat_read i;
  on_svc (λ s, s <| socket_satelite_data := <[i := f d]> (socket_satelite_data s) |>).

(** The fields of a socket; a pointer to a closed socket dangles. *)
Definition so_read (p : Z) : M (svc K) socket :=
  d ← gets (λ s, sockets s !! p); of_option d.
Definition so_write (p : Z) (f : socket → socket) : M (svc K) unit :=
  d ← so_read p; on_svc (λ s, s <| sockets := <[p := f d]> (sockets s) |>).

(** [kill(pid, SIGUSR1)], when the process is known. *)
Definition signal_app (pid : Z) : M (svc K) unit :=
  when (negb (pid =? 0)) (on_svc (λ s, s <| sv_signals := sv_signals s ++ [pid] |>)).

Definition sock_hold (p : Z) : M (svc K) unit :=
  so_write p (λ s, s <| sk_refcnt := sk_refcnt s + 1 |>).
Definition sock_put (p : Z) : M (svc K) unit :=
  so_write p (λ s, s <| sk_refcnt := sk_refcnt s - 1 |>).
End state.

(** ** The stack's entry points *)

(** The message [kernel_recvmsg] delivers: the packet and, for a datagram, the
    sender. *)
Record rx_msg := mk_rx_msg { rx_head : Z; rx_name : sockaddr_in }.

(** The fields of [struct rtentry] the service fills. *)
Record rtentry := mk_rtentry {
  rt_dst : sockaddr_in;
  rt_gateway : sockaddr_in;
  rt_genmask : sockaddr_in;
  rt_flags : Z;
  rt_metric : Z;
}.

(** [sock_create_kern] and [kernel_accept] return a status and the new socket;
    [inet_lookup_listener] the listener of a connection, or 0. *)
Class Stack (K : Type) := {
  sock_create_kern : Z → Z → M (svc K) (Z * Z);
  sock_setsockopt : Z → Z → Z → list Z → Z → M (svc K) Z;
  kernel_bind : Z → sockaddr_in → M (svc K) Z;
  kernel_connect : Z → sockaddr_in → M (svc K) Z;
  kernel_listen : Z → Z → M (svc K) Z;
  kernel_accept : Z → M (svc K) (Z * Z);
  kernel_close : Z → M (svc K) unit;
  kernel_sendpage : Z → Z → M (svc K) Z;
  kernel_recvmsg : Z → M (svc K) (Z * rx_msg);
  udp_sendmsg : Z → Z → option sockaddr_in → Z → M (svc K) Z;
  inet_getname : Z → M (svc K) sockaddr_in;
  inet_shutdown : Z → Z → M (svc K) Z;
  ip_rt_ioctl : Z → rtentry → M (svc K) Z;
  sk_stream_wspace : Z → M (svc K) Z;
  sk_stream_is_writeable : Z → M (svc K) bool;
  inet_num : Z → M (svc K) Z;
  inet_lookup_listener : Z → M (svc K) Z;
  random : M (svc K) Z;
  get_dpdk_dev_by_port_num : Z → M (svc K) (option Z);
  ndo_poll_controller : Z → M (svc K) unit;
  fclone_free : M (svc K) Z;
  header_free : M (svc K) Z;
  rte_timer_manage : M (svc K) unit;
  rte_rdtsc : M (svc K) Z;
  get_all_devices : M (svc K) (list Z);
  get_all_addresses : M (svc K) (list Z);
}.
