(* ===== verification/Server.v ===== *)
(** * The service's side of the rings
    (ipaugenblick_service/ipaugenblick_server_side.h)

    Creation of everything that is shared, and the operations the service
    performs on a connection's rings and on the ready rings of the selectors.
    Notification is edge triggered: [read_ready_to_app] (and
    [write_ready_to_app]) is set when the application is told and cleared by
    the application before it looks, so the ready ring carries at most one
    readable entry per look. *)

From S2P Require Import Prelude Ring Mem Mbuf Service.

Section server.
Context {K : Type}.

(** ** Initialisation *)

(** [rte_align32pow2]. *)
Definition rte_align32pow2 (x : Z) : Z :=
  let x := wrap32 (x - 1) in
  let x := Z.lor x (Z.shiftr x 1) in
  let x := Z.lor x (Z.shiftr x 2) in
  let x := Z.lor x (Z.shiftr x 4) in
  let x := Z.lor x (Z.shiftr x 8) in
  let x := Z.lor x (Z.shiftr x 16) in
  wrap32 (x + 1).

(** [rte_mempool_create] with a pool of [n] objects at the addresses
    [objs]: a ring large enough for all of them, filled with them. *)
Definition rte_mempool_create (reserve : string → option (list Z)) (objs : ring_id → list Z)
    (id : ring_id) (n : Z) : M (svc K) bool :=
  created ← rte_ring_create reserve id (rte_align32pow2 (n + 1)) 0;
  if (created : bool) then
    _ ← for_each (objs id) (λ obj, _ ← mp_enqueue_bulk id [obj] 1; mret tt);
    mret true
  else mret false.

Definition create_or_exit (reserve : string → option (list Z)) (id : ring_id) (count flags : Z)
    : M (svc K) unit :=
  created ← rte_ring_create reserve id count flags;
  if (created : bool) then mret tt else exit_.
Definition pool_or_exit (reserve : string → option (list Z)) (objs : ring_id → list Z)
    (id : ring_id) (n : Z) : M (svc K) unit :=
  created ← rte_mempool_create reserve objs id n;
  if (created : bool) then mret tt else exit_.

Definition SP_SC : Z := Z.lor RING_F_SP_ENQ RING_F_SC_DEQ.

Definition set_water_mark (id : ring_id) (count : Z) : M (svc K) unit :=
  r ← ring_deref id;
  ring_store id (snd (rte_ring_set_water_mark r count)).

Definition init_client (i : Z) : (string → option (list Z)) → M (svc K) unit := λ reserve,
  _ ← enqueue FREE_CLIENTS_RING i;
  _ ← create_or_exit reserve (CLIENT_RING i) 64 SP_SC;
  on_svc (λ s, s <| clients := <[i := mk_client (Some (CLIENT_RING i)) false]> (clients s) |>).

Definition init_connection (reserve : string → option (list Z)) (rx_bufs_count tx_bufs_count i : Z)
    : M (svc K) unit :=
  _ ← set_shm (λ m, m <| g_sockets := <[i := mk_socket i 0 0 0 0 0 0]> (g_sockets m) |>);
  _ ← enqueue FREE_CONNECTIONS_RING i;
  _ ← create_or_exit reserve (TX_RING i) tx_bufs_count SP_SC;
  _ ← set_water_mark (TX_RING i) 1;
  _ ← create_or_exit reserve (RX_RING i) rx_bufs_count SP_SC;
  _ ← set_water_mark (RX_RING i) 1;
  on_svc (λ s, s <| socket_satelite_data :=
    <[i := mk_satelite 0 (-1) (-1) (Some (TX_RING i)) (Some (RX_RING i)) 0]>
      (socket_satelite_data s) |>).

Definition init_selector (reserve : string → option (list Z)) (tx_bufs_count i : Z)
    : M (svc K) unit :=
  _ ← create_or_exit reserve (READY_RING i) tx_bufs_count SP_SC;
  _ ← on_svc (λ s, s <| g_selectors := <[i := Some (READY_RING i)]> (g_selectors s) |>);
  _ ← enqueue SELECTOR_RING i;
  mret tt.

(** Every failure leaves the process ([exit(0)]). *)
Definition ipaugenblick_service_api_init (reserve : string → option (list Z))
    (objs : ring_id → list Z) (command_bufs_count rx_bufs_count tx_bufs_count : Z)
    : M (svc K) unit :=
  _ ← create_or_exit reserve FREE_CLIENTS_RING IPAUGENBLICK_CLIENTS_POOL_SIZE 0;
  _ ← for_each (seqZ 0 IPAUGENBLICK_CLIENTS_POOL_SIZE) (λ i, init_client i reserve);
  _ ← create_or_exit reserve COMMAND_RING command_bufs_count RING_F_SC_DEQ;
  _ ← create_or_exit reserve RX_MBUFS_RING
        (wrap32 (rx_bufs_count * IPAUGENBLICK_CONNECTION_POOL_SIZE)) 0;
  _ ← pool_or_exit reserve objs FREE_COMMAND_POOL command_bufs_count;
  _ ← pool_or_exit reserve objs FREE_CONNECTIONS_POOL 1;
  blocks ← rte_mempool_get FREE_CONNECTIONS_POOL;
  match blocks with
  | None => exit_
  | Some _ =>
      _ ← create_or_exit reserve FREE_CONNECTIONS_RING IPAUGENBLICK_CONNECTION_POOL_SIZE 0;
      _ ← for_each (seqZ 0 IPAUGENBLICK_CONNECTION_POOL_SIZE)
            (init_connection reserve rx_bufs_count tx_bufs_count);
      _ ← pool_or_exit reserve objs SELECTOR_POOL 1;
      blocks ← rte_mempool_get SELECTOR_POOL;
      match blocks with
      | None => exit_
      | Some _ =>
          _ ← create_or_exit reserve SELECTOR_RING IPAUGENBLICK_SELECTOR_POOL_SIZE 0;
          for_each (seqZ 0 IPAUGENBLICK_SELECTOR_POOL_SIZE) (init_selector reserve tx_bufs_count)
      end
  end.

(** ** Commands *)

Definition ipaugenblick_dequeue_command_buf : M (svc K) (option Z) :=
  count ← ring_count COMMAND_RING;
  if count =? 0 then mret None else sc_dequeue COMMAND_RING.

(** ** Notification *)

(** The entry a ready ring gets for a connection and an event. *)
Definition ready_entry (ringset_idx bit : Z) : Z :=
  wrap32 (Z.lor ringset_idx (Z.shiftl bit SOCKET_READY_SHIFT)).

Definition selector_ring (parent_idx : Z) : M (svc K) ring_id :=
  r ← gets (λ s : svc K, g_selectors s !! parent_idx); of_option (r ≫= id).

Definition ipaugenblick_mark_readable (i : Z) : M (svc K) unit :=
  d ← sat_read i;
  if sat_parent_idx d =? -1 then mret tt
  else
    first ← test_and_set (sat_ringset_idx d) read_ready_to_app
              (λ v s, s <| read_ready_to_app := v |>);
    if negb first then signal_app (sat_apppid d)
    else
      ring ← selector_ring (sat_parent_idx d);
      _ ← enqueue ring (ready_entry (sat_ringset_idx d) SOCKET_READABLE_BIT);
      _ ← signal_app (sat_apppid d);
      user_inc kick_select_rx.

(** Where the socket was marked already the function returns no value. *)
Definition ipaugenblick_mark_writable (i : Z) : M (svc K) (option Z) :=
  d ← sat_read i;
  if sat_parent_idx d =? -1 then mret (Some 1)
  else
    first ← test_and_set (sat_ringset_idx d) write_ready_to_app
              (λ v s, s <| write_ready_to_app := v |>);
    if negb first then _ ← signal_app (sat_apppid d); mret None
    else
      ring ← selector_ring (sat_parent_idx d);
      rc ← enqueue ring (ready_entry (sat_ringset_idx d) SOCKET_WRITABLE_BIT);
      _ ← user_inc kick_select_tx;
      _ ← signal_app (sat_apppid d);
      mret (Some (if rc =? - ENOBUFS then 1 else 0)).

Definition ipaugenblick_mark_closed (i : Z) : M (svc K) Z :=
  d ← sat_read i;
  if sat_parent_idx d =? -1 then mret 1
  else
    ring ← selector_ring (sat_parent_idx d);
    rc ← enqueue ring (ready_entry (sat_ringset_idx d) SOCKET_CLOSED_BIT);
    _ ← signal_app (sat_apppid d);
    mret (if rc =? - ENOBUFS then 1 else 0).

(** ** The connection's rings *)

Definition sat_ring (f : socket_satelite_data_t → option ring_id) (i : Z) : M (svc K) ring_id :=
  d ← sat_read i; of_option (f d).

Definition ipaugenblick_post_accepted (cmd i : Z) : M (svc K) unit :=
  ring ← sat_ring sat_rx_ring i;
  rc ← enqueue ring cmd;
  _ ← (if rc =? - ENOBUFS then ipaugenblick_free_command_buf cmd
       else ipaugenblick_mark_readable i);
  user_inc pending_accept.

Definition ipaugenblick_dequeue_tx_buf (i : Z) : M (svc K) (option Z) :=
  ring ← sat_ring sat_tx_ring i; sc_dequeue ring.

Definition ipaugenblick_dequeue_tx_buf_burst (i max_count : Z) : M (svc K) (list Z) :=
  ring ← sat_ring sat_tx_ring i; sc_dequeue_burst ring max_count.

Definition ipaugenblick_tx_buf_count (i : Z) : M (svc K) Z :=
  d ← sat_read i;
  _ ← sock_write (sat_ringset_idx d) (λ s, s <| write_done_from_app := 0 |>);
  ring ← of_option (sat_tx_ring d);
  ring_count ring.

Definition ipaugenblick_rx_buf_free_count (i : Z) : M (svc K) Z :=
  ring ← sat_ring sat_rx_ring i; ring_free_count ring.

(** Every enqueue but a plain success notifies: with the ring's water mark at 1
    a plain success does not happen. *)
Definition ipaugenblick_submit_rx_buf (mbuf i : Z) : M (svc K) bool :=
  ring ← sat_ring sat_rx_ring i;
  rc ← sp_enqueue_bulk ring [mbuf] 1;
  _ ← when (negb (rc =? 0)) (ipaugenblick_mark_readable i);
  mret (rc =? - ENOBUFS).

Definition ipaugenblick_free_socket (connidx : Z) : M (svc K) unit :=
  _ ← sock_read connidx;
  _ ← enqueue FREE_CONNECTIONS_RING connidx;
  mret tt.
End server.

(** ** The service's state, stepwise *)

Section rules.
Context {K : Type}.
Implicit Types (s : svc K) (Q : unit → svc K → Prop).

Lemma wp_sat_read i d (Q : socket_satelite_data_t → svc K → Prop) s :
  socket_satelite_data s !! i = Some d → Q d s → wp (sat_read i) Q s.
Proof. intros Hd HQ. unfold sat_read. wp_run. by rewrite Hd. Qed.

Lemma wp_so_read p d (Q : socket → svc K → Prop) s :
  sockets s !! p = Some d → Q d s → wp (so_read p) Q s.
Proof. intros Hd HQ. unfold so_read. wp_run. by rewrite Hd. Qed.

Lemma wp_so_write p d f Q s :
  sockets s !! p = Some d → Q tt (s <| sockets := <[p := f d]> (sockets s) |>) →
  wp (so_write p f) Q s.
Proof. intros Hd HQ. unfold so_write, on_svc. rewrite wp_bind. by apply (wp_so_read p d). Qed.

Lemma wp_sat_write i d f Q s :
  socket_satelite_data s !! i = Some d →
  Q tt (s <| socket_satelite_data := <[i := f d]> (socket_satelite_data s) |>) →
  wp (sat_write i f) Q s.
Proof. intros Hd HQ. unfold sat_write, on_svc. rewrite wp_bind. by apply (wp_sat_read i d). Qed.

(** The state after [kill(pid, SIGUSR1)], and after counting. *)
Definition signalled (pid : Z) (s : svc K) : svc K :=
  if pid =? 0 then s else s <| sv_signals := sv_signals s ++ [pid] |>.
Definition counted (st : user_stat) (s : svc K) : svc K :=
  s <| sv_stats := λ st', if decide (st' = st) then (sv_stats s st + 1) mod 2 ^ 64
                          else sv_stats s st' |>.

Lemma wp_signal_app pid Q s : Q tt (signalled pid s) → wp (signal_app pid) Q s.
Proof. unfold signal_app, signalled, on_svc. wp_run. by destruct (pid =? 0). Qed.

Lemma wp_user_inc st Q s : Q tt (counted st s) → wp (user_inc st) Q s.
Proof. done. Qed.

Definition with_shm (f : shm → shm) (s : svc K) : svc K := s <| sv_shm := f (sv_shm s) |>.

(** [rte_atomic16_test_and_set] on one of a connection's flags. *)
Lemma wp_test_and_set i blk (get : ipaugenblick_socket → Z) set (Q : bool → svc K → Prop) s :
  g_sockets (sv_shm s) !! i = Some blk →
  Q (get blk =? 0)
    (if get blk =? 0
     then with_shm (λ m, m <| g_sockets := alter (set 1) i (g_sockets m) |>) s
     else s) →
  wp (test_and_set i get set) Q s.
Proof.
  intros Hb HQ. unfold test_and_set. rewrite wp_bind. apply (wp_sock_read _ blk); [done|].
  destruct (get blk =? 0); [|by rewrite wp_ret]. rewrite wp_bind.
  apply (wp_sock_write _ blk); [done|]. by rewrite wp_ret.
Qed.

(** *** Marking *)

(** The three ways a connection's event reaches its selector.  [d] is the
    connection's record, [c] its selector's ready ring. *)
Definition marked_no_selector (d : socket_satelite_data_t) : Prop := sat_parent_idx d = -1.

Record has_selector (s : svc K) (d : socket_satelite_data_t) (ring : ring_id) (c : chan) : Prop := {
  hs_parent : sat_parent_idx d ≠ -1;
  hs_ring : g_selectors s !! sat_parent_idx d = Some (Some ring);
  hs_chan : chans (rings (sv_shm s)) !! ring = Some c;
}.

Lemma wp_selector_ring sel ring (Q : ring_id → svc K → Prop) s :
  g_selectors s !! sel = Some (Some ring) → Q ring s → wp (selector_ring sel) Q s.
Proof. intros Hr HQ. unfold selector_ring. wp_run. by rewrite Hr. Qed.

(** The ready ring after one more entry: at its end, or not at all when the
    ring is full. *)
Definition posted (c : chan) (entry : Z) : chan :=
  if zlen (ch_q c) <? ch_cap c then mk_chan (ch_cap c) (ch_wm c) (ch_q c ++ [entry]) else c.

Definition post_rings (ring : ring_id) (c : chan) (entry : Z) (m m' : shm) : Prop :=
  ∃ rs, m' = m <| rings := rs |> ∧ rings_ok rs ∧
    chans rs = <[ring := posted c entry]> (chans (rings m)).

Lemma wp_post ring c entry (Q : Z → svc K → Prop) s :
  rings_ok (rings (sv_shm s)) → chans (rings (sv_shm s)) !! ring = Some c →
  (∀ m' ret, post_rings ring c entry (sv_shm s) m' →
     (ret = - ENOBUFS ↔ ch_cap c ≤ zlen (ch_q c)) → Q ret (s <| sv_shm := m' |>)) →
  wp (enqueue ring entry) Q s.
Proof.
  intros Hok Hc HQ. apply (wp_enqueue _ _ c); [done..| |].
  - intros Hroom rs Hrs Hch. apply HQ.
    + exists rs. split_and!; [done..|]. rewrite Hch. unfold posted.
      by rewrite (proj2 (Z.ltb_lt _ _) Hroom).
    + unfold EDQUOT, ENOBUFS. destruct (_ <? _); lia.
  - intros Hfull rs Hrs Hch. apply HQ; [|lia].
    exists rs. split_and!; [done..|]. rewrite Hch. unfold posted.
    by rewrite (proj2 (Z.ltb_ge _ _) Hfull), insert_id.
Qed.

(** *** Marking, in full *)

(** What one marking does to a connection whose flag [get] says whether its
    application has been told of the event [bit] already: the flag and one entry
    on the ready ring the first time, a signal every time. *)
Definition edge_marked (get : ipaugenblick_socket → Z)
    (set : Z → ipaugenblick_socket → ipaugenblick_socket) (bit : Z) (st : user_stat)
    (d : socket_satelite_data_t) (blk : ipaugenblick_socket) (ring : ring_id) (c : chan)
    (s s' : svc K) : Prop :=
  if get blk =? 0 then
    ∃ m', post_rings ring c (ready_entry (sat_ringset_idx d) bit)
            ((sv_shm s) <| g_sockets := alter (set 1) (sat_ringset_idx d) (g_sockets (sv_shm s)) |>) m' ∧
          s' = counted st (signalled (sat_apppid d) (s <| sv_shm := m' |>))
  else s' = signalled (sat_apppid d) s.

Definition readable_marked :=
  edge_marked read_ready_to_app (λ v b, b <| read_ready_to_app := v |>) SOCKET_READABLE_BIT
    kick_select_rx.
Definition writable_marked :=
  edge_marked write_ready_to_app (λ v b, b <| write_ready_to_app := v |>) SOCKET_WRITABLE_BIT
    kick_select_tx.

Lemma counted_signalled st pid s : counted st (signalled pid s) = signalled pid (counted st s).
Proof. unfold counted, signalled. by destruct (pid =? 0). Qed.

Section marking.
Context (i : Z) (d : socket_satelite_data_t) (s : svc K).
Hypothesis Hd : socket_satelite_data s !! i = Some d.

Lemma wp_mark_no_selector (Q : unit → svc K → Prop) :
  sat_parent_idx d = -1 → Q tt s → wp (ipaugenblick_mark_readable i) Q s.
Proof.
  intros Hp HQ. unfold ipaugenblick_mark_readable. rewrite wp_bind.
  apply (wp_sat_read i d); [done|]. by rewrite Hp.
Qed.

Context (blk : ipaugenblick_socket) (ring : ring_id) (c : chan).
Hypothesis Hblk : g_sockets (sv_shm s) !! sat_ringset_idx d = Some blk.
Hypothesis Hok : rings_ok (rings (sv_shm s)).
Hypothesis Hsel : has_selector s d ring c.

Lemma wp_mark_readable (Q : unit → svc K → Prop) :
  (∀ s', readable_marked d blk ring c s s' → Q tt s') →
  wp (ipaugenblick_mark_readable i) Q s.
Proof.
  intros HQ. destruct Hsel as [Hp Hr Hc]. unfold readable_marked, edge_marked in HQ.
  unfold ipaugenblick_mark_readable. rewrite wp_bind. apply (wp_sat_read i d); [done|].
  rewrite (proj2 (Z.eqb_neq _ _) Hp), wp_bind. apply (wp_test_and_set _ blk); [done|].
  destruct (read_ready_to_app blk =? 0); cbn [negb]; [|by apply wp_signal_app, HQ].
  rewrite wp_bind. apply (wp_selector_ring _ ring); [done|].
  rewrite wp_bind. apply (wp_post ring c); [done..|]. intros m' ret Hm' _.
  rewrite wp_bind. apply wp_signal_app, wp_user_inc, HQ. by exists m'.
Qed.

Lemma wp_mark_writable (Q : option Z → svc K → Prop) :
  (∀ s', writable_marked d blk ring c s s' →
     Q (if write_ready_to_app blk =? 0 then Some (if zlen (ch_q c) <? ch_cap c then 0 else 1)
        else None) s') →
  wp (ipaugenblick_mark_writable i) Q s.
Proof.
  intros HQ. destruct Hsel as [Hp Hr Hc]. unfold writable_marked, edge_marked in HQ.
  unfold ipaugenblick_mark_writable. rewrite wp_bind. apply (wp_sat_read i d); [done|].
  rewrite (proj2 (Z.eqb_neq _ _) Hp), wp_bind. apply (wp_test_and_set _ blk); [done|].
  destruct (write_ready_to_app blk =? 0); cbn [negb].
  - rewrite wp_bind. apply (wp_selector_ring _ ring); [done|].
    rewrite wp_bind. apply (wp_post ring c); [done..|]. intros m' ret Hm' Hret.
    rewrite wp_bind. apply wp_user_inc. rewrite wp_bind. apply wp_signal_app. rewrite wp_ret.
    replace (if ret =? - ENOBUFS then 1 else 0) with (if zlen (ch_q c) <? ch_cap c then 0 else 1).
    + apply HQ. exists m'. by rewrite counted_signalled.
    + destruct (Z.eqb_spec ret (- ENOBUFS)) as [?|Hne], (Z.ltb_spec (zlen (ch_q c)) (ch_cap c));
        [lia|done|done|]. by destruct Hne; apply Hret.
  - rewrite wp_bind. apply wp_signal_app. rewrite wp_ret. by apply HQ.
Qed.

Lemma wp_mark_closed (Q : Z → svc K → Prop) :
  (∀ m', post_rings ring c (ready_entry (sat_ringset_idx d) SOCKET_CLOSED_BIT) (sv_shm s) m' →
     Q (if zlen (ch_q c) <? ch_cap c then 0 else 1) (signalled (sat_apppid d) (s <| sv_shm := m' |>))) →
  wp (ipaugenblick_mark_closed i) Q s.
Proof.
  intros HQ. destruct Hsel as [Hp Hr Hc]. unfold ipaugenblick_mark_closed. rewrite wp_bind.
  apply (wp_sat_read i d); [done|]. rewrite (proj2 (Z.eqb_neq _ _) Hp), wp_bind.
  apply (wp_selector_ring _ ring); [done|].
  rewrite wp_bind. apply (wp_post ring c); [done..|]. intros m' ret Hm' Hret.
  rewrite wp_bind. apply wp_signal_app. rewrite wp_ret.
  replace (if ret =? - ENOBUFS then 1 else 0) with (if zlen (ch_q c) <? ch_cap c then 0 else 1);
    [by apply HQ|].
  destruct (Z.eqb_spec ret (- ENOBUFS)) as [?|Hne], (Z.ltb_spec (zlen (ch_q c)) (ch_cap c));
    [lia|done|done|]. by destruct Hne; apply Hret.
Qed.
End marking.
End rules.


(** ** Theorems *)

Section theorems.
Context {K : Type}.
Implicit Types s : svc K.

(** *** Receiving *)

Lemma wp_sat_ring f i d id (Q : ring_id → svc K → Prop) s :
  socket_satelite_data s !! i = Some d → f d = Some id → Q id s → wp (sat_ring f i) Q s.
Proof.
  intros Hd Hf HQ. unfold sat_ring. rewrite wp_bind. apply (wp_sat_read i d); [done|]. by rewrite Hf.
Qed.

(** A connection with everything it needs to receive and to notify: its receive
    ring with water mark 1, and a selector with a ready ring of its own. *)
Record receiving (s : svc K) (i : Z) (d : socket_satelite_data_t) (blk : ipaugenblick_socket)
    (rx : ring_id) (crx : chan) (ring : ring_id) (c : chan) : Prop := {
  rv_sat : socket_satelite_data s !! i = Some d;
  rv_blk : g_sockets (sv_shm s) !! sat_ringset_idx d = Some blk;
  rv_rings : rings_ok (rings (sv_shm s));
  rv_rx : sat_rx_ring d = Some rx;
  rv_chan : chans (rings (sv_shm s)) !! rx = Some crx;
  rv_mark : ch_wm crx = 1;
  rv_sel : has_selector s d ring c;
  rv_ne : ring ≠ rx;
}.

(** After the packet: the receive ring, then the notification. *)
Definition submitted d blk rx crx ring c (mbuf : Z) (s s' : svc K) : Prop :=
  ∃ m, post_rings rx crx mbuf (sv_shm s) m ∧ readable_marked d blk ring c (s <| sv_shm := m |>) s'.

Lemma receiving_posted s i d blk rx crx ring c mbuf m :
  receiving s i d blk rx crx ring c → post_rings rx crx mbuf (sv_shm s) m →
  ∀ s1, s1 = s <| sv_shm := m |> →
  socket_satelite_data s1 !! i = Some d ∧ g_sockets (sv_shm s1) !! sat_ringset_idx d = Some blk ∧ rings_ok (rings (sv_shm s1)) ∧
  has_selector s1 d ring c.
Proof.
  intros [Hd Hb Hok Hrx Hc Hwm [Hp Hr Hcs] Hne] (rs & -> & Hrs & Hch) s1 ->.
  split_and!; [done..|]. split; [done..|]. change (chans rs !! ring = Some c).
  by rewrite Hch, lookup_insert_ne.
Qed.

Lemma wp_submit_rx_buf s i d blk rx crx ring c mbuf (Q : bool → svc K → Prop) :
  receiving s i d blk rx crx ring c →
  (∀ s', submitted d blk rx crx ring c mbuf s s' →
     Q (negb (zlen (ch_q crx) <? ch_cap crx)) s') →
  wp (ipaugenblick_submit_rx_buf mbuf i) Q s.
Proof.
  intros Hrv HQ. pose proof Hrv as [Hd Hb Hok Hrx Hc Hwm Hsel Hne].
  assert (∀ m ret, post_rings rx crx mbuf (sv_shm s) m → ret ≠ 0 →
    (ret = - ENOBUFS ↔ ch_cap crx ≤ zlen (ch_q crx)) →
    wp (_ ← when (negb (ret =? 0)) (ipaugenblick_mark_readable i); mret (ret =? - ENOBUFS)) Q
      (s <| sv_shm := m |>)) as Hrest.
  { intros m ret Hm Hr0 Hret. destruct (receiving_posted _ _ _ _ _ _ _ _ _ _ Hrv Hm _ eq_refl) as (Hd' & Hb' & Hok' & Hsel').
    rewrite (proj2 (Z.eqb_neq _ _) Hr0), wp_bind. cbn [negb when].
    apply (wp_mark_readable i d _ Hd' blk ring c Hb' Hok' Hsel'). intros s' Hs'. rewrite wp_ret.
    replace (ret =? - ENOBUFS) with (negb (zlen (ch_q crx) <? ch_cap crx)).
    - apply HQ. by exists m.
    - destruct (Z.eqb_spec ret (- ENOBUFS)), (Z.ltb_spec (zlen (ch_q crx)) (ch_cap crx)); cbn; intuition lia. }
  unfold ipaugenblick_submit_rx_buf. rewrite wp_bind. apply (wp_sat_ring _ _ d rx); [done..|].
  unfold sp_enqueue_bulk. rewrite wp_bind.
  apply (wp_enqueue_with _ mbuf _ crx _ _ (implements_sp_enqueue [mbuf] 1 _ ltac:(unfold zlen; cbn; lia)));
    [done..| |].
  - intros Hroom rs Hrs Hch. pose proof (zlen_nonneg (ch_q crx)) as Hq. rewrite Hwm.
    replace (1 <? zlen (ch_q crx) + 2) with true by (symmetry; apply Z.ltb_lt; lia).
    apply Hrest; [|done|split; [done|lia]].
    exists rs. split_and!; [done..|]. rewrite Hch. unfold posted. by rewrite (proj2 (Z.ltb_lt _ _) Hroom).
  - intros Hfull rs Hrs Hch. apply Hrest; [|done|split; [done|done]].
    exists rs. split_and!; [done..|]. rewrite Hch. unfold posted.
    by rewrite (proj2 (Z.ltb_ge _ _) Hfull), insert_id.
Qed.

(** Marking is edge triggered.  The first marking of an event sets the
    connection's flag and appends exactly one entry, the connection's index and
    the event's bit, to its selector's ready ring - or nothing, when that ring is
    full, while the flag is set all the same; every later one only sends the
    signal.  A closure is entered every time.  A connection without a selector is
    left alone.  Nothing else changes, and no path is undefined. *)
Theorem mark_spec i d blk s :
  socket_satelite_data s !! i = Some d →
  g_sockets (sv_shm s) !! sat_ringset_idx d = Some blk →
  rings_ok (rings (sv_shm s)) →
  (sat_parent_idx d = -1 →
     wp (ipaugenblick_mark_readable i) (λ _ s', s' = s) s ∧
     wp (ipaugenblick_mark_writable i) (λ ret s', ret = Some 1 ∧ s' = s) s ∧
     wp (ipaugenblick_mark_closed i) (λ ret s', ret = 1 ∧ s' = s) s) ∧
  (∀ ring c, has_selector s d ring c →
     let full := if zlen (ch_q c) <? ch_cap c then 0 else 1 in
     wp (ipaugenblick_mark_readable i) (λ _ s', readable_marked d blk ring c s s') s ∧
     wp (ipaugenblick_mark_writable i) (λ ret s', writable_marked d blk ring c s s' ∧
       ret = if write_ready_to_app blk =? 0 then Some full else None) s ∧
     wp (ipaugenblick_mark_closed i) (λ ret s', ret = full ∧ ∃ m',
       post_rings ring c (ready_entry (sat_ringset_idx d) SOCKET_CLOSED_BIT) (sv_shm s) m' ∧
       s' = signalled (sat_apppid d) (s <| sv_shm := m' |>)) s).
Proof.
  intros Hd Hb Hok. split.
  - intros Hp. split_and!.
    + by apply (wp_mark_no_selector i d).
    + unfold ipaugenblick_mark_writable. rewrite wp_bind. apply (wp_sat_read i d); [done|]. by rewrite Hp.
    + unfold ipaugenblick_mark_closed. rewrite wp_bind. apply (wp_sat_read i d); [done|]. by rewrite Hp.
  - intros ring c Hsel full. split_and!.
    + by apply (wp_mark_readable i d s Hd blk ring c).
    + by apply (wp_mark_writable i d s Hd blk ring c).
    + apply (wp_mark_closed i d s Hd ring c); [done..|]. intros m' Hm'. split; [done|]. by exists m'.
Qed.

(** A received packet goes to the end of the connection's receive ring, and
    the return value says it did not (the caller frees it then) exactly when the
    ring was full; with the ring's water mark at 1 the application is notified in
    either case, for an empty ring as well as for a full one. *)
Theorem submit_rx_buf_spec s i d blk rx crx ring c mbuf :
  receiving s i d blk rx crx ring c →
  wp (ipaugenblick_submit_rx_buf mbuf i)
    (λ full s', full = negb (zlen (ch_q crx) <? ch_cap crx) ∧
       submitted d blk rx crx ring c mbuf s s' ∧
       (read_ready_to_app blk = 0 → contents (sv_shm s') rx =
          if (full : bool) then ch_q crx else ch_q crx ++ [mbuf])) s.
Proof.
  intros Hrv. apply (wp_submit_rx_buf s i d blk rx crx ring c mbuf); [done|].
  intros s' Hs'. split_and!; [done..|]. intros Hf0.
  destruct Hs' as (m & (rs & -> & Hrs & Hch) & Hmk). unfold readable_marked, edge_marked in Hmk.
  rewrite Hf0 in Hmk. cbn in Hmk. destruct Hmk as (m' & (rs' & -> & _ & Hch') & ->).
  assert (chans rs' !! rx = Some (posted crx mbuf)) as Hl.
  { rewrite Hch', lookup_insert_ne by apply Hrv. change (chans rs !! rx = Some (posted crx mbuf)).
    by rewrite Hch, lookup_insert_eq. }
  transitivity (from_option ch_q [] (chans rs' !! rx)).
  - unfold counted, signalled. by destruct (sat_apppid d =? 0).
  - rewrite Hl. cbn. unfold posted. by destruct (zlen (ch_q crx) <? ch_cap crx).
Qed.
End theorems.

(** *** Concrete instances *)

(** Connection 3 on selector 0, both rings empty, its application running as 77. *)
Definition serving_shm : shm :=
  mk_shm (list_to_map [(READY_RING 0, demo_ring 3 8 []); (RX_RING 3, demo_ring 3 1 [])]) ∅
    {[3 := mk_socket 3 0 0 0 0 0 0]} ∅.
Definition serving_sat : socket_satelite_data_t :=
  mk_satelite 64 3 0 (Some (TX_RING 3)) (Some (RX_RING 3)) 77.
Definition serving : svc unit :=
  mk_svc serving_shm {[3 := serving_sat]} {[0 := Some (READY_RING 0)]} ∅ [] [] ∅
    (mk_glue [] 0 [] 0 [] [] 0 0 0 0 0 0 0 0) (λ _, 0) [] tt.

Lemma serving_shm_ok : rings_ok (rings serving_shm).
Proof.
  apply demo_rings_ok. repeat constructor; [exists 3, 8, []|exists 3, 1, []]; split; done || (cbn; lia).
Qed.
Lemma serving_selector : has_selector serving serving_sat (READY_RING 0) (mk_chan 7 8 []).
Proof. by split. Qed.

Lemma mark_spec_witness :
  wp (ipaugenblick_mark_readable 3) (λ _ s',
    readable_marked serving_sat (mk_socket 3 0 0 0 0 0 0) (READY_RING 0) (mk_chan 7 8 []) serving s')
    serving.
Proof.
  apply (proj2 (mark_spec 3 serving_sat (mk_socket 3 0 0 0 0 0 0) serving eq_refl eq_refl serving_shm_ok)
           (READY_RING 0) (mk_chan 7 8 []) serving_selector).
Defined.

Lemma submit_rx_buf_spec_witness :
  wp (ipaugenblick_submit_rx_buf 9000 3) (λ full s', full = false ∧
    submitted serving_sat (mk_socket 3 0 0 0 0 0 0) (RX_RING 3) (mk_chan 7 1 []) (READY_RING 0)
      (mk_chan 7 8 []) 9000 serving s' ∧
    (0 = 0 → contents (sv_shm s') (RX_RING 3) = if full then [] else [] ++ [9000])) serving.
Proof.
  apply (submit_rx_buf_spec serving 3 serving_sat (mk_socket 3 0 0 0 0 0 0) (RX_RING 3) (mk_chan 7 1 [])
           (READY_RING 0) (mk_chan 7 8 []) 9000).
  split; try done; exact serving_shm_ok.
Defined.
