(* ===== verification/Init.v ===== *)
(** * What initialisation leaves behind
    (ipaugenblick_service_api_init, ipaugenblick_server_side.h)

    The service creates every ring and pool before it serves anybody.  This file
    states the state it starts from: [laid] describes the shared memory ring by
    ring, and the theorem follows the code from the empty memory to the full
    layout. *)

From S2P Require Import Prelude Ring Mem Mbuf Service Server.

(** ** Rounding up to a power of two *)

(** [a] has the bit [n] where [y] has one of the bits [n .. n + w - 1]. *)
Definition smeared (w y a : Z) : Prop :=
  0 ≤ a ∧ ∀ n, 0 ≤ n → Z.testbit a n = true ↔ ∃ j, 0 ≤ j < w ∧ Z.testbit y (n + j) = true.

Lemma smear_start y : 0 ≤ y → smeared 1 y y.
Proof.
  intros Hy. split; [done|]. intros n Hn. split.
  - intros Hb. exists 0. by rewrite Z.add_0_r.
  - intros (j & Hj & Hb). by replace (n + j) with n in Hb by lia.
Qed.

Lemma smear_step w y a : 0 < w → smeared w y a → smeared (2 * w) y (Z.lor a (Z.shiftr a w)).
Proof.
  intros Hw [Ha Hs]. split; [apply Z.lor_nonneg; split; [done|by apply Z.shiftr_nonneg]|].
  intros n Hn. rewrite Z.lor_spec, Z.shiftr_spec, orb_true_iff, !Hs by lia. split.
  - intros [(j & Hj & Hb)|(j & Hj & Hb)]; [exists j|exists (w + j)]; (split; [lia|]); [done|].
    by rewrite Z.add_assoc.
  - intros (j & Hj & Hb). destruct (Z.lt_ge_cases j w); [left; exists j; split; [lia|done]|right].
    exists (j - w). split; [lia|]. by replace (n + w + (j - w)) with (n + j) by lia.
Qed.

(** Smeared over 32 bits, a positive 32-bit number is all ones. *)
Lemma smear_ones y a : 0 < y < 2 ^ 32 → smeared 32 y a → a = Z.ones (Z.log2 y + 1).
Proof.
  intros Hy [Ha Hs]. pose proof (Z.log2_nonneg y).
  assert (Z.log2 y < 32) by (apply Z.log2_lt_pow2; lia).
  apply Z.bits_inj'. intros n Hn. apply eq_true_iff_eq. rewrite Hs by done. split.
  - intros (j & Hj & Hb). apply Z.ones_spec_low. split; [done|].
    destruct (Z.le_gt_cases n (Z.log2 y)); [lia|]. by rewrite Z.bits_above_log2 in Hb by lia.
  - intros Hb. destruct (Z.le_gt_cases n (Z.log2 y)) as [Hle|Hgt].
    + exists (Z.log2 y - n). split; [lia|]. replace (n + (Z.log2 y - n)) with (Z.log2 y) by lia.
      apply Z.bit_log2. lia.
    + by rewrite Z.ones_spec_high in Hb by lia.
Qed.

Lemma log2_pred_up x : 1 < x → Z.log2 (x - 1) + 1 = Z.log2_up x.
Proof. intros Hx. rewrite Z.log2_up_eqn by lia. unfold Z.succ, Z.pred. f_equal. Qed.

Lemma align_smear x : 1 < x ≤ 2 ^ 32 → rte_align32pow2 x = wrap32 (2 ^ Z.log2_up x).
Proof.
  intros Hx. unfold rte_align32pow2. rewrite (wrap32_small (x - 1)) by lia. cbv zeta.
  pose proof (smear_start (x - 1) ltac:(lia)) as H.
  apply (smear_step 1) in H; [|lia]. apply (smear_step 2) in H; [|lia].
  apply (smear_step 4) in H; [|lia]. apply (smear_step 8) in H; [|lia].
  apply (smear_step 16) in H; [|lia]. apply smear_ones in H; [|lia].
  rewrite log2_pred_up in H by lia.
  rewrite H, Z.ones_equiv. f_equal. lia.
Qed.

(** The bit trick computes the least power of two that is not less than its
    argument; beyond 2^31, and for 0, where there is none in 32 bits, it gives 0. *)
Theorem align32pow2_reference x :
  0 ≤ x < 2 ^ 32 →
  rte_align32pow2 x = (if (x =? 0) || (2 ^ 31 <? x) then 0 else 2 ^ Z.log2_up x) ∧
  (0 < x → x ≤ 2 ^ Z.log2_up x ∧ ∀ k, 0 ≤ k → x ≤ 2 ^ k → 2 ^ Z.log2_up x ≤ 2 ^ k).
Proof.
  intros Hx. split.
  - destruct (Z.eqb_spec x 0) as [->|H0]; [done|]. destruct (Z.eqb_spec x 1) as [->|H1]; [done|].
    rewrite align_smear by lia. cbn [orb]. destruct (Z.ltb_spec (2 ^ 31) x) as [Hbig|Hsmall].
    + assert (Z.log2_up x = 32) as ->; [|done]. apply Z.log2_up_unique; lia.
    + rewrite wrap32_small; [done|]. split; [by apply Z.pow_nonneg|].
      apply Z.le_lt_trans with (2 ^ 31); [|done]. apply Z.pow_le_mono_r; [done|].
      apply Z.log2_up_le_pow2; lia.
  - intros Hp. split; [by apply Z.log2_up_le_pow2|].
    intros k Hk Hxk. apply Z.pow_le_mono_r; [done|]. by apply Z.log2_up_le_pow2.
Qed.

Lemma align32pow2_reference_witness :
  0 ≤ 32769 < 2 ^ 32 ∧ rte_align32pow2 32769 = 65536 ∧
  ∀ k, 0 ≤ k → 32769 ≤ 2 ^ k → 2 ^ Z.log2_up 32769 ≤ 2 ^ k.
Proof.
  split; [lia|]. split; [vm_compute; reflexivity|].
  apply (proj2 (align32pow2_reference 32769 ltac:(lia))). lia.
Defined.


(** ** The layout of the shared memory *)

(** The rings that exist, each with its capacity, water mark and contents; a
    function, so that a description of 2048 connections is a case on the name. *)
Definition layout := ring_id → option chan.
Definition put (id : ring_id) (c : chan) (f : layout) : layout :=
  λ id', if decide (id' = id) then Some c else f id'.

Section laid.
Context {K : Type}.
Implicit Types s : svc K.

Record tables := mk_tables {
  t_socks : Z → option ipaugenblick_socket;
  t_sat : Z → option socket_satelite_data_t;
  t_sel : Z → option (option ring_id);
  t_cl : Z → option ipaugenblick_client;
}.

(** The rings are those of [f], the service's tables those of [t]. *)
Record laid (f : layout) (t : tables) (s : svc K) : Prop := {
  ld_ok : rings_ok (rings (sv_shm s));
  ld_rings : ∀ id, chans (rings (sv_shm s)) !! id = f id;
  ld_socks : ∀ i, g_sockets (sv_shm s) !! i = t_socks t i;
  ld_sat : ∀ i, socket_satelite_data s !! i = t_sat t i;
  ld_sel : ∀ i, g_selectors s !! i = t_sel t i;
  ld_cl : ∀ i, clients s !! i = t_cl t i;
}.

Lemma laid_ext f f' t t' s :
  laid f t s → (∀ id, f id = f' id) → (∀ i, t_socks t i = t_socks t' i) →
  (∀ i, t_sat t i = t_sat t' i) → (∀ i, t_sel t i = t_sel t' i) → (∀ i, t_cl t i = t_cl t' i) →
  laid f' t' s.
Proof. intros [Hok Hr H1 H2 H3 H4] Hf E1 E2 E3 E4. split; [done|..]; intros x; congruence. Qed.

Lemma laid_chans f t s rs c id :
  laid f t s → rings_ok rs → chans rs = <[id := c]> (chans (rings (sv_shm s))) →
  laid (put id c f) t (with_rings s rs).
Proof.
  intros [Hok Hr H1 H2 H3 H4] Hrs Hch. split; [exact Hrs| |exact H1|exact H2|exact H3|exact H4].
  intros id'. change (chans rs !! id' = put id c f id'). rewrite Hch. unfold put.
  case_decide as Hd; [subst; apply lookup_insert_eq|]. rewrite lookup_insert_ne by done. apply Hr.
Qed.

Lemma put_same id c f id' : f id = Some c → put id c f id' = f id'.
Proof. unfold put. by case_decide; subst. Qed.

(** *** Creating *)

Context (reserve : string → option (list Z)).

(** The allocator has memory of [n] cells under the name of [id], and the name
    fits. *)
Definition reserves (id : ring_id) (n : Z) : Prop :=
  (∃ cells, reserve (ring_id_name id) = Some cells ∧ zlen cells = n) ∧
  3 + Z.of_nat (String.length (ring_id_name id)) < RTE_MEMZONE_NAMESIZE.

Lemma ring_init_chan cells name k flags :
  0 ≤ k ≤ 27 → zlen cells = 2 ^ k → Z.of_nat (String.length name) < RTE_MEMZONE_NAMESIZE →
  ∃ r, rte_ring_init cells name (2 ^ k) flags = (0, Some r) ∧ ring_wf r ∧
    ring_chan r = mk_chan (2 ^ k - 1) (2 ^ k) [].
Proof.
  intros Hk Hl Hn. unfold rte_ring_init. rewrite (proj2 (Z.leb_gt _ _) Hn).
  eexists. split; [done|]. pose proof (pow2_bound k Hk).
  unfold ring_chan, queue, capacity, ring_wf, ring_shape, ring_used. cbn.
  rewrite wrap32_small by lia. split_and!; try done; [by exists k|change (0 ≤ 2 ^ k - 1); lia].
Qed.

Lemma memsize_pow2 k : 0 ≤ k ≤ 27 → (rte_ring_get_memsize 384 64 (2 ^ k) <? 0) = false.
Proof.
  intros Hk. apply Z.ltb_ge. pose proof (pow2_bound k Hk). unfold rte_ring_get_memsize.
  assert (POWEROF2 (2 ^ k) = true) as ->.
  { apply POWEROF2_spec; [lia|]. right. exists k. split; [lia|done]. }
  rewrite (proj2 (Z.ltb_ge RTE_RING_SZ_MASK (2 ^ k))).
  - cbn [negb orb]. apply Z.mul_nonneg_nonneg; [apply Z.div_pos|]; lia.
  - unfold RTE_RING_SZ_MASK. lia.
Qed.

Lemma wp_ring_create f t id k flags (Q : unit → svc K → Prop) s :
  laid f t s → f id = None → 0 ≤ k ≤ 27 → reserves id (2 ^ k) →
  (∀ s', laid (put id (mk_chan (2 ^ k - 1) (2 ^ k) []) f) t s' → Q tt s') →
  wp (rte_ring_create reserve id (2 ^ k) flags) (λ b s', b = true ∧ Q tt s') s.
Proof.
  intros Hl Hf Hk [(cells & Hres & Hcells) Hname] HQ.
  unfold rte_ring_create. rewrite memsize_pow2 by done.
  rewrite (proj2 (Z.leb_gt _ _) Hname). unfold rte_ring_lookup. rewrite wp_bind, wp_gets.
  assert (rings (sv_shm s) !! id = None) as Hnone.
  { pose proof (ld_rings _ _ _ Hl id) as Hr. rewrite Hf in Hr. unfold chans in Hr.
    rewrite lookup_fmap in Hr. by destruct (rings (sv_shm s) !! id). }
  change (rings (part_get s)) with (rings (sv_shm s)). rewrite Hnone, Hres.
  destruct (ring_init_chan cells (ring_id_name id) k flags) as (r & -> & Hrw & Hch);
    [done|done|lia|]. cbn [snd].
  unfold ring_store, set_shm. wp_run. split; [done|]. apply HQ.
  apply (laid_chans f t s (<[id := r]> (rings (sv_shm s)))); [done| |].
  - apply map_Forall_insert_2; [done|apply Hl].
  - by rewrite chans_insert, Hch.
Qed.

Lemma wp_create f t id n k flags (Q : unit → svc K → Prop) s :
  laid f t s → f id = None → 0 ≤ k ≤ 27 → n = 2 ^ k → reserves id n →
  (∀ s', laid (put id (mk_chan (n - 1) n []) f) t s' → Q tt s') →
  wp (create_or_exit reserve id n flags) Q s.
Proof.
  intros Hl Hf Hk -> Hres HQ. unfold create_or_exit. rewrite wp_bind.
  eapply wp_mono; [by apply (wp_ring_create f t id k flags Q)|]. by intros b s' [-> HQ'].
Qed.

(** One object put on a ring: at the end, or nowhere when the ring is full. *)
Lemma wp_put f t id c obj (Q : Z → svc K → Prop) s :
  laid f t s → f id = Some c →
  (∀ ret s', laid (put id (posted c obj) f) t s' → Q ret s') →
  wp (enqueue id obj) Q s.
Proof.
  intros Hl Hc HQ. apply (wp_post id c); [apply Hl|by rewrite (ld_rings _ _ _ Hl)|].
  intros m' ret (rs & -> & Hrs & Hch) _. apply HQ. by apply laid_chans.
Qed.

Lemma wp_set_mark f t id c n (Q : unit → svc K → Prop) s :
  laid f t s → f id = Some c → 0 < n ≤ ch_cap c →
  (∀ s', laid (put id (mk_chan (ch_cap c) n (ch_q c)) f) t s' → Q tt s') →
  wp (set_water_mark id n) Q s.
Proof.
  intros Hl Hc Hn HQ. pose proof (ld_rings _ _ _ Hl id) as Hr. rewrite Hc in Hr.
  unfold chans in Hr. apply lookup_fmap_Some in Hr as (r & <- & Hr).
  pose proof (ld_ok _ _ _ Hl id r Hr) as Hw. cbn in Hn. unfold capacity in Hn.
  unfold set_water_mark, ring_deref, rte_ring_lookup, ring_store, set_shm. wp_run.
  change (rings (part_get s)) with (rings (sv_shm s)). rewrite Hr. cbn [of_option]. wp_run.
  unfold rte_ring_set_water_mark. rewrite (proj2 (Z.leb_gt _ _)), (proj2 (Z.eqb_neq _ _)) by lia.
  cbn [snd]. apply HQ.
  apply (laid_chans f t s (<[id := r <| prod_watermark := n |>]> (rings (sv_shm s)))); [done| |].
  - apply map_Forall_insert_2; [exact Hw|apply Hl].
  - by rewrite chans_insert.
Qed.

(** *** Pools *)

Lemma put_put id c c' f id' : put id c (put id c' f) id' = put id c f id'.
Proof. unfold put. by case_decide. Qed.

Lemma wp_fill id objs : ∀ f t c (Q : unit → svc K → Prop) s,
  laid f t s → f id = Some c → zlen (ch_q c) + zlen objs ≤ ch_cap c →
  (∀ s', laid (put id (mk_chan (ch_cap c) (ch_wm c) (ch_q c ++ objs)) f) t s' → Q tt s') →
  wp (for_each objs (λ obj, _ ← mp_enqueue_bulk id [obj] 1; mret tt)) Q s.
Proof.
  induction objs as [|x objs IH]; intros f t c Q s Hl Hc Hroom HQ; cbn [for_each].
  - rewrite wp_ret. apply HQ. apply (laid_ext f _ t t); [done|..]; try done. intros id'.
    rewrite app_nil_r. symmetry. apply put_same. by destruct c.
  - assert (zlen (x :: objs) = 1 + zlen objs) as Hx by (unfold zlen; cbn; lia).
    rewrite !wp_bind. unfold mp_enqueue_bulk. pose proof (zlen_nonneg objs).
    apply (wp_enqueue_with _ x _ c _ _
             (implements_mp_enqueue_bulk [x] 1 ltac:(unfold zlen; cbn; lia)));
      [apply Hl|by rewrite (ld_rings _ _ _ Hl)| |intros; lia].
    intros _ rs Hrs Hch. rewrite wp_ret.
    apply (IH (put id (mk_chan (ch_cap c) (ch_wm c) (ch_q c ++ [x])) f) t
             (mk_chan (ch_cap c) (ch_wm c) (ch_q c ++ [x]))).
    + by apply laid_chans.
    + unfold put. by rewrite decide_True.
    + cbn [ch_q ch_cap]. rewrite zlen_app. change (zlen [x]) with 1. lia.
    + intros s' Hs'. apply HQ. apply (laid_ext _ _ t t _ Hs'); try done. intros id'.
      rewrite put_put. cbn [ch_q ch_cap ch_wm]. by rewrite <- app_assoc.
Qed.

Lemma align_pool k : 0 ≤ k ≤ 26 → rte_align32pow2 (2 ^ k + 1) = 2 ^ (k + 1).
Proof.
  intros Hk. pose proof (pow2_bound k ltac:(lia)). rewrite align_smear by lia.
  assert (2 ^ (k + 1) = 2 * 2 ^ k) as He by (rewrite Z.pow_add_r by lia; lia).
  rewrite (Z.log2_up_unique (2 ^ k + 1) (k + 1)).
  - pose proof (pow2_bound (k + 1) ltac:(lia)). apply wrap32_small. lia.
  - lia.
  - replace (Z.pred (k + 1)) with k by lia. lia.
Qed.

Lemma wp_pool f t objs id k (Q : unit → svc K → Prop) s :
  laid f t s → f id = None → 0 ≤ k ≤ 26 → reserves id (2 ^ (k + 1)) → zlen (objs id) = 2 ^ k →
  (∀ s', laid (put id (mk_chan (2 ^ (k + 1) - 1) (2 ^ (k + 1)) (objs id)) f) t s' → Q tt s') →
  wp (pool_or_exit reserve objs id (2 ^ k)) Q s.
Proof.
  intros Hl Hf Hk Hres Hobjs HQ. unfold pool_or_exit, rte_mempool_create.
  rewrite align_pool by done. rewrite !wp_bind.
  set (k' := k + 1) in *. eapply wp_mono.
  { apply (wp_ring_create f t id k' 0 (λ _ s', laid (put id (mk_chan (2 ^ k' - 1) (2 ^ k') []) f) t s') s);
      [done|done|unfold k'; lia|done|done]. }
  intros b s1 [-> Hl1]. cbn iota. rewrite wp_bind.
  eapply (wp_fill id (objs id) _ t (mk_chan (2 ^ k' - 1) (2 ^ k') [])); [exact Hl1|..].
  - unfold put. by rewrite decide_True.
  - pose proof (pow2_bound k ltac:(lia)). cbn [ch_q ch_cap]. rewrite Hobjs. change (zlen []) with 0.
    unfold k'. rewrite Z.pow_add_r by lia. lia.
  - intros s2 Hl2. rewrite !wp_ret. apply HQ. apply (laid_ext _ _ t t _ Hl2); try done.
    intros id'. apply put_put.
Qed.

Lemma wp_take f t id c x q (Q : option Z → svc K → Prop) s :
  laid f t s → f id = Some c → ch_q c = x :: q →
  (∀ s', laid (put id (mk_chan (ch_cap c) (ch_wm c) q) f) t s' → Q (Some x) s') →
  wp (rte_mempool_get id) Q s.
Proof.
  intros Hl Hc Hq HQ. apply (wp_mempool_get id c); [apply Hl|by rewrite (ld_rings _ _ _ Hl)| |].
  - intros x' q' Hq' rs Hrs Hch. rewrite Hq in Hq'. injection Hq' as <- <-.
    by apply HQ, laid_chans.
  - intros Hq'. by rewrite Hq in Hq'.
Qed.

(** *** The service's tables *)

Definition tput {A} (i : Z) (x : A) (g : Z → option A) : Z → option A :=
  λ j, if decide (j = i) then Some x else g j.

Lemma tput_insert {A} (m : gmap Z A) g i x j :
  (∀ j, m !! j = g j) → <[i := x]> m !! j = tput i x g j.
Proof.
  intros Hm. unfold tput. case_decide as Hd; [by subst; rewrite lookup_insert_eq|].
  by rewrite lookup_insert_ne.
Qed.

Lemma laid_cl f t s i x :
  laid f t s →
  laid f (mk_tables (t_socks t) (t_sat t) (t_sel t) (tput i x (t_cl t)))
    (s <| clients := <[i := x]> (clients s) |>).
Proof. intros [Hok Hr H1 H2 H3 H4]. split; try done. intros j. by apply tput_insert. Qed.

Lemma laid_sat f t s i x :
  laid f t s →
  laid f (mk_tables (t_socks t) (tput i x (t_sat t)) (t_sel t) (t_cl t))
    (s <| socket_satelite_data := <[i := x]> (socket_satelite_data s) |>).
Proof. intros [Hok Hr H1 H2 H3 H4]. split; try done. intros j. by apply tput_insert. Qed.

Lemma laid_sel f t s i x :
  laid f t s →
  laid f (mk_tables (t_socks t) (t_sat t) (tput i x (t_sel t)) (t_cl t))
    (s <| g_selectors := <[i := x]> (g_selectors s) |>).
Proof. intros [Hok Hr H1 H2 H3 H4]. split; try done. intros j. by apply tput_insert. Qed.

Lemma laid_sock f t s i x :
  laid f t s →
  laid f (mk_tables (tput i x (t_socks t)) (t_sat t) (t_sel t) (t_cl t))
    (s <| sv_shm := (sv_shm s) <| g_sockets := <[i := x]> (g_sockets (sv_shm s)) |> |>).
Proof. intros [Hok Hr H1 H2 H3 H4]. split; try done. intros j. by apply tput_insert. Qed.

(** A list of free indices being filled: the ring takes all but the last. *)
Definition filled (cap wm i : Z) : chan := mk_chan cap wm (seqZ 0 (Z.min i cap)).

Lemma filled_next cap wm i : 0 ≤ i → 0 ≤ cap → posted (filled cap wm i) i = filled cap wm (i + 1).
Proof.
  intros Hi Hc. unfold posted, filled. cbn [ch_q ch_cap ch_wm].
  assert (zlen (seqZ 0 (Z.min i cap)) = Z.min i cap) as ->
    by (unfold zlen; rewrite length_seqZ; lia).
  destruct (Z.ltb_spec (Z.min i cap) cap).
  - f_equal. rewrite (Z.min_l i), (Z.min_l (i + 1)), seqZ_app by lia. f_equal.
  - by rewrite !Z.min_r by lia.
Qed.

(** *** The loops *)

Definition upto {A} (i : Z) (x : Z → A) (g : Z → option A) : Z → option A :=
  λ j, if decide (0 ≤ j < i) then Some (x j) else g j.

Lemma upto_next {A} i (x : Z → A) g j : 0 ≤ i → tput i (x i) (upto i x g) j = upto (i + 1) x g j.
Proof. intros Hi. unfold tput, upto. repeat case_decide; subst; done || lia. Qed.

(** Equality of two layouts, by cases on the ring's name. *)
Ltac layout_eq :=
  intros []; unfold put; cbn; unfold upto; repeat case_decide; simplify_eq;
  first
    [ done
    | lia
    | match goal with H : ?C ?a ≠ ?C ?b |- _ => exfalso; apply H; f_equal; lia end ].

Definition clients_at (i : Z) (f : layout) : layout := λ id,
  match id with
  | FREE_CLIENTS_RING => Some (filled 63 64 i)
  | CLIENT_RING j => upto i (λ _, mk_chan 63 64 []) (λ j, f (CLIENT_RING j)) j
  | _ => f id
  end.
Definition fresh_client (i : Z) : ipaugenblick_client := mk_client (Some (CLIENT_RING i)) false.

Lemma wp_clients f t s (Q : unit → svc K → Prop) :
  laid f t s → f FREE_CLIENTS_RING = Some (mk_chan 63 64 []) →
  (∀ i, 0 ≤ i < 64 → f (CLIENT_RING i) = None ∧ reserves (CLIENT_RING i) 64) →
  (∀ s', laid (clients_at 64 f)
     (mk_tables (t_socks t) (t_sat t) (t_sel t) (upto 64 fresh_client (t_cl t))) s' → Q tt s') →
  wp (for_each (seqZ 0 IPAUGENBLICK_CLIENTS_POOL_SIZE) (λ i, init_client i reserve)) Q s.
Proof.
  intros Hl Hf Hc HQ. eapply wp_mono.
  { apply (wp_for_each_seqZ _ IPAUGENBLICK_CLIENTS_POOL_SIZE (λ i s, laid (clients_at i f)
      (mk_tables (t_socks t) (t_sat t) (t_sel t) (upto i fresh_client (t_cl t))) s)); [done| |].
    - apply (laid_ext _ _ _ _ _ Hl); try done; [|intros j; cbn; unfold upto; case_decide; [lia|done]].
      intros []; cbn; try done. unfold upto. case_decide; [lia|done].
    - intros i s0 Hi Hl0. change IPAUGENBLICK_CLIENTS_POOL_SIZE with 64 in Hi.
      destruct (Hc i Hi) as [Hnone Hres]. unfold init_client. rewrite wp_bind.
      apply (wp_put _ _ FREE_CLIENTS_RING (filled 63 64 i) _ _ _ Hl0 eq_refl). intros _ s1 Hl1. rewrite wp_bind.
      rewrite filled_next in Hl1 by lia.
      apply (wp_create _ _ (CLIENT_RING i) 64 6 SP_SC _ _ Hl1); [|lia|done|done|].
      + unfold put. rewrite decide_False by done. cbn. unfold upto. by rewrite decide_False by lia.
      + intros s2 Hl2. unfold on_svc. rewrite wp_modify.
        apply (laid_ext _ _ _ _ _ (laid_cl _ _ _ i (fresh_client i) Hl2)); try done.
        * layout_eq.
        * intros j. apply (upto_next i fresh_client). lia. }
  intros [] s' Hs'. by apply HQ.
Qed.

Definition connections_at (kr kt i : Z) (f : layout) : layout := λ id,
  match id with
  | FREE_CONNECTIONS_RING => Some (filled 2047 2048 i)
  | TX_RING j => upto i (λ _, mk_chan (2 ^ kt - 1) 1 []) (λ j, f (TX_RING j)) j
  | RX_RING j => upto i (λ _, mk_chan (2 ^ kr - 1) 1 []) (λ j, f (RX_RING j)) j
  | _ => f id
  end.
Definition fresh_socket (i : Z) : ipaugenblick_socket := mk_socket i 0 0 0 0 0 0.
Definition fresh_satelite (i : Z) : socket_satelite_data_t :=
  mk_satelite 0 (-1) (-1) (Some (TX_RING i)) (Some (RX_RING i)) 0.

(** A ring with water mark 1. *)
Lemma wp_create_marked f t id k flags (k1 : M (svc K) unit) (Q : unit → svc K → Prop) s :
  laid f t s → f id = None → 1 ≤ k ≤ 27 → reserves id (2 ^ k) →
  (∀ s', laid (put id (mk_chan (2 ^ k - 1) 1 []) f) t s' → wp k1 Q s') →
  wp (_ ← create_or_exit reserve id (2 ^ k) flags; _ ← set_water_mark id 1; k1) Q s.
Proof.
  intros Hl Hf Hk Hres HQ. rewrite wp_bind.
  apply (wp_create f t id _ k flags _ s Hl Hf ltac:(lia) eq_refl Hres). intros s1 Hl1. rewrite wp_bind.
  pose proof (Z.pow_le_mono_r 2 1 k ltac:(lia) ltac:(lia)).
  apply (wp_set_mark _ t id (mk_chan (2 ^ k - 1) (2 ^ k) []) 1 _ _ Hl1).
  - unfold put. by rewrite decide_True.
  - cbn [ch_cap]. change (2 ^ 1) with 2 in *. lia.
  - intros s2 Hl2. apply HQ. apply (laid_ext _ _ t t _ Hl2); try done. intros id'. apply put_put.
Qed.

Lemma wp_connections kr kt f t s (Q : unit → svc K → Prop) :
  1 ≤ kr ≤ 27 → 1 ≤ kt ≤ 27 → laid f t s → f FREE_CONNECTIONS_RING = Some (mk_chan 2047 2048 []) →
  (∀ i, 0 ≤ i < 2048 → f (TX_RING i) = None ∧ f (RX_RING i) = None ∧
     reserves (TX_RING i) (2 ^ kt) ∧ reserves (RX_RING i) (2 ^ kr)) →
  (∀ s', laid (connections_at kr kt 2048 f)
     (mk_tables (upto 2048 fresh_socket (t_socks t)) (upto 2048 fresh_satelite (t_sat t))
        (t_sel t) (t_cl t)) s' → Q tt s') →
  wp (for_each (seqZ 0 IPAUGENBLICK_CONNECTION_POOL_SIZE)
        (init_connection reserve (2 ^ kr) (2 ^ kt))) Q s.
Proof.
  intros Hkr Hkt Hl Hf Hc HQ. eapply wp_mono.
  { apply (wp_for_each_seqZ _ IPAUGENBLICK_CONNECTION_POOL_SIZE (λ i s,
      laid (connections_at kr kt i f)
        (mk_tables (upto i fresh_socket (t_socks t)) (upto i fresh_satelite (t_sat t))
           (t_sel t) (t_cl t)) s)); [done| |].
    - apply (laid_ext _ _ _ _ _ Hl); try done;
        [|intros j; cbn; unfold upto; case_decide; [lia|done]..]. layout_eq.
    - intros i s0 Hi Hl0. change IPAUGENBLICK_CONNECTION_POOL_SIZE with 2048 in Hi.
      destruct (Hc i Hi) as (Htx & Hrx & Rtx & Rrx). unfold init_connection, set_shm.
      rewrite wp_bind, wp_modify. apply (laid_sock _ _ _ i (fresh_socket i)) in Hl0.
      rewrite wp_bind. apply (wp_put _ _ FREE_CONNECTIONS_RING (filled 2047 2048 i) _ _ _ Hl0 eq_refl).
      intros _ s1 Hl1. rewrite filled_next in Hl1 by lia.
      apply (wp_create_marked _ _ (TX_RING i) kt _ _ _ _ Hl1); [|done|done|].
      { unfold put. rewrite decide_False by done. cbn. unfold upto. by rewrite decide_False by lia. }
      intros s2 Hl2. apply (wp_create_marked _ _ (RX_RING i) kr _ _ _ _ Hl2); [|done|done|].
      { unfold put. rewrite !decide_False by done. cbn. unfold upto. by rewrite decide_False by lia. }
      intros s3 Hl3. unfold on_svc. rewrite wp_modify.
      apply (laid_ext _ _ _ _ _ (laid_sat _ _ _ i (fresh_satelite i) Hl3)); try done.
      + layout_eq.
      + intros j. apply (upto_next i fresh_socket). lia.
      + intros j. apply (upto_next i fresh_satelite). lia. }
  intros [] s' Hs'. by apply HQ.
Qed.

Definition selectors_at (kt i : Z) (f : layout) : layout := λ id,
  match id with
  | SELECTOR_RING => Some (filled 63 64 i)
  | READY_RING j => upto i (λ _, mk_chan (2 ^ kt - 1) (2 ^ kt) []) (λ j, f (READY_RING j)) j
  | _ => f id
  end.

Lemma wp_selectors kt f t s (Q : unit → svc K → Prop) :
  1 ≤ kt ≤ 27 → laid f t s → f SELECTOR_RING = Some (mk_chan 63 64 []) →
  (∀ i, 0 ≤ i < 64 → f (READY_RING i) = None ∧ reserves (READY_RING i) (2 ^ kt)) →
  (∀ s', laid (selectors_at kt 64 f)
     (mk_tables (t_socks t) (t_sat t) (upto 64 (λ i, Some (READY_RING i)) (t_sel t)) (t_cl t)) s' →
     Q tt s') →
  wp (for_each (seqZ 0 IPAUGENBLICK_SELECTOR_POOL_SIZE) (init_selector reserve (2 ^ kt))) Q s.
Proof.
  intros Hkt Hl Hf Hc HQ. eapply wp_mono.
  { apply (wp_for_each_seqZ _ IPAUGENBLICK_SELECTOR_POOL_SIZE (λ i s, laid (selectors_at kt i f)
      (mk_tables (t_socks t) (t_sat t) (upto i (λ i, Some (READY_RING i)) (t_sel t)) (t_cl t)) s));
      [done| |].
    - apply (laid_ext _ _ _ _ _ Hl); try done;
        [|intros j; cbn; unfold upto; case_decide; [lia|done]..]. layout_eq.
    - intros i s0 Hi Hl0. change IPAUGENBLICK_SELECTOR_POOL_SIZE with 64 in Hi.
      destruct (Hc i Hi) as (Hnone & Hres). unfold init_selector. rewrite wp_bind.
      apply (wp_create _ _ (READY_RING i) _ kt SP_SC _ _ Hl0); [|lia|done|done|].
      { cbn. unfold upto. by rewrite decide_False by lia. }
      intros s1 Hl1. unfold on_svc. rewrite wp_bind, wp_modify.
      apply (laid_sel _ _ _ i (Some (READY_RING i))) in Hl1. rewrite wp_bind.
      apply (wp_put _ _ SELECTOR_RING (filled 63 64 i) _ _ _ Hl1 eq_refl). intros _ s2 Hl2.
      rewrite filled_next in Hl2 by lia. rewrite wp_ret.
      apply (laid_ext _ _ _ _ _ Hl2); try done.
      + layout_eq.
      + intros j. apply (upto_next i (λ i, Some (READY_RING i))). lia. }
  intros [] s' Hs'. by apply HQ.
Qed.

(** *** Altogether *)

(** The number of cells of every ring the service creates, for [2 ^ kc] command
    buffers, receive rings of [2 ^ kr] and transmit rings of [2 ^ kt] cells. *)
Definition planned (kc kr kt : Z) (id : ring_id) : option Z :=
  let small n i := if decide (0 ≤ i < n) then Some 64 else None in
  match id with
  | FREE_CLIENTS_RING | SELECTOR_RING => Some 64
  | FREE_CONNECTIONS_RING => Some 2048
  | CLIENT_RING i => if decide (0 ≤ i < 64) then Some 64 else None
  | READY_RING i => if decide (0 ≤ i < 64) then Some (2 ^ kt) else None
  | TX_RING i => if decide (0 ≤ i < 2048) then Some (2 ^ kt) else None
  | RX_RING i => if decide (0 ≤ i < 2048) then Some (2 ^ kr) else None
  | COMMAND_RING => Some (2 ^ kc)
  | RX_MBUFS_RING => Some (2 ^ (kr + 11))
  | FREE_COMMAND_POOL => Some (2 ^ (kc + 1))
  | FREE_CONNECTIONS_POOL | SELECTOR_POOL => Some (2 ^ 1)
  | _ => None
  end.

(** What those rings hold when the service starts. *)
Definition service_layout (objs : ring_id → list Z) (kc kr kt : Z) : layout := λ id,
  let ring c := mk_chan (c - 1) c [] in
  match id with
  | FREE_CLIENTS_RING | SELECTOR_RING => Some (mk_chan 63 64 (seqZ 0 63))
  | FREE_CONNECTIONS_RING => Some (mk_chan 2047 2048 (seqZ 0 2047))
  | FREE_COMMAND_POOL =>
      Some (mk_chan (2 ^ (kc + 1) - 1) (2 ^ (kc + 1)) (objs FREE_COMMAND_POOL))
  | TX_RING _ | RX_RING _ =>
      (λ n, mk_chan (n - 1) 1 []) <$> planned kc kr kt id
  | _ => ring <$> planned kc kr kt id
  end.

Definition service_tables : tables :=
  mk_tables (upto 2048 fresh_socket (λ _, None)) (upto 2048 fresh_satelite (λ _, None))
    (upto 64 (λ i, Some (READY_RING i)) (λ _, None)) (upto 64 fresh_client (λ _, None)).

Definition nothing : tables := mk_tables (λ _, None) (λ _, None) (λ _, None) (λ _, None).

Lemma wrap_rx_cells kr : 0 ≤ kr ≤ 16 →
  wrap32 (2 ^ kr * IPAUGENBLICK_CONNECTION_POOL_SIZE) = 2 ^ (kr + 11).
Proof.
  intros Hkr. change IPAUGENBLICK_CONNECTION_POOL_SIZE with (2 ^ 11).
  rewrite <- Z.pow_add_r by lia. pose proof (pow2_bound (kr + 11) ltac:(lia)).
  apply wrap32_small. lia.
Qed.

Lemma pool_block (objs : ring_id → list Z) id : zlen (objs id) = 1 → ∃ x, objs id = [x].
Proof.
  intros H. destruct (objs id) as [|x [|y l]]; [done|by exists x|].
  unfold zlen in H. cbn in H. lia.
Qed.
(** C31. Initialisation succeeds when the allocator has the memory: from an empty
    shared memory it creates every ring, well formed and of the planned size, the
    receive and transmit rings with water mark 1; the pool holds every command
    buffer; every connection is free, unconnected and unmarked; each selector has
    its ready ring.  The rings of free indices hold all of [0 .. n - 1] but the
    last, which found its ring full. *)
Theorem service_init_spec (objs : ring_id → list Z) (kc kr kt : Z) s :
  0 ≤ kc ≤ 26 → 1 ≤ kr ≤ 16 → 1 ≤ kt ≤ 27 →
  laid (λ _, None) nothing s →
  (∀ id n, planned kc kr kt id = Some n → reserves id n) →
  zlen (objs FREE_COMMAND_POOL) = 2 ^ kc →
  zlen (objs FREE_CONNECTIONS_POOL) = 1 → zlen (objs SELECTOR_POOL) = 1 →
  wp (ipaugenblick_service_api_init reserve objs (2 ^ kc) (2 ^ kr) (2 ^ kt))
    (λ _ s', laid (service_layout objs kc kr kt) service_tables s') s.
Proof.
  intros Hkc Hkr Hkt Hl Hres Hcmd [b1 Hb1]%pool_block [b2 Hb2]%pool_block.
  unfold ipaugenblick_service_api_init.
  rewrite wp_bind. apply (wp_create _ _ FREE_CLIENTS_RING 64 6 0 _ _ Hl); [done|lia|done|by apply Hres|].
  intros s1 Hl1. rewrite wp_bind. apply (wp_clients _ _ _ _ Hl1); [done| |].
  { intros i Hi. split; [done|]. apply Hres. cbn. by rewrite decide_True. }
  intros s2 Hl2. rewrite wp_bind.
  apply (wp_create _ _ COMMAND_RING _ kc _ _ _ Hl2); [done|lia|done|by apply Hres|].
  intros s3 Hl3. rewrite wrap_rx_cells by lia. rewrite wp_bind.
  apply (wp_create _ _ RX_MBUFS_RING _ (kr + 11) _ _ _ Hl3); [done|lia|done|by apply Hres|].
  intros s4 Hl4. rewrite wp_bind.
  apply (wp_pool _ _ objs FREE_COMMAND_POOL kc _ _ Hl4); [done|lia|by apply Hres|done|].
  intros s5 Hl5. rewrite wp_bind.
  apply (wp_pool _ _ objs FREE_CONNECTIONS_POOL 0 _ _ Hl5);
    [done|lia|by apply Hres|by rewrite Hb1|].
  intros s6 Hl6. rewrite wp_bind.
  apply (wp_take _ _ FREE_CONNECTIONS_POOL (mk_chan 1 2 (objs FREE_CONNECTIONS_POOL)) b1 [] _ _ Hl6);
    [done|by cbn; rewrite Hb1|].
  intros s7 Hl7. rewrite wp_bind.
  apply (wp_create _ _ FREE_CONNECTIONS_RING 2048 11 0 _ _ Hl7); [done|lia|done|by apply Hres|].
  intros s8 Hl8. rewrite wp_bind.
  apply (wp_connections kr kt _ _ _ _ ltac:(lia) Hkt Hl8); [done| |].
  { intros i Hi. split_and!; [done|done| |]; apply Hres; cbn; by rewrite decide_True. }
  intros s9 Hl9. rewrite wp_bind.
  apply (wp_pool _ _ objs SELECTOR_POOL 0 _ _ Hl9); [done|lia|by apply Hres|by rewrite Hb2|].
  intros s10 Hl10. rewrite wp_bind.
  apply (wp_take _ _ SELECTOR_POOL (mk_chan 1 2 (objs SELECTOR_POOL)) b2 [] _ _ Hl10);
    [done|by cbn; rewrite Hb2|].
  intros s11 Hl11. rewrite wp_bind.
  apply (wp_create _ _ SELECTOR_RING 64 6 0 _ _ Hl11); [done|lia|done|by apply Hres|].
  intros s12 Hl12. apply (wp_selectors kt _ _ _ _ Hkt Hl12); [done| |].
  { intros i Hi. split; [done|]. apply Hres. cbn. by rewrite decide_True. }
  intros s13 Hl13. apply (laid_ext _ _ _ _ _ Hl13); try done.
  layout_eq.
Qed.
End laid.

(** ** A concrete start: the sizes of the main loop *)

Definition demo_size (name : string) : Z :=
  let starts p := String.prefix p name in
  if starts "free_clients_ring" || starts "selector_ring" then 64
  else if starts "free_connections_ring" then 2048
  else if starts "SELECTOR_RING_NAME" || starts "tx_ring" || starts "rx_ring" then 2 ^ 10
  else if starts "command_ring" then 2 ^ 15
  else if starts "rx_mbufs_ring" then 2 ^ 21
  else if starts "MP_free_command_pool" then 2 ^ 16
  else 2.
Definition demo_reserve (name : string) : option (list Z) :=
  Some (replicate (Z.to_nat (demo_size name)) 0).
Definition demo_objs (id : ring_id) : list Z :=
  if decide (id = FREE_COMMAND_POOL) then (λ i, 4096 + 256 * i) <$> seqZ 0 (2 ^ 15) else [4096].
Definition empty_svc : svc unit :=
  mk_svc (mk_shm ∅ ∅ ∅ ∅) ∅ ∅ ∅ [] [] ∅ (mk_glue [] 0 [] 0 [] [] 0 0 0 0 0 0 0 0) (λ _, 0) [] tt.

Lemma index_digits i : 0 ≤ i < 2048 → Z.of_nat (String.length (pretty.pretty i)) ≤ 4.
Proof.
  intros Hi.
  assert (forallb (λ i, Z.of_nat (String.length (pretty.pretty i)) <=? 4) (seqZ 0 2048) = true) as Hall
    by (vm_compute; reflexivity).
  rewrite forallb_forall in Hall. apply Z.leb_le, Hall. apply list_elem_of_In, elem_of_seqZ. lia.
Qed.

Lemma length_append (a b : string) : String.length (a +:+ b) = (String.length a + String.length b)%nat.
Proof. induction a as [|x a IH]; [done|]. change (S (String.length (a +:+ b)) = S (String.length a + String.length b)). by rewrite IH. Qed.

Lemma prefix_append (p q : string) : String.prefix p (p +:+ q) = true.
Proof.
  induction p as [|x p IH]; [by destruct q|].
  change (String x p +:+ q) with (String x (p +:+ q)). cbn. by destruct (Ascii.ascii_dec x x).
Qed.

Lemma demo_reserves id n : planned 15 10 10 id = Some n → reserves demo_reserve id n.
Proof.
  intros Hn. split.
  - eexists. split; [done|]. rewrite zlen_replicate.
    + destruct id; cbn in Hn; try case_decide; simplify_eq; unfold demo_size; cbn [ring_id_name];
        rewrite ?prefix_append; vm_compute; reflexivity.
    + unfold demo_size. repeat case_match; vm_compute; done.
  - destruct id; cbn in Hn; try case_decide; simplify_eq; cbn [ring_id_name];
      rewrite ?length_append; try (vm_compute; done);
      match goal with H : 0 ≤ ?i < _ |- _ => pose proof (index_digits i ltac:(lia)) end;
      cbn [String.length]; unfold RTE_MEMZONE_NAMESIZE; lia.
Qed.

Lemma service_init_spec_witness :
  wp (ipaugenblick_service_api_init demo_reserve demo_objs (2 ^ 15) (2 ^ 10) (2 ^ 10))
    (λ _ s', laid (service_layout demo_objs 15 10 10) service_tables s') empty_svc.
Proof.
  apply (service_init_spec demo_reserve demo_objs 15 10 10 empty_svc); [lia|lia|lia| |exact demo_reserves|..].
  - by split.
  - unfold demo_objs. rewrite decide_True by done. by apply zlen_fmap_seqZ.
  - reflexivity.
  - reflexivity.
Defined.
