(* ===== verification/Notify.v ===== *)
(** * Waking the application: the notification protocol between the processes
    (ipaugenblick_submit_rx_buf and ipaugenblick_mark_readable in
    ipaugenblick_server_side.h; ipaugenblick_dequeue_rx_buf in
    ipaugenblick_ring_ops.h; ipaugenblick_receive and ipaugenblick_select in
    ipaugenblick_api.c)

    The service stores a packet, then tests and sets the connection's flag
    [read_ready_to_app]; the first to set it posts an entry on the ready ring.
    The application clears the flag, then looks at the ring, and forgets the
    socket only after it found the ring empty.  Here the two run as interleaved
    steps, one access to shared memory each, for one connection: [Server] and
    [AppData] have the functions the steps are the statements of, and the
    refinement theorem says so.

    The application's store that clears the flag is an ordinary store
    ([rte_atomic16_set]), and on x86 an ordinary store waits in the processor's
    store buffer while later loads go ahead.  [nt_buf] is that buffer; [fence]
    says whether a barrier stands between the store and the look at the ring.
    The code has none. *)

From S2P Require Import Prelude Ring Mem Mbuf App AppData AppRecv Service Server.

(** ** The processes *)

(** Between its steps the service is idle, has stored a packet, or has set the
    flag and must post the entry. *)
Inductive svc_pc := S_idle | S_stored | S_marked.

(** The application is idle, has (it thinks) cleared the flag, has found nothing
    to read, or works through the entries it took off its ready ring. *)
Inductive app_pc := A_idle | A_cleared | A_empty | A_handling (held : list Z).

#[export] Instance svc_pc_eq_dec : EqDecision svc_pc.
Proof. solve_decision. Defined.
#[export] Instance app_pc_eq_dec : EqDecision app_pc.
Proof. solve_decision. Defined.

(** The connection's receive ring, its flag and the selector's ready ring are
    shared; [nt_cache] (the descriptor's local cache) and [nt_bit] (the readable
    bit of its [local_mask]) are the application's. *)
Record net := mk_net {
  nt_rx : list Z;
  nt_flag : bool;
  nt_ready : list Z;
  nt_svc : svc_pc;
  nt_buf : bool;
  nt_cache : list Z;
  nt_bit : bool;
  nt_app : app_pc;
}.
#[export] Instance eta_net : Eta net := λ n,
  mk_net (nt_rx n) (nt_flag n) (nt_ready n) (nt_svc n) (nt_buf n) (nt_cache n) (nt_bit n) (nt_app n).

Definition quiet : net := mk_net [] false [] S_idle false [] false A_idle.

Section protocol.
(** [e] is the connection's entry; the capacities of its receive ring, of the
    ready ring and of the local cache; whether there is a barrier. *)
Context (e rx_cap ready_cap cache_cap : Z) (fence : bool).

(** *** The service's steps *)

Inductive svc_step : net → net → Prop :=
  | svc_store m n : nt_svc n = S_idle → zlen (nt_rx n) < rx_cap →
      svc_step n (n <| nt_rx := nt_rx n ++ [m] |> <| nt_svc := S_stored |>)
  | svc_drop n : nt_svc n = S_idle → rx_cap ≤ zlen (nt_rx n) →
      svc_step n (n <| nt_svc := S_stored |>)
  | svc_first n : nt_svc n = S_stored → nt_flag n = false →
      svc_step n (n <| nt_flag := true |> <| nt_svc := S_marked |>)
  | svc_later n : nt_svc n = S_stored → nt_flag n = true →
      svc_step n (n <| nt_svc := S_idle |>)
  | svc_post n : nt_svc n = S_marked → zlen (nt_ready n) < ready_cap →
      svc_step n (n <| nt_ready := nt_ready n ++ [e] |> <| nt_svc := S_idle |>)
  | svc_other x n : nt_svc n = S_idle → x ≠ e → zlen (nt_ready n) < ready_cap →
      svc_step n (n <| nt_ready := nt_ready n ++ [x] |>).

(** The entry that does not fit is dropped: the flag stays set. *)
Inductive svc_overflow : net → net → Prop :=
  | svc_lost n : nt_svc n = S_marked → ready_cap ≤ zlen (nt_ready n) →
      svc_overflow n (n <| nt_svc := S_idle |>).

(** *** The application's steps *)

(** A burst from the receive ring goes to the local cache, as far as there is room. *)
Definition burst (n : net) : nat := Z.to_nat (Z.min 32 (cache_cap - zlen (nt_cache n))).

Inductive app_step : net → net → Prop :=
  | app_clear n : nt_app n = A_idle →
      app_step n (n <| nt_buf := true |> <| nt_app := A_cleared |>)
  | app_flush n : nt_buf n = true →
      app_step n (n <| nt_flag := false |> <| nt_buf := false |>)
  | app_fetch n : nt_app n = A_cleared → (fence = true → nt_buf n = false) → nt_rx n ≠ [] →
      app_step n (n <| nt_rx := drop (burst n) (nt_rx n) |>
                    <| nt_cache := nt_cache n ++ take (burst n) (nt_rx n) |> <| nt_app := A_idle |>)
  | app_nothing_new n : nt_app n = A_cleared → (fence = true → nt_buf n = false) →
      nt_rx n = [] → nt_cache n ≠ [] → app_step n (n <| nt_app := A_idle |>)
  | app_nothing n : nt_app n = A_cleared → (fence = true → nt_buf n = false) →
      nt_rx n = [] → nt_cache n = [] → app_step n (n <| nt_app := A_empty |>)
  | app_forget n : nt_app n = A_empty →
      app_step n (n <| nt_bit := false |> <| nt_app := A_idle |>)
  | app_consume m l n : nt_app n = A_idle → nt_cache n = m :: l →
      app_step n (n <| nt_cache := l |>)
  | app_take n : nt_app n = A_idle →
      app_step n (n <| nt_ready := [] |> <| nt_app := A_handling (nt_ready n) |>)
  | app_handle x l n : nt_app n = A_handling (x :: l) →
      app_step n (n <| nt_bit := nt_bit n || bool_decide (x = e) |> <| nt_app := A_handling l |>)
  | app_handled n : nt_app n = A_handling [] → app_step n (n <| nt_app := A_idle |>).

Definition net_step (n n' : net) : Prop := svc_step n n' ∨ app_step n n'.

(** ** No wake-up is lost *)

Definition held (n : net) : list Z := match nt_app n with A_handling l => l | _ => [] end.

(** An entry of the connection is on its way to the application. *)
Definition pending (n : net) : Prop := e ∈ nt_ready n ∨ e ∈ held n.

(** The application knows: its bit is set and it is not about to clear it. *)
Definition aware (n : net) : Prop := nt_bit n = true ∧ nt_app n ≠ A_empty.

Record wakeup_inv (n : net) : Prop := {
  (** A flag that is set has an entry behind it, or an application that knows; in
      the second case the application has not cleared it. *)
  wi_flag : nt_flag n = true →
    nt_svc n = S_marked ∨ pending n ∨ (aware n ∧ (nt_app n = A_cleared → nt_buf n = true));
  wi_data : nt_rx n ≠ [] ∨ nt_cache n ≠ [] → nt_svc n ≠ S_idle ∨ pending n ∨ aware n;
  (** With the barrier, the look at the ring comes after the flag is clear. *)
  wi_fence : nt_buf n = true → nt_app n = A_cleared;
}.

Lemma wakeup_inv_svc n n' : svc_step n n' → wakeup_inv n → wakeup_inv n'.
Proof.
  intros Hs [Hf Hd Hb].
  destruct Hs as [m n Hp Hr|n Hp Hr|n Hp Hr|n Hp Hr|n Hp Hr|x n Hp Hx Hr]; (split; [..|exact Hb]).
  - intros Hfl. destruct (Hf Hfl) as [?|?]; [congruence|by right].
  - intros _. by left.
  - intros Hfl. destruct (Hf Hfl) as [?|?]; [congruence|by right].
  - intros _. by left.
  - intros _. by left.
  - intros _. by left.
  - intros Hfl. destruct (Hf Hfl) as [?|?]; [congruence|by right].
  - intros _. destruct (Hf Hr) as [?|[?|[? _]]]; [congruence|by right; left|by right; right].
  - intros _. right; left; left. cbn. apply elem_of_app. right. constructor.
  - intros _. right; left; left. cbn. apply elem_of_app. right. constructor.
  - intros Hfl. destruct (Hf Hfl) as [?|[[?|?]|?]]; [congruence| | |].
    + right; left; left. cbn. apply elem_of_app. by left.
    + right; left. by right.
    + by right; right.
  - intros Hne. destruct (Hd Hne) as [?|[[?|?]|?]]; [done| | |].
    + right; left; left. cbn. apply elem_of_app. by left.
    + right; left. by right.
    + by right; right.
Qed.

(** The application's steps, once its program counter is known to be [a]. *)
Lemma known_at n a :
  wakeup_inv n → nt_app n = a →
  (nt_flag n = true →
    nt_svc n = S_marked ∨ (e ∈ nt_ready n ∨ e ∈ match a with A_handling l => l | _ => [] end) ∨
    (nt_bit n = true ∧ a ≠ A_empty ∧ (a = A_cleared → nt_buf n = true))) ∧
  (nt_rx n ≠ [] ∨ nt_cache n ≠ [] →
    nt_svc n ≠ S_idle ∨ (e ∈ nt_ready n ∨ e ∈ match a with A_handling l => l | _ => [] end) ∨
    (nt_bit n = true ∧ a ≠ A_empty)) ∧
  (nt_buf n = true → a = A_cleared).
Proof.
  intros [Hf Hd Hb] <-. split_and!; [|exact Hd|exact Hb].
  intros Hfl. destruct (Hf Hfl) as [?|[?|[[] ?]]]; [by left|by right; left|by right; right].
Qed.

(** One of the alternatives of the invariant holds as it stands, or the case at
    hand cannot be. *)
Ltac alternative :=
  first
    [ by left
    | by right; left; left
    | by right; left; right
    | by right; right; split_and!; rewrite ?orb_true_iff; auto; congruence
    | exfalso; by eapply not_elem_of_nil
    | exfalso; intuition congruence ].

Lemma wakeup_inv_app n n' : fence = true → app_step n n' → wakeup_inv n → wakeup_inv n'.
Proof.
  intros Hfence Hs Hi.
  destruct Hs as [n Ha|n Ha|n Ha Hc Hr|n Ha Hc Hr Hn|n Ha Hc Hr Hn|n Ha|m l n Ha Hl|n Ha|x l n Ha|n Ha].
  2: { destruct Hi as [Hf Hd Hb]. by split. }
  2, 3, 4: specialize (Hc Hfence).
  all: destruct (known_at n _ Hi Ha) as (Hf & Hd & Hb); cbn iota in *;
    split; unfold pending, aware, held; cbn; rewrite ?Ha;
    try (intros Hb'; try apply Hb in Hb'; congruence).
  all: first
    [ intros Hfl; destruct (Hf Hfl) as [?|[[?|Hin]|(?&?&?)]]
    | intros Hne; destruct Hd as [?|[[?|Hin]|[? ?]]]; [intuition congruence|..] ].
  all: try alternative.
  all: rewrite orb_true_iff, bool_decide_eq_true; apply elem_of_cons in Hin as [->|Hin]; alternative.
Qed.

Lemma wakeup_inv_step n n' : fence = true → net_step n n' → wakeup_inv n → wakeup_inv n'.
Proof. intros Hf [?|?]; [by apply wakeup_inv_svc|by apply wakeup_inv_app]. Qed.

Lemma wakeup_inv_quiet : wakeup_inv quiet.
Proof. split; [done| |done]. by intros [[]|[]]. Qed.

Lemma wakeup_inv_reachable n : fence = true → rtc net_step quiet n → wakeup_inv n.
Proof.
  intros Hf Hr. apply (rtc_ind_r (R := net_step) wakeup_inv quiet); [apply wakeup_inv_quiet| |done].
  intros n1 n2 _ Hs. by apply wakeup_inv_step.
Qed.

(** C33. No wake-up is lost.  With the flag's store ordered before the look at the
    ring, and while entries fit on the ready ring, in every interleaving of the
    service's and the application's steps: whenever both are between calls and the
    connection has something to read, its entry is on the ready ring or the
    application has it marked readable.  And the flag is never left set without
    the same being true, so that a later packet is announced, too. *)
Theorem no_lost_wakeup n :
  fence = true → rtc net_step quiet n → nt_svc n = S_idle → nt_app n = A_idle →
  (nt_rx n ≠ [] ∨ nt_cache n ≠ [] → e ∈ nt_ready n ∨ nt_bit n = true) ∧
  (nt_flag n = true → e ∈ nt_ready n ∨ nt_bit n = true).
Proof.
  intros Hfence Hr Hs Ha. destruct (wakeup_inv_reachable n Hfence Hr) as [Hf Hd _].
  unfold pending, aware, held in *. rewrite Ha in *. split.
  - intros Hne. destruct (Hd Hne) as [?|[[?|Hin]|[? _]]]; [done|by left| |by right].
    by apply not_elem_of_nil in Hin.
  - intros Hfl. destruct (Hf Hfl) as [?|[[?|Hin]|[[? _] _]]]; [congruence|by left| |by right].
    by apply not_elem_of_nil in Hin.
Qed.

(** *** When the ready ring is full *)

(** The application waits: whatever it does, it does not read the connection. *)
Definition waiting_step (n n' : net) : Prop :=
  (svc_step n n' ∨ svc_overflow n n' ∨ app_step n n') ∧ nt_app n' ≠ A_cleared.

(** The connection is silenced: its flag is set, nobody is going to post. *)
Record silenced (n : net) : Prop := {
  sl_flag : nt_flag n = true;
  sl_svc : nt_svc n ≠ S_marked;
  sl_ready : e ∉ nt_ready n;
  sl_held : e ∉ held n;
  sl_bit : nt_bit n = false;
  sl_app : nt_app n ≠ A_cleared;
  sl_buf : nt_buf n = false;
}.

Lemma silenced_step n n' : waiting_step n n' → silenced n → silenced n'.
Proof.
  intros [Hs Happ] [Hf Hv Hr Hh Hb Ha Hu]. destruct Hs as [Hs|[Hs|Hs]].
  - destruct Hs as [m n Hp ? |n Hp ? |n Hp ? |n Hp ? |n Hp ? |x n Hp Hx ? ]; split; try done; try congruence.
    cbn. intros [?|Hxe%list_elem_of_singleton]%elem_of_app; [done|congruence].
  - destruct Hs as [n Hp ? ]. congruence.
  - destruct Hs as [n Hp|n Hp|n Hp ? ? |n Hp ? ? ? |n Hp ? ? ? |n Hp|m l n Hp ? |n Hp|x l n Hp|n Hp];
      try congruence; (split; try done; unfold held in *; cbn in *; rewrite ?Hp in *).
    + apply not_elem_of_nil.
    + apply not_elem_of_nil.
    + intros ?. apply Hh. by constructor.
    + rewrite Hb. apply bool_decide_eq_false. intros ->. apply Hh. constructor.
    + apply not_elem_of_nil.
Qed.

(** A full ready ring silences a connection.  When the entry does not fit, the
    flag stays set without an entry; from then on the application may wait as long
    as it likes: while it does not read the connection of its own accord, neither
    the entry nor the readable bit ever appears, however many packets arrive. *)
Theorem full_ring_silences n m :
  nt_svc n = S_idle → nt_flag n = false → zlen (nt_rx n) < rx_cap → nt_app n = A_idle →
  nt_buf n = false → nt_bit n = false → ready_cap ≤ zlen (nt_ready n) → e ∉ nt_ready n →
  ∃ n', rtc (λ a b, svc_step a b ∨ svc_overflow a b) n n' ∧
    nt_svc n' = S_idle ∧ nt_rx n' = nt_rx n ++ [m] ∧
    ∀ n'', rtc waiting_step n' n'' → (e ∉ nt_ready n'') ∧ nt_bit n'' = false ∧ nt_flag n'' = true.
Proof.
  intros Hs Hf Hr Ha Hu Hb Hfull He. eexists. split; [|split; [|split]].
  - eapply rtc_l; [left; by apply (svc_store m)|].
    eapply rtc_l; [left; by apply svc_first|].
    eapply rtc_l; [right; by apply svc_lost|]. apply rtc_refl.
  - done.
  - done.
  - intros n'' Hw.
    assert (silenced n'') as [? ? ? ? ? ? ?]; [|done].
    apply (rtc_ind_r (R := waiting_step) silenced (n <| nt_rx := nt_rx n ++ [m] |> <| nt_svc := S_stored |>
      <| nt_flag := true |> <| nt_svc := S_marked |> <| nt_svc := S_idle |>)) in Hw; [done| |].
    + split; try done; unfold held; cbn; rewrite Ha; [apply not_elem_of_nil|done].
    + intros n1 n2 _. apply silenced_step.
Qed.
End protocol.

(** C36. Without the barrier a wake-up can be lost, on a machine that lets a load
    overtake an earlier store (x86): the application's store of the flag is still
    in its buffer when it finds the ring empty; the service stores a packet and
    sees the flag set; then the store arrives and the application forgets the
    socket.  Both are idle, a packet is in the ring, no entry and no bit say so. *)
Theorem store_buffer_loses_wakeup e :
  ∃ n, rtc (net_step e 1023 1023 63 false) quiet n ∧
    nt_svc n = S_idle ∧ nt_app n = A_idle ∧ nt_buf n = false ∧
    nt_rx n ≠ [] ∧ nt_ready n = [] ∧ nt_bit n = false.
Proof.
  eexists. split.
  - eapply rtc_l; [left; by apply (svc_store _ _ _ 1)|].
    eapply rtc_l; [right; by apply app_clear|].
    eapply rtc_l; [right; by apply app_flush|].
    eapply rtc_l; [right; by apply app_fetch|].
    eapply rtc_l; [right; by apply (app_consume _ _ _ 1 [])|].
    eapply rtc_l; [left; by apply svc_first|].
    eapply rtc_l; [left; by apply svc_post|].
    eapply rtc_l; [right; by apply app_take|].
    eapply rtc_l; [right; by apply app_handle|].
    eapply rtc_l; [right; by apply app_handled|].
    eapply rtc_l; [right; by apply app_clear|].
    eapply rtc_l; [right; by apply app_nothing|].
    eapply rtc_l; [left; by apply (svc_store _ _ _ 2)|].
    eapply rtc_l; [left; by apply svc_later|].
    eapply rtc_l; [right; by apply app_flush|].
    eapply rtc_l; [right; by apply app_forget|].
    apply rtc_refl.
  - done.
Qed.


(** ** The code runs the protocol *)

Lemma contents_post ring c x m m' :
  post_rings ring c x m m' → contents m' ring = ch_q (posted c x) ∧
  (∀ id, id ≠ ring → contents m' id = contents m id) ∧ g_sockets m' = g_sockets m.
Proof.
  intros (rs & -> & _ & Hch). split_and!.
  - unfold contents. change (from_option ch_q [] (chans rs !! ring) = ch_q (posted c x)).
    by rewrite Hch, lookup_insert_eq.
  - intros id Hid. unfold contents.
    change (from_option ch_q [] (chans rs !! id) = from_option ch_q [] (chans (rings m) !! id)).
    by rewrite Hch, lookup_insert_ne.
  - done.
Qed.

Definition told (m : shm) (sk : Z) (flag : bool) : Prop :=
  ∃ blk, g_sockets m !! sk = Some blk ∧ flag = negb (read_ready_to_app blk =? 0).

(** The protocol's state as the shared memory shows it. *)
Record shows (m : shm) (sk : Z) (rx ring : ring_id) (n : net) : Prop := {
  sh_rx : contents m rx = nt_rx n;
  sh_ready : contents m ring = nt_ready n;
  sh_flag : told m sk (nt_flag n);
}.

(** What a call of the service must leave alone. *)
Definition same_app (n n' : net) : Prop :=
  nt_buf n' = nt_buf n ∧ nt_cache n' = nt_cache n ∧ nt_bit n' = nt_bit n ∧ nt_app n' = nt_app n.

Section service.
Context {K : Type} (s : svc K) (i : Z) (d : socket_satelite_data_t) (blk : ipaugenblick_socket).
Context (rx : ring_id) (crx : chan) (ring : ring_id) (c : chan) (mbuf : Z).
Hypothesis Hrv : receiving s i d blk rx crx ring c.

Let e : Z := ready_entry (sat_ringset_idx d) SOCKET_READABLE_BIT.
Definition service_run : net → net → Prop :=
  rtc (λ a b, svc_step e (ch_cap crx) (ch_cap c) a b ∨ svc_overflow (ch_cap c) a b).

(** Storing the packet, or dropping it. *)
Lemma run_store n :
  contents (sv_shm s) rx = nt_rx n → nt_svc n = S_idle →
  service_run n (n <| nt_rx := ch_q (posted crx mbuf) |> <| nt_svc := S_stored |>).
Proof.
  intros Hrx Hpc. assert (nt_rx n = ch_q crx) as Hq
    by (rewrite <- Hrx; unfold contents; by rewrite (rv_chan _ _ _ _ _ _ _ _ Hrv)).
  apply rtc_once. left. unfold posted. destruct (Z.ltb_spec (zlen (ch_q crx)) (ch_cap crx)); cbn [ch_q].
  - rewrite <- Hq. apply svc_store; [done|by rewrite Hq].
  - rewrite <- Hq. pose proof (svc_drop e (ch_cap crx) (ch_cap c) n Hpc) as Hd.
    destruct n; cbn in *. apply Hd. by rewrite Hq.
Qed.

(** Announcing it. *)
Lemma run_mark n m1 s' :
  nt_svc n = S_stored → shows m1 (sat_ringset_idx d) rx ring n →
  g_sockets m1 !! sat_ringset_idx d = Some blk → contents m1 ring = ch_q c →
  readable_marked d blk ring c (s <| sv_shm := m1 |>) s' →
  ∃ n', service_run n n' ∧ shows (sv_shm s') (sat_ringset_idx d) rx ring n' ∧
    nt_svc n' = S_idle ∧ same_app n n'.
Proof.
  intros Hpc [Hrx Hready (blk' & Hblk' & Hflag)] Hblk Hc Hmk. rewrite Hblk in Hblk'.
  injection Hblk' as <-. unfold readable_marked, edge_marked in Hmk. fold e in Hmk.
  assert (∀ pid st (s1 : svc K), sv_shm (counted st (signalled pid s1)) = sv_shm s1 ∧
            sv_shm (signalled pid s1) = sv_shm s1) as Hsh
    by (intros pid ? ?; unfold counted, signalled; by destruct (pid =? 0)).
  destruct (read_ready_to_app blk =? 0) eqn:Hf; cbn [negb] in Hflag.
  - destruct Hmk as (m' & Hpost & ->). destruct (contents_post _ _ _ _ _ Hpost) as (Hq & Ho & Hs).
    cbn [sv_shm set_field] in *.
    exists (n <| nt_flag := true |> <| nt_svc := S_marked |> <| nt_ready := ch_q (posted c e) |>
             <| nt_svc := S_idle |>).
    split_and!; [|split|done|done].
    + eapply rtc_l; [left; by apply svc_first|]. apply rtc_once.
      assert (nt_ready n = ch_q c) as Hnc by congruence. unfold posted.
      destruct (Z.ltb_spec (zlen (ch_q c)) (ch_cap c)); cbn [ch_q]; rewrite <- Hnc.
      * left. pose proof (svc_post e (ch_cap crx) (ch_cap c)
          (n <| nt_flag := true |> <| nt_svc := S_marked |>) eq_refl) as Hl.
        destruct n; cbn in *. apply Hl. by rewrite Hnc.
      * right. pose proof (svc_lost (ch_cap c) (n <| nt_flag := true |> <| nt_svc := S_marked |>) eq_refl) as Hl.
        destruct n; cbn in *. apply Hl. by rewrite Hnc.
    + rewrite (proj1 (Hsh _ _ _)). cbn. rewrite Ho by (apply not_eq_sym, Hrv). exact Hrx.
    + rewrite (proj1 (Hsh _ _ _)). exact Hq.
    + rewrite (proj1 (Hsh _ _ _)). cbn. unfold told. rewrite Hs. cbn.
      rewrite lookup_alter_eq, Hblk. eexists. split; [done|done].
  - rewrite Hmk. exists (n <| nt_svc := S_idle |>). split_and!; [|split|done|done].
    + apply rtc_once. left. by apply svc_later.
    + rewrite (proj2 (Hsh _ kick_rx _)). exact Hrx.
    + rewrite (proj2 (Hsh _ kick_rx _)). exact Hready.
    + rewrite (proj2 (Hsh _ kick_rx _)). exists blk. split; [exact Hblk|]. by rewrite Hf.
Qed.

Lemma service_runs n :
  shows (sv_shm s) (sat_ringset_idx d) rx ring n → nt_svc n = S_idle →
  wp (ipaugenblick_submit_rx_buf mbuf i) (λ _ s', ∃ n', service_run n n' ∧
    shows (sv_shm s') (sat_ringset_idx d) rx ring n' ∧ nt_svc n' = S_idle ∧ same_app n n') s.
Proof.
  intros [Hrx Hready (blk' & Hblk' & Hflag)] Hpc.
  apply (wp_submit_rx_buf s i d blk rx crx ring c); [done|]. intros s' (m1 & Hpost & Hmk).
  destruct (contents_post _ _ _ _ _ Hpost) as (Hq & Ho & Hs).
  destruct (run_mark (n <| nt_rx := ch_q (posted crx mbuf) |> <| nt_svc := S_stored |>) m1 s')
    as (n' & Hrun & Hsh & Hpc' & Happ); try done.
  - split; [exact Hq| |].
    + cbn. rewrite Ho by apply Hrv. exact Hready.
    + exists blk'. by rewrite Hs.
  - rewrite Hs. apply Hrv.
  - rewrite Ho by apply Hrv. unfold contents. by rewrite (hs_chan _ _ _ _ (rv_sel _ _ _ _ _ _ _ _ Hrv)).
  - exists n'. split; [|done]. etransitivity; [by apply run_store|exact Hrun].
Qed.
End service.


Section application.
Context (sock : Z) (d : local_socket_descriptor) (sk : Z) (blk : ipaugenblick_socket).
Context (cid rid : ring_id) (cc rc pool cring : chan) (p : proc) (e : Z) (fence : bool).
Hypothesis Hrr : rx_ready sock d sk blk cid rid cc rc pool cring p.

Abbreviation app_run := (rtc (app_step e (ch_cap cc) fence)).

(** Clearing the flag, with the store out of the buffer. *)
Lemma run_clear n :
  nt_app n = A_idle →
  app_run n (n <| nt_flag := false |> <| nt_buf := false |> <| nt_app := A_cleared |>).
Proof.
  intros Ha. pose proof (app_flush e (ch_cap cc) fence (n <| nt_buf := true |> <| nt_app := A_cleared |>) eq_refl) as Hf.
  eapply rtc_l; [by apply app_clear|]. apply rtc_once. by destruct n.
Qed.

(** What the call moves is what the protocol's burst moves. *)
Lemma burst_moved n :
  nt_rx n = ch_q rc → zlen (nt_cache n) ≤ ch_cap cc →
  let k := moved cc (length (nt_cache n)) rc in
  take (burst (ch_cap cc) n) (nt_rx n) = take k (ch_q rc) ∧
  drop (burst (ch_cap cc) n) (nt_rx n) = drop k (ch_q rc).
Proof.
  intros -> Hl k. unfold burst, k, moved, MAX_PKT_BURST, zlen in *.
  set (b := Z.min 32 (ch_cap cc - Z.of_nat (length (nt_cache n)))).
  destruct (Z.le_ge_cases b (Z.of_nat (length (ch_q rc)))).
  - by rewrite Z.min_l by lia.
  - rewrite Z.min_r, Nat2Z.id by lia. by rewrite !firstn_all2, !drop_ge by lia.
Qed.

(** A look at the ring, with the flag clear. *)
Lemma run_fetch n :
  nt_app n = A_cleared → nt_buf n = false → nt_rx n = ch_q rc → zlen (nt_cache n) ≤ ch_cap cc →
  nt_rx n ≠ [] → let k := moved cc (length (nt_cache n)) rc in
  app_run n (n <| nt_rx := drop k (ch_q rc) |> <| nt_cache := nt_cache n ++ take k (ch_q rc) |>
               <| nt_app := A_idle |>).
Proof.
  intros Ha Hb Hrx Hl Hne k. destruct (burst_moved n Hrx Hl) as [Ht Hd].
  pose proof (app_fetch e (ch_cap cc) fence n Ha (λ _, Hb) Hne) as Hf. rewrite Ht, Hd in Hf.
  by apply rtc_once.
Qed.

Lemma cache_bound : zlen (ch_q cc) ≤ ch_cap cc.
Proof. apply (chan_bounded _ _ _ (cm_rings _ _ _ (rr_cmds _ _ _ _ _ _ _ _ _ _ _ Hrr)) (rr_cchan _ _ _ _ _ _ _ _ _ _ _ Hrr)). Qed.

(** The protocol's run behind a call that returns [m]. *)
Definition after_call (n : net) (cq rq : list Z) (pc : app_pc) : net :=
  n <| nt_flag := false |> <| nt_buf := false |> <| nt_rx := rq |> <| nt_cache := cq |>
    <| nt_app := pc |>.

Lemma app_runs_empty n :
  nt_app n = A_idle → nt_rx n = [] → nt_cache n = [] → app_run n (after_call n [] [] A_empty).
Proof.
  intros Ha Hrx Hc. etransitivity; [by apply run_clear|]. apply rtc_once.
  pose proof (app_nothing e (ch_cap cc) fence
    (n <| nt_flag := false |> <| nt_buf := false |> <| nt_app := A_cleared |>) eq_refl
    (λ _, eq_refl) Hrx Hc) as Hn.
  destruct n; cbn in *. by subst.
Qed.

Lemma app_runs_burst n y cq :
  nt_app n = A_idle → nt_rx n = ch_q rc → nt_cache n = [] → ch_q rc ≠ [] →
  let k := moved cc 0 rc in take k (ch_q rc) = y :: cq →
  app_run n (after_call n cq (drop k (ch_q rc)) A_idle).
Proof.
  intros Ha Hrx Hc Hne k Hk. etransitivity; [by apply run_clear|].
  pose proof (rr_cap _ _ _ _ _ _ _ _ _ _ _ Hrr).
  etransitivity.
  { apply run_fetch; try done; cbn; rewrite ?Hrx, ?Hc; [unfold zlen; cbn; lia|done]. }
  change (nt_cache (n <| nt_flag := false |> <| nt_buf := false |> <| nt_app := A_cleared |>))
    with (nt_cache n). rewrite Hc. change (length []) with 0%nat. fold k. rewrite Hk, app_nil_l.
  apply rtc_once.
  pose proof (app_consume e (ch_cap cc) fence y cq
    (n <| nt_flag := false |> <| nt_buf := false |> <| nt_app := A_cleared |>
       <| nt_rx := drop k (ch_q rc) |> <| nt_cache := y :: cq |> <| nt_app := A_idle |>) eq_refl eq_refl) as Hs.
  destruct n; cbn in *. exact Hs.
Qed.

Lemma app_runs_cached n x q :
  nt_app n = A_idle → nt_rx n = ch_q rc → nt_cache n = x :: q → ch_q cc = x :: q →
  let k := moved cc (length q) rc in
  app_run n (after_call n (q ++ take k (ch_q rc)) (drop k (ch_q rc)) A_idle).
Proof.
  intros Ha Hrx Hc Hcq k. pose proof cache_bound as Hb. rewrite Hcq in Hb.
  destruct (decide (ch_q rc = [])) as [Hnil|Hne].
  - rewrite Hnil, take_nil, drop_nil, app_nil_r. etransitivity; [by apply run_clear|].
    eapply rtc_l.
    { apply app_nothing_new; try done; cbn; rewrite ?Hrx, ?Hc; done. }
    apply rtc_once.
    pose proof (app_consume e (ch_cap cc) fence x q
      (n <| nt_flag := false |> <| nt_buf := false |> <| nt_app := A_cleared |> <| nt_app := A_idle |>)
      eq_refl Hc) as Hs.
    destruct n; cbn in *. subst. by rewrite Hnil in Hs |- *.
  - eapply rtc_l; [by eapply app_consume|]. etransitivity; [by apply run_clear|].
    etransitivity.
    { apply run_fetch; try done; cbn; rewrite ?Hrx; [unfold zlen in *; cbn in Hb; lia|done]. }
    by destruct n.
Qed.

Lemma app_runs_from n cq rq m :
  nt_app n = A_idle → nt_rx n = ch_q rc → nt_cache n = ch_q cc →
  (m = 0 ↔ waiting cc rc = []) →
  cq ++ rq = tail (waiting cc rc) → rq = drop (moved cc (length (tail (ch_q cc))) rc) (ch_q rc) →
  app_run n (after_call n cq rq (if m =? 0 then A_empty else A_idle)).
Proof.
  intros Ha Hrx Hc Hm0 Hall Hrq. unfold waiting in *.
  assert (m ≠ 0 → (m =? 0) = false) as Hm by apply Z.eqb_neq.
  destruct (ch_q cc) as [|x q] eqn:Hcq; cbn [tail length] in Hrq.
  - rewrite app_nil_l in *. destruct (ch_q rc) as [|y l] eqn:Hrcq.
    + rewrite drop_nil in Hrq. subst rq. rewrite (proj2 (Z.eqb_eq m 0)) by by apply Hm0.
      assert (cq = []) as -> by (by destruct cq). by apply app_runs_empty.
    + rewrite Hm by (intros ?%Hm0; done). rewrite Hrq, <- Hrcq in *.
      apply (app_runs_burst n y cq); [done|done|done|by rewrite Hrcq|].
      set (k := moved cc 0 rc) in *. rewrite Hrcq in Hall |- *.
      assert (take k (y :: l) = y :: tail (take k (y :: l))) as Hk.
      { assert (k ≠ 0%nat) as Hk0.
        { pose proof (rr_cap _ _ _ _ _ _ _ _ _ _ _ Hrr). unfold k, moved, zlen, MAX_PKT_BURST.
          rewrite Hrcq. cbn [length]. lia. }
        by destruct k. }
      pose proof (take_drop k (y :: l)) as He. rewrite Hk in He. injection He as He.
      rewrite Hk. f_equal. symmetry. apply (app_inv_tail (drop k (y :: l))). by rewrite Hall, He.
  - rewrite Hm by (intros ?%Hm0; done). rewrite Hrq in *.
    replace cq with (q ++ take (moved cc (length q) rc) (ch_q rc));
      [by apply (app_runs_cached n x q)|].
    apply (app_inv_tail (drop (moved cc (length q) rc) (ch_q rc))).
    by rewrite Hall, <- app_assoc, take_drop.
Qed.

Lemma app_runs rdy n :
  rdy ∉ [cid; rid; FREE_COMMAND_POOL; COMMAND_RING] →
  shows (p_shm p) sk rid rdy n → contents (p_shm p) cid = nt_cache n → nt_app n = A_idle →
  wp (ipaugenblick_dequeue_rx_buf sock) (λ m p', ∃ n', app_run n n' ∧
    shows (p_shm p') sk rid rdy n' ∧ contents (p_shm p') cid = nt_cache n' ∧
    nt_app n' = (if m =? 0 then A_empty else A_idle) ∧ nt_buf n' = false ∧
    nt_svc n' = nt_svc n ∧ nt_bit n' = nt_bit n) p.
Proof.
  intros Hrdy [Hrx Hready (blk' & Hblk' & Hflag)] Hcache Ha.
  pose proof Hrr as [Hr Hd Hcid Hrid Hsk Hb Hm Hcc Hrc Hcap Hnd Hbufs].
  eapply wp_mono; [exact (dequeue_rx_buf_post sock d sk blk cid rid cc rc pool cring p Hrr)|].
  intros m p' (Hmh & Hm0 & [Hall Hring Hok Hsocks Hmb Happ Hpool Hkick Hothers]).
  exists (after_call n (contents (p_shm p') cid) (contents (p_shm p') rid)
            (if m =? 0 then A_empty else A_idle)).
  split_and!; [|split|done|done|done|done|done].
  - apply app_runs_from; try done; [rewrite <- Hrx|rewrite <- Hcache]; unfold contents.
    + by rewrite Hrc.
    + by rewrite Hcc.
  - done.
  - rewrite Hothers by done. exact Hready.
  - exists (blk <| read_ready_to_app := 0 |>). rewrite Hsocks, lookup_alter_eq, Hb. done.
Qed.
End application.

(** C34. The functions run the protocol: what the service's
    [ipaugenblick_submit_rx_buf] and the application's [ipaugenblick_dequeue_rx_buf]
    do to the shared memory is a run of the protocol's steps, from whatever state
    the memory shows; the application ends in [A_empty], about to forget the
    socket, exactly when it returns nothing. *)
Theorem protocol_refined {K} (s : svc K) i d blk rx crx ring c mbuf
    sock ad ask ablk cid rid cc rc pool cring p e fence rdy n na :
  (receiving s i d blk rx crx ring c →
   shows (sv_shm s) (sat_ringset_idx d) rx ring n → nt_svc n = S_idle →
   wp (ipaugenblick_submit_rx_buf mbuf i) (λ _ s', ∃ n', service_run d crx c n n' ∧
     shows (sv_shm s') (sat_ringset_idx d) rx ring n' ∧ nt_svc n' = S_idle ∧ same_app n n') s) ∧
  (rx_ready sock ad ask ablk cid rid cc rc pool cring p →
   rdy ∉ [cid; rid; FREE_COMMAND_POOL; COMMAND_RING] →
   shows (p_shm p) ask rid rdy na → contents (p_shm p) cid = nt_cache na → nt_app na = A_idle →
   wp (ipaugenblick_dequeue_rx_buf sock) (λ m p', ∃ n', rtc (app_step e (ch_cap cc) fence) na n' ∧
     shows (p_shm p') ask rid rdy n' ∧ contents (p_shm p') cid = nt_cache n' ∧
     nt_app n' = (if m =? 0 then A_empty else A_idle) ∧ nt_buf n' = false ∧
     nt_svc n' = nt_svc na ∧ nt_bit n' = nt_bit na) p).
Proof.
  split.
  - intros Hrv. exact (service_runs s i d blk rx crx ring c mbuf Hrv n).
  - intros Hrr. exact (app_runs sock ad ask ablk cid rid cc rc pool cring p e fence Hrr rdy na).
Qed.


(** ** Witnesses *)

(** The service has stored a packet and posted the connection's entry. *)
Definition announced : net := mk_net [9] true [65541] S_idle false [] false A_idle.

Lemma announced_reachable : rtc (net_step 65541 7 7 7 true) quiet announced.
Proof.
  eapply rtc_l; [left; by apply (svc_store _ _ _ 9)|].
  eapply rtc_l; [left; by apply svc_first|].
  eapply rtc_l; [left; by apply svc_post|].
  apply rtc_refl.
Defined.

Lemma no_lost_wakeup_witness :
  (65541 ∈ [65541] ∨ false = true) ∧ (65541 ∈ [65541] ∨ false = true).
Proof.
  destruct (no_lost_wakeup 65541 7 7 7 true announced eq_refl announced_reachable eq_refl eq_refl)
    as [Hd Hf].
  split; [by apply Hd; left|by apply Hf].
Defined.

(** The ready ring is full of other connections' entries. *)
Definition crowded : net := mk_net [] false [65537; 65538] S_idle false [] false A_idle.

Lemma full_ring_silences_witness :
  ∃ n', rtc (λ a b, svc_step 65541 7 2 a b ∨ svc_overflow 2 a b) crowded n' ∧
    nt_svc n' = S_idle ∧ nt_rx n' = [] ++ [9] ∧
    ∀ n'', rtc (waiting_step 65541 7 2 7 true) n' n'' →
      (65541 ∉ nt_ready n'') ∧ nt_bit n'' = false ∧ nt_flag n'' = true.
Proof.
  apply (full_ring_silences 65541 7 2 7 true crowded 9); try done.
  by apply (bool_decide_unpack (65541 ∉ [65537; 65538])).
Defined.

Lemma protocol_refined_witness :
  wp (ipaugenblick_submit_rx_buf 9000 3) (λ _ s', ∃ n',
    service_run serving_sat (mk_chan 7 1 []) (mk_chan 7 8 []) quiet n' ∧
    shows (sv_shm s') 3 (RX_RING 3) (READY_RING 0) n' ∧ nt_svc n' = S_idle ∧ same_app quiet n')
    serving ∧
  wp (ipaugenblick_dequeue_rx_buf 5) (λ m p', ∃ n',
    rtc (app_step 65541 7 false) (mk_net [25; 26] true [] S_idle false [24] true A_idle) n' ∧
    shows (p_shm p') 5 (RX_RING 5) (READY_RING 0) n' ∧
    contents (p_shm p') (LOCAL_CACHE "demo" 5) = nt_cache n' ∧
    nt_app n' = (if m =? 0 then A_empty else A_idle) ∧ nt_buf n' = false ∧
    nt_svc n' = S_idle ∧ nt_bit n' = true) receiver.
Proof.
  destruct (protocol_refined serving 3 serving_sat (mk_socket 3 0 0 0 0 0 0) (RX_RING 3)
              (mk_chan 7 1 []) (READY_RING 0) (mk_chan 7 8 []) 9000
              5 (demo_lsd 5 2) 5 (mk_socket 5 1 0 0 0 0 0) (LOCAL_CACHE "demo" 5) (RX_RING 5)
              (mk_chan 7 8 [24]) (mk_chan 7 1 [25; 26]) demo_pool demo_cmd_ring receiver
              65541 false (READY_RING 0) quiet
              (mk_net [25; 26] true [] S_idle false [24] true A_idle)) as [Hs Ha].
  split.
  - apply Hs; [split; try done; exact serving_shm_ok| |done].
    split; [done|done|]. exists (mk_socket 3 0 0 0 0 0 0). by split.
  - apply Ha; [exact receiver_ready| | |done|done].
    + by apply (bool_decide_unpack (READY_RING 0 ∉ _)).
    + split; [done|done|]. exists (mk_socket 5 1 0 0 0 0 0). by split.
Defined.
