(* ===== verification/Callbacks.v ===== *)
(** * The service between the stack and the rings
    (user_callbacks.h, user_get_buffer_callback.h, service_loop.c)

    What the service does when a socket can send, has received, has a
    connection to accept or is closed. *)

From S2P Require Import Prelude Ring Mem Mbuf Service Server.

Section callbacks.
Context {K : Type} `{Stack K}.

(** ** User data of a socket *)

Definition get_user_data (sock : Z) : M (svc K) (option Z) :=
  if sock =? 0 then exit_
  else s ← so_read sock; if so_sk s then mret (sk_user_data s) else exit_.

(** [app_glue_set_user_data]: spins on a null socket; a socket without its
    [sk] is a null dereference. *)
Definition app_glue_set_user_data (sock : Z) (data : option Z) : M (svc K) unit :=
  if sock =? 0 then fault
  else
    s ← so_read sock;
    _ ← require (so_sk s);
    so_write sock (λ s, s <| sk_user_data := data |>).

Definition user_increment_socket_tx_space (i count : Z) : M (svc K) unit :=
  sock_write i (λ s, s <| tx_space := wrap32 (tx_space s + count) |>).
Definition user_set_socket_tx_space (i count : Z) : M (svc K) unit :=
  sock_write i (λ s, s <| tx_space := wrap32 count |>).

(** ** Transmission *)

(** [while(sk_stream_wspace(sk) > 0) if((i = kernel_sendpage(..)) <= 0) break;]
    One round sends at least one byte of the space left. *)
Fixpoint sendpage_loop (fuel : nat) (sock : Z) : M (svc K) unit :=
  match fuel with
  | O => fault
  | Datatypes.S fuel =>
      space ← sk_stream_wspace sock;
      if 0 <? space then
        size ← sk_stream_wspace sock;
        i ← kernel_sendpage sock size;
        if i <=? 0 then mret tt else sendpage_loop fuel sock
      else mret tt
  end.

(** The datagrams of one burst; the value says whether the stack refused one,
    which frees it and the rest. *)
Fixpoint send_datagrams (sock : Z) (named : bool) (mbufs : list Z) : M (svc K) bool :=
  match mbufs with
  | [] => mret false
  | m :: rest =>
      name ← (if named then a ← load_sockaddr m; mret (Some a) else mret None);
      len ← rte_pktmbuf_data_len m;
      rc ← udp_sendmsg sock m name len;
      if 0 <? rc then send_datagrams sock named rest
      else
        _ ← user_add tx_api_failed (zlen mbufs);
        _ ← for_each mbufs rte_pktmbuf_free;
        mret true
  end.

(** [do .. while((dequeued > 0) && (!exhausted))]; returns [exhausted]. *)
Fixpoint datagram_loop (fuel : nat) (sock i : Z) : M (svc K) bool :=
  match fuel with
  | O => fault
  | Datatypes.S fuel =>
      ring_entries ← ipaugenblick_tx_buf_count i;
      if 0 <? ring_entries then
        s ← so_read sock;
        let named := so_sk s && negb (sk_state s =? TCP_ESTABLISHED) in
        mbufs ← ipaugenblick_dequeue_tx_buf_burst i ring_entries;
        exhausted ← send_datagrams sock named mbufs;
        if (0 <? zlen mbufs) && negb exhausted then datagram_loop fuel sock i
        else mret exhausted
      else _ ← user_inc tx_nothing_to_tx; mret false
  end.

Definition user_on_transmission_opportunity (fuel : nat) (sock : Z) : M (svc K) unit :=
  _ ← user_inc tx_opportunity_called;
  if sock =? 0 then mret tt else
  data ← get_user_data sock;
  match data with
  | None => mret tt
  | Some i =>
      s ← so_read sock;
      if sk_state s =? TCP_LISTEN then exit_
      else if so_type s =? SOCK_STREAM then
        ring_entries ← ipaugenblick_tx_buf_count i;
        if ring_entries =? 0 then
          _ ← ipaugenblick_mark_writable i;
          user_inc tx_nothing_to_tx
        else
          _ ← sendpage_loop fuel sock;
          space ← sk_stream_wspace sock;
          _ ← user_add tx_socket_full (if space =? 0 then 1 else 0);
          _ ← ipaugenblick_tx_buf_count i;
          _ ← ipaugenblick_mark_writable i;
          mret tt
      else if (so_type s =? SOCK_DGRAM) || (so_type s =? SOCK_RAW) then
        exhausted ← datagram_loop fuel sock i;
        if negb exhausted then _ ← ipaugenblick_mark_writable i; mret tt else mret tt
      else mret tt
  end.

(** [user_get_buffer]: the stack takes transmit buffers while a full-sized one
    ([*copy >= 1448]) is still wanted; they are chained.  Returns the first
    buffer (0 if none) and what is left of [copy]. *)
Fixpoint get_buffer_loop (fuel : nat) (i first prev copy : Z) : M (svc K) (Z * Z) :=
  if 1448 <=? copy then
    match fuel with
    | O => fault
    | Datatypes.S fuel =>
        mbuf ← ipaugenblick_dequeue_tx_buf i;
        match mbuf with
        | None => _ ← user_inc tx_cannot_get_buff; mret (first, copy)
        | Some m =>
            len ← rte_pktmbuf_data_len m;
            _ ← (if first =? 0 then mret tt
                 else mbuf_write prev (λ b, b <| mb_next := m |>));
            _ ← user_inc tx_mbufs_sent;
            get_buffer_loop fuel i (if first =? 0 then m else first) m (copy - len)
        end
    end
  else mret (first, copy).
Definition user_get_buffer (fuel : nat) (sock copy : Z) : M (svc K) (Z * Z) :=
  _ ← user_inc tx_getbuff_called;
  if sock =? 0 then mret (0, copy)
  else
    s ← so_read sock;
    i ← of_option (sk_user_data s);
    get_buffer_loop fuel i 0 0 copy.

(** The stack is done with a transmit buffer. *)
Definition user_transmitted_callback (mbuf sock : Z) : M (svc K) unit :=
  _ ← (if sock =? 0 then mret tt
       else
         data ← get_user_data sock;
         match data with
         | None => mret tt
         | Some i =>
             d ← sat_read i;
             len ← rte_pktmbuf_data_len mbuf;
             user_increment_socket_tx_space (sat_ringset_idx d) len
         end);
  rte_pktmbuf_free_seg mbuf.

(** ** Reception *)

Definition is_datagram (s : socket) : bool := (so_type s =? SOCK_DGRAM) || (so_type s =? SOCK_RAW).

(** The loop of [user_data_available_cbk], once per free place of the ring;
    returns the places left and whether the socket ran dry. *)
Fixpoint receive_loop (ring_free : nat) (sock i : Z) : M (svc K) (Z * bool) :=
  match ring_free with
  | O => mret (0, false)
  | Datatypes.S rest =>
      '(rc, msg) ← kernel_recvmsg sock;
      if rc <=? 0 then mret (Z.of_nat ring_free, true)
      else
        s ← so_read sock;
        _ ← (if is_datagram s then store_sockaddr (rx_head msg) (rx_name msg) else mret tt);
        b ← mbuf_read (rx_head msg);
        full ← ipaugenblick_submit_rx_buf (rx_head msg) i;
        if (full : bool) then _ ← rte_pktmbuf_free (rx_head msg); mret (Z.of_nat rest, false)
        else _ ← user_add rx_mbufs (mb_nb_segs b); receive_loop rest sock i
  end.

Definition user_data_available_cbk (sock : Z) : M (svc K) unit :=
  _ ← user_inc rx_called;
  if sock =? 0 then mret tt else
  data ← get_user_data sock;
  match data with
  | None => mret tt
  | Some i =>
      s ← so_read sock;
      if sk_state s =? TCP_LISTEN then exit_
      else
        ring_free ← ipaugenblick_rx_buf_free_count i;
        _ ← user_add rx_ring_full (if ring_free =? 0 then 1 else 0);
        '(places, exhausted) ← receive_loop (Z.to_nat ring_free) sock i;
        _ ← user_add rx_exhausted (if (exhausted : bool) then 1 else 0);
        if negb exhausted && (places =? 0) then ipaugenblick_mark_readable i else mret tt
  end.

(** ** Closing *)

Fixpoint flush_ring (fuel : nat) (next : M (svc K) (option Z)) (st : user_stat)
    : M (svc K) unit :=
  match fuel with
  | O => fault
  | Datatypes.S fuel =>
      obj ← next;
      match obj with
      | None => mret tt
      | Some m =>
          b ← mbuf_read m;
          _ ← user_add st (mb_nb_segs b);
          _ ← rte_pktmbuf_free m;
          flush_ring fuel next st
      end
  end.

Definition ring_fuel (id : ring_id) : M (svc K) nat :=
  n ← ring_count id; mret (Datatypes.S (Z.to_nat n)).

Definition user_flush_tx (sock : Z) : M (svc K) unit :=
  data ← get_user_data sock;
  match data with
  | None => mret tt
  | Some i =>
      ring ← sat_ring sat_tx_ring i;
      fuel ← ring_fuel ring;
      flush_ring fuel (ipaugenblick_dequeue_tx_buf i) flush_tx_cnt
  end.

Definition user_flush_rx (sock : Z) : M (svc K) unit :=
  data ← get_user_data sock;
  match data with
  | None => mret tt
  | Some i =>
      ring ← sat_ring sat_rx_ring i;
      fuel ← ring_fuel ring;
      flush_ring fuel (dequeue ring) flush_rx_cnt
  end.

Definition user_flush_rx_tx (sock : Z) : M (svc K) unit :=
  _ ← user_flush_rx sock; user_flush_tx sock.

Definition user_on_closure (sock : Z) : M (svc K) unit :=
  data ← get_user_data sock;
  match data with
  | None => mret tt
  | Some i => _ ← ipaugenblick_mark_closed i; mret tt
  end.

Definition user_on_socket_fatal (sock : Z) : M (svc K) unit :=
  _ ← user_flush_rx_tx sock; user_on_closure sock.

(** ** Accepting *)

(** One accepted connection: its peer goes to the application in a command
    buffer, on the listener's receive ring.  The first access to the new
    socket's [sk] is unconditional. *)
Definition accept_one (sock newsock : Z) : M (svc K) unit :=
  cmd ← ipaugenblick_get_free_command_buf;
  _ ← (match cmd : option Z with
       | None => mret tt
       | Some cmd =>
           _ ← cmd_write cmd (λ c, c <| cmd_cmd := SOCKET_ACCEPTED_COMMAND |>);
           parent ← get_user_data sock;
           s ← so_read newsock;
           _ ← require (so_sk s);
           _ ← cmd_write cmd (λ c, c <| cmd_union :=
                 U_accepted_socket newsock (sk_daddr s) (wrap16 (sk_dport s)) |>);
           _ ← app_glue_set_user_data newsock None;
           i ← of_option parent;
           ipaugenblick_post_accepted cmd i
       end);
  s ← so_read newsock;
  _ ← require (so_sk s);
  so_write newsock (λ s, s <| sk_use_write_queue := false |>
    <| sk_data_ready := app_glue_sock_readable_cb |>
    <| sk_write_space := app_glue_sock_write_space_cb |>
    <| sk_error_report := app_glue_sock_error_report_cb |>).

Fixpoint user_on_accept (fuel : nat) (sock : Z) : M (svc K) unit :=
  match fuel with
  | O => fault
  | Datatypes.S fuel =>
      '(rc, newsock) ← kernel_accept sock;
      if rc =? 0 then _ ← accept_one sock newsock; user_on_accept fuel sock
      else mret tt
  end.
End callbacks.
