(* ===== verification/AppGlue.v ===== *)
(** * Ready queues and polling (porting/app_glue.c)

    The stack's callbacks put a socket on a ready queue; the periodic function
    polls the driver and the timers and empties the queues, each at its own
    interval.  A flag in the socket says whether it is on a queue, so that it
    is there at most once, and the read and write queues keep a count that
    bounds one pass over them. *)

From S2P Require Import Prelude Ring Mem Mbuf Service Server Callbacks.

Section app_glue.
Context {K : Type} `{Stack K}.

(** ** The stack's callbacks *)

(** [sk] is the address of [sk->sk_socket], 0 when that is null. *)
Definition app_glue_sock_readable (sk : Z) : M (svc K) unit :=
  if sk =? 0 then mret tt else
  s ← so_read sk;
  if negb (sk_state s =? TCP_ESTABLISHED) && (so_type s =? SOCK_STREAM) then mret tt
  else if read_queue_present s then
    len ← glue_get read_sockets_queue_len;
    if len =? 0 then exit_ else mret tt
  else
    _ ← user_inc readable_called;
    _ ← sock_hold sk;
    _ ← so_write sk (λ s, s <| read_queue_present := true |>);
    l ← glue_get read_ready;
    l' ← tailq_insert_tail l sk;
    on_glue (λ g, g <| read_ready := l' |>
                    <| read_sockets_queue_len := (read_sockets_queue_len g + 1) mod 2 ^ 64 |>).

Definition app_glue_sock_write_space (sk : Z) : M (svc K) unit :=
  if sk =? 0 then mret tt else
  s ← so_read sk;
  if negb (sk_state s =? TCP_ESTABLISHED) && (so_type s =? SOCK_STREAM) then mret tt
  else
    writeable ← sk_stream_is_writeable sk;
    if (writeable : bool) then
      _ ← so_write sk (λ s, s <| so_flags := Z.ldiff (so_flags s) (Z.shiftl 1 SOCK_NOSPACE) |>);
      s ← so_read sk;
      if write_queue_present s then mret tt
      else
        _ ← user_inc writable_called;
        _ ← sock_hold sk;
        _ ← so_write sk (λ s, s <| write_queue_present := true |>);
        l ← glue_get write_ready;
        l' ← tailq_insert_tail l sk;
        on_glue (λ g, g <| write_ready := l' |>
                        <| write_sockets_queue_len := (write_sockets_queue_len g + 1) mod 2 ^ 64 |>)
    else mret tt.

Definition app_glue_sock_error_report (sk : Z) : M (svc K) unit :=
  if sk =? 0 then mret tt else
  s ← so_read sk;
  if closed_queue_present s then mret tt
  else
    _ ← sock_hold sk;
    _ ← so_write sk (λ s, s <| closed_queue_present := true |>);
    l ← glue_get closed_ready;
    l' ← tailq_insert_tail l sk;
    on_glue (λ g, g <| closed_ready := l' |>).

Definition set_app_glue_callbacks (sk : Z) : M (svc K) unit :=
  so_write sk (λ s, s <| sk_use_write_queue := false |>
    <| sk_data_ready := app_glue_sock_readable_cb |>
    <| sk_write_space := app_glue_sock_write_space_cb |>
    <| sk_error_report := app_glue_sock_error_report_cb |>).

Definition app_glue_sock_wakeup (sk : Z) : M (svc K) unit :=
  listener ← inet_lookup_listener sk;
  if negb (listener =? 0) then
    s ← so_read listener;
    if accept_queue_present s then mret tt
    else
      _ ← sock_hold listener;
      _ ← so_write listener (λ s, s <| accept_queue_present := true |>);
      l ← glue_get accept_ready;
      l' ← tailq_insert_tail l listener;
      _ ← on_glue (λ g, g <| accept_ready := l' |>);
      set_app_glue_callbacks sk
  else
    _ ← app_glue_sock_write_space sk;
    set_app_glue_callbacks sk.

(** ** Sockets *)

Definition SOL_SOCKET : Z := 1.
Definition SO_RCVTIMEO : Z := 20.
Definition SO_SNDTIMEO : Z := 21.
(** [struct timeval] with [tv_sec = -1], [tv_usec = 0]. *)
Definition timeval_forever : list Z := le_bytes 8 (2 ^ 64 - 1) ++ le_bytes 8 0.

(** 0 when the socket cannot be created. *)
Definition app_glue_create_socket (family type : Z) : M (svc K) Z :=
  '(rc, sock) ← sock_create_kern family type;
  if negb (rc =? 0) then mret 0
  else
    _ ← sock_setsockopt sock SOL_SOCKET SO_RCVTIMEO timeval_forever 16;
    _ ← sock_setsockopt sock SOL_SOCKET SO_SNDTIMEO timeval_forever 16;
    if negb (type =? SOCK_STREAM) then
      s ← so_read sock;
      if so_sk s then
        _ ← so_write sock (λ s, s <| sk_use_write_queue := false |>
              <| sk_data_ready := app_glue_sock_readable_cb |>
              <| sk_write_space := app_glue_sock_write_space_cb |>);
        _ ← app_glue_sock_write_space sock;
        mret sock
      else mret sock
    else mret sock.

Definition inet_addr (ipaddr port : Z) : sockaddr_in :=
  mk_sockaddr AF_INET port ipaddr (replicate 8 0).

Definition app_glue_v4_bind (sock ipaddr port : Z) : M (svc K) Z :=
  kernel_bind sock (inet_addr ipaddr port).

(** [htons]. *)
Definition htons (x : Z) : Z := Z.lor (Z.shiftl (Z.land x 255) 8) (Z.shiftr (Z.land x 65280) 8).

(** Bind to random ports until one is free; [fuel] attempts. *)
Fixpoint bind_random (fuel : nat) (sock : Z) : M (svc K) unit :=
  match fuel with
  | O => fault
  | Datatypes.S fuel =>
      num ← inet_num sock;
      if negb (num =? 0) then mret tt
      else
        r ← random;
        rc ← kernel_bind sock (inet_addr 0 (htons (Z.land r 65535)));
        if rc =? 0 then mret tt else bind_random fuel sock
  end.

Definition app_glue_v4_connect (fuel : nat) (sock ipaddr port : Z) : M (svc K) Z :=
  s ← so_read sock;
  if negb (so_sk s) then mret (-1)
  else
    _ ← bind_random fuel sock;
    s ← so_read sock;
    _ ← (if so_sk s then so_write sock (λ s, s <| sk_state_change := app_glue_sock_wakeup_cb |>)
         else mret tt);
    _ ← kernel_connect sock (inet_addr ipaddr port);
    mret 0.

Definition app_glue_v4_listen (sock : Z) : M (svc K) Z :=
  s ← so_read sock;
  if so_sk s then
    _ ← so_write sock (λ s, s <| sk_state_change := app_glue_sock_wakeup_cb |>);
    rc ← kernel_listen sock 32000;
    mret (if rc =? 0 then 0 else -1)
  else exit_.

(** ** Emptying the ready queues *)

(** The pass over the closed queue; a socket leaves the queue, so [fuel] only
    has to exceed its length (and what is added meanwhile). *)
Fixpoint process_closed (fuel : nat) : M (svc K) unit :=
  match fuel with
  | O => fault
  | Datatypes.S fuel =>
      l ← glue_get closed_ready;
      match l : list Z with
      | [] => mret tt
      | sock :: _ =>
          _ ← user_on_socket_fatal sock;
          _ ← so_write sock (λ s, s <| closed_queue_present := false |>);
          l ← glue_get closed_ready;
          l' ← tailq_remove l sock;
          _ ← on_glue (λ g, g <| closed_ready := l' |>);
          _ ← sock_put sock;
          _ ← kernel_close sock;
          process_closed fuel
      end
  end.

Fixpoint process_accept (fuel : nat) : M (svc K) unit :=
  match fuel with
  | O => fault
  | Datatypes.S fuel' =>
      l ← glue_get accept_ready;
      match l : list Z with
      | [] => mret tt
      | sock :: _ =>
          _ ← user_on_accept fuel sock;
          _ ← so_write sock (λ s, s <| accept_queue_present := false |>);
          l ← glue_get accept_ready;
          l' ← tailq_remove l sock;
          _ ← on_glue (λ g, g <| accept_ready := l' |>);
          _ ← sock_put sock;
          process_accept fuel'
      end
  end.

(** At most [limit] sockets, the length of the queue when the pass began. *)
Fixpoint process_read (limit : nat) : M (svc K) unit :=
  match limit with
  | O => mret tt
  | Datatypes.S limit =>
      l ← glue_get read_ready;
      match l : list Z with
      | [] => mret tt
      | sock :: _ =>
          _ ← so_write sock (λ s, s <| read_queue_present := false |>);
          l' ← tailq_remove l sock;
          _ ← on_glue (λ g, g <| read_ready := l' |>);
          _ ← user_data_available_cbk sock;
          _ ← sock_put sock;
          _ ← on_glue (λ g, g <| read_sockets_queue_len :=
                 (read_sockets_queue_len g - 1) mod 2 ^ 64 |>);
          process_read limit
      end
  end.

Definition process_rx_ready_sockets (fuel : nat) : M (svc K) unit :=
  _ ← process_closed fuel;
  _ ← process_accept fuel;
  limit ← glue_get read_sockets_queue_len;
  process_read (Z.to_nat limit).

Fixpoint process_write (fuel : nat) (limit : nat) : M (svc K) unit :=
  match limit with
  | O => mret tt
  | Datatypes.S limit =>
      l ← glue_get write_ready;
      match l : list Z with
      | [] => mret tt
      | sock :: _ =>
          l' ← tailq_remove l sock;
          _ ← on_glue (λ g, g <| write_ready := l' |>);
          _ ← so_write sock (λ s, s <| write_queue_present := false |>);
          _ ← user_on_transmission_opportunity fuel sock;
          _ ← so_write sock (λ s, s <| so_flags := Z.lor (so_flags s) (Z.shiftl 1 SOCK_NOSPACE) |>);
          _ ← sock_put sock;
          _ ← on_glue (λ g, g <| write_sockets_queue_len :=
                 (write_sockets_queue_len g - 1) mod 2 ^ 64 |>);
          process_write fuel limit
      end
  end.

Definition process_tx_ready_sockets (fuel : nat) : M (svc K) unit :=
  limit ← glue_get write_sockets_queue_len;
  process_write fuel (Z.to_nat limit).

Definition app_glue_init : M (svc K) unit :=
  on_glue (λ g, g <| read_ready := [] |> <| write_ready := [] |> <| accept_ready := [] |>
                  <| closed_ready := [] |>).

(** ** Polling *)

(** An integer rounded to the 24-bit significand of a [float], to nearest and
    ties to even. *)
Definition round24 (x : Z) : Z :=
  if x <? 2 ^ 24 then x
  else
    let e := Z.log2 x - 23 in
    let q := x / 2 ^ e in
    let r := x mod 2 ^ e in
    let up := (2 ^ e <? 2 * r) || ((2 ^ e =? 2 * r) && Z.odd q) in
    (if up then q + 1 else q) * 2 ^ e.

(** [cycles_in_micro*(float)interval]: the integers are converted to [float],
    and so is their product. *)
Definition interval_cycles (tsc_hz interval : Z) : Z :=
  round24 (round24 (tsc_hz / 1000000) * round24 interval).

Definition app_glue_init_poll_intervals (tsc_hz drv timer tx rx : Z) : M (svc K) unit :=
  on_glue (λ g, g <| drv_poll_interval := interval_cycles tsc_hz drv |>
                  <| timer_poll_interval := interval_cycles tsc_hz timer |>
                  <| tx_poll_interval := interval_cycles tsc_hz tx |>
                  <| rx_poll_interval := interval_cycles tsc_hz rx |>).

Definition app_glue_poll (port_num : Z) : M (svc K) unit :=
  netdev ← get_dpdk_dev_by_port_num port_num;
  match netdev with None => mret tt | Some d => ndo_poll_controller d end.

(** [(ts - last) >= interval] on unsigned 64-bit integers. *)
Definition due (ts last interval : Z) : bool := interval <=? (ts - last) mod 2 ^ 64.

(** The cycle statistics are left out. *)
Definition app_glue_periodic (fuel : nat) (call_flush_queues : bool) (ports_to_poll : list Z)
    : M (svc K) unit :=
  _ ← user_inc periodic_called;
  ts ← rte_rdtsc;
  g ← glue_get id;
  _ ← (if due ts (drv_last_poll_ts g) (drv_poll_interval g) then
         _ ← for_each ports_to_poll app_glue_poll;
         on_glue (λ g, g <| drv_last_poll_ts := ts |>)
       else mret tt);
  _ ← (if due ts (timer_last_poll_ts g) (timer_poll_interval g) then
         _ ← rte_timer_manage;
         on_glue (λ g, g <| timer_last_poll_ts := ts |>)
       else mret tt);
  if call_flush_queues then
    g ← glue_get id;
    _ ← (if due ts (tx_last_poll_ts g) (tx_poll_interval g) then
           _ ← user_inc tx_queues_process;
           _ ← process_tx_ready_sockets fuel;
           on_glue (λ g, g <| tx_last_poll_ts := ts |>)
         else mret tt);
    g ← glue_get id;
    if due ts (rx_last_poll_ts g) (rx_poll_interval g) then
      _ ← user_inc rx_queues_process;
      _ ← process_rx_ready_sockets fuel;
      on_glue (λ g, g <| rx_last_poll_ts := ts |>)
    else mret tt
  else on_glue (λ g, g <| tx_last_poll_ts := ts |> <| rx_last_poll_ts := ts |>).

(** ** The queues, one socket at a time *)

(** The user data of a socket taken off a queue: [None] when it has no [sk]
    (the functions then print a message and return null, except for a closed
    socket, where the value is indeterminate). *)
Definition taken_data (sock : Z) : M (svc K) (option Z) :=
  s ← so_read sock; mret (if so_sk s then sk_user_data s else None).

Definition app_glue_get_next_closed : M (svc K) (option Z) :=
  l ← glue_get closed_ready;
  match l : list Z with
  | [] => mret None
  | sock :: _ =>
      _ ← so_write sock (λ s, s <| closed_queue_present := false |>);
      l' ← tailq_remove l sock;
      _ ← on_glue (λ g, g <| closed_ready := l' |>);
      s ← so_read sock;
      _ ← require (so_sk s);
      mret (sk_user_data s)
  end.

Definition app_glue_get_next_writer : M (svc K) (option Z) :=
  l ← glue_get write_ready;
  match l : list Z with
  | [] => mret None
  | sock :: _ =>
      _ ← so_write sock (λ s, s <| write_queue_present := false |>);
      l' ← tailq_remove l sock;
      _ ← on_glue (λ g, g <| write_ready := l' |>);
      taken_data sock
  end.

Definition app_glue_get_next_reader : M (svc K) (option Z) :=
  l ← glue_get read_ready;
  match l : list Z with
  | [] => mret None
  | sock :: _ =>
      _ ← so_write sock (λ s, s <| read_queue_present := false |>);
      l' ← tailq_remove l sock;
      _ ← on_glue (λ g, g <| read_ready := l' |>);
      taken_data sock
  end.

Definition app_glue_get_next_listener : M (svc K) (option Z) :=
  l ← glue_get accept_ready;
  match l : list Z with
  | [] => mret None
  | sock :: _ =>
      _ ← so_write sock (λ s, s <| accept_queue_present := false |>);
      l' ← tailq_remove l sock;
      _ ← on_glue (λ g, g <| accept_ready := l' |>);
      taken_data sock
  end.

(** ** Closing a socket *)

(** [while(kernel_accept(sock, &newsock, 0) == 0) kernel_close(newsock);] *)
Fixpoint refuse_pending (fuel : nat) (sock : Z) : M (svc K) unit :=
  match fuel with
  | O => fault
  | Datatypes.S fuel =>
      '(rc, newsock) ← kernel_accept sock;
      if rc =? 0 then _ ← kernel_close newsock; refuse_pending fuel sock else mret tt
  end.

Definition leave_read_queue (sock : Z) : M (svc K) unit :=
  s ← so_read sock;
  if read_queue_present s then
    l ← glue_get read_ready;
    l' ← tailq_remove l sock;
    _ ← on_glue (λ g, g <| read_ready := l' |>);
    _ ← so_write sock (λ s, s <| read_queue_present := false |>);
    on_glue (λ g, g <| read_sockets_queue_len := (read_sockets_queue_len g - 1) mod 2 ^ 64 |>)
  else mret tt.

Definition leave_write_queue (sock : Z) : M (svc K) unit :=
  s ← so_read sock;
  if write_queue_present s then
    l ← glue_get write_ready;
    l' ← tailq_remove l sock;
    _ ← on_glue (λ g, g <| write_ready := l' |>);
    _ ← so_write sock (λ s, s <| write_queue_present := false |>);
    on_glue (λ g, g <| write_sockets_queue_len := (write_sockets_queue_len g - 1) mod 2 ^ 64 |>)
  else mret tt.

Definition leave_accept_queue (fuel : nat) (sock : Z) : M (svc K) unit :=
  s ← so_read sock;
  if accept_queue_present s then
    _ ← refuse_pending fuel sock;
    l ← glue_get accept_ready;
    l' ← tailq_remove l sock;
    _ ← on_glue (λ g, g <| accept_ready := l' |>);
    so_write sock (λ s, s <| accept_queue_present := false |>)
  else mret tt.

Definition leave_closed_queue (sock : Z) : M (svc K) unit :=
  s ← so_read sock;
  if closed_queue_present s then
    l ← glue_get closed_ready;
    l' ← tailq_remove l sock;
    _ ← on_glue (λ g, g <| closed_ready := l' |>);
    so_write sock (λ s, s <| closed_queue_present := false |>)
  else mret tt.

(** [sock->sk->sk_write_space] is set without a test: a socket without [sk] is
    a null dereference. *)
Definition app_glue_close_socket (fuel : nat) (sock : Z) : M (svc K) unit :=
  _ ← leave_read_queue sock;
  _ ← leave_write_queue sock;
  _ ← leave_accept_queue fuel sock;
  _ ← leave_closed_queue sock;
  s ← so_read sock;
  _ ← require (so_sk s);
  _ ← so_write sock (λ s, s <| sk_user_data := None |>
        <| sk_write_space := if so_type s =? SOCK_STREAM then sk_stream_write_space_cb
                             else sock_def_write_space_cb |>
        <| sk_state_change := sock_def_wakeup_cb |>
        <| sk_data_ready := sock_def_readable_cb |>
        <| sk_error_report := sock_def_error_report_cb |>);
  kernel_close sock.

(** ** How much can be sent *)

Definition get_buffer_count : M (svc K) Z := rte_mempool_count MBUFS_MEMPOOL.
Definition get_buffer : M (svc K) (option Z) := rte_pktmbuf_alloc MBUFS_MEMPOOL.

Definition app_glue_calc_size_of_data_to_send (sock : Z) : M (svc K) Z :=
  writeable ← sk_stream_is_writeable sock;
  if negb writeable then mret 0
  else
    bufs_count1 ← fclone_free;
    bufs_count2 ← header_free;
    bufs_count3 ← get_buffer_count;
    let bufs_count1 := if 2 <? bufs_count1 then bufs_count1 - 2 else bufs_count1 in
    let bufs_count2 := if 2 <? bufs_count2 then bufs_count2 - 2 else bufs_count2 in
    let bufs_min := Z.min (Z.min bufs_count1 bufs_count2) bufs_count3 in
    if bufs_min <=? 0 then mret 0
    else
      stream_space ← sk_stream_wspace sock;
      mret (Z.min (sint32 (Z.shiftl bufs_min 10)) stream_space).
End app_glue.
