(* ===== verification/ServiceLoop.v ===== *)
(** * The service's command processing and main loop
    (ipaugenblick_service_loop.c)

    Commands arrive in buffers on the command ring, one per round of the main
    loop; each is executed and its buffer goes back to the pool. *)

From S2P Require Import Prelude Ring Mem Mbuf Service Server Callbacks AppGlue.

Section loop.
Context {K : Type} `{Stack K}.

(** ** Clients *)

(** One record of the update: its kind, then what [fill] writes behind it. *)
Definition send_record (client : Z) (kind : command) (fill : M (svc K) (option (list Z)))
    : M (svc K) bool :=
  buffer ← get_buffer;
  match buffer with
  | None => mret false
  | Some b =>
      '(_, off) ← rte_pktmbuf_mtod b;
      _ ← buf_store b off [command_code kind];
      bytes ← fill;
      _ ← (match bytes : option (list Z) with
           | Some bytes =>
               _ ← buf_store b (off + 1) bytes;
               set_data_len b (zlen bytes + 1)
           | None => mret tt
           end);
      c ← gets (λ s : svc K, clients s !! client);
      c ← of_option c;
      ring ← of_option (cl_client_ring c);
      _ ← enqueue ring b;
      mret true
  end.

Definition on_client_connect (client : Z) : M (svc K) unit :=
  sent ← send_record client NEW_IFACES (b ← get_all_devices; mret (Some b));
  if negb sent then mret tt else
  sent ← send_record client NEW_ADDRESSES (b ← get_all_addresses; mret (Some b));
  if negb sent then mret tt else
  _ ← send_record client END_OF_RECORD (mret None);
  mret tt.

Definition client_write (i : Z) (f : ipaugenblick_client → ipaugenblick_client) : M (svc K) unit :=
  c ← gets (λ s : svc K, clients s !! i);
  c ← of_option c;
  on_svc (λ s, s <| clients := <[i := f c]> (clients s) |>).

(** ** Commands, one definition per case of the switch *)

Definition SIOCADDRT : Z := 0x890B.
Definition SIOCDELRT : Z := 0x890C.
Definition RTF_UP : Z := 1.
Definition RTF_GATEWAY : Z := 2.

Definition do_open_socket (c : ipaugenblick_cmd) : M (svc K) unit :=
  match cmd_union c with
  | U_open_sock family type pid =>
      sock ← app_glue_create_socket family type;
      if sock =? 0 then mret tt
      else
        let i := cmd_ringset_idx c in
        _ ← sat_write i (λ d, d <| sat_ringset_idx := sint32 i |>
                                <| sat_parent_idx := cmd_parent_idx c |>
                                <| sat_apppid := sint32 pid |>);
        _ ← app_glue_set_user_data sock (Some i);
        _ ← sat_write i (λ d, d <| sat_socket := sock |>);
        space ← sk_stream_wspace sock;
        user_set_socket_tx_space (sint32 i) space
  | _ => fault
  end.

Definition do_connect_bind (fuel : nat) (c : ipaugenblick_cmd) : M (svc K) unit :=
  let i := cmd_ringset_idx c in
  d ← sat_read i;
  if sat_socket d =? 0 then mret tt
  else
    match cmd_union c with
    | U_socket_connect_bind ipaddr port is_connect =>
        if negb (is_connect =? 0) then
          rc ← app_glue_v4_connect fuel (sat_socket d) ipaddr port;
          if negb (rc =? 0) then mret tt
          else
            addr ← inet_getname (sat_socket d);
            sock_write i (λ s, s <| s_local_ipaddr := sin_addr addr |>
                                 <| s_local_port := sin_port addr |>)
        else _ ← app_glue_v4_bind (sat_socket d) ipaddr port; mret tt
    | _ => fault
    end.

(** The socket is not tested: a listen on a connection without one passes a
    null pointer on. *)
Definition do_listen (c : ipaugenblick_cmd) : M (svc K) unit :=
  d ← sat_read (cmd_ringset_idx c);
  _ ← app_glue_v4_listen (sat_socket d);
  mret tt.

Definition do_close (fuel : nat) (c : ipaugenblick_cmd) : M (svc K) unit :=
  let i := cmd_ringset_idx c in
  d ← sat_read i;
  if sat_socket d =? 0 then mret tt
  else
    _ ← user_flush_rx_tx (sat_socket d);
    _ ← app_glue_close_socket fuel (sat_socket d);
    _ ← sat_write i (λ d, d <| sat_socket := 0 |> <| sat_ringset_idx := -1 |>
                            <| sat_parent_idx := -1 |>);
    _ ← ipaugenblick_free_socket i;
    user_inc sockets_closed.

Definition do_tx_kick (fuel : nat) (c : ipaugenblick_cmd) : M (svc K) unit :=
  d ← sat_read (cmd_ringset_idx c);
  if sat_socket d =? 0 then mret tt
  else _ ← user_inc kick_tx; user_on_transmission_opportunity fuel (sat_socket d).

Definition do_rx_kick (c : ipaugenblick_cmd) : M (svc K) unit :=
  d ← sat_read (cmd_ringset_idx c);
  if sat_socket d =? 0 then mret tt
  else _ ← user_inc kick_rx; user_data_available_cbk (sat_socket d).

Definition do_set_ring (c : ipaugenblick_cmd) : M (svc K) unit :=
  match cmd_union c with
  | U_set_socket_ring descr pid =>
      let i := cmd_ringset_idx c in
      _ ← sat_write i (λ d, d <| sat_ringset_idx := sint32 i |>);
      _ ← (if cmd_parent_idx c =? -1 then mret tt
           else sat_write i (λ d, d <| sat_parent_idx := cmd_parent_idx c |>));
      _ ← sat_write i (λ d, d <| sat_apppid := sint32 pid |>);
      _ ← app_glue_set_user_data descr (Some i);
      _ ← sat_write i (λ d, d <| sat_socket := descr |>);
      space ← sk_stream_wspace descr;
      _ ← user_set_socket_tx_space (sint32 i) space;
      _ ← user_data_available_cbk descr;
      _ ← ipaugenblick_mark_writable i;
      _ ← ipaugenblick_mark_readable i;
      user_inc client_app_accepted
  | _ => fault
  end.

Definition do_set_select (c : ipaugenblick_cmd) : M (svc K) unit :=
  match cmd_union c with
  | U_set_socket_select sel pid =>
      let i := cmd_ringset_idx c in
      _ ← sat_write i (λ d, d <| sat_parent_idx := sel |> <| sat_apppid := sint32 pid |>);
      d ← sat_read i;
      _ ← user_data_available_cbk (sat_socket d);
      _ ← ipaugenblick_mark_writable i;
      ipaugenblick_mark_readable i
  | _ => fault
  end.

Definition do_tx_pool_empty (c : ipaugenblick_cmd) : M (svc K) unit :=
  d ← sat_read (cmd_ringset_idx c);
  if sat_socket d =? 0 then mret tt
  else
    s ← so_read (sat_socket d);
    if buffers_available_present s then mret tt
    else
      l ← gets (λ s : svc K, buffers_available s);
      l' ← tailq_insert_tail l (sat_socket d);
      _ ← on_svc (λ s, s <| buffers_available := l' |>);
      _ ← so_write (sat_socket d) (λ s, s <| buffers_available_present := true |>);
      if so_type s =? SOCK_DGRAM then
        space ← sk_stream_wspace (sat_socket d);
        user_set_socket_tx_space (sat_ringset_idx d) space
      else mret tt.

Definition zero_addr : sockaddr_in := mk_sockaddr 0 0 0 (replicate 8 0).
Definition net_addr (ipaddr : Z) : sockaddr_in :=
  zero_addr <| sin_family := AF_INET |> <| sin_addr := ipaddr |>.

Definition do_route (request : Z) (c : ipaugenblick_cmd) : M (svc K) unit :=
  match cmd_union c with
  | U_route dest mask next_hop metric =>
      _ ← ip_rt_ioctl request
            (mk_rtentry (net_addr dest) (net_addr next_hop) (net_addr mask)
               (if request =? SIOCADDRT then Z.lor RTF_UP RTF_GATEWAY else 0)
               (if request =? SIOCADDRT then metric else 0));
      mret tt
  | _ => fault
  end.

Definition do_connect_client (c : ipaugenblick_cmd) : M (svc K) unit :=
  let i := cmd_ringset_idx c in
  if IPAUGENBLICK_CLIENTS_POOL_SIZE <=? i then mret tt
  else
    cl ← gets (λ s : svc K, clients s !! i);
    cl ← of_option cl;
    if cl_is_busy cl then mret tt
    else
      l ← gets (λ s : svc K, clients_list s);
      l' ← tailq_insert_tail l i;
      _ ← on_svc (λ s, s <| clients_list := l' |>);
      _ ← client_write i (λ c, c <| cl_is_busy := true |>);
      on_client_connect i.

Definition do_disconnect_client (c : ipaugenblick_cmd) : M (svc K) unit :=
  let i := cmd_ringset_idx c in
  if IPAUGENBLICK_CLIENTS_POOL_SIZE <=? i then mret tt
  else
    cl ← gets (λ s : svc K, clients s !! i);
    cl ← of_option cl;
    if cl_is_busy cl then
      l ← gets (λ s : svc K, clients_list s);
      l' ← tailq_remove l i;
      _ ← on_svc (λ s, s <| clients_list := l' |>);
      client_write i (λ c, c <| cl_is_busy := false |>)
    else mret tt.

Definition do_setsockopt (c : ipaugenblick_cmd) : M (svc K) unit :=
  d ← sat_read (cmd_ringset_idx c);
  if sat_socket d =? 0 then mret tt
  else
    match cmd_union c with
    | U_setsockopt level optname optlen optval =>
        _ ← sock_setsockopt (sat_socket d) level optname optval optlen; mret tt
    | _ => fault
    end.

Definition do_shutdown (c : ipaugenblick_cmd) : M (svc K) unit :=
  d ← sat_read (cmd_ringset_idx c);
  if sat_socket d =? 0 then mret tt
  else
    match cmd_union c with
    | U_socket_shutdown how =>
        _ ← inet_shutdown (sat_socket d) how; user_inc sockets_shutdown
    | _ => fault
    end.

Definition do_decline (fuel : nat) (c : ipaugenblick_cmd) : M (svc K) unit :=
  match cmd_union c with
  | U_socket_decline descr =>
      _ ← user_flush_rx_tx descr;
      _ ← app_glue_close_socket fuel descr;
      user_inc sockets_closed
  | _ => fault
  end.

Definition execute (fuel : nat) (c : ipaugenblick_cmd) : M (svc K) unit :=
  match cmd_cmd c with
  | OPEN_SOCKET_COMMAND => do_open_socket c
  | SOCKET_CONNECT_BIND_COMMAND => do_connect_bind fuel c
  | LISTEN_SOCKET_COMMAND => do_listen c
  | SOCKET_CLOSE_COMMAND => do_close fuel c
  | SOCKET_TX_KICK_COMMAND => do_tx_kick fuel c
  | SOCKET_RX_KICK_COMMAND => do_rx_kick c
  | SET_SOCKET_RING_COMMAND => do_set_ring c
  | SET_SOCKET_SELECT_COMMAND => do_set_select c
  | SOCKET_TX_POOL_EMPTY_COMMAND => do_tx_pool_empty c
  | ROUTE_ADD_COMMAND => do_route SIOCADDRT c
  | ROUTE_DEL_COMMAND => do_route SIOCDELRT c
  | CONNECT_CLIENT => do_connect_client c
  | DISCONNECT_CLIENT => do_disconnect_client c
  | SETSOCKOPT_COMMAND => do_setsockopt c
  | SOCKET_SHUTDOWN_COMMAND => do_shutdown c
  | SOCKET_DECLINE_COMMAND => do_decline fuel c
  | _ => mret tt
  end.

(** [process_commands]: one command, its buffer returned to the pool. *)
Definition process_commands (fuel : nat) : M (svc K) unit :=
  cmd ← ipaugenblick_dequeue_command_buf;
  match cmd with
  | None => mret tt
  | Some cmd =>
      c ← cmd_read cmd;
      _ ← execute fuel c;
      ipaugenblick_free_command_buf cmd
  end.

(** ** The main loop *)

(** The inner loop: tell sockets that buffers are available again.  [garbage] is
    what [ipaugenblick_mark_writable] leaves where it returns no value. *)
Fixpoint notify_buffers_available (fuel : nat) (garbage : Z) : M (svc K) unit :=
  match fuel with
  | O => fault
  | Datatypes.S fuel =>
      l ← gets (λ s : svc K, buffers_available s);
      match l : list Z with
      | [] => mret tt
      | sock :: _ =>
          count ← get_buffer_count;
          if 0 <? count then
            data ← get_user_data sock;
            i ← of_option data;
            d ← sat_read i;
            s ← so_read (sat_socket d);
            _ ← (if so_type s =? SOCK_DGRAM then
                   space ← sk_stream_wspace (sat_socket d);
                   user_set_socket_tx_space (sat_ringset_idx d) space
                 else mret tt);
            rc ← ipaugenblick_mark_writable i;
            if default garbage rc =? 0 then
              _ ← so_write sock (λ s, s <| buffers_available_present := false |>);
              l ← gets (λ s : svc K, buffers_available s);
              l' ← tailq_remove l sock;
              _ ← on_svc (λ s, s <| buffers_available := l' |>);
              notify_buffers_available fuel garbage
            else mret tt
          else mret tt
      end
  end.

(** One round of [while(1)]. *)
Definition main_loop_round (fuel : nat) (garbage : Z) : M (svc K) unit :=
  _ ← process_commands fuel;
  _ ← app_glue_periodic fuel true [0];
  notify_buffers_available fuel garbage.

Fixpoint main_loop_rounds (n : nat) (fuel : nat) (garbage : Z) : M (svc K) unit :=
  match n with
  | O => mret tt
  | Datatypes.S n => _ ← main_loop_round fuel garbage; main_loop_rounds n fuel garbage
  end.

(** [ipaugenblick_main_loop], its first [n] rounds. *)
Definition ipaugenblick_main_loop (n fuel : nat) (garbage tsc_hz drv_poll_interval : Z)
    (reserve : string → option (list Z)) (objs : ring_id → list Z) : M (svc K) unit :=
  _ ← app_glue_init_poll_intervals tsc_hz
        (Z.quot drv_poll_interval (2 * 32)) 100
        (Z.quot drv_poll_interval (10 * 32)) (Z.quot drv_poll_interval (60 * 32));
  _ ← ipaugenblick_service_api_init reserve objs COMMAND_POOL_SIZE DATA_RINGS_SIZE DATA_RINGS_SIZE;
  _ ← on_svc (λ s, s <| buffers_available := [] |> <| clients_list := [] |>);
  main_loop_rounds n fuel garbage.
End loop.
