(* ===== verification/Keeps.v ===== *)
(** * Preserved properties

    [keeps I m] says that [m], where it returns, preserves the property [I] of
    the state.  The rules below follow the structure of the code, so that the
    proof that an operation keeps a property is a search ([keeps_auto]) that
    stops at the writes [I] depends on.  [ShmFree] says that a property does not
    depend on the shared memory; the operations of [Mem] and [Mbuf] keep all
    such properties. *)

From S2P Require Import Prelude Ring Mem Mbuf.

Definition wlp {S A} (m : M S A) (Q : A → S → Prop) (s : S) : Prop :=
  match m s with Done (a, s') => Q a s' | Exit | Fault => True end.

Definition keeps {S A} (I : S → Prop) (m : M S A) : Prop := ∀ s, I s → wlp m (λ _, I) s.

(** ** Rules *)

Section rules.
Context {S : Type}.

Lemma wlp_bind {A B} (m : M S A) (k : A → M S B) Q s :
  wlp (m ≫= k) Q s ↔ wlp m (λ a, wlp (k a) Q) s.
Proof. unfold wlp, mbind, M_bind. by destruct (m s) as [[]| |]. Qed.

Lemma wlp_ret {A} (a : A) (Q : A → S → Prop) s : wlp (mret a) Q s ↔ Q a s.
Proof. done. Qed.

Lemma wlp_mono {A} (m : M S A) (Q Q' : A → S → Prop) s :
  wlp m Q s → (∀ a s', Q a s' → Q' a s') → wlp m Q' s.
Proof. unfold wlp. destruct (m s) as [[]| |]; auto. Qed.

Lemma wlp_done {A} (m : M S A) (Q : A → S → Prop) s a s' :
  wlp m Q s → m s = Done (a, s') → Q a s'.
Proof. unfold wlp. intros H Hm. by rewrite Hm in H. Qed.

Lemma wlp_intro {A} (m : M S A) (Q : A → S → Prop) s :
  (∀ a s', m s = Done (a, s') → Q a s') → wlp m Q s.
Proof. unfold wlp. intros H. destruct (m s) as [[]| |]; auto. Qed.

Lemma wlp_of_option {A} (o : option A) (Q : A → S → Prop) (s : S) :
  (∀ a, o = Some a → Q a s) → wlp (of_option o) Q s.
Proof. intros HQ. destruct o; [by apply HQ|done]. Qed.

Implicit Types I : S → Prop.

Lemma keeps_ret {A} I (a : A) : keeps I (mret a).
Proof. by intros s HI. Qed.

Lemma keeps_bind {A B} I (m : M S A) (k : A → M S B) :
  keeps I m → (∀ a, keeps I (k a)) → keeps I (m ≫= k).
Proof. intros Hm Hk s HI. apply wlp_bind. eapply wlp_mono; [by apply Hm|]. intros a s'. apply Hk. Qed.

Lemma keeps_gets {A} I (f : S → A) : keeps I (gets f).
Proof. by intros s HI. Qed.

Lemma keeps_modify I (f : S → S) : (∀ s, I s → I (f s)) → keeps I (modify f).
Proof. intros Hf s HI. apply (Hf s HI). Qed.

Lemma keeps_fault {A} I : keeps I (@fault S A).
Proof. by intros s HI. Qed.

Lemma keeps_exit {A} I : keeps I (@exit_ S A).
Proof. by intros s HI. Qed.

Lemma keeps_require I b : keeps I (require b).
Proof. destruct b; [apply keeps_ret|apply keeps_fault]. Qed.

Lemma keeps_of_option {A} I (o : option A) : keeps I (of_option o).
Proof. destruct o; [apply keeps_ret|apply keeps_fault]. Qed.

Lemma keeps_when I b m : keeps I m → keeps I (when b m).
Proof. intros Hm. destruct b; [done|apply keeps_ret]. Qed.

Lemma keeps_for_each I l (f : Z → M S unit) : (∀ x, keeps I (f x)) → keeps I (for_each l f).
Proof. intros Hf. induction l; cbn; [apply keeps_ret|by apply keeps_bind]. Qed.

Lemma keeps_tailq_insert I l x : keeps I (tailq_insert_tail l x).
Proof. unfold tailq_insert_tail. case_decide; [apply keeps_fault|apply keeps_ret]. Qed.

Lemma keeps_tailq_remove I l x : keeps I (tailq_remove l x).
Proof. unfold tailq_remove. case_decide; [apply keeps_ret|apply keeps_fault]. Qed.
End rules.

Create HintDb keeps.
#[export] Hint Resolve keeps_ret keeps_gets keeps_fault keeps_exit keeps_require keeps_of_option
  keeps_tailq_insert keeps_tailq_remove : keeps.

(** One step along the structure of the code. *)
Ltac keeps_step :=
  first
    [ solve [eauto 2 with keeps nocore]
    | lazymatch goal with
      | |- keeps _ (mbind _ _) => apply keeps_bind; [|intros ?]
      | |- keeps _ (when _ _) => apply keeps_when
      | |- keeps _ (for_each _ _) => apply keeps_for_each; intros ?
      | |- keeps _ (match ?x with _ => _ end) => destruct x
      end ].
Ltac keeps_auto := repeat (cbv zeta; keeps_step).

(** ** Properties that do not depend on the shared memory *)

Class ShmFree {S} `{Part shm S} (I : S → Prop) : Prop := shm_free t s : I s → I (part_set t s).

Section shm.
Context {S : Type} `{Part shm S} (I : S → Prop) `{!ShmFree I}.

Lemma keeps_set_shm f : keeps I (set_shm f).
Proof. apply keeps_modify. intros s. by apply shm_free. Qed.
Hint Resolve keeps_set_shm : keeps.

Lemma keeps_ring_deref id : keeps I (ring_deref id).
Proof. unfold ring_deref, rte_ring_lookup. keeps_auto. Qed.
Hint Resolve keeps_ring_deref : keeps.
Lemma keeps_on_enqueue f id : keeps I (on_enqueue f id).
Proof. unfold on_enqueue, ring_store. keeps_auto. Qed.
Lemma keeps_on_dequeue f n id : keeps I (on_dequeue f n id).
Proof. unfold on_dequeue, ring_store. keeps_auto. Qed.
Hint Resolve keeps_on_enqueue keeps_on_dequeue : keeps.
Lemma keeps_enqueue id obj : keeps I (enqueue id obj).
Proof. unfold enqueue. keeps_auto. Qed.
Lemma keeps_sp_enqueue_bulk id objs n : keeps I (sp_enqueue_bulk id objs n).
Proof. unfold sp_enqueue_bulk. keeps_auto. Qed.
Lemma keeps_dequeue id : keeps I (dequeue id).
Proof. unfold dequeue. keeps_auto. Qed.
Lemma keeps_sc_dequeue id : keeps I (sc_dequeue id).
Proof. unfold sc_dequeue. keeps_auto. Qed.
Lemma keeps_sc_dequeue_burst id n : keeps I (sc_dequeue_burst id n).
Proof. unfold sc_dequeue_burst. keeps_auto. Qed.
Lemma keeps_ring_count id : keeps I (ring_count id).
Proof. unfold ring_count. keeps_auto. Qed.
Lemma keeps_ring_free_count id : keeps I (ring_free_count id).
Proof. unfold ring_free_count. keeps_auto. Qed.
Lemma keeps_mempool_get pool : keeps I (rte_mempool_get pool).
Proof. unfold rte_mempool_get, rte_mempool_get_bulk, mc_dequeue_bulk. keeps_auto. Qed.
Lemma keeps_mempool_put pool obj : keeps I (rte_mempool_put pool obj).
Proof. unfold rte_mempool_put, rte_mempool_put_bulk, mp_enqueue_bulk. keeps_auto. Qed.
Hint Resolve keeps_enqueue keeps_mempool_get keeps_mempool_put keeps_ring_count : keeps.
Lemma keeps_mempool_count pool : keeps I (rte_mempool_count pool).
Proof. apply keeps_ring_count. Qed.

Lemma keeps_cmd_read p : keeps I (cmd_read p).
Proof. unfold cmd_read. keeps_auto. Qed.
Hint Resolve keeps_cmd_read : keeps.
Lemma keeps_cmd_write p f : keeps I (cmd_write p f).
Proof. unfold cmd_write. keeps_auto. Qed.
Lemma keeps_get_free_command_buf : keeps I ipaugenblick_get_free_command_buf.
Proof. unfold ipaugenblick_get_free_command_buf. keeps_auto. Qed.
Lemma keeps_free_command_buf cmd : keeps I (ipaugenblick_free_command_buf cmd).
Proof. unfold ipaugenblick_free_command_buf. keeps_auto. Qed.

Lemma keeps_sock_read i : keeps I (sock_read i).
Proof. unfold sock_read. keeps_auto. Qed.
Hint Resolve keeps_sock_read : keeps.
Lemma keeps_sock_write i f : keeps I (sock_write i f).
Proof. unfold sock_write. keeps_auto. Qed.
Hint Resolve keeps_sock_write : keeps.
Lemma keeps_test_and_set i get set : keeps I (test_and_set i get set).
Proof. unfold test_and_set. keeps_auto. Qed.

Lemma keeps_mbuf_read p : keeps I (mbuf_read p).
Proof. unfold mbuf_read. keeps_auto. Qed.
Hint Resolve keeps_mbuf_read : keeps.
Lemma keeps_mbuf_write p f : keeps I (mbuf_write p f).
Proof. unfold mbuf_write. keeps_auto. Qed.
Hint Resolve keeps_mbuf_write : keeps.
Lemma keeps_data_len p : keeps I (rte_pktmbuf_data_len p).
Proof. unfold rte_pktmbuf_data_len. keeps_auto. Qed.
Lemma keeps_mtod p : keeps I (rte_pktmbuf_mtod p).
Proof. unfold rte_pktmbuf_mtod. keeps_auto. Qed.
Lemma keeps_set_data_len p n : keeps I (set_data_len p n).
Proof. unfold set_data_len. keeps_auto. Qed.
Lemma keeps_pktmbuf_alloc mp : keeps I (rte_pktmbuf_alloc mp).
Proof. unfold rte_pktmbuf_alloc, rte_mbuf_raw_alloc, rte_pktmbuf_reset. keeps_auto. Qed.
Lemma keeps_free_seg p : keeps I (rte_pktmbuf_free_seg p).
Proof. unfold rte_pktmbuf_free_seg, __rte_pktmbuf_prefree_seg, rte_mbuf_refcnt_update. keeps_auto. Qed.
Hint Resolve keeps_free_seg keeps_mtod : keeps.
Lemma keeps_free_loop fuel : ∀ p, keeps I (free_loop fuel p).
Proof. induction fuel as [|fuel IH]; intros p; cbn [free_loop]; keeps_auto. Qed.
Hint Resolve keeps_free_loop : keeps.
Lemma keeps_pktmbuf_free p : keeps I (rte_pktmbuf_free p).
Proof. unfold rte_pktmbuf_free, chain_fuel. keeps_auto. Qed.
Lemma keeps_buf_store p off bs : keeps I (buf_store p off bs).
Proof. unfold buf_store. keeps_auto. Qed.
Lemma keeps_buf_load p off n : keeps I (buf_load p off n).
Proof. unfold buf_load. keeps_auto. Qed.
Hint Resolve keeps_buf_store keeps_buf_load : keeps.
Lemma keeps_store_sockaddr p a : keeps I (store_sockaddr p a).
Proof. unfold store_sockaddr. keeps_auto. Qed.
Lemma keeps_load_sockaddr p : keeps I (load_sockaddr p).
Proof. unfold load_sockaddr. keeps_auto. Qed.
End shm.

#[export] Hint Resolve keeps_set_shm keeps_ring_deref keeps_enqueue keeps_sp_enqueue_bulk
  keeps_dequeue keeps_sc_dequeue keeps_sc_dequeue_burst keeps_ring_count keeps_ring_free_count
  keeps_mempool_get keeps_mempool_put keeps_mempool_count keeps_cmd_read keeps_cmd_write
  keeps_get_free_command_buf keeps_free_command_buf keeps_sock_read keeps_sock_write
  keeps_test_and_set keeps_mbuf_read keeps_mbuf_write keeps_data_len keeps_mtod
  keeps_set_data_len keeps_pktmbuf_alloc keeps_free_seg keeps_pktmbuf_free keeps_buf_store
  keeps_store_sockaddr keeps_load_sockaddr : keeps.
#[export] Hint Extern 0 (ShmFree _) => typeclasses eauto : keeps.
#[export] Hint Extern 0 (PartLaws _ _) => typeclasses eauto : keeps.
