(* ===== verification/Queues.v ===== *)
(** * The ready queues stay consistent
    (porting/app_glue.c, user_callbacks.h, ipaugenblick_service_loop.c)

    A socket is linked into five intrusive lists by hand, each with a flag in
    the socket that says whether it is linked; two of the lists have a length
    kept beside them.  This file states the agreement of lists, flags and
    lengths ([queues_ok]) and follows it through every callback of the stack,
    every pass over the queues and every command.  The stack itself is only
    assumed to reach the queues through the callbacks ([stack_step]). *)

From S2P Require Import Prelude Ring Mem Mbuf Service Server Callbacks AppGlue ServiceLoop Keeps.

(** ** Lists, flags, lengths *)

Inductive queue := Q_read | Q_write | Q_accept | Q_closed | Q_buffers.

#[export] Instance queue_eq_dec : EqDecision queue.
Proof. solve_decision. Defined.

Definition flag (q : queue) (so : socket) : bool :=
  match q with
  | Q_read => read_queue_present so
  | Q_write => write_queue_present so
  | Q_accept => accept_queue_present so
  | Q_closed => closed_queue_present so
  | Q_buffers => buffers_available_present so
  end.

Section queues.
Context {K : Type}.
Implicit Types (s : svc K).

Definition linked (q : queue) (s : svc K) : list Z :=
  match q with
  | Q_read => read_ready (sv_glue s)
  | Q_write => write_ready (sv_glue s)
  | Q_accept => accept_ready (sv_glue s)
  | Q_closed => closed_ready (sv_glue s)
  | Q_buffers => buffers_available s
  end.

(** A list holds each socket once, and exactly the live sockets whose flag is set. *)
Record queue_ok (q : queue) (s : svc K) : Prop := {
  qo_nodup : NoDup (linked q s);
  qo_flag p : p ∈ linked q s ↔ ∃ so, sockets s !! p = Some so ∧ flag q so = true;
}.

(** [kr] and [kw] sockets have been taken off the read and the write list and are
    still counted: a pass takes a socket off, serves it, and counts it off then. *)
Record queues_ok (kr kw : Z) (s : svc K) : Prop := {
  qs_queues q : queue_ok q s;
  qs_read : read_sockets_queue_len (sv_glue s) = (zlen (linked Q_read s) + kr) mod 2 ^ 64;
  qs_write : write_sockets_queue_len (sv_glue s) = (zlen (linked Q_write s) + kw) mod 2 ^ 64;
}.

(** Two sockets with the same flags. *)
Definition same_flags (a b : socket) : Prop := ∀ q, flag q a = flag q b.

(** What the agreement depends on. *)
Record same_queues (s s' : svc K) : Prop := {
  sq_linked q : linked q s' = linked q s;
  sq_flag q p : (∃ so, sockets s' !! p = Some so ∧ flag q so = true) ↔
                (∃ so, sockets s !! p = Some so ∧ flag q so = true);
  sq_read : read_sockets_queue_len (sv_glue s') = read_sockets_queue_len (sv_glue s);
  sq_write : write_sockets_queue_len (sv_glue s') = write_sockets_queue_len (sv_glue s);
}.

Lemma same_queues_ok kr kw s s' : same_queues s s' → queues_ok kr kw s → queues_ok kr kw s'.
Proof.
  intros [Hl Hf Hr Hw] [Hq Hqr Hqw]. split.
  - intros q. destruct (Hq q) as [Hnd Hfl]. split; [by rewrite Hl|]. intros p. by rewrite Hl, Hfl, Hf.
  - by rewrite Hr, Hl.
  - by rewrite Hw, Hl.
Qed.

Lemma same_queues_refl s : same_queues s s.
Proof. by split. Qed.

(** *** Code that does not touch the queues *)

(** A property of the queues alone. *)
Class QueueView (I : svc K → Prop) : Prop := queue_view s s' : same_queues s s' → I s → I s'.

#[export] Instance queues_ok_view kr kw : QueueView (queues_ok kr kw).
Proof. intros s s'. apply same_queues_ok. Qed.

#[export] Instance queue_view_shm_free (I : svc K → Prop) : QueueView I → ShmFree I.
Proof. intros HI t s. apply HI. by split; destruct s. Qed.

Section view.
Context (I : svc K → Prop) `{HI : !QueueView I}.

Lemma keeps_on_svc f : (∀ s, same_queues s (f s)) → keeps I (on_svc f).
Proof. intros Hf. apply keeps_modify. intros s. by apply HI. Qed.

Lemma keeps_user_add st n : keeps I (user_add st n).
Proof. apply keeps_on_svc. by split. Qed.
Lemma keeps_user_inc st : keeps I (user_inc st).
Proof. apply keeps_user_add. Qed.
Lemma keeps_signal_app pid : keeps I (signal_app pid).
Proof. apply keeps_when, keeps_on_svc. by split. Qed.
Lemma keeps_glue_get {A} (f : glue → A) : keeps I (glue_get f).
Proof. apply keeps_gets. Qed.
Lemma keeps_sat_read i : keeps I (sat_read i).
Proof. unfold sat_read. keeps_auto. Qed.
Hint Resolve keeps_sat_read : keeps.
Lemma keeps_sat_write i f : keeps I (sat_write i f).
Proof. unfold sat_write. keeps_auto. apply keeps_on_svc. by split. Qed.
Lemma keeps_so_read p : keeps I (so_read p).
Proof. unfold so_read. keeps_auto. Qed.
Hint Resolve keeps_so_read : keeps.
Lemma keeps_client_write i f : keeps I (client_write i f).
Proof. unfold client_write. keeps_auto. apply keeps_on_svc. by split. Qed.
Lemma keeps_selector_ring sel : keeps I (selector_ring sel).
Proof. unfold selector_ring. keeps_auto. Qed.
Lemma keeps_sat_ring f i : keeps I (sat_ring f i).
Proof. unfold sat_ring. keeps_auto. Qed.

(** Writing the other fields of a socket. *)
Lemma same_queues_so_write p so so' s :
  sockets s !! p = Some so → same_flags so' so →
  same_queues s (s <| sockets := <[p := so']> (sockets s) |>).
Proof.
  intros Hp Hf. split; [by intros []| |done..].
  intros q p'. change (sockets (s <| sockets := <[p := so']> (sockets s) |>))
    with (<[p := so']> (sockets s)).
  destruct (decide (p' = p)) as [->|Hne].
  - rewrite lookup_insert_eq, Hp. specialize (Hf q).
    split; intros (x & [= <-] & Hx); eexists; (split; [done|congruence]).
  - by rewrite lookup_insert_ne.
Qed.

Lemma keeps_so_write p f : (∀ so, same_flags (f so) so) → keeps I (so_write p f).
Proof.
  intros Hf s Hs. unfold so_write, so_read, on_svc. unfold wlp, mbind, M_bind, gets, of_option.
  destruct (sockets s !! p) as [so|] eqn:Hp; cbn; [|done].
  revert Hs. apply HI. by apply (same_queues_so_write p so).
Qed.
End view.
End queues.

#[export] Hint Resolve keeps_user_add keeps_user_inc keeps_signal_app keeps_glue_get keeps_sat_read
  keeps_sat_write keeps_so_read keeps_client_write keeps_selector_ring keeps_sat_ring : keeps.
#[export] Hint Extern 0 (QueueView _) => typeclasses eauto : keeps.
#[export] Hint Extern 2 (keeps _ (so_write _ _)) => (apply keeps_so_write; [apply _|by intros ? []]) : keeps.

(** ** The service's own operations *)

Section service.
Context {K : Type} (I : svc K → Prop) `{HI : !QueueView I}.

Lemma keeps_mark_readable i : keeps I (ipaugenblick_mark_readable i).
Proof. unfold ipaugenblick_mark_readable. keeps_auto. Qed.
Lemma keeps_mark_writable i : keeps I (ipaugenblick_mark_writable i).
Proof. unfold ipaugenblick_mark_writable. keeps_auto. Qed.
Lemma keeps_mark_closed i : keeps I (ipaugenblick_mark_closed i).
Proof. unfold ipaugenblick_mark_closed. keeps_auto. Qed.
Hint Resolve keeps_mark_readable keeps_mark_writable keeps_mark_closed : keeps.
Lemma keeps_post_accepted cmd i : keeps I (ipaugenblick_post_accepted cmd i).
Proof. unfold ipaugenblick_post_accepted. keeps_auto. Qed.
Lemma keeps_dequeue_tx_buf i : keeps I (ipaugenblick_dequeue_tx_buf i).
Proof. unfold ipaugenblick_dequeue_tx_buf. keeps_auto. Qed.
Lemma keeps_dequeue_tx_buf_burst i n : keeps I (ipaugenblick_dequeue_tx_buf_burst i n).
Proof. unfold ipaugenblick_dequeue_tx_buf_burst. keeps_auto. Qed.
Lemma keeps_tx_buf_count i : keeps I (ipaugenblick_tx_buf_count i).
Proof. unfold ipaugenblick_tx_buf_count. keeps_auto. Qed.
Lemma keeps_rx_buf_free_count i : keeps I (ipaugenblick_rx_buf_free_count i).
Proof. unfold ipaugenblick_rx_buf_free_count. keeps_auto. Qed.
Lemma keeps_submit_rx_buf mbuf i : keeps I (ipaugenblick_submit_rx_buf mbuf i).
Proof. unfold ipaugenblick_submit_rx_buf. keeps_auto. Qed.
Lemma keeps_free_socket i : keeps I (ipaugenblick_free_socket i).
Proof. unfold ipaugenblick_free_socket. keeps_auto. Qed.
Lemma keeps_dequeue_command_buf : keeps I ipaugenblick_dequeue_command_buf.
Proof. unfold ipaugenblick_dequeue_command_buf. keeps_auto. Qed.

Lemma keeps_get_user_data p : keeps I (get_user_data p).
Proof. unfold get_user_data. keeps_auto. Qed.
Lemma keeps_set_user_data p data : keeps I (app_glue_set_user_data p data).
Proof. unfold app_glue_set_user_data. keeps_auto. Qed.
Lemma keeps_set_tx_space i n : keeps I (user_set_socket_tx_space i n).
Proof. unfold user_set_socket_tx_space. keeps_auto. Qed.
Hint Resolve keeps_get_user_data keeps_dequeue_tx_buf : keeps.

Lemma keeps_flush_ring st next : keeps I next → ∀ fuel, keeps I (flush_ring fuel next st).
Proof. intros Hn. induction fuel as [|fuel IH]; cbn [flush_ring]; keeps_auto. Qed.
Lemma keeps_ring_fuel id : keeps I (ring_fuel id).
Proof. unfold ring_fuel. keeps_auto. Qed.
Hint Resolve keeps_ring_fuel : keeps.
Lemma keeps_flush_tx p : keeps I (user_flush_tx p).
Proof. unfold user_flush_tx. keeps_auto. apply keeps_flush_ring. keeps_auto. Qed.
Lemma keeps_flush_rx p : keeps I (user_flush_rx p).
Proof. unfold user_flush_rx. keeps_auto. apply keeps_flush_ring. keeps_auto. Qed.
Hint Resolve keeps_flush_tx keeps_flush_rx : keeps.
Lemma keeps_flush_rx_tx p : keeps I (user_flush_rx_tx p).
Proof. unfold user_flush_rx_tx. keeps_auto. Qed.
Lemma keeps_on_closure p : keeps I (user_on_closure p).
Proof. unfold user_on_closure. keeps_auto. Qed.
Hint Resolve keeps_flush_rx_tx keeps_on_closure : keeps.
Lemma keeps_on_socket_fatal p : keeps I (user_on_socket_fatal p).
Proof. unfold user_on_socket_fatal. keeps_auto. Qed.
End service.

#[export] Hint Resolve keeps_mark_readable keeps_mark_writable keeps_mark_closed keeps_post_accepted
  keeps_dequeue_tx_buf keeps_dequeue_tx_buf_burst keeps_tx_buf_count keeps_rx_buf_free_count
  keeps_submit_rx_buf keeps_free_socket keeps_dequeue_command_buf keeps_get_user_data
  keeps_set_user_data keeps_set_tx_space keeps_flush_rx_tx keeps_on_closure keeps_on_socket_fatal : keeps.

(** ** Linking and unlinking *)

Section linking.
Context {K : Type}.
Implicit Types (s : svc K).

Definition set_flag (q : queue) (b : bool) (so : socket) : socket :=
  match q with
  | Q_read => so <| read_queue_present := b |>
  | Q_write => so <| write_queue_present := b |>
  | Q_accept => so <| accept_queue_present := b |>
  | Q_closed => so <| closed_queue_present := b |>
  | Q_buffers => so <| buffers_available_present := b |>
  end.

Lemma flag_set_eq q b so : flag q (set_flag q b so) = b.
Proof. by destruct q. Qed.
Lemma flag_set_ne q q' b so : q ≠ q' → flag q' (set_flag q b so) = flag q' so.
Proof. by destruct q, q'. Qed.

(** [s'] is [s] with the list of [q] and the flag of [p] changed. *)
Record relinked (q : queue) (l : list Z) (p : Z) (b : bool) (s s' : svc K) : Prop := {
  rl_here : linked q s' = l;
  rl_other q' : q' ≠ q → linked q' s' = linked q' s;
  rl_sockets : ∃ so, sockets s !! p = Some so ∧ sockets s' = <[p := set_flag q b so]> (sockets s);
}.

Lemma relinked_flag q l p b s s' q' p' :
  relinked q l p b s s' →
  (∃ so, sockets s' !! p' = Some so ∧ flag q' so = true) ↔
  (if decide (q' = q ∧ p' = p) then b = true
   else ∃ so, sockets s !! p' = Some so ∧ flag q' so = true).
Proof.
  intros [_ _ (so & Hp & ->)]. destruct (decide (p' = p)) as [->|Hne].
  - rewrite lookup_insert_eq. destruct (decide (q' = q)) as [->|Hq].
    + rewrite decide_True by done. split; [|by eauto using flag_set_eq].
      intros (x & [= <-] & Hx). by rewrite flag_set_eq in Hx.
    + rewrite decide_False by naive_solver. rewrite Hp.
      split; intros (x & [= <-] & Hx); eexists; (split; [done|by rewrite flag_set_ne in *]).
  - rewrite lookup_insert_ne by done. by rewrite decide_False by naive_solver.
Qed.

Lemma relinked_other q l p b s s' q' :
  relinked q l p b s s' → q' ≠ q → queue_ok q' s → queue_ok q' s'.
Proof.
  intros Hr Hne [Hnd Hf]. pose proof (rl_other _ _ _ _ _ _ Hr q' Hne) as Hl.
  split; [by rewrite Hl|]. intros p'. rewrite Hl, Hf, (relinked_flag _ _ _ _ _ _ _ _ Hr).
  by rewrite decide_False by naive_solver.
Qed.

Lemma link_ok q p s s' :
  relinked q (linked q s ++ [p]) p true s s' → p ∉ linked q s → queue_ok q s → queue_ok q s'.
Proof.
  intros Hr Hp [Hnd Hf]. pose proof (rl_here _ _ _ _ _ _ Hr) as Hl.
  split; [rewrite Hl; by apply NoDup_snoc|]. intros p'.
  rewrite Hl, (relinked_flag _ _ _ _ _ _ _ _ Hr), elem_of_app, list_elem_of_singleton.
  destruct (decide (q = q ∧ p' = p)) as [[_ ->]|Hne]; [naive_solver|].
  rewrite <- Hf. naive_solver.
Qed.

Lemma unlink_ok q p s s' :
  relinked q (filter (.≠ p) (linked q s)) p false s s' → queue_ok q s → queue_ok q s'.
Proof.
  intros Hr [Hnd Hf]. pose proof (rl_here _ _ _ _ _ _ Hr) as Hl.
  split; [rewrite Hl; by apply NoDup_filter|]. intros p'.
  rewrite Hl, (relinked_flag _ _ _ _ _ _ _ _ Hr), list_elem_of_filter.
  destruct (decide (q = q ∧ p' = p)) as [[_ ->]|Hne]; [naive_solver|].
  rewrite <- Hf. naive_solver.
Qed.

(** How a change of the queue [q] counts for the queue [q0]. *)
Definition counts (q q0 : queue) : Z := if decide (q = q0) then 1 else 0.

Lemma zlen_relinked q l p b s s' q0 :
  relinked q l p b s s' →
  zlen (linked q0 s') = zlen (linked q0 s) + (zlen l - zlen (linked q s)) * counts q q0.
Proof.
  intros [Hh Ho _]. unfold counts. case_decide as Hq; [subst q0; rewrite Hh; lia|].
  rewrite Ho by done. lia.
Qed.

Lemma mod_add_shift a b n : (a mod n + b) mod n = (a + b) mod n.
Proof. apply Zplus_mod_idemp_l. Qed.

(** A socket is linked, and counted. *)
Lemma queues_ok_link kr kw q p s s' :
  queues_ok kr kw s → p ∉ linked q s → relinked q (linked q s ++ [p]) p true s s' →
  read_sockets_queue_len (sv_glue s') =
    (read_sockets_queue_len (sv_glue s) + counts q Q_read) mod 2 ^ 64 →
  write_sockets_queue_len (sv_glue s') =
    (write_sockets_queue_len (sv_glue s) + counts q Q_write) mod 2 ^ 64 →
  queues_ok kr kw s'.
Proof.
  intros [Hq Hrl Hwl] Hp Hr Hr' Hw'. split.
  - intros q'. destruct (decide (q' = q)) as [->|Hne]; [by eapply link_ok|by eapply relinked_other].
  - rewrite Hr', Hrl, mod_add_shift, (zlen_relinked _ _ _ _ _ _ _ Hr), zlen_app. f_equal.
    unfold zlen at 4. cbn. lia.
  - rewrite Hw', Hwl, mod_add_shift, (zlen_relinked _ _ _ _ _ _ _ Hr), zlen_app. f_equal.
    unfold zlen at 4. cbn. lia.
Qed.

Lemma zlen_filter_ne (l : list Z) p : NoDup l → p ∈ l → zlen (filter (.≠ p) l) = zlen l - 1.
Proof. intros Hl Hp. unfold zlen. pose proof (length_filter_ne l p Hl Hp). lia. Qed.

(** A socket is unlinked, and still counted. *)
Lemma queues_ok_unlink kr kw q p s s' :
  queues_ok kr kw s → p ∈ linked q s → relinked q (filter (.≠ p) (linked q s)) p false s s' →
  read_sockets_queue_len (sv_glue s') = read_sockets_queue_len (sv_glue s) →
  write_sockets_queue_len (sv_glue s') = write_sockets_queue_len (sv_glue s) →
  queues_ok (kr + counts q Q_read) (kw + counts q Q_write) s'.
Proof.
  intros [Hq Hrl Hwl] Hp Hr Hr' Hw'.
  pose proof (zlen_filter_ne _ p (qo_nodup _ _ (Hq q)) Hp) as Hl. split.
  - intros q'. destruct (decide (q' = q)) as [->|Hne]; [by eapply unlink_ok|by eapply relinked_other].
  - rewrite Hr', Hrl, (zlen_relinked _ _ _ _ _ _ _ Hr), Hl. f_equal. lia.
  - rewrite Hw', Hwl, (zlen_relinked _ _ _ _ _ _ _ Hr), Hl. f_equal. lia.
Qed.
Lemma relinked_intro q p so s s' :
  sockets s !! p = Some so → sockets s' = <[p := set_flag q true so]> (sockets s) →
  linked q s' = linked q s ++ [p] → (∀ q', q' ≠ q → linked q' s' = linked q' s) →
  relinked q (linked q s ++ [p]) p true s s'.
Proof. intros Hp Hs Hl Ho. split; [done|done|]. by exists so. Qed.

(** Not on a queue. *)
Definition off (q : queue) (p : Z) (s : svc K) : Prop :=
  ∀ so, sockets s !! p = Some so → flag q so = false.
Definition ok_off (kr kw : Z) (q : queue) (p : Z) (s : svc K) : Prop :=
  queues_ok kr kw s ∧ off q p s.

#[export] Instance ok_off_view kr kw q p : QueueView (ok_off kr kw q p).
Proof.
  intros s s' Hs [Hok Hoff]. split; [by eapply same_queues_ok|]. intros so Hp.
  destruct (flag q so) eqn:Hf; [|done].
  destruct (proj1 (sq_flag _ _ Hs q p)) as (x & Hx & Hfx); [by exists so|].
  by rewrite (Hoff _ Hx) in Hfx.
Qed.

Lemma ok_off_intro kr kw q p so s :
  queues_ok kr kw s → sockets s !! p = Some so → flag q so = false → ok_off kr kw q p s.
Proof. intros Hok Hp Hf. split; [done|]. intros so' Hp'. by simplify_eq. Qed.

End linking.

Ltac count_socket :=
  lazymatch goal with
  | |- _ = (_ + counts ?q ?q0) mod _ =>
      let v := eval vm_compute in (counts q q0) in change (counts q q0) with v
  end.

(** After the statements that link a socket. *)
Ltac linked_ok q :=
  lazymatch goal with
  | Hok : queues_ok ?kr ?kw ?s, Hoff : off q ?p ?s |- _ =>
      eapply (queues_ok_link kr kw q p);
      [ exact Hok | assumption
      | eapply relinked_intro; [eassumption|reflexivity|reflexivity|by intros []]
      | count_socket; first [reflexivity|etransitivity; [exact (qs_read _ _ _ Hok)|]; by rewrite Z.add_0_r, (qs_read _ _ _ Hok), Z.mod_mod]
      | count_socket; first [reflexivity|etransitivity; [exact (qs_write _ _ _ Hok)|]; by rewrite Z.add_0_r, (qs_write _ _ _ Hok), Z.mod_mod] ]
  end.

(** ** Stepping through the code *)

Section steps.
Context {K : Type}.
Implicit Types (s : svc K).

Lemma wlp_so_read p (Q : socket → svc K → Prop) s :
  (∀ so, sockets s !! p = Some so → Q so s) → wlp (so_read p) Q s.
Proof.
  intros HQ. unfold so_read, wlp, mbind, M_bind, gets, of_option.
  destruct (sockets s !! p) eqn:Hp; cbn; auto.
Qed.

Lemma wlp_so_write p f (Q : unit → svc K → Prop) s :
  (∀ so, sockets s !! p = Some so → Q tt (s <| sockets := <[p := f so]> (sockets s) |>)) →
  wlp (so_write p f) Q s.
Proof. intros HQ. unfold so_write. rewrite wlp_bind. apply wlp_so_read. intros so Hp. by apply HQ. Qed.

Lemma wlp_tailq_insert l p (Q : list Z → svc K → Prop) s :
  (p ∉ l → Q (l ++ [p]) s) → wlp (tailq_insert_tail l p) Q s.
Proof. intros HQ. unfold tailq_insert_tail. case_decide; [done|by apply HQ]. Qed.

Lemma wlp_tailq_remove l p (Q : list Z → svc K → Prop) s :
  (p ∈ l → Q (filter (.≠ p) l) s) → wlp (tailq_remove l p) Q s.
Proof. intros HQ. unfold tailq_remove. case_decide; [by apply HQ|done]. Qed.

Lemma wlp_keeps {A} (I : svc K → Prop) (m : M (svc K) A) (Q : A → svc K → Prop) s :
  keeps I m → I s → (∀ a s', I s' → Q a s') → wlp m Q s.
Proof. intros Hm HI HQ. eapply wlp_mono; [by apply Hm|done]. Qed.

Lemma wlp_gets {A} (f : svc K → A) (Q : A → svc K → Prop) s : wlp (gets f) Q s ↔ Q (f s) s.
Proof. done. Qed.
Lemma wlp_on_glue f (Q : unit → svc K → Prop) s :
  wlp (on_glue f) Q s ↔ Q tt (s <| sv_glue := f (sv_glue s) |>).
Proof. done. Qed.
Lemma wlp_on_svc f (Q : unit → svc K → Prop) s : wlp (on_svc f) Q s ↔ Q tt (f s).
Proof. done. Qed.
Lemma wlp_glue_get {A} (f : glue → A) (Q : A → svc K → Prop) s :
  wlp (glue_get f) Q s ↔ Q (f (sv_glue s)) s.
Proof. done. Qed.
End steps.

(** One statement that reads or writes the queues. *)
Ltac wlp_step :=
  first
    [ rewrite wlp_bind | rewrite wlp_ret | rewrite wlp_glue_get | rewrite wlp_on_glue
    | rewrite wlp_gets | rewrite wlp_on_svc
    | lazymatch goal with
      | |- wlp (so_read _) _ _ => apply wlp_so_read; intros ?so ?Hso
      | |- wlp (so_write _ _) _ _ => apply wlp_so_write; intros ?so ?Hso
      | |- wlp (tailq_insert_tail _ _) _ _ => apply wlp_tailq_insert; intros ?Hin
      | |- wlp (tailq_remove _ _) _ _ => apply wlp_tailq_remove; intros ?Hin
      end ].
Ltac wlp_run := repeat (wlp_step; cbn beta iota).

(** The rest of a function, once the queues are as they were. *)
Ltac wlp_rest I := apply (wlp_keeps I); [keeps_auto|by auto|cbn beta; intros ? ? ?].

(** ** The stack *)

Section stack.
Context {K : Type} `{Stack K}.
Implicit Types (s : svc K).

(** Between two callbacks the stack leaves the queues alone; the sockets it
    creates are on none. *)
Record private (s s' : svc K) : Prop := {
  pv_linked q : linked q s' = linked q s;
  pv_read : read_sockets_queue_len (sv_glue s') = read_sockets_queue_len (sv_glue s);
  pv_write : write_sockets_queue_len (sv_glue s') = write_sockets_queue_len (sv_glue s);
  pv_old p so : sockets s !! p = Some so → ∃ so', sockets s' !! p = Some so' ∧ same_flags so' so;
  pv_new p so : sockets s !! p = None → sockets s' !! p = Some so → ∀ q, flag q so = false;
}.

Inductive stack_step : svc K → svc K → Prop :=
  | step_private s s' : private s s' → stack_step s s'
  | step_data_ready p s s' : app_glue_sock_readable p s = Done (tt, s') → stack_step s s'
  | step_write_space p s s' : app_glue_sock_write_space p s = Done (tt, s') → stack_step s s'
  | step_error_report p s s' : app_glue_sock_error_report p s = Done (tt, s') → stack_step s s'
  | step_state_change p s s' : app_glue_sock_wakeup p s = Done (tt, s') → stack_step s s'.

Definition looks {A} (m : M (svc K) A) : Prop := ∀ s a s', m s = Done (a, s') → private s s'.
Definition runs {A} (m : M (svc K) A) : Prop := ∀ s a s', m s = Done (a, s') → rtc stack_step s s'.

(** The stack as the service knows it: it answers questions, or runs and calls
    back.  Closing a socket that no longer calls back releases it. *)
Class StackBehaves : Prop := {
  sb_writeable p : looks (sk_stream_is_writeable p);
  sb_wspace p : looks (sk_stream_wspace p);
  sb_listener p : looks (inet_lookup_listener p);
  sb_num p : looks (inet_num p);
  sb_random : looks random;
  sb_getname p : looks (inet_getname p);
  sb_fclone : looks fclone_free;
  sb_header : looks header_free;
  sb_device n : looks (get_dpdk_dev_by_port_num n);
  sb_devices : looks get_all_devices;
  sb_addresses : looks get_all_addresses;
  sb_create f t : runs (sock_create_kern f t);
  sb_setsockopt p a b c d : runs (sock_setsockopt p a b c d);
  sb_bind p a : runs (kernel_bind p a);
  sb_connect p a : runs (kernel_connect p a);
  sb_listen p n : runs (kernel_listen p n);
  sb_accept p : runs (kernel_accept p);
  sb_sendpage p n : runs (kernel_sendpage p n);
  sb_recvmsg p : runs (kernel_recvmsg p);
  sb_sendmsg p m a n : runs (udp_sendmsg p m a n);
  sb_shutdown p how : runs (inet_shutdown p how);
  sb_ioctl r rt : runs (ip_rt_ioctl r rt);
  sb_poll d : runs (ndo_poll_controller d);
  sb_timers : runs rte_timer_manage;
  sb_close p s s' :
    (∃ so, sockets s !! p = Some so ∧ sk_data_ready so = sock_def_readable_cb ∧
       sk_error_report so = sock_def_error_report_cb ∧ sk_state_change so = sock_def_wakeup_cb) →
    kernel_close p s = Done (tt, s') →
    ∃ s1, private s s1 ∧ (s' = s1 ∨ s' = s1 <| sockets := delete p (sockets s1) |>);
}.

Lemma private_same s s' : private s s' → same_queues s s'.
Proof.
  intros [Hl Hr Hw Hold Hnew]. split; try done. intros q p.
  destruct (sockets s !! p) as [so|] eqn:Hp.
  - destruct (Hold _ _ Hp) as (so' & Hp' & Hf). rewrite Hp'. specialize (Hf q).
    split; intros (x & [= <-] & Hx); eexists; (split; [done|congruence]).
  - split; intros (x & Hx & Hfx); [|done]. by rewrite (Hnew _ _ Hp Hx) in Hfx.
Qed.

Context `{HB : !StackBehaves}.

Lemma keeps_looks {A} (I : svc K → Prop) `{!QueueView I} (m : M (svc K) A) : looks m → keeps I m.
Proof.
  intros Hm s HI. apply wlp_intro. intros a s' Hd. eapply queue_view; [|done].
  by eapply private_same, Hm.
Qed.

(** *** The callbacks *)

Abbreviation qok kr kw := (@queues_ok K kr kw).
Abbreviation qoff kr kw q p := (@ok_off K kr kw q p).

Lemma keeps_sock_readable kr kw p : keeps (qok kr kw) (app_glue_sock_readable p).
Proof.
  intros s Hs. unfold app_glue_sock_readable. destruct (p =? 0); [done|].
  wlp_step. apply wlp_so_read. intros so Hp. destruct (_ && _); [done|].
  destruct (read_queue_present so) eqn:Hf.
  - wlp_step. apply wlp_glue_get. by destruct (_ =? 0).
  - wlp_step. apply (wlp_keeps (qoff kr kw Q_read p)); [keeps_auto|by eapply ok_off_intro|].
    intros _ s1 H1. wlp_step. apply (wlp_keeps (qoff kr kw Q_read p)); [unfold sock_hold; keeps_auto|done|].
    intros _ s2 H2. destruct H2. wlp_run. linked_ok Q_read.
Qed.

Lemma keeps_sock_hold (I : svc K → Prop) `{!QueueView I} p : keeps I (sock_hold p).
Proof. unfold sock_hold. keeps_auto. Qed.
Lemma keeps_sock_put (I : svc K → Prop) `{!QueueView I} p : keeps I (sock_put p).
Proof. unfold sock_put. keeps_auto. Qed.
Hint Resolve keeps_sock_hold keeps_sock_put : keeps.

Hint Extern 2 (keeps _ (sk_stream_is_writeable _)) => (apply keeps_looks; [apply _|apply sb_writeable]) : keeps.
Hint Extern 2 (keeps _ (inet_lookup_listener _)) => (apply keeps_looks; [apply _|apply sb_listener]) : keeps.

(** One statement that keeps the property [I] of the queues. *)
Ltac link_socket := lazymatch goal with Hoff : ok_off _ _ _ _ _ |- _ => destruct Hoff end; wlp_run.
Ltac step_keeping I := wlp_step; apply (wlp_keeps I); [keeps_auto|done|cbn beta; intros ? ? ?].

Lemma keeps_sock_write_space kr kw p : keeps (qok kr kw) (app_glue_sock_write_space p).
Proof.
  intros s Hs. unfold app_glue_sock_write_space. destruct (p =? 0); [done|].
  wlp_step. apply wlp_so_read. intros so Hp. destruct (_ && _); [done|].
  step_keeping (qok kr kw). destruct (_ : bool); [|done].
  step_keeping (qok kr kw). wlp_step. apply wlp_so_read. intros so1 Hp1.
  destruct (write_queue_present so1) eqn:Hf; [done|].
  wlp_step. apply (wlp_keeps (qoff kr kw Q_write p)); [keeps_auto|by eapply ok_off_intro|].
  intros _ ? ?. step_keeping (qoff kr kw Q_write p). link_socket. linked_ok Q_write.
Qed.

Lemma keeps_sock_error_report kr kw p : keeps (qok kr kw) (app_glue_sock_error_report p).
Proof.
  intros s Hs. unfold app_glue_sock_error_report. destruct (p =? 0); [done|].
  wlp_step. apply wlp_so_read. intros so Hp. destruct (closed_queue_present so) eqn:Hf; [done|].
  wlp_step. apply (wlp_keeps (qoff kr kw Q_closed p)); [keeps_auto|by eapply ok_off_intro|].
  intros _ ? ?. link_socket. linked_ok Q_closed.
Qed.

Lemma keeps_set_callbacks (I : svc K → Prop) `{!QueueView I} p : keeps I (set_app_glue_callbacks p).
Proof. unfold set_app_glue_callbacks. keeps_auto. Qed.

Lemma keeps_sock_wakeup kr kw p : keeps (qok kr kw) (app_glue_sock_wakeup p).
Proof.
  intros s Hs. unfold app_glue_sock_wakeup. step_keeping (qok kr kw). rename a into l.
  destruct (negb _).
  - wlp_step. apply wlp_so_read. intros so Hp. destruct (accept_queue_present so) eqn:Hf; [done|].
    wlp_step. apply (wlp_keeps (qoff kr kw Q_accept l)); [keeps_auto|by eapply ok_off_intro|].
    intros _ ? ?. link_socket. apply (wlp_keeps (qok kr kw)); [apply keeps_set_callbacks, _| |done].
    linked_ok Q_accept.
  - wlp_step. apply (wlp_keeps (qok kr kw)); [apply keeps_sock_write_space|done|]. intros ? ? ?.
    by apply (keeps_set_callbacks (qok kr kw) p).
Qed.

(** *** Runs of the stack *)

Lemma keeps_step_of kr kw s s' : stack_step s s' → qok kr kw s → qok kr kw s'.
Proof.
  intros Hs Hok. destruct Hs as [? ? Hp|p ? ? Hd|p ? ? Hd|p ? ? Hd|p ? ? Hd].
  - by eapply same_queues_ok, Hok; apply private_same.
  - exact (wlp_done _ _ _ _ _ (keeps_sock_readable kr kw p _ Hok) Hd).
  - exact (wlp_done _ _ _ _ _ (keeps_sock_write_space kr kw p _ Hok) Hd).
  - exact (wlp_done _ _ _ _ _ (keeps_sock_error_report kr kw p _ Hok) Hd).
  - exact (wlp_done _ _ _ _ _ (keeps_sock_wakeup kr kw p _ Hok) Hd).
Qed.

Lemma keeps_runs {A} kr kw (m : M (svc K) A) : runs m → keeps (qok kr kw) m.
Proof.
  intros Hm s Hok. apply wlp_intro. intros a s' Hd.
  apply (rtc_ind_r (R := stack_step) (qok kr kw) s); [done| |by eapply Hm].
  intros s1 s2 _ Hs. by apply keeps_step_of.
Qed.

Lemma keeps_looks_qok {A} kr kw (m : M (svc K) A) : looks m → keeps (qok kr kw) m.
Proof. apply keeps_looks, _. Qed.
End stack.

#[export] Hint Extern 2 (keeps (queues_ok _ _) _) =>
  (apply keeps_looks_qok; first [apply sb_writeable|apply sb_wspace|apply sb_listener|apply sb_num
    |apply sb_random|apply sb_getname|apply sb_fclone|apply sb_header|apply sb_device
    |apply sb_devices|apply sb_addresses]) : keeps.
#[export] Hint Extern 2 (keeps (queues_ok _ _) _) =>
  (apply keeps_runs; first [apply sb_create|apply sb_setsockopt|apply sb_bind|apply sb_connect
    |apply sb_listen|apply sb_accept|apply sb_sendpage|apply sb_recvmsg|apply sb_sendmsg
    |apply sb_shutdown|apply sb_ioctl|apply sb_poll|apply sb_timers]) : keeps.
#[export] Hint Resolve keeps_sock_hold keeps_sock_put keeps_sock_readable keeps_sock_write_space
  keeps_sock_error_report keeps_sock_wakeup : keeps.

(** ** The service's callbacks *)

Section callbacks.
Context {K : Type} `{Stack K} `{HB : !StackBehaves}.
Implicit Types (s : svc K).
Abbreviation qok kr kw := (@queues_ok K kr kw).

Lemma keeps_sendpage_loop kr kw fuel p : keeps (qok kr kw) (sendpage_loop fuel p).
Proof. induction fuel as [|fuel IH]; cbn [sendpage_loop]; keeps_auto. Qed.
Hint Resolve keeps_sendpage_loop : keeps.

Lemma keeps_send_datagrams kr kw p named l : keeps (qok kr kw) (send_datagrams p named l).
Proof. induction l as [|m l IH]; cbn [send_datagrams]; keeps_auto. Qed.
Hint Resolve keeps_send_datagrams : keeps.

Lemma keeps_datagram_loop kr kw fuel p i : keeps (qok kr kw) (datagram_loop fuel p i).
Proof. induction fuel as [|fuel IH]; cbn [datagram_loop]; keeps_auto. Qed.
Hint Resolve keeps_datagram_loop : keeps.

Lemma keeps_on_transmission kr kw fuel p : keeps (qok kr kw) (user_on_transmission_opportunity fuel p).
Proof. unfold user_on_transmission_opportunity. keeps_auto. Qed.

Lemma keeps_receive_loop kr kw n p i : keeps (qok kr kw) (receive_loop n p i).
Proof. induction n as [|n IH]; cbn [receive_loop]; keeps_auto. Qed.
Hint Resolve keeps_receive_loop : keeps.

Lemma keeps_data_available kr kw p : keeps (qok kr kw) (user_data_available_cbk p).
Proof. unfold user_data_available_cbk. keeps_auto. Qed.

Lemma keeps_accept_one kr kw p q : keeps (qok kr kw) (accept_one p q).
Proof. unfold accept_one. keeps_auto. Qed.
Hint Resolve keeps_accept_one : keeps.

Lemma keeps_on_accept kr kw fuel p : keeps (qok kr kw) (user_on_accept fuel p).
Proof. induction fuel as [|fuel IH]; cbn [user_on_accept]; keeps_auto. Qed.
End callbacks.

#[export] Hint Resolve keeps_on_transmission keeps_data_available keeps_on_accept : keeps.

(** ** Passes over the queues *)

Section passes.
Context {K : Type} `{Stack K} `{HB : !StackBehaves}.
Implicit Types (s : svc K).
Abbreviation qok kr kw := (@queues_ok K kr kw).

Lemma queue_ok_same q s s' :
  linked q s' = linked q s → sockets s' = sockets s → queue_ok q s → queue_ok q s'.
Proof. intros Hl Hs [Hnd Hf]. split; [by rewrite Hl|]. intros p. by rewrite Hl, Hs. Qed.

(** A socket that has been served is counted off. *)
Lemma count_off_read kr kw s :
  qok (kr + 1) kw s → qok kr kw (s <| sv_glue := (sv_glue s) <| read_sockets_queue_len :=
    (read_sockets_queue_len (sv_glue s) - 1) mod 2 ^ 64 |> |>).
Proof.
  intros [Hq Hr Hw]. split; [|cbn|exact Hw].
  - intros q. apply (queue_ok_same q s); [by destruct q|done|apply Hq].
  - rewrite Hr, Zminus_mod_idemp_l. f_equal. cbn. lia.
Qed.
Lemma count_off_write kr kw s :
  qok kr (kw + 1) s → qok kr kw (s <| sv_glue := (sv_glue s) <| write_sockets_queue_len :=
    (write_sockets_queue_len (sv_glue s) - 1) mod 2 ^ 64 |> |>).
Proof.
  intros [Hq Hr Hw]. split; [|exact Hr|cbn].
  - intros q. apply (queue_ok_same q s); [by destruct q|done|apply Hq].
  - rewrite Hw, Zminus_mod_idemp_l. f_equal. cbn. lia.
Qed.

(** After the statements that unlink the first socket of a queue. *)
Lemma unlinked_ok kr kw q p s s' :
  qok kr kw s → p ∈ linked q s →
  (∃ so, sockets s !! p = Some so ∧ sockets s' = <[p := set_flag q false so]> (sockets s)) →
  linked q s' = filter (.≠ p) (linked q s) → (∀ q', q' ≠ q → linked q' s' = linked q' s) →
  read_sockets_queue_len (sv_glue s') = read_sockets_queue_len (sv_glue s) →
  write_sockets_queue_len (sv_glue s') = write_sockets_queue_len (sv_glue s) →
  qok (kr + counts q Q_read) (kw + counts q Q_write) s'.
Proof. intros Hok Hp Hs Hl Ho. by apply (queues_ok_unlink kr kw q p s s'). Qed.

Ltac unlink q p :=
  eapply (unlinked_ok _ _ q p); [eassumption|assumption|by eexists|reflexivity|by intros []|done|done].

(** Counting a change that is not one leaves the slack as it is. *)
Ltac same_count := rewrite ?Z.add_0_r.

Lemma keeps_process_read kr kw limit : keeps (qok kr kw) (process_read limit).
Proof.
  induction limit as [|limit IH]; cbn [process_read]; [keeps_auto|]. intros s Hok.
  wlp_step. rewrite wlp_glue_get. destruct (read_ready (sv_glue s)) as [|p l] eqn:Hl; [done|].
  wlp_run.
  assert (qok (kr + 1) (kw + 0) (s <| sockets := <[p := so <| read_queue_present := false |>]> (sockets s) |>
    <| sv_glue := (sv_glue s) <| read_ready := filter (.≠ p) (p :: l) |> |>)) as Hu.
  { rewrite <- Hl in *. unlink Q_read p. }
  rewrite Z.add_0_r in Hu.
  apply (wlp_keeps (qok (kr + 1) kw)); [keeps_auto|exact Hu|intros _ s1 H1].
  wlp_step. apply (wlp_keeps (qok (kr + 1) kw)); [keeps_auto|done|intros _ s2 H2].
  wlp_run. by apply IH, count_off_read.
Qed.

Lemma keeps_process_write kr kw fuel limit : keeps (qok kr kw) (process_write fuel limit).
Proof.
  induction limit as [|limit IH]; cbn [process_write]; [keeps_auto|]. intros s Hok.
  wlp_step. rewrite wlp_glue_get. destruct (write_ready (sv_glue s)) as [|p l] eqn:Hl; [done|].
  wlp_run.
  lazymatch goal with |- wlp _ _ ?s1 => assert (qok (kr + 0) (kw + 1) s1) as Hu end.
  { rewrite <- Hl in *. unlink Q_write p. }
  rewrite Z.add_0_r in Hu.
  apply (wlp_keeps (qok kr (kw + 1))); [keeps_auto|exact Hu|intros _ s1 H1].
  wlp_step. apply (wlp_keeps (qok kr (kw + 1))); [keeps_auto|done|intros _ s2 H2].
  wlp_step. apply (wlp_keeps (qok kr (kw + 1))); [keeps_auto|done|intros _ s3 H3].
  wlp_run. by apply IH, count_off_write.
Qed.

Lemma keeps_process_accept kr kw fuel : keeps (qok kr kw) (process_accept fuel).
Proof.
  induction fuel as [|fuel IH]; cbn [process_accept]; [keeps_auto|]. intros s Hok.
  wlp_step. rewrite wlp_glue_get. destruct (accept_ready (sv_glue s)) as [|p l] eqn:Hl; [done|].
  wlp_step. apply (wlp_keeps (qok kr kw)); [keeps_auto|done|intros _ s1 H1].
  wlp_run.
  lazymatch goal with |- wlp _ _ ?s1 => assert (qok (kr + 0) (kw + 0) s1) as Hu end.
  { unlink Q_accept p. }
  rewrite !Z.add_0_r in Hu.
  apply (wlp_keeps (qok kr kw)); [keeps_auto|exact Hu|intros _ s2 H2]. by apply IH.
Qed.

(** *** Leaving the queues, one by one *)

(** Not on the queues in [l], and the queues agree. *)
Definition left_queues (l : list queue) (p : Z) (s : svc K) : Prop :=
  qok 0 0 s ∧ ∀ q, q ∈ l → off q p s.

#[export] Instance left_queues_view l p : QueueView (left_queues l p).
Proof.
  intros s s' Hs [Hok Hl]. split; [by eapply same_queues_ok|]. intros q Hq.
  by apply (queue_view (I := ok_off 0 0 q p) s s' Hs (conj Hok (Hl q Hq))).
Qed.

Lemma left_queues_cons q l p so s :
  left_queues l p s → sockets s !! p = Some so → flag q so = false → left_queues (q :: l) p s.
Proof.
  intros [Hok Hl] Hp Hf. split; [done|]. intros q' [->|Hq']%elem_of_cons; [|by apply Hl].
  intros so' Hp'. by simplify_eq.
Qed.

(** After unlinking [p] from [q], if all the rest is as it was. *)
Lemma left_queues_unlinked q l p so s s' :
  left_queues l p s → q ∉ l → sockets s !! p = Some so →
  sockets s' = <[p := set_flag q false so]> (sockets s) → qok 0 0 s' → left_queues (q :: l) p s'.
Proof.
  intros [_ Hl] Hq Hp Hs Hok. split; [done|]. intros q' Hq' so' Hso'.
  rewrite Hs, lookup_insert_eq in Hso'. injection Hso' as <-.
  apply elem_of_cons in Hq' as [->|Hq']; [apply flag_set_eq|].
  rewrite flag_set_ne by (intros ->; done). by apply (Hl q' Hq').
Qed.

Definition reaches {A} (m : M (svc K) A) (P P' : svc K → Prop) : Prop := ∀ s, P s → wlp m (λ _, P') s.

Lemma leave_read l p :
  Q_read ∉ l → reaches (leave_read_queue p) (left_queues l p) (left_queues (Q_read :: l) p).
Proof.
  intros Hq s Hs. unfold leave_read_queue. wlp_step. apply wlp_so_read. intros so Hp.
  destruct (read_queue_present so) eqn:Hf; [|by eapply left_queues_cons].
  destruct Hs as [Hok Hl]. wlp_run. eapply left_queues_unlinked; [split; [exact Hok|exact Hl]|done|exact Hso|reflexivity|].
  apply (count_off_read 0 0 (s <| sv_glue := (sv_glue s) <| read_ready := _ |> |> <| sockets := _ |>)).
  apply (unlinked_ok 0 0 Q_read p s); try done; [by exists so0|by intros []].
Qed.

Lemma leave_write l p :
  Q_write ∉ l → reaches (leave_write_queue p) (left_queues l p) (left_queues (Q_write :: l) p).
Proof.
  intros Hq s Hs. unfold leave_write_queue. wlp_step. apply wlp_so_read. intros so Hp.
  destruct (write_queue_present so) eqn:Hf; [|by eapply left_queues_cons].
  destruct Hs as [Hok Hl]. wlp_run. eapply left_queues_unlinked; [split; [exact Hok|exact Hl]|done|exact Hso|reflexivity|].
  apply (count_off_write 0 0 (s <| sv_glue := (sv_glue s) <| write_ready := _ |> |> <| sockets := _ |>)).
  apply (unlinked_ok 0 0 Q_write p s); try done; [by exists so0|by intros []].
Qed.

Lemma leave_closed l p :
  Q_closed ∉ l → reaches (leave_closed_queue p) (left_queues l p) (left_queues (Q_closed :: l) p).
Proof.
  intros Hq s Hs. unfold leave_closed_queue. wlp_step. apply wlp_so_read. intros so Hp.
  destruct (closed_queue_present so) eqn:Hf; [|by eapply left_queues_cons].
  destruct Hs as [Hok Hl]. wlp_run. eapply left_queues_unlinked; [split; [exact Hok|exact Hl]|done|exact Hso|reflexivity|].
  apply (unlinked_ok 0 0 Q_closed p s); try done; [by exists so0|by intros []].
Qed.

(** A socket on no queue can be released. *)
Lemma release_ok p s :
  qok 0 0 s → (∀ q, off q p s) → qok 0 0 (s <| sockets := delete p (sockets s) |>).
Proof.
  intros Hok Hoff. split; [|exact (qs_read _ _ _ Hok)|exact (qs_write _ _ _ Hok)].
  intros q. destruct (qs_queues _ _ _ Hok q) as [Hnd Hf].
  assert (linked q (s <| sockets := delete p (sockets s) |>) = linked q s) as Hl by by destruct q.
  split; [by rewrite Hl|]. intros p'. rewrite Hl, Hf.
  change (sockets (s <| sockets := delete p (sockets s) |>)) with (delete p (sockets s)).
  destruct (decide (p' = p)) as [->|Hne].
  - rewrite lookup_delete_eq. split; intros (so & Hso & Hfl); [|done]. by rewrite (Hoff q so Hso) in Hfl.
  - by rewrite lookup_delete_ne.
Qed.

Lemma kernel_close_ok p so s :
  left_queues [Q_closed; Q_write; Q_read; Q_accept; Q_buffers] p s → sockets s !! p = Some so →
  sk_data_ready so = sock_def_readable_cb → sk_error_report so = sock_def_error_report_cb →
  sk_state_change so = sock_def_wakeup_cb → wlp (kernel_close p) (λ _, qok 0 0) s.
Proof.
  intros Hs Hp Hd He Hw. apply wlp_intro. intros [] s' Hc.
  destruct (sb_close p s s') as (s1 & Hpv & Hs'); [by exists so|done|].
  assert (left_queues [Q_closed; Q_write; Q_read; Q_accept; Q_buffers] p s1) as [Hok Hoff]
    by (eapply queue_view, Hs; by apply private_same).
  destruct Hs' as [->| ->]; [done|]. apply release_ok; [done|]. intros q. apply Hoff. destruct q; set_solver.
Qed.

Lemma close_socket_ok fuel p :
  reaches (app_glue_close_socket fuel p) (left_queues [Q_accept; Q_buffers] p) (qok 0 0).
Proof.
  intros s Hs. unfold app_glue_close_socket.
  wlp_step. eapply wlp_mono; [by apply (leave_read [Q_accept; Q_buffers]); [apply (bool_decide_unpack (_ ∉ _))|]|]. intros ? s1 H1. cbn beta in H1.
  wlp_step. eapply wlp_mono; [by apply (leave_write [Q_read; Q_accept; Q_buffers]); [apply (bool_decide_unpack (_ ∉ _))|]|]. intros ? s2 H2. cbn beta in H2.
  wlp_step. unfold leave_accept_queue. wlp_step. apply wlp_so_read. intros so Hp.
  pose proof (proj2 H2 Q_accept ltac:(set_solver) _ Hp) as Ha. cbn in Ha. rewrite Ha, wlp_ret.
  wlp_step. eapply wlp_mono; [by apply (leave_closed [Q_write; Q_read; Q_accept; Q_buffers]); [apply (bool_decide_unpack (_ ∉ _))|]|]. intros ? s3 H3. cbn beta in H3.
  wlp_step. apply wlp_so_read. intros so3 Hp3. destruct (so_sk so3); [cbn [require]|done].
  wlp_step. rewrite wlp_ret. wlp_step. apply wlp_so_write. intros so4 Hp4.
  assert (so4 = so3) as -> by congruence.
  eapply kernel_close_ok; [|apply lookup_insert_eq|done..].
  eapply queue_view, H3. apply (same_queues_so_write p so3); [done|]. by intros [].
Qed.
End passes.

#[export] Hint Resolve keeps_process_read keeps_process_write keeps_process_accept keeps_set_callbacks : keeps.

(** ** Commands *)

Section commands.
Context {K : Type} `{Stack K} `{HB : !StackBehaves}.
Implicit Types (s : svc K).
Abbreviation qok kr kw := (@queues_ok K kr kw).

Lemma keeps_create_socket kr kw f t : keeps (qok kr kw) (app_glue_create_socket f t).
Proof. unfold app_glue_create_socket. keeps_auto. Qed.
Lemma keeps_v4_bind kr kw p a n : keeps (qok kr kw) (app_glue_v4_bind p a n).
Proof. unfold app_glue_v4_bind. keeps_auto. Qed.
Lemma keeps_bind_random kr kw fuel p : keeps (qok kr kw) (bind_random fuel p).
Proof. induction fuel as [|fuel IH]; cbn [bind_random]; keeps_auto. Qed.
Hint Resolve keeps_bind_random : keeps.
Lemma keeps_v4_connect kr kw fuel p a n : keeps (qok kr kw) (app_glue_v4_connect fuel p a n).
Proof. unfold app_glue_v4_connect. keeps_auto. Qed.
Lemma keeps_v4_listen kr kw p : keeps (qok kr kw) (app_glue_v4_listen p).
Proof. unfold app_glue_v4_listen. keeps_auto. Qed.
Hint Resolve keeps_create_socket keeps_v4_bind keeps_v4_connect keeps_v4_listen : keeps.

Lemma keeps_send_record kr kw client kind fill :
  keeps (qok kr kw) fill → keeps (qok kr kw) (send_record client kind fill).
Proof. intros Hf. unfold send_record, get_buffer. keeps_auto. Qed.
Lemma keeps_client_connect kr kw client : keeps (qok kr kw) (on_client_connect client).
Proof.
  unfold on_client_connect. repeat (keeps_step || (apply keeps_send_record; keeps_auto)).
Qed.
Hint Resolve keeps_client_connect : keeps.

Lemma wlp_sat_read i (Q : socket_satelite_data_t → svc K → Prop) s :
  (∀ d, socket_satelite_data s !! i = Some d → Q d s) → wlp (sat_read i) Q s.
Proof. intros HQ. unfold sat_read. wlp_step. rewrite wlp_gets. by apply wlp_of_option. Qed.

(** Waiting for buffers: linked first, flagged then. *)
Lemma keeps_tx_pool_empty kr kw c : keeps (qok kr kw) (do_tx_pool_empty c).
Proof.
  intros s Hok. unfold do_tx_pool_empty. wlp_step. apply wlp_sat_read. intros d Hd.
  destruct (_ =? 0); [done|]. wlp_step. apply wlp_so_read. intros so Hp.
  destruct (buffers_available_present so) eqn:Hf; [done|].
  assert (off Q_buffers (sat_socket d) s) as Hoff by (intros so' Hp'; cbn; congruence).
  wlp_run.
  lazymatch goal with |- wlp _ _ ?s1 => assert (qok kr kw s1) as Hu by linked_ok Q_buffers end.
  by apply (wlp_keeps (qok kr kw)); [keeps_auto|exact Hu|].
Qed.
Hint Resolve keeps_tx_pool_empty : keeps.

Definition closes (c : ipaugenblick_cmd) : bool :=
  match cmd_cmd c with SOCKET_CLOSE_COMMAND | SOCKET_DECLINE_COMMAND => true | _ => false end.

Lemma keeps_execute kr kw fuel c : closes c = false → keeps (qok kr kw) (execute fuel c).
Proof.
  unfold closes, execute. intros Hc. destruct (cmd_cmd c); try done; try (by keeps_auto);
    unfold do_open_socket, do_connect_bind, do_listen, do_tx_kick, do_rx_kick, do_set_ring,
      do_set_select, do_route, do_connect_client, do_disconnect_client, do_setsockopt, do_shutdown;
    keeps_auto.
  all: apply (keeps_on_svc (qok kr kw)); by split.
Qed.

Lemma close_ok fuel c s d :
  socket_satelite_data s !! cmd_ringset_idx c = Some d →
  left_queues [Q_accept; Q_buffers] (sat_socket d) s → wlp (do_close fuel c) (λ _, qok 0 0) s.
Proof.
  intros Hd Hs. unfold do_close. wlp_step. apply wlp_sat_read. intros d' Hd'. assert (d' = d) as -> by congruence.
  destruct (_ =? 0); [apply Hs|].
  wlp_step. apply (wlp_keeps (left_queues [Q_accept; Q_buffers] (sat_socket d))); [keeps_auto|done|intros _ s1 H1].
  wlp_step. eapply wlp_mono; [by apply close_socket_ok|]. intros ? s2 H2. cbn beta in H2.
  by apply (wlp_keeps (qok 0 0)); [keeps_auto|exact H2|].
Qed.

(** *** The sockets that wait for buffers *)

Lemma keeps_notify kr kw fuel garbage : keeps (qok kr kw) (notify_buffers_available fuel garbage).
Proof.
  induction fuel as [|fuel IH]; cbn [notify_buffers_available]; [keeps_auto|]. intros s Hok.
  wlp_step. rewrite wlp_gets. destruct (buffers_available s) as [|p l] eqn:Hl; [done|].
  wlp_step. apply (wlp_keeps (qok kr kw)); [unfold get_buffer_count; keeps_auto|done|intros n s1 H1].
  destruct (0 <? n); [|done].
  wlp_step. apply (wlp_keeps (qok kr kw)); [keeps_auto|done|intros data s2 H2].
  wlp_step. apply wlp_of_option. intros i _. wlp_step. apply wlp_sat_read. intros d Hd.
  wlp_step. apply wlp_so_read. intros so Hso.
  wlp_step. apply (wlp_keeps (qok kr kw)); [keeps_auto|done|intros _ s3 H3].
  wlp_step. apply (wlp_keeps (qok kr kw)); [keeps_auto|done|intros rc s4 H4].
  destruct (_ =? 0); [|done]. wlp_run.
  lazymatch goal with |- wlp _ _ ?s1 => assert (qok (kr + 0) (kw + 0) s1) as Hu end.
  { eapply (unlinked_ok kr kw Q_buffers p s4); try done; [by exists so0|by intros []]. }
  rewrite !Z.add_0_r in Hu. by apply IH.
Qed.

(** Empty lists, no socket. *)
Lemma queues_ok_empty s :
  (∀ q, linked q s = []) → sockets s = ∅ → read_sockets_queue_len (sv_glue s) = 0 →
  write_sockets_queue_len (sv_glue s) = 0 → qok 0 0 s.
Proof.
  intros Hl Hs Hr Hw. split; [|by rewrite Hl, Hr|by rewrite Hl, Hw].
  intros q. split; rewrite Hl; [constructor|]. intros p. rewrite Hs.
  split; [by intros ?%not_elem_of_nil|by intros (so & Hso & _)].
Qed.
End commands.


(** ** The theorem *)

Section theorem.
Context {K : Type} `{Stack K}.
Implicit Types (s : svc K).

(** What happens to the queues in the service's life: the stack runs or calls back,
    a pass, a command, the notification of waiting sockets, the closing of a socket
    that is on neither of the two lists the closing leaves behind. *)
Inductive service_event : svc K → svc K → Prop :=
  | ev_stack s s' : stack_step s s' → service_event s s'
  | ev_read_pass n s s' : process_read n s = Done (tt, s') → service_event s s'
  | ev_write_pass fuel n s s' : process_write fuel n s = Done (tt, s') → service_event s s'
  | ev_accept_pass fuel s s' : process_accept fuel s = Done (tt, s') → service_event s s'
  | ev_notify fuel garbage s s' :
      notify_buffers_available fuel garbage s = Done (tt, s') → service_event s s'
  | ev_command fuel c s s' :
      closes c = false → execute fuel c s = Done (tt, s') → service_event s s'
  | ev_close fuel c d s s' :
      socket_satelite_data s !! cmd_ringset_idx c = Some d →
      off Q_accept (sat_socket d) s → off Q_buffers (sat_socket d) s →
      do_close fuel c s = Done (tt, s') → service_event s s'.

Lemma keeps_event (HB : StackBehaves) s s' : service_event s s' → queues_ok 0 0 s → queues_ok 0 0 s'.
Proof.
  intros He Hok. destruct He as [s s' Hs|n s s' Hd|f n s s' Hd|f s s' Hd|f g s s' Hd|f c s s' Hc Hd|f c d s s' Hsat Ha Hb Hd].
  - by eapply keeps_step_of.
  - exact (wlp_done _ _ _ _ _ (keeps_process_read 0 0 n _ Hok) Hd).
  - exact (wlp_done _ _ _ _ _ (keeps_process_write 0 0 f n _ Hok) Hd).
  - exact (wlp_done _ _ _ _ _ (keeps_process_accept 0 0 f _ Hok) Hd).
  - exact (wlp_done _ _ _ _ _ (keeps_notify 0 0 f g _ Hok) Hd).
  - exact (wlp_done _ _ _ _ _ (keeps_execute 0 0 f c Hc _ Hok) Hd).
  - refine (wlp_done _ _ _ _ _ (close_ok f c s d Hsat _) Hd). split; [done|].
    intros q Hq. apply elem_of_cons in Hq as [->|Hq]; [done|].
    apply list_elem_of_singleton in Hq as ->. done.
Qed.

End theorem.

(** ** A concrete stack *)

(** It has nothing to say; closing a socket releases it. *)
Definition no_addr : sockaddr_in := mk_sockaddr 0 0 0 [].
#[export] Instance idle_stack : Stack unit := {|
  sock_create_kern _ _ := mret (-1, 0);
  sock_setsockopt _ _ _ _ _ := mret 0;
  kernel_bind _ _ := mret 0;
  kernel_connect _ _ := mret 0;
  kernel_listen _ _ := mret 0;
  kernel_accept _ := mret (-1, 0);
  kernel_close p := on_svc (λ s, s <| sockets := delete p (sockets s) |>);
  kernel_sendpage _ _ := mret 0;
  kernel_recvmsg _ := mret (0, mk_rx_msg 0 no_addr);
  udp_sendmsg _ _ _ _ := mret 0;
  inet_getname _ := mret no_addr;
  inet_shutdown _ _ := mret 0;
  ip_rt_ioctl _ _ := mret 0;
  sk_stream_wspace _ := mret 0;
  sk_stream_is_writeable _ := mret true;
  inet_num _ := mret 1;
  inet_lookup_listener _ := mret 0;
  random := mret 0;
  get_dpdk_dev_by_port_num _ := mret None;
  ndo_poll_controller _ := mret tt;
  fclone_free := mret 0;
  header_free := mret 0;
  rte_timer_manage := mret tt;
  rte_rdtsc := mret 0;
  get_all_devices := mret [];
  get_all_addresses := mret [];
|}.

Lemma private_refl (s : svc unit) : private s s.
Proof. split; try done; [intros p so Hp; by exists so|congruence]. Qed.

Lemma looks_ret {A} (a : A) : looks (K := unit) (mret a).
Proof. intros s a' s' [= <- <-]. apply private_refl. Qed.
Lemma runs_ret {A} (a : A) : runs (K := unit) (mret a).
Proof. intros s a' s' [= <- <-]. apply rtc_refl. Qed.

Lemma idle_stack_behaves : StackBehaves (K := unit).
Proof.
  split; intros; try apply looks_ret; try apply runs_ret.
  exists s. split; [apply private_refl|]. right.
  lazymatch goal with Hc : kernel_close _ _ = _ |- _ => by injection Hc as <- end.
Qed.

Definition demo_glue : glue := mk_glue [] 0 [] 0 [] [] 0 0 0 0 0 0 0 0.
Definition fresh_service : svc unit :=
  mk_svc (mk_shm ∅ ∅ ∅ ∅) ∅ ∅ ∅ [] [] ∅ demo_glue (λ _, 0) [] tt.
(** An established stream socket of connection 3. *)
Definition demo_socket : socket :=
  mk_sock SOCK_STREAM 0 true false false false false false TCP_ESTABLISHED (Some 3) false 0 0 0
    app_glue_sock_readable_cb app_glue_sock_write_space_cb app_glue_sock_error_report_cb
    app_glue_sock_wakeup_cb.
Definition one_socket : svc unit := fresh_service <| sockets := {[100 := demo_socket]} |>.
Definition one_readable : svc unit :=
  match app_glue_sock_readable 100 one_socket with Done (_, s) => s | _ => one_socket end.


(** ** What closing leaves behind *)

Section dangling.
Context {K : Type} `{Stack K}.
Implicit Types (s : svc K).

(** Nothing but the lists and the sockets. *)
Definition frozen (g : glue) (m : gmap Z socket) (b : list Z) (s : svc K) : Prop :=
  sv_glue s = g ∧ sockets s = m ∧ buffers_available s = b.

Lemma flush_frozen g m b p : keeps (frozen g m b) (user_on_socket_fatal p).
Proof.
  assert (∀ s s', sv_glue s' = sv_glue s → sockets s' = sockets s →
    buffers_available s' = buffers_available s → frozen g m b s → frozen g m b s') as Hfr.
  { unfold frozen. intros s s' -> -> ->. done. }
  assert (ShmFree (frozen g m b)) by (intros t s; by apply Hfr).
  assert (∀ f, (∀ s, sv_glue (f s) = sv_glue s ∧ sockets (f s) = sockets s ∧
    buffers_available (f s) = buffers_available s) → keeps (frozen g m b) (on_svc f)) as Hon.
  { intros f Hf. apply keeps_modify. intros s. destruct (Hf s) as (?&?&?). by apply Hfr. }
  assert (∀ st n, keeps (frozen g m b) (user_add st n)) as Hadd by (intros; by apply Hon).
  assert (∀ pid, keeps (frozen g m b) (signal_app pid)) as Hsig by (intros; by apply keeps_when, Hon).
  assert (∀ next st, keeps (frozen g m b) next → ∀ n, keeps (frozen g m b) (flush_ring n next st)) as Hflush.
  { intros next st Hn n. induction n as [|n IH]; cbn [flush_ring]; keeps_auto. }
  unfold user_on_socket_fatal, user_flush_rx_tx, user_flush_rx, user_flush_tx, user_on_closure,
    get_user_data, ipaugenblick_mark_closed, selector_ring, sat_ring, ring_fuel, so_read, sat_read.
  keeps_auto; apply Hflush; unfold ipaugenblick_dequeue_tx_buf, sat_ring, sat_read; keeps_auto.
Qed.

(** A socket that is gone is still at the head of the read list. *)
Lemma read_dangling p l n s :
  read_ready (sv_glue s) = p :: l → sockets s !! p = None → process_read (Datatypes.S n) s = Fault.
Proof.
  intros Hl Hp. cbn [process_read]. unfold glue_get, gets, mbind, M_bind. rewrite Hl.
  unfold so_write, so_read, gets, mbind, M_bind, of_option. by rewrite Hp.
Qed.

(** Nor can it be asked for its user data. *)
Lemma notify_dangling p l n garbage count s :
  buffers_available s = p :: l → sockets s !! p = None →
  get_buffer_count s = Done (count, s) → 0 < count →
  wlp (notify_buffers_available n garbage) (λ _ _, False) s.
Proof.
  intros Hl Hp Hc Hpos. destruct n as [|n]; [done|]. cbn [notify_buffers_available].
  unfold wlp, mbind, M_bind, gets. rewrite Hl, Hc. apply Z.ltb_lt in Hpos. rewrite Hpos.
  unfold get_user_data. destruct (p =? 0); [done|].
  unfold so_read, gets, mbind, M_bind, of_option. by rewrite Hp.
Qed.

(** [kernel_close] ends in [sock_orphan], which frees the [struct socket]. *)
Hypothesis close_releases : ∀ p s,
  kernel_close p s = Done (tt, s <| sockets := delete p (sockets s) |>).

Lemma wlp_close_releases p (Q : unit → svc K → Prop) s :
  Q tt (s <| sockets := delete p (sockets s) |>) → wlp (kernel_close p) Q s.
Proof. intros HQ. unfold wlp. by rewrite close_releases. Qed.

Lemma closed_pass p fuel s :
  closed_ready (sv_glue s) = [p] →
  wlp (process_closed fuel) (λ _ s', sockets s' !! p = None ∧
    sv_glue s' = (sv_glue s) <| closed_ready := [] |>) s.
Proof.
  intros Hl. destruct fuel as [|fuel]; [done|]. cbn [process_closed].
  wlp_step. rewrite wlp_glue_get, Hl.
  wlp_step. apply (wlp_keeps (frozen (sv_glue s) (sockets s) (buffers_available s)));
    [apply flush_frozen|done|intros _ s1 (Hg & Hs & _)].
  wlp_run. unfold sock_put. wlp_run. apply wlp_close_releases.
  assert (filter (.≠ p) (closed_ready (sv_glue s1)) = []) as Hf
    by (rewrite Hg, Hl; by rewrite filter_cons_False by naive_solver).
  destruct fuel as [|fuel]; [done|]. cbn [process_closed]. rewrite wlp_bind, wlp_glue_get.
  lazymatch goal with |- wlp (match ?l with _ => _ end) _ _ => change l with (filter (.≠ p) (closed_ready (sv_glue s1))) end.
  rewrite Hf, wlp_ret. split; [apply lookup_delete_eq|].
  transitivity ((sv_glue s1) <| closed_ready := filter (.≠ p) (closed_ready (sv_glue s1)) |>); [done|].
  by rewrite Hf, Hg.
Qed.

(** Closing a socket can leave a dangling pointer on a queue, because closing frees
    the [struct socket] at once.  The pass over the closed sockets does not look at
    the other lists: when the socket is also first on the read list, the pass that
    follows in the same function reads the freed memory, so the function never
    returns normally.  And [app_glue_close_socket] takes the socket off four lists
    but not off the list of those that wait for buffers: the next notification
    reads the freed socket as soon as there is a buffer. *)
Theorem closing_leaves_dangling p so l fuel s :
  sockets s !! p = Some so →
  (closed_ready (sv_glue s) = [p] → accept_ready (sv_glue s) = [] →
   read_ready (sv_glue s) = p :: l → 0 < read_sockets_queue_len (sv_glue s) →
   wlp (process_rx_ready_sockets fuel) (λ _ _, False) s) ∧
  (buffers_available s = p :: l → so_sk so = true → (∀ q, q ≠ Q_buffers → flag q so = false) →
   wp (app_glue_close_socket fuel p) (λ _ s',
     sockets s' !! p = None ∧ buffers_available s' = p :: l ∧
     ∀ n garbage count, get_buffer_count s' = Done (count, s') → 0 < count →
       wlp (notify_buffers_available n garbage) (λ _ _, False) s') s).
Proof.
  intros Hp. split.
  - intros Hc Ha Hr Hlen. unfold process_rx_ready_sockets.
    wlp_step. eapply wlp_mono; [by apply closed_pass|]. intros _ s1 [Hs1 Hg]. cbn beta.
    wlp_step. destruct fuel as [|fuel]; [done|]. cbn [process_accept].
    wlp_step. rewrite wlp_glue_get, Hg. cbn [accept_ready set_field]. change (accept_ready _) with (accept_ready (sv_glue s)). rewrite Ha.
    rewrite wlp_ret, wlp_bind, wlp_glue_get, Hg. change (read_sockets_queue_len _) with (read_sockets_queue_len (sv_glue s)).
    destruct (Z.to_nat (read_sockets_queue_len (sv_glue s))) as [|n] eqn:Hn; [lia|].
    unfold wlp. rewrite (read_dangling p l); [done| |done]. by rewrite Hg.
  - intros Hl Hsk Hf.
    pose proof (Hf Q_read ltac:(done)) as Hfr. pose proof (Hf Q_write ltac:(done)) as Hfw.
    pose proof (Hf Q_accept ltac:(done)) as Hfa. pose proof (Hf Q_closed ltac:(done)) as Hfc. cbn in *.
    unfold app_glue_close_socket, leave_read_queue, leave_write_queue, leave_accept_queue, leave_closed_queue.
    do 4 (rewrite wp_bind, wp_bind; apply (wp_so_read p so); [done|]; rewrite ?Hfr, ?Hfw, ?Hfa, ?Hfc, wp_ret).
    rewrite wp_bind. apply (wp_so_read p so); [done|]. rewrite Hsk. cbn [require]. rewrite wp_bind, wp_ret.
    rewrite wp_bind. apply (wp_so_write p so); [done|].
    unfold wp. rewrite close_releases. split; [apply lookup_delete_eq|]. split; [exact Hl|].
    intros n garbage count Hc Hpos. eapply notify_dangling; [exact Hl|apply lookup_delete_eq|exact Hc|exact Hpos].
Qed.
End dangling.

(** A socket that is closed and readable, and one that waits for buffers. *)
Definition doomed : svc unit :=
  one_socket <| sockets := {[100 := demo_socket <| sk_user_data := None |>
                                      <| read_queue_present := true |> <| closed_queue_present := true |>;
                             101 := demo_socket <| buffers_available_present := true |>]} |>
    <| sv_glue := demo_glue <| read_ready := [100] |> <| read_sockets_queue_len := 1 |>
                            <| closed_ready := [100] |> |>
    <| buffers_available := [101] |>.

Lemma idle_close p (s : svc unit) :
  kernel_close p s = Done (tt, s <| sockets := delete p (sockets s) |>).
Proof. done. Qed.

Lemma closing_leaves_dangling_witness :
  (∃ s', process_closed 2 doomed = Done (tt, s')) ∧ process_rx_ready_sockets 2 doomed = Fault ∧
  wlp (process_rx_ready_sockets 2) (λ _ _, False) doomed ∧
  wp (app_glue_close_socket 2 101) (λ _ s', sockets s' !! 101 = None ∧ buffers_available s' = [101] ∧
     ∀ n garbage count, get_buffer_count s' = Done (count, s') → 0 < count →
       wlp (notify_buffers_available n garbage) (λ _ _, False) s') doomed.
Proof.
  split; [eexists; reflexivity|]. split; [reflexivity|]. split.
  - apply (closing_leaves_dangling idle_close 100 _ [] 2 doomed eq_refl); done.
  - apply (closing_leaves_dangling idle_close 101 _ [] 2 doomed eq_refl); [done|done|]. by intros [].
Defined.
