(* ===== verification/Receive.v ===== *)
(** * From the stack to the application's ring
    (user_data_available_cbk in user_callbacks.h, process_rx_ready_sockets in
    porting/app_glue.c, the receive kick in ipaugenblick_service_loop.c)

    When a socket has data, the service moves packets from the stack to the
    connection's receive ring, as many as the ring has room for, and tells the
    application.  What does not fit stays in the stack until the application
    kicks the service, or until more data arrives.

    The stack's receive queues are a parameter: [pending] reads them off the
    stack's private state, and [StackReceives] says that [kernel_recvmsg] hands
    out the first packet. *)

From S2P Require Import Prelude Ring Mem Mbuf Service Server Callbacks AppGlue ServiceLoop.

Section receive.
Context {K : Type} `{Stack K} (pending : K → Z → list rx_msg).
Implicit Types (s : svc K).

Definition queued (s : svc K) (p : Z) : list rx_msg := pending (sv_stack s) p.
Definition heads (l : list rx_msg) : list Z := rx_head <$> l.

(** Addresses of packet buffers. *)
Definition live (ms : gmap Z rte_mbuf) (a : Z) : Prop := a ≠ 0 ∧ is_Some (ms !! a).

(** A packet is in a buffer; for a datagram there is room for the sender's address. *)
Definition fits (so : socket) (m : rx_msg) (ms : gmap Z rte_mbuf) : Prop :=
  rx_head m ≠ 0 ∧ ∃ b, ms !! rx_head m = Some b ∧ (is_datagram so = true → addr_room (rx_name m) b).

Record StackReceives : Prop := {
  sr_empty p s : queued s p = [] →
    ∃ rc msg k, rc ≤ 0 ∧ kernel_recvmsg p s = Done (rc, msg, s <| sv_stack := k |>) ∧
      ∀ p', pending k p' = queued s p';
  sr_packet p m q so s : queued s p = m :: q → sockets s !! p = Some so →
    ∃ rc k ms, 0 < rc ∧
      kernel_recvmsg p s =
        Done (rc, m, s <| sv_stack := k |> <| sv_shm := (sv_shm s) <| mbufs := ms |> |>) ∧
      pending k p = q ∧ (∀ p', p' ≠ p → pending k p' = queued s p') ∧ fits so m ms ∧
      (∀ a, live (mbufs (sv_shm s)) a → live ms a);
}.

(** ** Connections *)

(** Connection [i] as initialisation and the open command leave it: the rings with
    its number, a selector with its ready ring. *)
Record connection (i : Z) (d : socket_satelite_data_t) (blk : ipaugenblick_socket)
    (crx c : chan) (s : svc K) : Prop := {
  cn_recv : receiving s i d blk (RX_RING i) crx (READY_RING (sat_parent_idx d)) c;
  cn_idx : sat_ringset_idx d = i;
}.

(** What a delivery to connection [i] leaves alone. *)
Record framed (i : Z) (s s' : svc K) : Prop := {
  fr_sat : socket_satelite_data s' = socket_satelite_data s;
  fr_sel : g_selectors s' = g_selectors s;
  fr_sockets : sockets s' = sockets s;
  fr_glue : sv_glue s' = sv_glue s;
  fr_ok : rings_ok (rings (sv_shm s'));
  fr_ready sel c : chans (rings (sv_shm s)) !! READY_RING sel = Some c →
    ∃ c', chans (rings (sv_shm s')) !! READY_RING sel = Some c' ∧ ch_cap c' = ch_cap c;
  fr_chan id : id ≠ RX_RING i → (∀ sel, id ≠ READY_RING sel) →
    chans (rings (sv_shm s')) !! id = chans (rings (sv_shm s)) !! id;
  fr_blk j : j ≠ i → g_sockets (sv_shm s') !! j = g_sockets (sv_shm s) !! j;
  fr_cmds : cmds (sv_shm s') = cmds (sv_shm s);
  fr_live a : live (mbufs (sv_shm s)) a → live (mbufs (sv_shm s')) a;
}.

Lemma framed_refl i s : rings_ok (rings (sv_shm s)) → framed i s s.
Proof. intros Hok. split; try done. intros sel c Hc. by exists c. Qed.

Lemma framed_trans i s1 s2 s3 : framed i s1 s2 → framed i s2 s3 → framed i s1 s3.
Proof.
  intros [A1 A2 A3 A4 A5 A6 A7 A8 A9 A10] [B1 B2 B3 B4 B5 B6 B7 B8 B9 B10].
  split; try congruence; [exact B5|..].
  - intros sel c Hc. destruct (A6 sel c Hc) as (c1 & Hc1 & E1).
    destruct (B6 sel c1 Hc1) as (c2 & Hc2 & E2). exists c2. by rewrite E2, E1.
  - intros id H1 H2. by rewrite B7, A7.
  - intros j Hj. by rewrite B8, A8.
  - intros a Ha. by apply B10, A10.
Qed.

(** Another connection is not affected by a delivery to [i]. *)
Lemma connection_framed i j d blk crx c s s' :
  framed i s s' → j ≠ i → connection j d blk crx c s → ∃ c', connection j d blk crx c' s'.
Proof.
  intros [A1 A2 A3 A4 A5 A6 A7 A8 _ _] Hj [[B1 B2 B3 B4 B5 B6 [C1 C2 C3] B8] Hi].
  destruct (A6 _ _ C3) as (c' & Hc' & _). exists c'. split; [|done].
  split; try congruence; [|exact A5|..].
  - by rewrite A8 by congruence.
  - by rewrite A7 by congruence.
  - split; congruence.
Qed.

(** ** One packet *)

Definition with_flag (blk : ipaugenblick_socket) : ipaugenblick_socket :=
  if read_ready_to_app blk =? 0 then blk <| read_ready_to_app := 1 |> else blk.

Lemma with_flag_set blk : read_ready_to_app (with_flag blk) ≠ 0.
Proof. unfold with_flag. by destruct (Z.eqb_spec (read_ready_to_app blk) 0). Qed.

Lemma same_signalled st pid s :
  sv_shm (counted st (signalled pid s)) = sv_shm s ∧ sv_shm (signalled pid s) = sv_shm s.
Proof. unfold counted, signalled. by destruct (pid =? 0). Qed.

(** Marking, as seen from a connection. *)
Lemma marked_connection i d blk crx c s s' :
  connection i d blk crx c s →
  readable_marked d blk (READY_RING (sat_parent_idx d)) c s s' →
  ∃ c', connection i d (with_flag blk) crx c' s' ∧ framed i s s' ∧ sv_stack s' = sv_stack s ∧
    mbufs (sv_shm s') = mbufs (sv_shm s).
Proof.
  intros [[B1 B2 B3 B4 B5 B6 [C1 C2 C3] B8] Hi] Hm. unfold readable_marked, edge_marked in Hm.
  unfold with_flag. destruct (read_ready_to_app blk =? 0) eqn:Hf.
  - destruct Hm as (m' & (rs & Hm' & Hok & Hch) & ->). subst m'. cbn [rings set_field] in *.
    set (st := counted _ _).
    assert (sv_shm st = (sv_shm s) <| g_sockets := alter (λ b, b <| read_ready_to_app := 1 |>) i
              (g_sockets (sv_shm s)) |> <| rings := rs |>) as Hshm.
    { unfold st. rewrite (proj1 (same_signalled _ _ _)). by rewrite <- Hi. }
    assert (socket_satelite_data st = socket_satelite_data s ∧ g_selectors st = g_selectors s ∧
            sockets st = sockets s ∧ sv_glue st = sv_glue s ∧ sv_stack st = sv_stack s) as (E1&E2&E3&E4&E5)
      by (unfold st, counted, signalled; by destruct (sat_apppid d =? 0)).
    exists (posted c (ready_entry (sat_ringset_idx d) SOCKET_READABLE_BIT)).
    split_and!; [| |done|by rewrite Hshm].
    + split; [|done]. split; try congruence.
      * rewrite Hshm, Hi. cbn. rewrite lookup_alter_eq, <- Hi, B2. done.
      * by rewrite Hshm.
      * rewrite Hshm. change (chans rs !! RX_RING i = Some crx). by rewrite Hch, lookup_insert_ne.
      * split; [done|congruence|]. rewrite Hshm.
        change (chans rs !! READY_RING (sat_parent_idx d) = Some (posted c (ready_entry (sat_ringset_idx d) SOCKET_READABLE_BIT))).
        by rewrite Hch, lookup_insert_eq.
    + split; try done.
      * by rewrite Hshm.
      * intros sel c0 Hc0. rewrite Hshm. change (∃ c', chans rs !! READY_RING sel = Some c' ∧ ch_cap c' = ch_cap c0).
        rewrite Hch. destruct (decide (sel = sat_parent_idx d)) as [->|Hne].
        -- rewrite lookup_insert_eq. eexists. split; [done|]. assert (c0 = c) as -> by congruence.
           unfold posted. by destruct (_ <? _).
        -- rewrite lookup_insert_ne by congruence. by exists c0.
      * intros id H1 H2. rewrite Hshm. change (chans rs !! id = chans (rings (sv_shm s)) !! id).
        by rewrite Hch, lookup_insert_ne by (intros <-; by eapply H2).
      * intros j Hj. rewrite Hshm. cbn. by rewrite lookup_alter_ne by done.
      * by rewrite Hshm.
      * intros a Ha. by rewrite Hshm.
  - subst s'. exists c. unfold signalled.
    destruct (sat_apppid d =? 0); (split_and!; [by split| |done|done]);
      (split; try done; intros sel c0 Hc0; by exists c0).
Qed.

Definition appended (crx : chan) (l : list Z) : chan := mk_chan (ch_cap crx) (ch_wm crx) (ch_q crx ++ l).

Lemma appended_nil crx : appended crx [] = crx.
Proof. unfold appended. rewrite app_nil_r. by destruct crx. Qed.
Lemma appended_app crx l l' : appended (appended crx l) l' = appended crx (l ++ l').
Proof. unfold appended. cbn. by rewrite app_assoc. Qed.

Lemma submitted_connection i d blk crx c m s s' :
  connection i d blk crx c s → zlen (ch_q crx) < ch_cap crx →
  submitted d blk (RX_RING i) crx (READY_RING (sat_parent_idx d)) c m s s' →
  ∃ c', connection i d (with_flag blk) (appended crx [m]) c' s' ∧ framed i s s' ∧
    sv_stack s' = sv_stack s ∧ mbufs (sv_shm s') = mbufs (sv_shm s).
Proof.
  intros [[B1 B2 B3 B4 B5 B6 [C1 C2 C3] B8] Hi] Hroom (m1 & (rs & -> & Hok & Hch) & Hmk).
  unfold posted in Hch. rewrite (proj2 (Z.ltb_lt _ _) Hroom) in Hch.
  destruct (marked_connection i d blk (appended crx [m]) c (s <| sv_shm := (sv_shm s) <| rings := rs |> |>) s')
    as (c' & Hc' & Hf & Hst & Hmb); [|done|].
  - split; [|done]. split; try done.
    + change (chans rs !! RX_RING i = Some (appended crx [m])). by rewrite Hch, lookup_insert_eq.
    + split; [done..|]. change (chans rs !! READY_RING (sat_parent_idx d) = Some c).
      by rewrite Hch, lookup_insert_ne.
  - exists c'. split_and!; [done| |done|done]. eapply framed_trans; [|exact Hf].
    split; try done.
    + intros sel c0 Hc0. exists c0. split; [|done]. change (chans rs !! READY_RING sel = Some c0).
      by rewrite Hch, lookup_insert_ne.
    + intros id H1 H2. change (chans rs !! id = chans (rings (sv_shm s)) !! id).
      by rewrite Hch, lookup_insert_ne.
Qed.

(** The stack moves on, packet buffers change. *)
Lemma connection_stack i d blk crx c s k ms s' :
  s' = s <| sv_stack := k |> <| sv_shm := (sv_shm s) <| mbufs := ms |> |> →
  (∀ a, live (mbufs (sv_shm s)) a → live ms a) →
  connection i d blk crx c s → connection i d blk crx c s' ∧ framed i s s'.
Proof.
  intros -> Hlive [[B1 B2 B3 B4 B5 B6 [C1 C2 C3] B8] Hi]. split; [split; [split; try done; by split|done]|].
  split; try done. intros sel c0 Hc0. by exists c0.
Qed.

(** ** A number of packets *)

Record delivered (i p : Z) (d : socket_satelite_data_t) (blk : ipaugenblick_socket) (crx : chan)
    (k : nat) (s s' : svc K) : Prop := {
  dl_conn : ∃ c', connection i d (if decide (k = 0%nat) then blk else with_flag blk)
                    (appended crx (heads (take k (queued s p)))) c' s';
  dl_left : queued s' p = drop k (queued s p);
  dl_others p' : p' ≠ p → queued s' p' = queued s p';
  dl_live : Forall (live (mbufs (sv_shm s'))) (heads (take k (queued s p)));
  dl_frame : framed i s s';
}.

Lemma with_flag_idem blk : with_flag (with_flag blk) = with_flag blk.
Proof. unfold with_flag at 1. by rewrite (proj2 (Z.eqb_neq _ _) (with_flag_set blk)). Qed.

(** A first packet, then the others. *)
Lemma delivered_cons i p d blk crx m q k s s1 s' :
  queued s p = m :: q → queued s1 p = q → (∀ p', p' ≠ p → queued s1 p' = queued s p') →
  framed i s s1 → live (mbufs (sv_shm s1)) (rx_head m) → delivered i p d (with_flag blk) (appended crx [rx_head m]) k s1 s' →
  delivered i p d blk crx (Datatypes.S k) s s'.
Proof.
  intros Hq Hq1 Ho Hf Hm [(c' & Hc) Hl Hos Hlv Hfr]. split.
  - exists c'. rewrite decide_False by done. rewrite Hq, Hq1, appended_app in *. cbn [take heads fmap list_fmap].
    destruct (decide (k = 0%nat)); [done|]. by rewrite with_flag_idem in Hc.
  - rewrite Hl, Hq, Hq1. done.
  - intros p' Hp'. by rewrite Hos, Ho.
  - rewrite Hq. cbn. constructor; [by apply (fr_live _ _ _ Hfr)|]. by rewrite Hq1 in Hlv.
  - by eapply framed_trans.
Qed.

Hypothesis Hstack : StackReceives.

Lemma wp_receive_loop i p so d n : ∀ blk crx c s,
  connection i d blk crx c s → sockets s !! p = Some so →
  Z.of_nat n ≤ ch_cap crx - zlen (ch_q crx) →
  wp (receive_loop n p i) (λ r s', let k := (n `min` length (queued s p))%nat in
    r = (Z.of_nat (n - k)%nat, bool_decide (length (queued s p) < n)%nat) ∧
    delivered i p d blk crx k s s') s.
Proof.
  induction n as [|n IH]; intros blk crx c s Hc Hp Hroom; cbn [receive_loop].
  - rewrite wp_ret. cbn [Nat.min]. split; [by rewrite bool_decide_eq_false_2 by lia|].
    split; [|done|done|constructor|apply framed_refl, Hc].
    exists c. rewrite decide_True, take_0 by done. cbn. by rewrite appended_nil.
  - rewrite wp_bind. destruct (queued s p) as [|m q] eqn:Hq.
    + destruct (sr_empty Hstack p s Hq) as (rc & msg & k & Hrc & Hd & Hk).
      unfold wp at 1. rewrite Hd. rewrite (proj2 (Z.leb_le _ _) Hrc), wp_ret.
      cbn [length Nat.min]. split; [by rewrite Nat.sub_0_r, bool_decide_eq_true_2 by lia|].
      destruct (connection_stack i d blk crx c s k (mbufs (sv_shm s)) (s <| sv_stack := k |>)) as [Hc' Hf];
        [by destruct s as [[] ? ? ? ? ? ? ? ? ? ?]|done|done|].
      split; [|rewrite Hq; exact (eq_trans (Hk p) Hq)| |constructor|done].
      * exists c. rewrite decide_True, take_0 by done. cbn. by rewrite appended_nil.
      * intros p' _. apply (Hk p').
    + destruct (sr_packet Hstack p m q so s Hq Hp) as (rc & k & ms & Hrc & Hd & Hk & Ho & (Hm0 & b & Hb & Hroom') & Hlive).
      unfold wp at 1. rewrite Hd. replace (rc <=? 0) with false by (symmetry; apply Z.leb_gt; lia).
      set (s1 := _ <| sv_shm := _ |>).
      destruct (connection_stack i d blk crx c s k ms s1 eq_refl Hlive Hc) as [Hc1 Hf1].
      rewrite wp_bind. apply (wp_so_read p so); [done|]. rewrite wp_bind.
      assert (∃ ms' b', wp (if is_datagram so then store_sockaddr (rx_head m) (rx_name m) else mret tt)
        (λ _ s2, s2 = s1 <| sv_shm := (sv_shm s1) <| mbufs := ms' |> |> ∧ ms' !! rx_head m = Some b' ∧
          ∀ a, live ms a → live ms' a) s1)
        as (ms' & b' & Hst).
      { destruct (is_datagram so).
        - exists (alter (with_addr (rx_name m)) (rx_head m) ms), (with_addr (rx_name m) b).
          apply (wp_store_alter _ b); [done|by apply Hroom'|].
          split_and!; [done|by rewrite lookup_alter_eq, Hb|].
          intros a [Ha Hsome]. split; [done|by apply lookup_alter_is_Some].
        - exists ms, b. rewrite wp_ret. by split_and!; [destruct s as [[] ? ? ? ? ? ? ? ? ? ?]| |]. }
      eapply wp_mono; [exact Hst|]. intros _ s2 (Hs2 & Hb' & Hlive'). cbn beta.
      destruct (connection_stack i d blk crx c s1 (sv_stack s1) ms' s2) as [Hc2 Hf2];
        [by rewrite Hs2; destruct s1 as [[] ? ? ? ? ? ? ? ? ? ?]|done|done|].
      rewrite wp_bind. apply (wp_mbuf_read _ b'); [by rewrite Hs2|]. rewrite wp_bind.
      apply (wp_submit_rx_buf s2 i d blk (RX_RING i) crx (READY_RING (sat_parent_idx d)) c); [apply Hc2|]. intros s3 Hs3.
      destruct (submitted_connection i d blk crx c (rx_head m) s2 s3 Hc2) as (c3 & Hc3 & Hf3 & Hk3 & Hmb3);
        [lia|done|].
      replace (zlen (ch_q crx) <? ch_cap crx) with true by (symmetry; apply Z.ltb_lt; lia). cbn [negb].
      rewrite wp_bind. unfold user_add, on_svc at 1. rewrite wp_modify.
      set (s4 := _ <| sv_stats := _ |>).
      assert (framed i s s4) as Hf4.
      { eapply framed_trans; [exact Hf1|]. eapply framed_trans; [exact Hf2|]. eapply framed_trans; [exact Hf3|].
        split; try done; [apply Hc3|]. intros sel c0 Hc0. by exists c0. }
      assert (queued s4 p = q ∧ ∀ p', p' ≠ p → queued s4 p' = queued s p') as [Hq4 Ho4].
      { unfold queued. change (sv_stack s4) with (sv_stack s3). rewrite Hk3, Hs2. done. }
      eapply wp_mono; [apply (IH (with_flag blk) (appended crx [rx_head m]) c3)|].
      * destruct Hc3 as [[? ? ? ? ? ? [? ? ?] ?] ?]. split; [split; try done; by split|done].
      * by rewrite (fr_sockets _ _ _ Hf4).
      * cbn. rewrite zlen_app. unfold zlen at 2. cbn. lia.
      * intros r s' [Hr Hdl]. rewrite Hq4 in *. cbn [length]. split.
        -- rewrite Hr. f_equal. apply bool_decide_ext. lia.
        -- rewrite <- Nat.succ_min_distr. apply (delivered_cons _ _ _ _ _ m q _ _ s4); try done.
           change (mbufs (sv_shm s4)) with (mbufs (sv_shm s3)). rewrite Hmb3, Hs2. split; [done|by exists b'].
Qed.

(** ** The callback *)

Lemma connection_stats i d blk crx c s f s' :
  s' = s <| sv_stats := f |> → connection i d blk crx c s → connection i d blk crx c s' ∧ framed i s s'.
Proof.
  intros -> [[B1 B2 B3 B4 B5 B6 [C1 C2 C3] B8] Hi].
  split; [split; [split; try done; by split|done]|]. split; try done. intros sel c0 Hc0. by exists c0.
Qed.

Lemma wp_user_add st n (Q : unit → svc K → Prop) s :
  (∀ f, Q tt (s <| sv_stats := f |>)) → wp (user_add st n) Q s.
Proof. intros HQ. apply (HQ _). Qed.

(** A socket that is served: connected or without connections, and connection [i]'s. *)
Record served (i p : Z) (so : socket) (s : svc K) : Prop := {
  sv_so : sockets s !! p = Some so;
  sv_ne : p ≠ 0;
  sv_sk : so_sk so = true;
  sv_data : sk_user_data so = Some i;
  sv_state : sk_state so ≠ TCP_LISTEN;
}.

Definition room (crx : chan) : nat := Z.to_nat (ch_cap crx - zlen (ch_q crx)).

(** After the callback: as many packets as there is room for have moved; the
    application has been told, unless there was nothing and there was room. *)
Record refilled (i p : Z) (d : socket_satelite_data_t) (blk : ipaugenblick_socket) (crx : chan)
    (s s' : svc K) : Prop := {
  rf_conn : ∃ c', connection i d
    (if decide (queued s p = [] ∧ room crx ≠ 0%nat) then blk else with_flag blk)
    (appended crx (heads (take (room crx) (queued s p)))) c' s';
  rf_left : queued s' p = drop (room crx) (queued s p);
  rf_others p' : p' ≠ p → queued s' p' = queued s p';
  rf_live : Forall (live (mbufs (sv_shm s'))) (heads (take (room crx) (queued s p)));
  rf_frame : framed i s s';
}.

Lemma take_min {A} (l : list A) n : take (n `min` length l) l = take n l.
Proof. destruct (Nat.le_ge_cases n (length l)); [by rewrite Nat.min_l|rewrite Nat.min_r by lia; by rewrite !take_ge by lia]. Qed.
Lemma drop_min {A} (l : list A) n : drop (n `min` length l) l = drop n l.
Proof. destruct (Nat.le_ge_cases n (length l)); [by rewrite Nat.min_l|rewrite Nat.min_r by lia; by rewrite !drop_ge by lia]. Qed.

Lemma wp_data_available i p so d blk crx c s :
  connection i d blk crx c s → served i p so s → 0 ≤ ch_cap crx - zlen (ch_q crx) →
  wp (user_data_available_cbk p) (λ _ s', refilled i p d blk crx s s') s.
Proof.
  intros Hc [Hp Hp0 Hsk Hdata Hst] Hroom. unfold user_data_available_cbk.
  rewrite wp_bind. apply wp_user_inc. unfold counted. set (s1 := _ <| sv_stats := _ |>).
  destruct (connection_stats i d blk crx c s _ s1 eq_refl Hc) as [Hc1 Hf1].
  rewrite (proj2 (Z.eqb_neq _ _) Hp0). unfold get_user_data.
  rewrite wp_bind, (proj2 (Z.eqb_neq _ _) Hp0), wp_bind. apply (wp_so_read p so); [done|].
  rewrite Hsk, wp_ret, Hdata, wp_bind. apply (wp_so_read p so); [done|].
  rewrite (proj2 (Z.eqb_neq _ _) Hst). unfold ipaugenblick_rx_buf_free_count.
  rewrite !wp_bind. apply (wp_sat_ring _ _ d (RX_RING i)); [apply Hc1|apply Hc1|].
  apply (wp_ring_free_count _ crx); [apply Hc1|apply Hc1|].
  rewrite wp_bind. apply wp_user_add. intros f2. set (s2 := _ <| sv_stats := f2 |>).
  destruct (connection_stats i d blk crx c s1 _ s2 eq_refl Hc1) as [Hc2 Hf2].
  rewrite wp_bind. fold (room crx).
  eapply wp_mono; [apply (wp_receive_loop i p so d (room crx) blk crx c s2 Hc2 Hp)|].
  { unfold room. lia. }
  change (queued s2 p) with (queued s p). intros [places dry] s3 [[= -> ->] [[c3 Hc3] Hl3 Ho3 Hv3 Hf3]].
  change (queued s2 p) with (queued s p) in *. cbv zeta in *. rewrite take_min in Hc3, Hv3. rewrite drop_min in Hl3.
  set (k := (room crx `min` length (queued s p))%nat) in *.
  rewrite wp_bind. apply wp_user_add. intros f4. set (s4 := _ <| sv_stats := f4 |>).
  destruct (connection_stats i d _ _ _ s3 _ s4 eq_refl Hc3) as [Hc4 Hf4].
  assert (framed i s s4) as Hf by exact (framed_trans _ _ _ _ Hf1 (framed_trans _ _ _ _ Hf2 (framed_trans _ _ _ _ Hf3 Hf4))).
  destruct (decide (length (queued s p) < room crx)%nat) as [Hdry|Hdry].
  - rewrite bool_decide_eq_true_2 by done. cbn [negb andb]. rewrite wp_ret. split; [|done|done|done|done].
    exists c3. replace (decide (queued s p = [] ∧ _)) with (decide (queued s p = [] ∧ room crx ≠ 0%nat)) by done.
    destruct (decide (k = 0%nat)) as [Hk|Hk].
    + rewrite decide_True; [done|]. split; [|lia]. apply length_zero_iff_nil. lia.
    + rewrite decide_False; [done|]. intros [Hnil _]. apply Hk. unfold k. rewrite Hnil. cbn. lia.
  - rewrite bool_decide_eq_false_2 by done.
    replace (Z.of_nat (room crx - k)%nat =? 0) with true by (symmetry; apply Z.eqb_eq; lia).
    cbn [negb andb].
    apply (wp_mark_readable i d s4 (rv_sat _ _ _ _ _ _ _ _ (cn_recv _ _ _ _ _ _ Hc4)) _ _ c3
      (rv_blk _ _ _ _ _ _ _ _ (cn_recv _ _ _ _ _ _ Hc4)) (rv_rings _ _ _ _ _ _ _ _ (cn_recv _ _ _ _ _ _ Hc4))
      (rv_sel _ _ _ _ _ _ _ _ (cn_recv _ _ _ _ _ _ Hc4))).
    intros s5 Hm. destruct (marked_connection _ _ _ _ _ _ _ Hc4 Hm) as (c5 & Hc5 & Hf5 & Hst5 & _).
    split.
    + exists c5. rewrite decide_False by (intros [Hnil ?]; apply Hdry; rewrite Hnil; cbn; lia).
      destruct (decide (k = 0%nat)); [done|]. by rewrite with_flag_idem in Hc5.
    + unfold queued at 1. by rewrite Hst5.
    + intros p' Hp'. unfold queued at 1. rewrite Hst5. by apply Ho3.
    + eapply Forall_impl; [exact Hv3|]. intros a. apply (fr_live _ _ _ Hf5).
    + by eapply framed_trans.
Qed.

(** ** What the callback promises *)

(** Between [s] and [s'], the socket [p] of connection [i] has passed on all it had
    room for, and its application has been told, if there was anything to tell. *)
Record passed_on (i p : Z) (s s' : svc K) : Prop := {
  po_order : contents (sv_shm s') (RX_RING i) ++ heads (queued s' p) =
             contents (sv_shm s) (RX_RING i) ++ heads (queued s p);
  po_full : queued s' p = [] ∨ ∃ crx, chans (rings (sv_shm s')) !! RX_RING i = Some crx ∧
              zlen (ch_q crx) = ch_cap crx;
  po_told : queued s p ≠ [] → ∃ blk, g_sockets (sv_shm s') !! i = Some blk ∧ read_ready_to_app blk ≠ 0;
}.

Lemma contents_chan m id c : chans (rings m) !! id = Some c → contents m id = ch_q c.
Proof. intros Hc. unfold contents. by rewrite Hc. Qed.

Lemma refilled_passed_on i p d blk crx c s s' :
  connection i d blk crx c s → refilled i p d blk crx s s' → 0 ≤ ch_cap crx - zlen (ch_q crx) →
  passed_on i p s s'.
Proof.
  intros Hc [[c' Hc'] Hl Ho _ Hf] Hroom.
  pose proof (rv_chan _ _ _ _ _ _ _ _ (cn_recv _ _ _ _ _ _ Hc)) as Hch.
  pose proof (rv_chan _ _ _ _ _ _ _ _ (cn_recv _ _ _ _ _ _ Hc')) as Hch'.
  split.
  - rewrite (contents_chan _ _ _ Hch), (contents_chan _ _ _ Hch'), Hl. cbn.
    rewrite <- app_assoc. f_equal. unfold heads. by rewrite <- fmap_app, take_drop.
  - rewrite Hl. destruct (decide (length (queued s p) ≤ room crx)%nat) as [Hle|Hgt].
    + left. by apply drop_ge.
    + right. eexists. split; [exact Hch'|]. cbn. rewrite zlen_app. unfold heads, zlen at 2.
      rewrite length_fmap, length_take. unfold room in *. lia.
  - intros Hne. rewrite decide_False in Hc' by naive_solver.
    exists (with_flag blk). split; [|apply with_flag_set].
    rewrite <- (cn_idx _ _ _ _ _ _ Hc') at 1. apply (rv_blk _ _ _ _ _ _ _ _ (cn_recv _ _ _ _ _ _ Hc')).
Qed.

Lemma connection_room i d blk crx c s : connection i d blk crx c s → 0 ≤ ch_cap crx - zlen (ch_q crx).
Proof.
  intros [[B1 B2 B3 B4 B5 B6 B7 B8] _]. pose proof (chan_bounded _ _ _ B3 B5). lia.
Qed.

(** Work for another connection does not undo it. *)
Lemma passed_on_framed i j p s s1 s2 :
  passed_on i p s s1 → framed j s1 s2 → i ≠ j → queued s2 p = queued s1 p → passed_on i p s s2.
Proof.
  intros [Ho Hf Ht] Hfr Hij Hq.
  assert (chans (rings (sv_shm s2)) !! RX_RING i = chans (rings (sv_shm s1)) !! RX_RING i) as Hch
    by (apply (fr_chan _ _ _ Hfr); congruence).
  split.
  - rewrite Hq, <- Ho. unfold contents. by rewrite Hch.
  - rewrite Hq, Hch. exact Hf.
  - intros Hne. rewrite (fr_blk _ _ _ Hfr i Hij). by apply Ht.
Qed.

(** Nor does it matter where one starts to look, if nothing has happened since. *)
Lemma passed_on_from i p s s1 s2 :
  contents (sv_shm s1) (RX_RING i) = contents (sv_shm s) (RX_RING i) → queued s1 p = queued s p →
  passed_on i p s1 s2 → passed_on i p s s2.
Proof. intros Hc Hq [Ho Hf Ht]. split; [congruence|done|by rewrite <- Hq]. Qed.

(** ** A pass over the ready sockets *)

Definition can_receive (i p : Z) (s : svc K) : Prop :=
  ∃ so d blk crx c, served i p so s ∧ connection i d blk crx c s.

(** What a pass over the sockets and connections [ps] leaves alone. *)
Record untouched (ps : list (Z * Z)) (s s' : svc K) : Prop := {
  un_socket q : q ∉ ps.*1 → sockets s' !! q = sockets s !! q;
  un_queued q : q ∉ ps.*1 → queued s' q = queued s q;
  un_chan j : j ∉ ps.*2 →
    chans (rings (sv_shm s')) !! RX_RING j = chans (rings (sv_shm s)) !! RX_RING j;
  un_blk j : j ∉ ps.*2 → g_sockets (sv_shm s') !! j = g_sockets (sv_shm s) !! j;
}.

Lemma untouched_refl s : untouched [] s s.
Proof. by split. Qed.

Lemma untouched_cons p i ps s1 s2 s3 :
  untouched [(p, i)] s1 s2 → untouched ps s2 s3 → untouched ((p, i) :: ps) s1 s3.
Proof.
  intros [A1 A2 A3 A4] [B1 B2 B3 B4]. cbn in *.
  split; cbn; intros x [Hx Hps]%not_elem_of_cons.
  - rewrite B1, A1 by (by rewrite ?list_elem_of_singleton). done.
  - rewrite B2, A2 by (by rewrite ?list_elem_of_singleton). done.
  - rewrite B3, A3 by (by rewrite ?list_elem_of_singleton). done.
  - rewrite B4, A4 by (by rewrite ?list_elem_of_singleton). done.
Qed.

Lemma passed_on_untouched i p ps s s1 s2 :
  passed_on i p s s1 → untouched ps s1 s2 → p ∉ ps.*1 → i ∉ ps.*2 → passed_on i p s s2.
Proof.
  intros [Ho Hf Ht] [Hs Hq Hc Hb] Hp Hi. specialize (Hq _ Hp). specialize (Hc _ Hi). specialize (Hb _ Hi).
  split; [|by rewrite Hq, Hc|by rewrite Hb]. rewrite Hq, <- Ho. unfold contents. by rewrite Hc.
Qed.

(** Connections do not depend on the sockets and the queues. *)
Lemma connection_local i d blk crx c s s' :
  sv_shm s' = sv_shm s → socket_satelite_data s' = socket_satelite_data s →
  g_selectors s' = g_selectors s → connection i d blk crx c s → connection i d blk crx c s'.
Proof.
  intros E1 E2 E3 [[B1 B2 B3 B4 B5 B6 [C1 C2 C3] B8] Hi].
  split; [|done]. split; try (by rewrite ?E1, ?E2). split; [done|by rewrite E3|by rewrite E1].
Qed.

(** One socket of the pass. *)
Definition serve_one (p : Z) : M (svc K) unit :=
  _ ← so_write p (λ d, d <| read_queue_present := false |>);
  l ← glue_get read_ready; l' ← tailq_remove l p;
  _ ← on_glue (λ g, g <| read_ready := l' |>);
  _ ← user_data_available_cbk p;
  _ ← sock_put p;
  on_glue (λ g, g <| read_sockets_queue_len := (read_sockets_queue_len g - 1) mod 2 ^ 64 |>).

Record one_served (i p : Z) (l : list Z) (s s' : svc K) : Prop := {
  os_ready : read_ready (sv_glue s') = l;
  os_len : read_sockets_queue_len (sv_glue s') = (read_sockets_queue_len (sv_glue s) - 1) mod 2 ^ 64;
  os_passed : passed_on i p s s';
  os_flag : ∃ so, sockets s' !! p = Some so ∧ read_queue_present so = false;
  os_rest : untouched [(p, i)] s s';
  os_frame : ∃ s1 s2, socket_satelite_data s1 = socket_satelite_data s ∧ g_selectors s1 = g_selectors s ∧
    sv_shm s1 = sv_shm s ∧ framed i s1 s2 ∧ sv_shm s' = sv_shm s2 ∧
    socket_satelite_data s' = socket_satelite_data s2 ∧ g_selectors s' = g_selectors s2;
}.

(** The service with [p] off the read queue, and after the queue's reference is dropped. *)
Definition off_queue (p : Z) (so : socket) (l : list Z) (s : svc K) : svc K :=
  s <| sockets := <[p := so <| read_queue_present := false |>]> (sockets s) |>
    <| sv_glue := (sv_glue s) <| read_ready := l |> |>.
Definition put_off (p : Z) (so : socket) (s : svc K) : svc K :=
  s <| sockets := <[p := so <| read_queue_present := false |> <| sk_refcnt := sk_refcnt so - 1 |>]> (sockets s) |>
    <| sv_glue := (sv_glue s) <| read_sockets_queue_len := (read_sockets_queue_len (sv_glue s) - 1) mod 2 ^ 64 |> |>.

Lemma served_off i p so l s :
  served i p so s → served i p (so <| read_queue_present := false |>) (off_queue p so l s).
Proof. intros [Hso Hp0 Hsk Hdata Hst]. split; try done. apply lookup_insert_eq. Qed.

Lemma wp_serve_refill i p so d blk crx c l s :
  served i p so s → connection i d blk crx c s → read_ready (sv_glue s) = p :: l → p ∉ l →
  wp (serve_one p) (λ _ s', ∃ s2, refilled i p d blk crx (off_queue p so l s) s2 ∧ s' = put_off p so s2) s.
Proof.
  intros Hsv Hc Hl Hp. unfold serve_one, glue_get, on_glue, sock_put.
  rewrite wp_bind. apply (wp_so_write p so); [by apply Hsv|].
  rewrite wp_bind, wp_gets, wp_bind. change (read_ready (sv_glue (s <| sockets := _ |>))) with (read_ready (sv_glue s)).
  rewrite Hl, wp_tailq_remove. split; [left|].
  rewrite filter_cons_False by naive_solver. rewrite filter_ne_notin by done.
  rewrite wp_bind, wp_modify, wp_bind.
  lazymatch goal with |- wp ?m ?Q _ => change (wp m Q (off_queue p so l s)) end.
  assert (connection i d blk crx c (off_queue p so l s)) as Hc1 by (by apply (connection_local i d blk crx c s)).
  eapply wp_mono; [apply (wp_data_available i p _ d blk crx c _ Hc1 (served_off i p so l s Hsv)); by eapply connection_room|].
  intros ? s2 Hr. cbn beta in Hr |- *.
  rewrite wp_bind. apply (wp_so_write p (so <| read_queue_present := false |>)).
  { rewrite (fr_sockets _ _ _ (rf_frame _ _ _ _ _ _ _ Hr)). apply lookup_insert_eq. }
  rewrite wp_modify. exists s2. by split.
Qed.

Lemma wp_serve_one i p l s :
  can_receive i p s → read_ready (sv_glue s) = p :: l → p ∉ l →
  wp (serve_one p) (λ _ s', one_served i p l s s') s.
Proof.
  intros (so & d & blk & crx & c & Hsv & Hc) Hl Hp.
  eapply wp_mono; [by apply (wp_serve_refill i p so d blk crx c l)|].
  intros ? s' (s2 & Hr & ->). set (s1 := off_queue p so l s) in *.
  assert (connection i d blk crx c s1) as Hc1 by (by apply (connection_local i d blk crx c s)).
  pose proof (refilled_passed_on _ _ _ _ _ _ _ _ Hc1 Hr (connection_room _ _ _ _ _ _ Hc1)) as [Ho Hf Ht].
  pose proof (rf_frame _ _ _ _ _ _ _ Hr) as Hfr. split.
  - change (read_ready (sv_glue s2) = l). by rewrite (fr_glue _ _ _ Hfr).
  - change ((read_sockets_queue_len (sv_glue s2) - 1) mod 2 ^ 64 = (read_sockets_queue_len (sv_glue s) - 1) mod 2 ^ 64).
    by rewrite (fr_glue _ _ _ Hfr).
  - split; [exact Ho|exact Hf|exact Ht].
  - eexists. split; [apply lookup_insert_eq|done].
  - split; cbn [fmap list_fmap fst snd]; intros x [Hx _]%not_elem_of_cons; cbn in Hx.
    + unfold put_off. cbn. rewrite lookup_insert_ne by congruence. rewrite (fr_sockets _ _ _ Hfr).
      unfold s1, off_queue. cbn. by rewrite lookup_insert_ne by congruence.
    + apply (rf_others _ _ _ _ _ _ _ Hr). exact Hx.
    + apply (fr_chan _ _ _ Hfr); [|done]. congruence.
    + apply (fr_blk _ _ _ Hfr). exact Hx.
  - exists s1, s2. by split_and!.
Qed.

Lemma process_read_cons n p l s :
  read_ready (sv_glue s) = p :: l →
  process_read (Datatypes.S n) s = (_ ← serve_one p; process_read n) s.
Proof.
  intros Hl. cbn [process_read]. unfold serve_one, glue_get, gets, so_write, so_read, on_svc, modify, of_option, mbind, M_bind.
  rewrite Hl. cbn. destruct (sockets s !! p); [|done]. cbn.
  change (read_ready (sv_glue (s <| sockets := _ |>))) with (read_ready (sv_glue s)). rewrite Hl.
  unfold tailq_remove. rewrite decide_True by left. cbn.
  destruct (user_data_available_cbk p _) as [[? ?]| |]; [|done|done].
  by destruct (sock_put p _) as [[? ?]| |].
Qed.

(** The next socket of the pass is as it was. *)
Lemma can_receive_next i p j q l s s' :
  one_served i p l s s' → q ≠ p → j ≠ i → can_receive j q s → can_receive j q s'.
Proof.
  intros [_ _ _ _ Hun (s1 & s2 & E1 & E2 & E3 & Hfr & E4 & E5 & E6)] Hq Hj (so & d & blk & crx & c & Hsv & Hc).
  apply (connection_local j d blk crx c s s1 E3 E1 E2) in Hc.
  destruct (connection_framed _ _ _ _ _ _ _ _ Hfr Hj Hc) as [c' Hc'].
  exists so, d, blk, crx, c'. split; [|by apply (connection_local j d blk crx c' s2 s')].
  destruct Hsv as [H1 H2 H3 H4 H5]. split; [|done..].
  rewrite (un_socket _ _ _ Hun); [done|]. by cbn; rewrite list_elem_of_singleton.
Qed.

Record pass_done (ps : list (Z * Z)) (s s' : svc K) : Prop := {
  pd_empty : read_ready (sv_glue s') = [];
  pd_len : read_sockets_queue_len (sv_glue s') =
    (read_sockets_queue_len (sv_glue s) - zlen ps) mod 2 ^ 64;
  pd_served p i : (p, i) ∈ ps → passed_on i p s s' ∧
    ∃ so, sockets s' !! p = Some so ∧ read_queue_present so = false;
  pd_rest : untouched ps s s';
}.

Lemma wp_process_read ps : ∀ s limit,
  (length ps ≤ limit)%nat → read_ready (sv_glue s) = ps.*1 → NoDup ps.*1 → NoDup ps.*2 →
  (∀ p i, (p, i) ∈ ps → can_receive i p s) →
  0 ≤ read_sockets_queue_len (sv_glue s) < 2 ^ 64 →
  wp (process_read limit) (λ _ s', pass_done ps s s') s.
Proof.
  induction ps as [|[p i] ps IH]; intros s limit Hlim Hl Hp Hi Hcan Hlen.
  - assert (pass_done [] s s) as Hd.
    { split; [done| |by intros p i ?%not_elem_of_nil|apply untouched_refl].
      change (zlen []) with 0. by rewrite Z.sub_0_r, Z.mod_small. }
    destruct limit; cbn [process_read]; [by rewrite wp_ret|].
    unfold glue_get. rewrite wp_bind, wp_gets. cbn in Hl. by rewrite Hl, wp_ret.
  - destruct limit as [|limit]; [cbn in Hlim; lia|]. cbn in Hl, Hp, Hi, Hlim.
    apply NoDup_cons in Hp as [Hp Hps], Hi as [Hi His].
    unfold wp. rewrite (process_read_cons _ _ _ _ Hl). fold (wp (_ ← serve_one p; process_read limit) (λ _ s', pass_done ((p, i) :: ps) s s') s).
    rewrite wp_bind. eapply wp_mono; [apply (wp_serve_one i p ps.*1 s); [apply Hcan; left|exact Hl|done]|].
    intros ? s1 H1. cbn beta in H1.
    assert (∀ q j, (q, j) ∈ ps → q ≠ p ∧ j ≠ i) as Hne.
    { intros q j Hin. split; intros ->; [apply Hp|apply Hi]; apply list_elem_of_fmap; by eexists (_, _). }
    eapply wp_mono; [apply (IH s1 limit); try done; [lia|apply H1| |]|].
    + intros q j Hin. destruct (Hne _ _ Hin). eapply can_receive_next; [exact H1|done|done|].
      apply Hcan. by right.
    + rewrite (os_len _ _ _ _ _ H1). apply Z.mod_pos_bound. lia.
    + intros ? s2 [E1 E2 E3 E4]. split; [done| | |].
      * rewrite E2, (os_len _ _ _ _ _ H1), Zminus_mod_idemp_l. f_equal. unfold zlen. cbn. lia.
      * intros q j [[= -> ->]|Hin]%elem_of_cons.
        -- split; [eapply passed_on_untouched; [apply H1|done..]|].
           destruct (os_flag _ _ _ _ _ H1) as (so & Hso & Hf). exists so.
           by rewrite (un_socket _ _ _ E4).
        -- destruct (E3 q j Hin) as [Hpo Hfl]. split; [|done]. destruct (Hne _ _ Hin) as [Hqp Hji].
           eapply passed_on_from; [| |exact Hpo].
           ++ unfold contents. rewrite (un_chan _ _ _ (os_rest _ _ _ _ _ H1)); [done|by cbn; rewrite list_elem_of_singleton].
           ++ apply (un_queued _ _ _ (os_rest _ _ _ _ _ H1)). by cbn; rewrite list_elem_of_singleton.
      * eapply untouched_cons; [apply H1|done].
Qed.

(** ** A kick from the application *)

(** A receive kick for connection [i] is next on the command ring, and the pool has
    room for its buffer. *)
Record kicked (i p : Z) (cmd : Z) (rest : list Z) (cr pool : chan) (s : svc K) : Prop := {
  kk_ring : chans (rings (sv_shm s)) !! COMMAND_RING = Some cr;
  kk_next : ch_q cr = cmd :: rest;
  kk_pool : chans (rings (sv_shm s)) !! FREE_COMMAND_POOL = Some pool;
  kk_room : zlen (ch_q pool) < ch_cap pool;
  kk_cmd : ∃ c, cmds (sv_shm s) !! cmd = Some c ∧ cmd_cmd c = SOCKET_RX_KICK_COMMAND ∧
             cmd_ringset_idx c = i;
  kk_sat : ∃ d, socket_satelite_data s !! i = Some d ∧ sat_socket d = p;
}.

(** The service once the command is off the ring and counted, and the memory once its
    buffer is back in the pool. *)
Definition kick_taken (s s2 : svc K) (cr : chan) (rest : list Z) : Prop :=
  ∃ rs f, rings_ok rs ∧
    chans rs = <[COMMAND_RING := mk_chan (ch_cap cr) (ch_wm cr) rest]> (chans (rings (sv_shm s))) ∧
    s2 = s <| sv_shm := (sv_shm s) <| rings := rs |> |> <| sv_stats := f |>.
Definition kick_returned (s3 s' : svc K) (pool : chan) (cmd : Z) : Prop :=
  ∃ rs, rings_ok rs ∧
    chans rs = <[FREE_COMMAND_POOL := mk_chan (ch_cap pool) (ch_wm pool) (ch_q pool ++ [cmd])]> (chans (rings (sv_shm s3))) ∧
    s' = s3 <| sv_shm := (sv_shm s3) <| rings := rs |> |>.

Lemma kick_taken_connection i d blk crx c cr rest s s2 :
  kick_taken s s2 cr rest → connection i d blk crx c s → connection i d blk crx c s2.
Proof.
  intros (rs & f & Hok & Hch & ->) [[B1 B2 B3 B4 B5 B6 [C1 C2 C3] B8] Hi]. split; [|done]. split; try done.
  - change (chans rs !! RX_RING i = Some crx). by rewrite Hch, lookup_insert_ne.
  - split; [done..|]. change (chans rs !! READY_RING (sat_parent_idx d) = Some c). by rewrite Hch, lookup_insert_ne.
Qed.

Lemma wp_process_kick_refill i p cmd rest cr pool fuel so d blk crx c s :
  kicked i p cmd rest cr pool s → served i p so s → connection i d blk crx c s →
  wp (process_commands fuel) (λ _ s', ∃ s2 s3, kick_taken s s2 cr rest ∧
    refilled i p d blk crx s2 s3 ∧ kick_returned s3 s' pool cmd) s.
Proof.
  intros [K1 K2 K3 K4 (cm & Hcm & Hkind & Hidx) (d0 & Hd & Hsock)] Hsv Hc.
  pose proof Hc as [[B1 B2 B3 B4 B5 B6 [C1 C2 C3] B8] Hi]. assert (d0 = d) as -> by congruence.
  unfold process_commands, ipaugenblick_dequeue_command_buf.
  rewrite !wp_bind. apply (wp_ring_count _ cr); [done..|]. rewrite K2.
  replace (zlen (cmd :: rest) =? 0) with false by done.
  apply (wp_sc_dequeue _ cr); [done|done| |by rewrite K2].
  intros x q Hq rs Hrs Hch. assert (x = cmd ∧ q = rest) as [-> ->] by (rewrite K2 in Hq; by injection Hq).
  change (with_rings s rs) with (s <| sv_shm := (sv_shm s) <| rings := rs |> |>).
  set (s1 := s <| sv_shm := _ |>).
  rewrite wp_bind. unfold cmd_read. rewrite wp_bind, wp_gets.
  change (cmds (part_get s1)) with (cmds (sv_shm s)). rewrite Hcm. cbn [of_option]. rewrite wp_ret.
  rewrite wp_bind. unfold execute. rewrite Hkind. unfold do_rx_kick. rewrite Hidx.
  rewrite wp_bind. apply (wp_sat_read i d); [done|]. rewrite Hsock, (proj2 (Z.eqb_neq _ _) (sv_ne _ _ _ _ Hsv)).
  rewrite wp_bind. apply wp_user_inc. unfold counted. set (s2 := _ <| sv_stats := _ |>).
  assert (kick_taken s s2 cr rest) as Ht by (by eexists rs, _).
  eapply wp_mono; [apply (wp_data_available i p so d blk crx c s2 (kick_taken_connection _ _ _ _ _ _ _ _ _ Ht Hc))|].
  { destruct Hsv. by split. }
  { by eapply connection_room. }
  intros ? s3 Hr. cbn beta in Hr. pose proof (rf_frame _ _ _ _ _ _ _ Hr) as Hfr.
  unfold ipaugenblick_free_command_buf.
  apply (wp_mempool_put _ _ pool); [apply Hfr| | |lia].
  - rewrite (fr_chan _ _ _ Hfr) by done. change (chans rs !! FREE_COMMAND_POOL = Some pool).
    by rewrite Hch, lookup_insert_ne.
  - intros _ rs' Hrs' Hch'. exists s2, s3. split_and!; [done..|]. by exists rs'.
Qed.

Lemma wp_process_kick i p cmd rest cr pool fuel s :
  kicked i p cmd rest cr pool s → can_receive i p s →
  wp (process_commands fuel) (λ _ s', passed_on i p s s' ∧
    contents (sv_shm s') COMMAND_RING = rest ∧
    contents (sv_shm s') FREE_COMMAND_POOL = ch_q pool ++ [cmd]) s.
Proof.
  intros Hk (so & d & blk & crx & c & Hsv & Hc).
  eapply wp_mono; [by apply (wp_process_kick_refill i p cmd rest cr pool fuel so d blk crx c s)|].
  intros ? s' (s2 & s3 & Ht & Hr & rs' & Hrs' & Hch' & ->).
  pose proof (kick_taken_connection _ _ _ _ _ _ _ _ _ Ht Hc) as Hc2.
  pose proof (refilled_passed_on _ _ _ _ _ _ _ _ Hc2 Hr (connection_room _ _ _ _ _ _ Hc2)) as [Ho Hf Hta].
  pose proof (rf_frame _ _ _ _ _ _ _ Hr) as Hfr. destruct Ht as (rs & f & Hrs & Hch & ->).
  assert (∀ id, id ≠ COMMAND_RING → chans rs !! id = chans (rings (sv_shm s)) !! id) as Hkeep
    by (intros id Hid; by rewrite Hch, lookup_insert_ne).
  assert (∀ id, id ≠ FREE_COMMAND_POOL → chans rs' !! id = chans (rings (sv_shm s3)) !! id) as Hkeep'
    by (intros id Hid; by rewrite Hch', lookup_insert_ne).
  unfold contents in *. change (rings (sv_shm (s3 <| sv_shm := (sv_shm s3) <| rings := rs' |> |>))) with rs'.
  split_and!.
  - split; unfold contents; change (rings (sv_shm (s3 <| sv_shm := (sv_shm s3) <| rings := rs' |> |>))) with rs';
      rewrite ?(Hkeep' (RX_RING i)) by done; [|exact Hf|exact Hta].
    etransitivity; [exact Ho|]. change (rings (sv_shm (s <| sv_shm := (sv_shm s) <| rings := rs |> |> <| sv_stats := f |>))) with rs.
    by rewrite (Hkeep (RX_RING i)).
  - rewrite Hkeep', (fr_chan _ _ _ Hfr) by done. change (from_option ch_q [] (chans rs !! COMMAND_RING) = rest).
    by rewrite Hch, lookup_insert_eq.
  - by rewrite Hch', lookup_insert_eq.
Qed.
End receive.

(** ** Theorems *)

Section theorems.
Context {K : Type} `{Stack K} (pending : K → Z → list rx_msg).
Implicit Types (s : svc K).

(** C8. Packets go from the stack to the application's ring in order and none is lost:
    after the callback the receive ring followed by what is left in the stack is what
    it was before; the callback stops only when the stack has no more or the ring is
    full; if there was anything to pass on, the connection is marked readable, even
    when the ring was full from the start.  No other connection's ring, block or
    queue changes, and no path is undefined: the callback returns. *)
Theorem receive_spec i p s :
  StackReceives pending → can_receive i p s →
  wp (user_data_available_cbk p) (λ _ s', passed_on pending i p s s' ∧ untouched pending [(p, i)] s s') s.
Proof.
  intros Hst (so & d & blk & crx & c & Hsv & Hc).
  pose proof (connection_room _ _ _ _ _ _ Hc) as Hroom.
  eapply wp_mono; [by apply (wp_data_available pending Hst i p so d blk crx c)|].
  intros ? s' Hr. cbn beta in Hr. split; [by eapply refilled_passed_on|].
  destruct Hr as [_ _ Ho _ Hfr].
  split; cbn; intros x [Hx _]%not_elem_of_cons; cbn in Hx.
  - by rewrite (fr_sockets _ _ _ Hfr).
  - by apply Ho.
  - apply (fr_chan _ _ _ Hfr); [congruence|done].
  - by apply (fr_blk _ _ _ Hfr).
Qed.

(** A pass over the read queue serves every socket that was on it, each once: all of
    its data is passed on that its ring has room for, its flag is cleared, the queue is
    empty and the length is 0 at the end; the sockets may share a selector. *)
Theorem read_pass_serves ps s :
  StackReceives pending → read_ready (sv_glue s) = ps.*1 → NoDup ps.*1 → NoDup ps.*2 →
  (∀ p i, (p, i) ∈ ps → can_receive i p s) →
  read_sockets_queue_len (sv_glue s) = zlen ps → zlen ps < 2 ^ 64 →
  wp (process_read (Z.to_nat (read_sockets_queue_len (sv_glue s)))) (λ _ s',
    read_ready (sv_glue s') = [] ∧ read_sockets_queue_len (sv_glue s') = 0 ∧
    (∀ p i, (p, i) ∈ ps → passed_on pending i p s s' ∧
       ∃ so, sockets s' !! p = Some so ∧ read_queue_present so = false) ∧
    untouched pending ps s s') s.
Proof.
  intros Hst Hl Hp Hi Hcan Hlen Hmax. pose proof (zlen_nonneg ps).
  eapply wp_mono; [apply (wp_process_read pending Hst ps); try done; [unfold zlen in *; lia|lia]|].
  intros ? s' [E1 E2 E3 E4]. split_and!; [done| |done|done].
  by rewrite E2, Hlen, Z.sub_diag.
Qed.

(** A receive kick refills the ring: when the application's command is the next one,
    processing it passes on what the ring has room for, consumes that one command and
    returns its buffer to the pool. *)
Theorem kick_refills i p cmd rest cr pool fuel s :
  StackReceives pending → kicked i p cmd rest cr pool s → can_receive i p s →
  wp (process_commands fuel) (λ _ s', passed_on pending i p s s' ∧
    contents (sv_shm s') COMMAND_RING = rest ∧
    contents (sv_shm s') FREE_COMMAND_POOL = ch_q pool ++ [cmd]) s.
Proof. intros Hst. by apply wp_process_kick. Qed.
End theorems.

(** ** A concrete stack with packets *)

(** Per socket, the buffers that have arrived. *)
Abbreviation arrivals := (gmap Z (list positive)).
Definition demo_pending (k : arrivals) (p : Z) : list rx_msg :=
  (λ h, mk_rx_msg (Zpos h) demo_sockaddr) <$> default [] (k !! p).

Definition pop_packet (p : Z) : M (svc arrivals) (Z * rx_msg) :=
  k ← gets sv_stack;
  match default [] (k !! p) with
  | [] => mret (0, mk_rx_msg 0 demo_sockaddr)
  | h :: q =>
      _ ← on_svc (λ s, s <| sv_stack := <[p := q]> k |>
            <| sv_shm := (sv_shm s) <| mbufs := <[Zpos h := demo_mbuf 1 0]> (mbufs (sv_shm s)) |> |>);
      mret (1, mk_rx_msg (Zpos h) demo_sockaddr)
  end.

#[export] Instance packet_stack : Stack arrivals := {|
  sock_create_kern _ _ := mret (-1, 0);
  sock_setsockopt _ _ _ _ _ := mret 0;
  kernel_bind _ _ := mret 0;
  kernel_connect _ _ := mret 0;
  kernel_listen _ _ := mret 0;
  kernel_accept _ := mret (-1, 0);
  kernel_close _ := mret tt;
  kernel_sendpage _ _ := mret 0;
  kernel_recvmsg := pop_packet;
  udp_sendmsg _ _ _ _ := mret 0;
  inet_getname _ := mret demo_sockaddr;
  inet_shutdown _ _ := mret 0;
  ip_rt_ioctl _ _ := mret 0;
  sk_stream_wspace _ := mret 0;
  sk_stream_is_writeable _ := mret true;
  inet_num _ := mret 1;
  inet_lookup_listener _ := mret 0;
  random := mret 0;
  get_dpdk_dev_by_port_num _ := mret None;
  ndo_poll_controller _ := mret tt;
  fclone_free := mret 0;
  header_free := mret 0;
  rte_timer_manage := mret tt;
  rte_rdtsc := mret 0;
  get_all_devices := mret [];
  get_all_addresses := mret [];
|}.

Lemma packet_stack_receives : StackReceives demo_pending.
Proof.
  split.
  - intros p s Hq. exists 0, (mk_rx_msg 0 demo_sockaddr), (sv_stack s). split; [done|].
    split; [|done]. apply fmap_nil_inv in Hq. cbn. unfold pop_packet, mbind, M_bind, gets.
    rewrite Hq. by destruct s.
  - intros p m q so s Hq Hso. unfold queued, demo_pending in Hq.
    destruct (default [] (sv_stack s !! p)) as [|h l] eqn:Hl; [done|]. injection Hq as <- <-.
    exists 1, (<[p := l]> (sv_stack s)), (<[Zpos h := demo_mbuf 1 0]> (mbufs (sv_shm s))).
    split_and!; [done| | | | |].
    + cbn. unfold pop_packet, mbind, M_bind, gets, on_svc, modify. by rewrite Hl.
    + unfold demo_pending. by rewrite lookup_insert_eq.
    + intros p' Hp'. unfold demo_pending, queued. by rewrite lookup_insert_ne.
    + split; [done|]. exists (demo_mbuf 1 0). split; [apply lookup_insert_eq|]. intros _.
      split; [|vm_compute; done]. vm_compute. split_and!; done || (intros; discriminate).
    + intros a [Ha Hsome]. split; [done|]. apply lookup_insert_is_Some.
      destruct (decide (Zpos h = a)); [by left|by right].
Qed.

(** Sockets 100 and 101 of connections 3 and 4, selector 0; a kick of connection 3. *)
Definition rx_socket (i : Z) : socket :=
  mk_sock SOCK_STREAM 0 true true false false false false TCP_ESTABLISHED (Some i) false 0 0 0
    app_glue_sock_readable_cb app_glue_sock_write_space_cb app_glue_sock_error_report_cb
    app_glue_sock_wakeup_cb.
Definition rx_shm : shm :=
  mk_shm (list_to_map [(READY_RING 0, demo_ring 3 8 []); (RX_RING 3, demo_ring 3 1 [50]);
                       (RX_RING 4, demo_ring 3 1 []); (COMMAND_RING, demo_ring 2 8 [200]);
                       (FREE_COMMAND_POOL, demo_ring 0 8 [201])])
    {[200 := mk_cmd SOCKET_RX_KICK_COMMAND 3 (-1) U_none]}
    {[3 := mk_socket 3 0 0 0 0 0 0; 4 := mk_socket 4 0 0 0 0 0 0]} ∅.
Definition rx_service : svc arrivals :=
  mk_svc rx_shm {[3 := mk_satelite 100 3 0 (Some (TX_RING 3)) (Some (RX_RING 3)) 77;
                  4 := mk_satelite 101 4 0 (Some (TX_RING 4)) (Some (RX_RING 4)) 77]}
    {[0 := Some (READY_RING 0)]} ∅ [] [] {[100 := rx_socket 3; 101 := rx_socket 4]}
    (mk_glue [100; 101] 2 [] 0 [] [] 0 0 0 0 0 0 0 0) (λ _, 0) []
    {[100 := [9000; 9001]%positive; 101 := [9002]%positive]}.

Lemma rx_shm_ok : rings_ok (rings rx_shm).
Proof. apply demo_rings_ok. repeat constructor; (do 3 eexists; split; [done|cbn; lia]). Qed.

Lemma rx_service_can i p :
  (p, i) ∈ [(100, 3); (101, 4)] → can_receive i p rx_service.
Proof.
  intros [[= -> ->]|[[= -> ->]|[]%not_elem_of_nil]%elem_of_cons]%elem_of_cons.
  - exists (rx_socket 3), (mk_satelite 100 3 0 (Some (TX_RING 3)) (Some (RX_RING 3)) 77),
      (mk_socket 3 0 0 0 0 0 0), (mk_chan 7 1 [50]), (mk_chan 7 8 []).
    split; [by split|]. split; [|done]. split; try done; exact rx_shm_ok.
  - exists (rx_socket 4), (mk_satelite 101 4 0 (Some (TX_RING 4)) (Some (RX_RING 4)) 77),
      (mk_socket 4 0 0 0 0 0 0), (mk_chan 7 1 []), (mk_chan 7 8 []).
    split; [by split|]. split; [|done]. split; try done; exact rx_shm_ok.
Qed.

Lemma receive_spec_witness :
  wp (user_data_available_cbk 100) (λ _ s', passed_on demo_pending 3 100 rx_service s' ∧
    untouched demo_pending [(100, 3)] rx_service s') rx_service.
Proof.
  apply (receive_spec demo_pending 3 100 rx_service packet_stack_receives).
  apply rx_service_can. left.
Defined.

Lemma read_pass_serves_witness :
  wp (process_read 2) (λ _ s', read_ready (sv_glue s') = [] ∧ read_sockets_queue_len (sv_glue s') = 0 ∧
    (∀ p i, (p, i) ∈ [(100, 3); (101, 4)] → passed_on demo_pending i p rx_service s' ∧
       ∃ so, sockets s' !! p = Some so ∧ read_queue_present so = false) ∧
    untouched demo_pending [(100, 3); (101, 4)] rx_service s') rx_service.
Proof.
  apply (read_pass_serves demo_pending [(100, 3); (101, 4)] rx_service packet_stack_receives); try done.
  - by apply (bool_decide_unpack (NoDup [100; 101])).
  - by apply (bool_decide_unpack (NoDup [3; 4])).
  - intros p i. apply rx_service_can.
Defined.

Lemma kick_refills_witness :
  wp (process_commands 1) (λ _ s', passed_on demo_pending 3 100 rx_service s' ∧
    contents (sv_shm s') COMMAND_RING = [] ∧
    contents (sv_shm s') FREE_COMMAND_POOL = [201] ++ [200]) rx_service.
Proof.
  apply (kick_refills demo_pending 3 100 200 [] (mk_chan 7 8 [200]) (mk_chan 7 8 [201]) 1 rx_service
           packet_stack_receives); [|apply rx_service_can; left].
  split; try done; by eexists.
Defined.
