(* ===== verification/Polling.v ===== *)
(** * When the service polls (porting/app_glue.c)

    The poll intervals are given in microseconds and kept in processor cycles; the
    conversion multiplies in single precision.  Whether a poll is due is decided on
    the difference of two readings of a 64-bit cycle counter. *)

From S2P Require Import Prelude Service Server AppGlue.

(** ** Rounding to a [float] *)

Lemma round24_small x : x < 2 ^ 24 → round24 x = x.
Proof. intros Hx. unfold round24. by rewrite (proj2 (Z.ltb_lt _ _) Hx). Qed.

(** The error of one rounding is at most one part in [2 ^ 24]. *)
Lemma round24_error x : 0 ≤ x → Z.abs (round24 x - x) * 2 ^ 24 ≤ x.
Proof.
  intros Hx. unfold round24. destruct (Z.ltb_spec x (2 ^ 24)) as [?|Hbig]; [lia|].
  cbv zeta. pose proof (Z.log2_spec x ltac:(lia)) as [Hlo _].
  assert (24 ≤ Z.log2 x) as Hlog by (apply Z.log2_le_pow2; lia).
  set (e := Z.log2 x - 23) in *. assert (1 ≤ e) as He by lia.
  replace (Z.log2 x) with (23 + e) in Hlo by lia. rewrite Z.pow_add_r in Hlo by lia.
  assert (2 ^ e = 2 * 2 ^ (e - 1)) as Hhalf by (rewrite <- Z.pow_succ_r by lia; f_equal; lia).
  pose proof (Z.pow_pos_nonneg 2 (e - 1) ltac:(lia) ltac:(lia)) as Hpos.
  set (h := 2 ^ (e - 1)) in *. rewrite Hhalf in *.
  pose proof (Z.div_mod x (2 * h) ltac:(lia)) as Hdm.
  pose proof (Z.mod_pos_bound x (2 * h) ltac:(lia)) as Hmod.
  set (q := x / (2 * h)) in *. set (r := x mod (2 * h)) in *.
  assert (Z.abs ((if (2 * h <? 2 * r) || ((2 * h =? 2 * r) && Z.odd q) then q + 1 else q) * (2 * h) - x) ≤ h).
  { destruct (Z.ltb_spec (2 * h) (2 * r)); cbn [orb]; [nia|].
    destruct (Z.eqb_spec (2 * h) (2 * r)); cbn [andb]; [destruct (Z.odd q); nia|nia]. }
  change (2 ^ 23) with 8388608 in Hlo. change (2 ^ 24) with 16777216. lia.
Qed.

Lemma round24_nonneg x : 0 ≤ x → 0 ≤ round24 x.
Proof. intros Hx. pose proof (round24_error x Hx). lia. Qed.

(** The product of two roundings, rounded. *)
Lemma interval_cycles_error tsc_hz interval :
  0 ≤ tsc_hz → 0 ≤ interval →
  Z.abs (interval_cycles tsc_hz interval - tsc_hz / 1000000 * interval) * 2 ^ 22 ≤
  tsc_hz / 1000000 * interval.
Proof.
  intros Hh Hi. unfold interval_cycles. set (a := tsc_hz / 1000000).
  assert (0 ≤ a) as Ha by (apply Z.div_pos; lia).
  pose proof (round24_error a Ha) as E1. pose proof (round24_error interval Hi) as E2.
  pose proof (round24_nonneg a Ha) as N1. pose proof (round24_nonneg interval Hi) as N2.
  pose proof (round24_error (round24 a * round24 interval) ltac:(nia)) as E3.
  set (a' := round24 a) in *. set (i' := round24 interval) in *. set (p := round24 (a' * i')) in *.
  change (2 ^ 24) with 16777216 in *. change (2 ^ 22) with 4194304.
  assert (Z.abs (a' * i' - a * interval) * 16777216 * 16777216 ≤
          (2 * 16777216 + 1) * (a * interval)) as Hprod.
  { replace (a' * i' - a * interval) with ((a' - a) * interval + a * (i' - interval) + (a' - a) * (i' - interval)) by ring.
    set (x := a' - a) in *. set (y := i' - interval) in *.
    assert (Z.abs (x * interval) * 16777216 ≤ a * interval) by (rewrite Z.abs_mul; nia).
    assert (Z.abs (a * y) * 16777216 ≤ a * interval) by (rewrite Z.abs_mul; nia).
    assert (Z.abs (x * y) * 16777216 * 16777216 ≤ a * interval).
    { rewrite Z.abs_mul. replace (Z.abs x * Z.abs y * 16777216 * 16777216)
        with ((Z.abs x * 16777216) * (Z.abs y * 16777216)) by ring.
      apply Z.mul_le_mono_nonneg; lia. }
    lia. }
  lia.
Qed.

(** Distances on the cycle counter survive its wrap-around. *)
Lemma due_elapsed last now interval :
  0 ≤ now - last < 2 ^ 64 → due (now mod 2 ^ 64) (last mod 2 ^ 64) interval = (interval <=? now - last).
Proof.
  intros Hd. unfold due. rewrite <- Zminus_mod. by rewrite Z.mod_small.
Qed.

(** Polls keep their interval.  Whatever the counter's phase, and across its
    wrap-around, a poll is due exactly when [interval] cycles have gone by since the
    last one; an interval of 0 is always due.  The interval in cycles is the product
    of the microseconds and the cycles per microsecond, exactly while that is below
    [2 ^ 24], and to one part in [2 ^ 22] in general. *)
Theorem poll_interval_bounds last now tsc_hz interval :
  0 ≤ now - last < 2 ^ 64 → 0 ≤ tsc_hz → 0 ≤ interval →
  let exact := tsc_hz / 1000000 * interval in
  let cycles := interval_cycles tsc_hz interval in
  (due (now mod 2 ^ 64) (last mod 2 ^ 64) cycles = true ↔ cycles ≤ now - last) ∧
  (due (now mod 2 ^ 64) (last mod 2 ^ 64) 0 = true) ∧
  Z.abs (cycles - exact) * 2 ^ 22 ≤ exact ∧
  (tsc_hz / 1000000 < 2 ^ 24 → interval < 2 ^ 24 → exact < 2 ^ 24 → cycles = exact).
Proof.
  intros Hd Hh Hi exact cycles. rewrite !due_elapsed by done. split_and!.
  - apply Z.leb_le.
  - apply Z.leb_le. lia.
  - by apply interval_cycles_error.
  - intros H1 H2 H3. unfold cycles, interval_cycles. by rewrite (round24_small _ H1), (round24_small _ H2), round24_small.
Qed.

(** A 2.4 GHz counter that wraps between the two readings; 100 and 7001 microseconds. *)
Lemma poll_interval_bounds_witness :
  interval_cycles 2400000000 100 = 240000 ∧ interval_cycles 2400000000 7001 = 16802400 ∧
  due ((2 ^ 64 + 5) mod 2 ^ 64) ((2 ^ 64 - 239995) mod 2 ^ 64) (interval_cycles 2400000000 100) = true.
Proof.
  split; [done|]. split; [done|].
  apply (poll_interval_bounds (2 ^ 64 - 239995) (2 ^ 64 + 5) 2400000000 100); vm_compute; done || (split; done).
Defined.
