(* ===== verification/Transmit.v ===== *)
(** * From the application's ring to the stack
    (user_get_buffer in user_get_buffer_callback.h, user_transmitted_callback in
    ipaugenblick_service_loop.c)

    The stack asks for [copy] bytes; the service takes buffers off the connection's
    transmit ring as long as a full-sized one (1448 bytes) is still wanted, and
    chains them.  When the stack has sent a buffer its length goes back to the
    connection's transmit space and the buffer to its pool. *)

From S2P Require Import Prelude Ring Mem Mbuf Service Server Callbacks.

(** ** What is taken *)

(** How many buffers of the lengths [lens] a request for [copy] bytes takes. *)
Fixpoint wanted (copy : Z) (lens : list Z) : nat :=
  match lens with
  | [] => 0%nat
  | n :: lens => if 1448 <=? copy then S (wanted (copy - n) lens) else 0%nat
  end.

Definition total (lens : list Z) : Z := foldr Z.add 0 lens.

(** Linking the buffers of a list, each to the next. *)
Definition link (p q : Z) (ms : gmap Z rte_mbuf) : gmap Z rte_mbuf := alter (λ b, b <| mb_next := q |>) p ms.
Fixpoint link_all (p : Z) (l : list Z) (ms : gmap Z rte_mbuf) : gmap Z rte_mbuf :=
  match l with [] => ms | q :: l => link_all q l (link p q ms) end.

Lemma link_all_other p l ms x : x ∉ p :: l → link_all p l ms !! x = ms !! x.
Proof.
  revert p ms. induction l as [|q l IH]; intros p ms Hx; [done|]. cbn [link_all].
  apply not_elem_of_cons in Hx as [Hxp Hx]. rewrite IH by done. unfold link. by rewrite lookup_alter_ne.
Qed.

(** The last buffer keeps its [next]; the others point to the next one. *)
Lemma link_all_chain l : ∀ p ms,
  NoDup (p :: l) → (∀ x, x ∈ p :: l → x ≠ 0 ∧ ∃ b, ms !! x = Some b ∧ mb_next b = 0) →
  chain (link_all p l ms) p (p :: l).
Proof.
  induction l as [|q l IH]; intros p ms Hnd Hx.
  - destruct (Hx p) as (Hp & b & Hb & Hn); [left|].
    eapply chain_cons; [done|exact Hb|]. rewrite Hn. apply chain_nil.
  - cbn [link_all]. apply NoDup_cons in Hnd as [Hp Hnd].
    destruct (Hx p) as (Hp0 & b & Hb & Hn); [left|].
    eapply (chain_cons _ p (b <| mb_next := q |>)); [done| |].
    + rewrite link_all_other by done. unfold link. by rewrite lookup_alter_eq, Hb.
    + change (mb_next (b <| mb_next := q |>)) with q. apply IH; [done|].
      intros x Hin. destruct (Hx x) as (Hx0 & b' & Hb' & Hn'); [by right|]. split; [done|]. exists b'.
      unfold link. rewrite lookup_alter_ne by (intros ->; done). done.
Qed.

(** ** The loop *)

Section transmit.
Context {K : Type} `{Stack K}.
Implicit Types (s : svc K).

(** Connection [i] with its transmit ring, and the lengths of the buffers on it. *)
Record sending (i : Z) (d : socket_satelite_data_t) (ring : ring_id) (c : chan) (lens : list Z)
    (s : svc K) : Prop := {
  sd_sat : socket_satelite_data s !! i = Some d;
  sd_ring : sat_tx_ring d = Some ring;
  sd_ok : rings_ok (rings (sv_shm s));
  sd_chan : chans (rings (sv_shm s)) !! ring = Some c;
  sd_bufs : Forall2 (λ x n, x ≠ 0 ∧ ∃ b, mbufs (sv_shm s) !! x = Some b ∧ mb_data_len b = n) (ch_q c) lens;
}.

(** What taking buffers leaves alone. *)
Record tx_framed (ring : ring_id) (s s' : svc K) : Prop := {
  tf_sat : socket_satelite_data s' = socket_satelite_data s;
  tf_sockets : sockets s' = sockets s;
  tf_glue : sv_glue s' = sv_glue s;
  tf_stack : sv_stack s' = sv_stack s;
  tf_blocks : g_sockets (sv_shm s') = g_sockets (sv_shm s);
  tf_chan id : id ≠ ring → chans (rings (sv_shm s')) !! id = chans (rings (sv_shm s)) !! id;
  tf_ok : rings_ok (rings (sv_shm s)) → rings_ok (rings (sv_shm s'));
}.

Lemma tx_framed_trans ring s1 s2 s3 : tx_framed ring s1 s2 → tx_framed ring s2 s3 → tx_framed ring s1 s3.
Proof. intros [A1 A2 A3 A4 A5 A6 A7] [B1 B2 B3 B4 B5 B6 B7]. split; try congruence; [|auto]. intros id Hid. by rewrite B6, A6. Qed.

(** The buffers after [l] has been taken behind [prev] (the first of them starts the
    chain when there is none yet). *)
Definition chained (first prev : Z) (l : list Z) (ms : gmap Z rte_mbuf) : gmap Z rte_mbuf :=
  if first =? 0 then match l with [] => ms | x :: l => link_all x l ms end else link_all prev l ms.

Record taken (i : Z) (d : socket_satelite_data_t) (ring : ring_id) (c : chan) (lens : list Z)
    (first prev : Z) (k : nat) (s s' : svc K) : Prop := {
  tk_ring : chans (rings (sv_shm s')) !! ring = Some (mk_chan (ch_cap c) (ch_wm c) (drop k (ch_q c)));
  tk_bufs : mbufs (sv_shm s') = chained first prev (take k (ch_q c)) (mbufs (sv_shm s));
  tk_frame : tx_framed ring s s';
}.

Lemma chained_next first prev m l ms :
  m ≠ 0 → chained first prev (m :: l) ms =
    chained (if first =? 0 then m else first) m l (if first =? 0 then ms else link prev m ms).
Proof.
  intros Hm. unfold chained. destruct (first =? 0) eqn:Hf; [|by rewrite Hf].
  by rewrite (proj2 (Z.eqb_neq _ _) Hm).
Qed.

Lemma lens_linked (q lens : list Z) p y ms :
  Forall2 (λ x n, x ≠ 0 ∧ ∃ b, ms !! x = Some b ∧ mb_data_len b = n) q lens →
  Forall2 (λ x n, x ≠ 0 ∧ ∃ b, link p y ms !! x = Some b ∧ mb_data_len b = n) q lens.
Proof.
  intros Hf. eapply Forall2_impl; [exact Hf|]. intros x n (Hx & b & Hb & Hn). split; [done|].
  unfold link. destruct (decide (x = p)) as [->|Hne].
  - rewrite lookup_alter_eq, Hb. by eexists.
  - rewrite lookup_alter_ne by done. by exists b.
Qed.

(** One buffer off the ring. *)
Lemma wp_dequeue_tx_buf i d ring c m q n lens s (Q : option Z → svc K → Prop) :
  sending i d ring c (n :: lens) s → ch_q c = m :: q →
  (∀ s', sending i d ring (mk_chan (ch_cap c) (ch_wm c) q) lens s' → tx_framed ring s s' →
     mbufs (sv_shm s') = mbufs (sv_shm s) → Q (Some m) s') →
  wp (ipaugenblick_dequeue_tx_buf i) Q s.
Proof.
  intros [B1 B2 B3 B4 B5] Hq HQ. unfold ipaugenblick_dequeue_tx_buf.
  rewrite wp_bind. apply (wp_sat_ring _ _ d ring); [done..|].
  apply (wp_sc_dequeue _ c); [done|done| |congruence].
  intros x q' Hx rs Hrs Hch. assert (x = m ∧ q' = q) as [-> ->] by (rewrite Hq in Hx; by injection Hx).
  apply HQ; [|split; try done|done].
  - split; [done|done|done| |].
    + change (chans rs !! ring = Some (mk_chan (ch_cap c) (ch_wm c) q)). by rewrite Hch, lookup_insert_eq.
    + rewrite Hq in B5. by apply Forall2_cons in B5 as [_ B5].
  - intros id Hid. change (chans rs !! id = chans (rings (sv_shm s)) !! id).
    by rewrite Hch, lookup_insert_ne.
Qed.

Lemma taken_cons i d ring c lens m q n first prev k s s1 s' :
  ch_q c = m :: q → m ≠ 0 → tx_framed ring s s1 →
  mbufs (sv_shm s1) = (if first =? 0 then mbufs (sv_shm s) else link prev m (mbufs (sv_shm s))) →
  taken i d ring (mk_chan (ch_cap c) (ch_wm c) q) lens (if first =? 0 then m else first) m k s1 s' →
  taken i d ring c (n :: lens) first prev (S k) s s'.
Proof.
  intros Hq Hm Hf Hb [T1 T2 T3]. cbn [ch_q ch_cap ch_wm] in *. split.
  - by rewrite Hq.
  - rewrite T2, Hb, Hq. cbn [take]. by rewrite (chained_next first prev m).
  - by eapply tx_framed_trans.
Qed.

Lemma taken_none i d ring c lens first prev s s' :
  sending i d ring c lens s → sv_shm s' = sv_shm s → tx_framed ring s s' →
  taken i d ring c lens first prev 0 s s'.
Proof.
  intros [B1 B2 B3 B4 B5] Hs Hf. split; [rewrite Hs, drop_0, B4; by destruct c| |done].
  rewrite Hs, take_0. unfold chained. by destruct (first =? 0).
Qed.

Lemma tx_framed_refl ring s : tx_framed ring s s.
Proof. by split. Qed.

Lemma wp_get_buffer_loop i d ring fuel : ∀ lens c first prev copy s,
  sending i d ring c lens s → (length lens < fuel)%nat →
  (first ≠ 0 → is_Some (mbufs (sv_shm s) !! prev)) →
  wp (get_buffer_loop fuel i first prev copy) (λ r s', let k := wanted copy lens in
    r = (if first =? 0 then default 0 (head (take k (ch_q c))) else first, copy - total (take k lens)) ∧
    taken i d ring c lens first prev k s s') s.
Proof.
  induction fuel as [|fuel IH]; intros lens c first prev copy s Hs Hfuel Hprev; [lia|].
  pose proof (sd_bufs _ _ _ _ _ _ Hs) as Hbufs. cbn [get_buffer_loop].
  assert (wanted copy lens = 0%nat → ∀ s', sv_shm s' = sv_shm s → tx_framed ring s s' →
    (first, copy) = (if first =? 0 then default 0 (head (take (wanted copy lens) (ch_q c))) else first,
                     copy - total (take (wanted copy lens) lens)) ∧
    taken i d ring c lens first prev (wanted copy lens) s s') as Hnone.
  { intros -> s' Hs' Hf. split; [|by apply taken_none]. rewrite !take_0. cbn. rewrite Z.sub_0_r.
    destruct (Z.eqb_spec first 0) as [->|]; done. }
  destruct (Z.leb_spec 1448 copy) as [Hcopy|Hcopy].
  2: { rewrite wp_ret. apply Hnone; [|done|apply tx_framed_refl].
       destruct lens; cbn; [done|]. by rewrite (proj2 (Z.leb_gt _ _) Hcopy). }
  destruct lens as [|n lens].
  - apply Forall2_nil_inv_r in Hbufs as Hq. rewrite wp_bind. unfold ipaugenblick_dequeue_tx_buf.
    pose proof Hs as [B1 B2 B3 B4 B5]. rewrite wp_bind. apply (wp_sat_ring _ _ d ring); [done..|].
    apply (wp_sc_dequeue _ c); [done|done|congruence|].
    intros _ rs Hrs Hch. rewrite wp_bind. apply wp_user_inc. rewrite wp_ret.
    split; [cbn; rewrite Z.sub_0_r, take_0; by destruct (Z.eqb_spec first 0) as [->|]|].
    split; [|change (wanted copy []) with 0%nat; rewrite take_0; unfold chained; by destruct (first =? 0)|split; try done].
    + change (chans rs !! ring = Some (mk_chan (ch_cap c) (ch_wm c) (ch_q c))). rewrite Hch. transitivity (Some c); [exact B4|by destruct c].
    + intros id Hid. change (chans rs !! id = chans (rings (sv_shm s)) !! id). by rewrite Hch.
  - destruct (ch_q c) as [|m q] eqn:Hq; [by inversion Hbufs|].
    apply Forall2_cons in Hbufs as [(Hm & b & Hb & Hn) Hbufs].
    rewrite wp_bind. apply (wp_dequeue_tx_buf i d ring c m q n lens); [done|done|]. intros s1 Hs1 Hf1 Hm1.
    unfold rte_pktmbuf_data_len. rewrite !wp_bind. apply (wp_mbuf_read _ b); [by rewrite <- Hm1 in Hb|].
    rewrite wp_ret, Hn, wp_bind.
    assert (wp (if first =? 0 then mret tt else mbuf_write prev (λ b, b <| mb_next := m |>))
      (λ _ s2, s2 = s1 <| sv_shm := (sv_shm s1) <| mbufs :=
         if first =? 0 then mbufs (sv_shm s1) else link prev m (mbufs (sv_shm s1)) |> |>) s1) as Hlink.
    { destruct (Z.eqb_spec first 0) as [?|Hne]; [by rewrite wp_ret; destruct s1 as [[]]|].
      apply wp_mbuf_alter; [|done]. change (is_Some (mbufs (sv_shm s1) !! prev)). rewrite Hm1. by apply Hprev. }
    eapply wp_mono; [exact Hlink|]. intros ? s2 Hs2. cbn beta in *.
    rewrite wp_bind. apply wp_user_inc. unfold counted. set (s3 := _ <| sv_stats := _ |>).
    assert (mbufs (sv_shm s3) = if first =? 0 then mbufs (sv_shm s) else link prev m (mbufs (sv_shm s))) as Hm3
      by (change (mbufs (sv_shm s3)) with (mbufs (sv_shm s2)); by rewrite Hs2, <- Hm1).
    assert (sending i d ring (mk_chan (ch_cap c) (ch_wm c) q) lens s3 ∧ tx_framed ring s s3) as [Hs3 Hf3].
    { destruct Hs1 as [B1 B2 B3 B4 B5]. subst s2. split.
      - split; [done..|]. rewrite Hm3. cbn [ch_q]. destruct (first =? 0); [done|by apply lens_linked].
      - eapply tx_framed_trans; [exact Hf1|]. by split. }
    eapply wp_mono; [apply (IH lens _ _ m (copy - n) s3 Hs3)|].
    + cbn in Hfuel. lia.
    + intros _. rewrite Hm3. destruct (first =? 0); [by exists b|].
      unfold link. rewrite lookup_alter. case_decide; [by subst; rewrite Hb|by exists b].
    + intros r s' [Hr Ht]. cbn [wanted]. rewrite (proj2 (Z.leb_le _ _) Hcopy). cbn [ch_q] in *.
      split; [|by eapply taken_cons].
      rewrite Hr. cbn [take head total foldr]. f_equal.
      * destruct (Z.eqb_spec first 0) as [->|Hne]; [by rewrite (proj2 (Z.eqb_neq _ _) Hm)|].
        by rewrite (proj2 (Z.eqb_neq _ _) Hne).
      * unfold total. lia.
Qed.
End transmit.

(** The count is the least that leaves less than a full-sized buffer wanted, or all. *)
Lemma wanted_spec lens : ∀ copy, (wanted copy lens ≤ length lens)%nat ∧
  (wanted copy lens = length lens ∨ copy - total (take (wanted copy lens) lens) < 1448) ∧
  (∀ j, (j < wanted copy lens)%nat → 1448 ≤ copy - total (take j lens)).
Proof.
  induction lens as [|n lens IH]; intros copy; cbn [wanted length].
  - split_and!; [done|by left|lia].
  - destruct (Z.leb_spec 1448 copy) as [Hc|Hc].
    + destruct (IH (copy - n)) as (H1 & H2 & H3). split_and!; [lia| |].
      * destruct H2 as [->|H2]; [by left|right]. cbn [take total foldr]. unfold total in *. lia.
      * intros [|j] Hj; [rewrite take_0; cbn; lia|]. specialize (H3 j ltac:(lia)).
        cbn [take total foldr]. unfold total in *. lia.
    + split_and!; [lia| |lia]. right. rewrite take_0. cbn. lia.
Qed.

Lemma chained_chain l ms :
  NoDup l → (∀ x, x ∈ l → x ≠ 0 ∧ ∃ b, ms !! x = Some b ∧ mb_next b = 0) →
  chain (chained 0 0 l ms) (default 0 (head l)) l.
Proof.
  intros Hnd Hx. destruct l as [|p l]; [apply chain_nil|]. cbn. by apply link_all_chain.
Qed.

Lemma chained_other l ms x : x ∉ l → chained 0 0 l ms !! x = ms !! x.
Proof. intros Hx. destruct l as [|p l]; [done|]. by apply link_all_other. Qed.

(** ** The theorem *)

Section theorem.
Context {K : Type} `{Stack K}.
Implicit Types (s : svc K).

Lemma wp_user_get_buffer i p so d ring c lens fuel copy s :
  sending i d ring c lens s → sockets s !! p = Some so → p ≠ 0 → sk_user_data so = Some i →
  NoDup (ch_q c) → (∀ x, x ∈ ch_q c → ∃ b, mbufs (sv_shm s) !! x = Some b ∧ mb_next b = 0) →
  (length lens < fuel)%nat →
  wp (user_get_buffer fuel p copy) (λ r s', let k := wanted copy lens in let l := take k (ch_q c) in
    r = (default 0 (head l), copy - total (take k lens)) ∧
    chain (mbufs (sv_shm s')) (default 0 (head l)) l ∧
    chans (rings (sv_shm s')) !! ring = Some (mk_chan (ch_cap c) (ch_wm c) (drop k (ch_q c))) ∧
    mbufs (sv_shm s') = chained 0 0 l (mbufs (sv_shm s)) ∧
    tx_framed ring s s') s.
Proof.
  intros Hs Hp Hp0 Hdata Hnd Hnext Hfuel. unfold user_get_buffer.
  rewrite wp_bind. apply wp_user_inc. unfold counted. set (s1 := _ <| sv_stats := _ |>).
  rewrite (proj2 (Z.eqb_neq _ _) Hp0), wp_bind. apply (wp_so_read p so); [done|].
  rewrite Hdata. cbn [of_option]. rewrite wp_bind, wp_ret.
  assert (sending i d ring c lens s1) as Hs1 by (by destruct Hs).
  eapply wp_mono; [by apply (wp_get_buffer_loop i d ring fuel lens c 0 0 copy s1)|].
  intros r s' [Hr [T1 T2 T3]]. cbv zeta in *. rewrite Z.eqb_refl in Hr. subst r.
  set (k := wanted copy lens) in *.
  assert (∀ x, x ∈ take k (ch_q c) → x ≠ 0 ∧ ∃ b, mbufs (sv_shm s) !! x = Some b ∧ mb_next b = 0) as Hbufs.
  { intros x Hx. assert (x ∈ ch_q c) as Hin by (rewrite <- (take_drop k); apply elem_of_app; by left).
    split; [|by apply Hnext]. apply list_elem_of_lookup in Hin as [j Hj].
    destruct (Forall2_lookup_l _ _ _ _ _ (sd_bufs _ _ _ _ _ _ Hs) Hj) as (n & _ & Hx0 & _). done. }
  split_and!; [done| |exact T1|exact T2|].
  - rewrite T2. apply chained_chain; [|exact Hbufs]. eapply sublist_NoDup; [exact Hnd|apply sublist_take].
  - eapply tx_framed_trans; [|exact T3]. by split.
Qed.

(** C9. The stack gets the connection's buffers in the order the application sent them.
    It takes the first [k] of the transmit ring, where [k] is the least number after
    which less than a full-sized buffer (1448 bytes) is still wanted, or all there
    are; they come as one chain, in order; the count of bytes still wanted is exact,
    and may be negative; the other buffers, rings and connections are not touched.
    The call returns on every ring, the empty one included. *)
Theorem get_buffer_spec i p so d ring c lens fuel copy s :
  sending i d ring c lens s → sockets s !! p = Some so → p ≠ 0 → sk_user_data so = Some i →
  NoDup (ch_q c) → (∀ x, x ∈ ch_q c → ∃ b, mbufs (sv_shm s) !! x = Some b ∧ mb_next b = 0) →
  (length lens < fuel)%nat →
  wp (user_get_buffer fuel p copy) (λ '(first, rest) s', ∃ k,
    let l := take k (ch_q c) in
    (k = length (ch_q c) ∨ rest < 1448) ∧
    (∀ j, (j < k)%nat → 1448 ≤ copy - total (take j lens)) ∧
    rest = copy - total (take k lens) ∧
    chain (mbufs (sv_shm s')) first l ∧
    chans (rings (sv_shm s')) !! ring = Some (mk_chan (ch_cap c) (ch_wm c) (drop k (ch_q c))) ∧
    (∀ x, x ∉ l → mbufs (sv_shm s') !! x = mbufs (sv_shm s) !! x) ∧
    tx_framed ring s s') s.
Proof.
  intros Hs Hp Hp0 Hdata Hnd Hnext Hfuel.
  eapply wp_mono; [by apply (wp_user_get_buffer i p so d ring c lens fuel copy s)|].
  intros [first rest] s' (Hr & Hc & Hring & Hms & Hf). injection Hr as -> ->.
  set (k := wanted copy lens) in *. exists k.
  assert (length lens = length (ch_q c)) as Hlen
    by (symmetry; by eapply Forall2_length, (sd_bufs _ _ _ _ _ _ Hs)).
  destruct (wanted_spec lens copy) as (W1 & W2 & W3). split_and!; [|done..| |done].
  - rewrite <- Hlen. exact W2.
  - intros x Hx. rewrite Hms. by apply chained_other.
Qed.
End theorem.

(** Socket 100 of connection 3 with three buffers of 10 bytes waiting; a request for
    1460 bytes takes two of them. *)
Definition tx_shm : shm :=
  mk_shm (list_to_map [(TX_RING 3, demo_ring 3 1 [50; 51; 52])]) ∅ {[3 := mk_socket 3 0 0 0 0 0 0]}
    {[50 := demo_mbuf 1 0; 51 := demo_mbuf 1 0; 52 := demo_mbuf 1 0]}.
Definition tx_socket : socket :=
  mk_sock SOCK_STREAM 0 true false false false false false TCP_ESTABLISHED (Some 3) false 0 0 0
    app_glue_sock_readable_cb app_glue_sock_write_space_cb app_glue_sock_error_report_cb
    app_glue_sock_wakeup_cb.
Definition tx_service : svc unit :=
  mk_svc tx_shm {[3 := mk_satelite 100 3 0 (Some (TX_RING 3)) (Some (RX_RING 3)) 77]}
    ∅ ∅ [] [] {[100 := tx_socket]} (mk_glue [] 0 [] 0 [] [] 0 0 0 0 0 0 0 0) (λ _, 0) [] tt.

Lemma tx_service_sending :
  sending 3 (mk_satelite 100 3 0 (Some (TX_RING 3)) (Some (RX_RING 3)) 77) (TX_RING 3)
    (mk_chan 7 1 [50; 51; 52]) [10; 10; 10] tx_service.
Proof.
  split; [done|done| |done|].
  - apply demo_rings_ok. repeat constructor. do 3 eexists. split; [done|cbn; lia].
  - repeat constructor; done || (eexists; by split).
Qed.

Lemma get_buffer_spec_witness :
  wp (user_get_buffer 4 100 1460) (λ '(first, rest) s', ∃ k,
    let l := take k [50; 51; 52] in
    (k = 3%nat ∨ rest < 1448) ∧
    (∀ j, (j < k)%nat → 1448 ≤ 1460 - total (take j [10; 10; 10])) ∧
    rest = 1460 - total (take k [10; 10; 10]) ∧
    chain (mbufs (sv_shm s')) first l ∧
    chans (rings (sv_shm s')) !! TX_RING 3 = Some (mk_chan 7 1 (drop k [50; 51; 52])) ∧
    (∀ x, x ∉ l → mbufs (sv_shm s') !! x = mbufs (sv_shm tx_service) !! x) ∧
    tx_framed (TX_RING 3) tx_service s') tx_service.
Proof.
  apply (get_buffer_spec 3 100 tx_socket _ (TX_RING 3) (mk_chan 7 1 [50; 51; 52]) [10; 10; 10] 4 1460
           tx_service tx_service_sending); try done.
  - by apply (bool_decide_unpack (NoDup [50; 51; 52])).
  - intros x Hx. cbn in Hx. exists (demo_mbuf 1 0).
    repeat (apply elem_of_cons in Hx as [->|Hx]; [done|]). by apply not_elem_of_nil in Hx.
  - cbn. lia.
Defined.
