(* ===== verification/System.v ===== *)
(** * A connection's receive path, end to end

    The two processes put together: the service with its stack, and an application,
    over one shared memory.  A packet that arrives for a socket puts it on the read
    queue ([app_glue_sock_readable], porting/app_glue.c); a pass over the queue, or a
    kick from the application ([process_commands], ipaugenblick_service_loop.c), moves
    packets to the connection's receive ring; the application takes them off through
    its local cache ([ipaugenblick_dequeue_rx_buf], ipaugenblick_ring_ops.h).

    Each of these calls is one step here; [RingConc] and [Notify] look inside them.
    The rules of [Receive] and [AppRecv] say what each step does; this file says what
    they do together, in every order. *)

From S2P Require Import Prelude Ring Mem Mbuf App AppData AppRecv Service Server Callbacks AppGlue ServiceLoop Receive.

(** ** The system *)

Section system.
Context {K : Type} `{Stack K}.

Record sys := mk_sys { y_svc : svc K; y_app : app }.

(** The shared memory is kept with the service; the application's process is the
    shared memory and its own state. *)
Definition y_proc (y : sys) : proc := mk_proc (sv_shm (y_svc y)) (y_app y).
Definition after_app (y : sys) (q : proc) : sys :=
  mk_sys ((y_svc y) <| sv_shm := p_shm q |>) (p_app q).

Definition on_service {A} (m : M (svc K) A) : M sys A := λ y,
  match m (y_svc y) with
  | Done (x, s) => Done (x, mk_sys s (y_app y))
  | Exit => Exit
  | Fault => Fault
  end.
Definition on_application {A} (m : M proc A) : M sys A := λ y,
  match m (y_proc y) with
  | Done (x, q) => Done (x, after_app y q)
  | Exit => Exit
  | Fault => Fault
  end.

Lemma wp_on_service {A} (m : M (svc K) A) Q y :
  wp m (λ x s, Q x (mk_sys s (y_app y))) (y_svc y) → wp (on_service m) Q y.
Proof. unfold wp, on_service. by destruct (m (y_svc y)) as [[]| |]. Qed.
Lemma wp_on_application {A} (m : M proc A) Q y :
  wp m (λ x q, Q x (after_app y q)) (y_proc y) → wp (on_application m) Q y.
Proof. unfold wp, on_application. by destruct (m (y_proc y)) as [[]| |]. Qed.

(** ** Steps *)

Context (pending : K → Z → list rx_msg) (i p : Z).

(** The stack receives [m] for the socket: it is the last packet that waits there, and
    no packet buffer disappears. *)
Definition arrives (m : rx_msg) (s s1 : svc K) : Prop :=
  ∃ k ms, s1 = s <| sv_stack := k |> <| sv_shm := (sv_shm s) <| mbufs := ms |> |> ∧
    queued pending s1 p = queued pending s p ++ [m] ∧
    ∀ a, live (mbufs (sv_shm s)) a → live ms a.

Inductive label := Arrive (m : rx_msg) | Poll | Command | Take (m : Z).

Inductive step : sys → label → sys → Prop :=
  | step_arrive m y s1 y' : arrives m (y_svc y) s1 →
      on_service (app_glue_sock_readable p) (mk_sys s1 (y_app y)) = Done (tt, y') →
      step y (Arrive m) y'
  | step_poll fuel y y' : on_service (process_rx_ready_sockets (Datatypes.S fuel)) y = Done (tt, y') →
      step y Poll y'
  | step_command fuel y y' : on_service (process_commands fuel) y = Done (tt, y') →
      step y Command y'
  | step_take m y y' : on_application (ipaugenblick_dequeue_rx_buf i) y = Done (m, y') →
      step y (Take m) y'.

Inductive run : sys → list label → sys → Prop :=
  | run_nil y : run y [] y
  | run_cons y l y1 ls y2 : step y l y1 → run y1 ls y2 → run y (l :: ls) y2.

(** What came in and what was handed out, in order; a result of 0 hands out nothing. *)
Definition arrived (ls : list label) : list Z :=
  ls ≫= λ l, match l with Arrive m => [rx_head m] | _ => [] end.
Definition taken (ls : list label) : list Z :=
  ls ≫= λ l, match l with Take m => if m =? 0 then [] else [m] | _ => [] end.

(** A round of the application that works together with the service: a call, and the
    command it sent. *)
Definition round (fuel : nat) : M sys Z :=
  m ← on_application (ipaugenblick_dequeue_rx_buf i);
  _ ← on_service (process_commands fuel);
  mret m.
Fixpoint rounds (n fuel : nat) : M sys (list Z) :=
  match n with
  | O => mret []
  | Datatypes.S n => m ← round fuel; l ← rounds n fuel; mret (m :: l)
  end.
End system.
Arguments sys K : clear implicits.
Arguments mk_sys {K} _ _.

(** ** The invariant *)

Section invariant.
Context {K : Type} `{Stack K} (pending : K → Z → list rx_msg).
Context (i p : Z) (d : socket_satelite_data_t) (ld : local_socket_descriptor) (cid : ring_id).
Implicit Types (s : svc K) (a : app).

(** The socket is on the read queue or not, and its flag and the length agree. *)
Definition on_queue (so : socket) (g : glue) : Prop :=
  accept_ready g = [] ∧ closed_ready g = [] ∧
  if read_queue_present so then read_ready g = [p] ∧ read_sockets_queue_len g = 1
  else read_ready g = [] ∧ read_sockets_queue_len g = 0.

(** Every buffer is in the pool or on the command ring once, and what is on the ring
    are receive kicks of this connection. *)
Record kicks_only (m : shm) (pool cring : chan) : Prop := {
  ko_once : NoDup (ch_q pool ++ ch_q cring);
  ko_room : zlen (ch_q pool) + zlen (ch_q cring) ≤ ch_cap pool;
  ko_kick b : b ∈ ch_q cring → ∃ c, cmds m !! b = Some c ∧
    cmd_cmd c = SOCKET_RX_KICK_COMMAND ∧ cmd_ringset_idx c = i;
}.

(** Connection [i] with its socket [p], as both processes see it. *)
Record linked (so : socket) (blk : ipaugenblick_socket) (crx c cc pool cring : chan) s a : Prop := {
  lk_conn : connection i d blk crx c s;
  lk_served : served i p so s;
  lk_sat : sat_socket d = p;
  lk_ready : rx_ready i ld i blk cid (RX_RING i) cc crx pool cring (mk_proc (sv_shm s) a);
  lk_cache : ∀ sel, cid ≠ READY_RING sel;
  lk_state : negb (sk_state so =? TCP_ESTABLISHED) && (so_type so =? SOCK_STREAM) = false;
}.

Definition good so blk crx c cc pool cring s a : Prop :=
  linked so blk crx c cc pool cring s a ∧ on_queue so (sv_glue s) ∧ kicks_only (sv_shm s) pool cring.
Definition sys_ok (y : sys K) : Prop :=
  ∃ so blk crx c cc pool cring, good so blk crx c cc pool cring (y_svc y) (y_app y).

(** The packets on their way, oldest first: in the application's cache, in the receive
    ring, in the stack. *)
Definition on_the_way s : list Z :=
  contents (sv_shm s) cid ++ contents (sv_shm s) (RX_RING i) ++ heads (queued pending s p).

Lemma linked_on_the_way so blk crx c cc pool cring s a :
  linked so blk crx c cc pool cring s a →
  on_the_way s = waiting cc crx ++ heads (queued pending s p).
Proof.
  intros G. pose proof (rr_cchan _ _ _ _ _ _ _ _ _ _ _ (lk_ready _ _ _ _ _ _ _ _ _ G)) as Hc.
  pose proof (rr_rchan _ _ _ _ _ _ _ _ _ _ _ (lk_ready _ _ _ _ _ _ _ _ _ G)) as Hr.
  unfold on_the_way, waiting. cbn in Hc, Hr.
  by rewrite (contents_chan _ _ _ Hc), (contents_chan _ _ _ Hr), app_assoc.
Qed.

(** *** What keeps the parts together *)

Lemma ready_service blk blk' crx crx' cc pool pool' cring cring' m m' a :
  rx_ready i ld i blk cid (RX_RING i) cc crx pool cring (mk_proc m a) →
  g_sockets m' !! i = Some blk' → cmd_mem m' pool' cring' →
  chans (rings m') !! cid = Some cc → chans (rings m') !! RX_RING i = Some crx' →
  (∀ x, x ∈ ch_q cc ++ ch_q crx' → live (mbufs m') x) →
  rx_ready i ld i blk' cid (RX_RING i) cc crx' pool' cring' (mk_proc m' a).
Proof. intros [R1 R2 R3 R4 R5 R6 R7 R8 R9 R10 R11 R12] Hb Hm Hc Hr Hl. by split. Qed.

(** The service's own records of the socket, its queues and counters. *)
Lemma linked_local so so' blk crx c cc pool cring s s' a :
  linked so blk crx c cc pool cring s a →
  sv_shm s' = sv_shm s → socket_satelite_data s' = socket_satelite_data s →
  g_selectors s' = g_selectors s → sockets s' !! p = Some so' →
  so_sk so' = so_sk so → sk_user_data so' = sk_user_data so → sk_state so' = sk_state so →
  so_type so' = so_type so →
  linked so' blk crx c cc pool cring s' a.
Proof.
  intros [L1 [S1 S2 S3 S4 S5] L3 L4 L5 L6] E1 E2 E3 Hso F1 F2 F3 F4. split; try done.
  - by apply (connection_local i d blk crx c s s').
  - split; congruence.
  - by rewrite E1.
  - by rewrite F3, F4.
Qed.

(** Changes of the command pool and the command ring. *)
Lemma linked_rings so blk crx c cc pool pool' cring cring' s s' rs a :
  linked so blk crx c cc pool cring s a →
  sv_shm s' = (sv_shm s) <| rings := rs |> → socket_satelite_data s' = socket_satelite_data s →
  g_selectors s' = g_selectors s → sockets s' = sockets s →
  rings_ok rs → chans rs !! FREE_COMMAND_POOL = Some pool' → chans rs !! COMMAND_RING = Some cring' →
  (∀ id, id ∉ [FREE_COMMAND_POOL; COMMAND_RING] → chans rs !! id = chans (rings (sv_shm s)) !! id) →
  (∀ b, b ∈ ch_q pool' → is_Some (cmds (sv_shm s) !! b)) → zlen (ch_q pool') ≤ ch_cap pool' →
  linked so blk crx c cc pool' cring' s' a.
Proof.
  intros [[[B1 B2 B3 B4 B5 B6 [C1 C2 C3] B8] Hi] [S1 S2 S3 S4 S5] L3 L4 L5 L6] E1 E2 E3 E4 Hok Hp Hc Hid Hb Hr.
  pose proof (rr_distinct _ _ _ _ _ _ _ _ _ _ _ L4) as Hnd.
  repeat match goal with H : NoDup (_ :: _) |- _ => apply NoDup_cons in H as [? H] end.
  assert (chans rs !! RX_RING i = Some crx) as Hrx by (rewrite Hid; [done|set_solver]).
  assert (chans rs !! READY_RING (sat_parent_idx d) = Some c) as Hrdy by (rewrite Hid; [done|set_solver]).
  assert (rings (sv_shm s') = rs ∧ cmds (sv_shm s') = cmds (sv_shm s) ∧
    g_sockets (sv_shm s') = g_sockets (sv_shm s) ∧ mbufs (sv_shm s') = mbufs (sv_shm s)) as (F1 & F2 & F3 & F4)
    by by rewrite E1.
  split; [|split; congruence|done| |done..].
  - split; [|done]. split; try congruence; [by rewrite F1|]. split; congruence.
  - eapply ready_service; [exact L4|..].
    + rewrite F3, <- Hi. done.
    + split; [by rewrite F1..|by rewrite F2|done].
    + rewrite F1, Hid by set_solver. apply (rr_cchan _ _ _ _ _ _ _ _ _ _ _ L4).
    + by rewrite F1.
    + intros x Hx. rewrite F4. by apply (rr_bufs _ _ _ _ _ _ _ _ _ _ _ L4).
Qed.

(** Packets that move from the stack to the receive ring. *)
Lemma linked_refilled so blk crx c cc pool cring s s' a :
  linked so blk crx c cc pool cring s a → refilled pending i p d blk crx s s' →
  ∃ blk' c', linked so blk' (appended crx (heads (take (room crx) (queued pending s p)))) c' cc pool cring s' a.
Proof.
  intros [L1 [S1 S2 S3 S4 S5] L3 L4 L5 L6] [[c' Hc'] Hl Ho Hlv Hf].
  pose proof (rr_distinct _ _ _ _ _ _ _ _ _ _ _ L4) as Hnd.
  repeat match goal with H : NoDup (_ :: _) |- _ => apply NoDup_cons in H as [? H] end.
  eexists _, c'. split; [exact Hc'| |done| |done..].
  - split; try done. by rewrite (fr_sockets _ _ _ Hf).
  - pose proof (rr_cmds _ _ _ _ _ _ _ _ _ _ _ L4) as [M1 M2 M3 M4 M5]. cbn in M1, M2, M3, M4, M5.
    eapply ready_service; [exact L4|..].
    + pose proof (rv_blk _ _ _ _ _ _ _ _ (cn_recv _ _ _ _ _ _ Hc')) as Hb.
      by rewrite (cn_idx _ _ _ _ _ _ Hc') in Hb.
    + split; [apply Hf|by rewrite (fr_chan _ _ _ Hf)..|by rewrite (fr_cmds _ _ _ Hf)|done].
    + rewrite (fr_chan _ _ _ Hf); [apply (rr_cchan _ _ _ _ _ _ _ _ _ _ _ L4)|set_solver|done].
    + apply (rv_chan _ _ _ _ _ _ _ _ (cn_recv _ _ _ _ _ _ Hc')).
    + intros x. cbn. rewrite app_assoc, elem_of_app. intros [Hx|Hx].
      * apply (fr_live _ _ _ Hf). by apply (rr_bufs _ _ _ _ _ _ _ _ _ _ _ L4).
      * by apply (proj1 (Forall_forall _ _) Hlv).
Qed.

(** Their place changes, their order does not. *)
Lemma refilled_on_the_way so blk crx c cc pool cring s s' a :
  linked so blk crx c cc pool cring s a → refilled pending i p d blk crx s s' →
  on_the_way s' = on_the_way s.
Proof.
  intros L Hr. destruct (linked_refilled _ _ _ _ _ _ _ _ _ _ L Hr) as (blk' & c' & L').
  rewrite (linked_on_the_way _ _ _ _ _ _ _ _ _ L), (linked_on_the_way _ _ _ _ _ _ _ _ _ L').
  rewrite (rf_left _ _ _ _ _ _ _ _ Hr). unfold waiting, appended. cbn.
  rewrite <- !app_assoc. do 2 f_equal. unfold heads. by rewrite <- fmap_app, take_drop.
Qed.
(** *** One step at a time *)

Lemma on_queue_flag so g g' :
  read_ready g' = read_ready g → read_sockets_queue_len g' = read_sockets_queue_len g →
  accept_ready g' = accept_ready g → closed_ready g' = closed_ready g →
  on_queue so g → on_queue so g'.
Proof. unfold on_queue. by intros -> -> -> ->. Qed.

(** A packet arrives, and the socket goes on the read queue unless it is there. *)
Lemma wp_arrive m s s1 a so blk crx c cc pool cring :
  good so blk crx c cc pool cring s a → arrives pending p m s s1 →
  wp (app_glue_sock_readable p) (λ _ s', ∃ so', good so' blk crx c cc pool cring s' a ∧
    read_queue_present so' = true ∧ on_the_way s' = on_the_way s ++ [rx_head m]) s1.
Proof.
  intros (L & (Qa & Qc & Q) & [K1 K2 K3]) (k & ms & -> & Hq & Hlive).
  set (s1 := _ <| sv_shm := _ |>) in *.
  destruct L as [L1 L2 L3 L4 L5 L6].
  destruct (connection_stack i d blk crx c s k ms s1 eq_refl Hlive L1) as [Hc1 _].
  assert (linked so blk crx c cc pool cring s1 a) as L'.
  { split; try done; [by destruct L2|]. pose proof L4 as [R1 R2 R3 R4 R5 R6 [M1 M2 M3 M4 M5] R8 R9 R10 R11 R12].
    eapply ready_service; [exact L4|exact R6|by split|done|done|].
    intros x Hx. apply Hlive. by apply R12. }
  assert (∀ s', sv_shm s' = sv_shm s1 → sv_stack s' = sv_stack s1 →
    on_the_way s' = on_the_way s ++ [rx_head m]) as Hway.
  { intros s' E1 E2. unfold on_the_way. rewrite E1. unfold queued at 1. rewrite E2.
    change (pending (sv_stack s1) p) with (queued pending s1 p). rewrite Hq.
    unfold heads. rewrite fmap_app, !app_assoc. done. }
  unfold app_glue_sock_readable. rewrite (proj2 (Z.eqb_neq _ _) (sv_ne _ _ _ _ L2)).
  assert (sockets s1 !! p = Some so) as Hso by apply L2.
  rewrite wp_bind. apply (wp_so_read p so); [done|]. rewrite L6.
  destruct (read_queue_present so) eqn:Hflag.
  - destruct Q as [Q1 Q2]. unfold glue_get. rewrite wp_bind, wp_gets.
    change (read_sockets_queue_len (sv_glue s1)) with (read_sockets_queue_len (sv_glue s)). rewrite Q2.
    cbn [Z.eqb]. rewrite wp_ret. exists so. split_and!; [|done|by apply Hway].
    split; [exact L'|]. split; [|by split]. split_and!; [done..|]. by rewrite Hflag.
  - destruct Q as [Q1 Q2]. rewrite wp_bind. apply wp_user_inc. rewrite wp_bind. unfold sock_hold.
    apply (wp_so_write p so); [done|]. rewrite wp_bind.
    eapply wp_so_write; [apply lookup_insert_eq|]. unfold glue_get. rewrite wp_bind, wp_gets, wp_bind.
    lazymatch goal with |- wp (tailq_insert_tail (read_ready (sv_glue ?s2)) _) _ _ =>
      change (read_ready (sv_glue s2)) with (read_ready (sv_glue s)) end.
    rewrite Q1, wp_tailq_insert_tail. split; [by apply not_elem_of_nil|].
    unfold on_glue. rewrite wp_modify.
    exists (so <| sk_refcnt := sk_refcnt so + 1 |> <| read_queue_present := true |>).
    split_and!; [|done|by apply Hway].
    split; [eapply (linked_local so); [exact L'|try done..]; apply lookup_insert_eq|].
    split; [|by split]. split_and!; [done..|].
    change ([] ++ [p] = [p] ∧ (read_sockets_queue_len (sv_glue s) + 1) mod 2 ^ 64 = 1). by rewrite Q2.
Qed.

Lemma wp_process_closed_nil fuel s (Q : unit → svc K → Prop) :
  closed_ready (sv_glue s) = [] → Q tt s → wp (process_closed (Datatypes.S fuel)) Q s.
Proof. intros Hl HQ. cbn [process_closed]. unfold glue_get. rewrite wp_bind, wp_gets, Hl. exact HQ. Qed.
Lemma wp_process_accept_nil fuel s (Q : unit → svc K → Prop) :
  accept_ready (sv_glue s) = [] → Q tt s → wp (process_accept (Datatypes.S fuel)) Q s.
Proof. intros Hl HQ. cbn [process_accept]. unfold glue_get. rewrite wp_bind, wp_gets, Hl. exact HQ. Qed.

Hypothesis Hstack : StackReceives pending.

(** A pass over the ready sockets; if the socket was on the queue it has passed on what
    its ring has room for. *)
Lemma wp_poll fuel s a so blk crx c cc pool cring :
  good so blk crx c cc pool cring s a →
  wp (process_rx_ready_sockets (Datatypes.S fuel)) (λ _ s', sys_ok (mk_sys s' a) ∧ on_the_way s' = on_the_way s) s.
Proof.
  intros (L & (Qa & Qc & Q) & Hk). unfold process_rx_ready_sockets.
  rewrite wp_bind. apply wp_process_closed_nil; [done|].
  rewrite wp_bind. apply wp_process_accept_nil; [done|].
  unfold glue_get. rewrite wp_bind, wp_gets.
  destruct (read_queue_present so) eqn:Hflag; destruct Q as [Q1 Q2]; rewrite Q2.
  - change (Z.to_nat 1) with 1%nat. unfold wp. rewrite (process_read_cons 0 p [] s Q1).
    match goal with |- match ?m s with _ => _ end => fold (wp m (λ _ s', sys_ok (mk_sys s' a) ∧ on_the_way s' = on_the_way s) s) end.
    rewrite wp_bind. pose proof L as [L1 L2 L3 L4 L5 L6].
    assert (linked (so <| read_queue_present := false |>) blk crx c cc pool cring (off_queue p so [] s) a) as L'.
    { eapply (linked_local so); [exact L|try done..]. apply lookup_insert_eq. }
    eapply wp_mono; [apply (wp_serve_refill pending Hstack i p so d blk crx c [] s L2 L1 Q1); by apply not_elem_of_nil|].
    intros ? s' (s2 & Hr & ->). change (process_read 0) with (mret () : M (svc K) unit). rewrite wp_ret.
    pose proof (refilled_on_the_way _ _ _ _ _ _ _ _ _ _ L' Hr) as Hw.
    destruct (linked_refilled _ _ _ _ _ _ _ _ _ _ L' Hr) as (blk' & c' & L2').
    pose proof (rf_frame _ _ _ _ _ _ _ _ Hr) as Hf.
    split; [|exact Hw].
    exists (so <| read_queue_present := false |> <| sk_refcnt := sk_refcnt so - 1 |>), blk', (appended crx (heads (take (room crx) (queued pending (off_queue p so [] s) p)))), c', cc, pool, cring.
    split; [|split].
    + eapply linked_local; [exact L2'|try done..]. apply lookup_insert_eq.
    + unfold on_queue, put_off. cbn [y_svc]. cbn. rewrite (fr_glue _ _ _ Hf). cbn. by rewrite Q2.
    + destruct Hk as [K1 K2 K3]. split; [done|done|]. intros b Hb. unfold put_off. cbn.
      rewrite (fr_cmds _ _ _ Hf). by apply K3.
  - change (process_read (Z.to_nat 0)) with (mret () : M (svc K) unit). rewrite wp_ret. split; [|done].
    exists so, blk, crx, c, cc, pool, cring. split; [done|]. split; [|done].
    split_and!; [done..|]. by rewrite Hflag.
Qed.
(** One command, if there is one: a kick of this connection. *)
Definition command_done so crx cc pool cring s s' a : Prop :=
  ∃ blk' crx' c' pool' cring', good so blk' crx' c' cc pool' cring' s' a ∧
    on_the_way s' = on_the_way s ∧ ch_cap crx' = ch_cap crx ∧ ch_cap cring' = ch_cap cring ∧
    match ch_q cring with
    | [] => pool' = pool ∧ cring' = cring
    | b :: rest => ch_q pool' = ch_q pool ++ [b] ∧ ch_q cring' = rest ∧
        (queued pending s' p = [] ∨ ch_cap crx' ≤ zlen (ch_q crx'))
    end.

Lemma room_used (crx : chan) (l : list rx_msg) :
  drop (room crx) l = [] ∨ ch_cap crx ≤ zlen (ch_q crx ++ heads (take (room crx) l)).
Proof.
  destruct (decide (length l ≤ room crx)%nat) as [Hle|Hgt]; [left; by apply drop_ge|right].
  rewrite zlen_app. unfold heads, zlen at 2. rewrite length_fmap, length_take. unfold room in *. lia.
Qed.

Lemma wp_command fuel s a so blk crx c cc pool cring :
  good so blk crx c cc pool cring s a →
  wp (process_commands fuel) (λ _ s', command_done so crx cc pool cring s s' a) s.
Proof.
  intros (L & Q & HK). pose proof L as [L1 L2 L3 L4 L5 L6].
  pose proof (rr_cmds _ _ _ _ _ _ _ _ _ _ _ L4) as [M1 M2 M3 M4 M5]. cbn in M1, M2, M3, M4, M5.
  pose proof (rr_distinct _ _ _ _ _ _ _ _ _ _ _ L4) as Hnd.
  repeat match goal with H : NoDup (_ :: _) |- _ => apply NoDup_cons in H as [? H] end.
  unfold command_done. destruct (ch_q cring) as [|b rest] eqn:Hcr.
  - unfold process_commands, ipaugenblick_dequeue_command_buf.
    rewrite !wp_bind. apply (wp_ring_count _ cring); [done..|]. rewrite Hcr.
    change (zlen [] =? 0) with true. cbv match. rewrite !wp_ret.
    exists blk, crx, c, pool, cring. split_and!; done.
  - pose proof HK as [K1 K2 K3]. rewrite Hcr in K1, K2, K3.
    destruct (K3 b ltac:(left)) as (cm & Hcm & Hkind & Hidx).
    assert (zlen (ch_q pool) < ch_cap pool) as Hroom by (unfold zlen in *; cbn in K2; lia).
    assert (kicked i p b rest cring pool s) as Hk.
    { split; try done; [by exists cm|]. exists d. split; [|done].
      apply (rv_sat _ _ _ _ _ _ _ _ (cn_recv _ _ _ _ _ _ L1)). }
    eapply wp_mono; [apply (wp_process_kick_refill pending Hstack i p b rest cring pool fuel so d blk crx c s Hk L2 L1)|].
    intros ? s' (s2 & s3 & Ht & Hr & Hret). cbn beta in *. destruct Ht as (rs & f & Hrs & Hch & ->).
    set (s2 := s <| sv_shm := _ |> <| sv_stats := f |>) in *.
    set (cring' := mk_chan (ch_cap cring) (ch_wm cring) rest) in *.
    assert (linked so blk crx c cc pool cring' s2 a) as La.
    { apply (linked_rings so blk crx c cc pool pool cring cring' s s2 rs a L); try done.
      - by rewrite Hch, lookup_insert_ne.
      - by rewrite Hch, lookup_insert_eq.
      - intros id Hid. rewrite Hch, lookup_insert_ne; [done|set_solver]. }
    assert (on_the_way s2 = on_the_way s) as Hw2.
    { by rewrite (linked_on_the_way _ _ _ _ _ _ _ _ _ L), (linked_on_the_way _ _ _ _ _ _ _ _ _ La). }
    destruct (linked_refilled _ _ _ _ _ _ _ _ _ _ La Hr) as (blk' & c' & Lb).
    pose proof (refilled_on_the_way _ _ _ _ _ _ _ _ _ _ La Hr) as Hw3.
    pose proof (rf_frame _ _ _ _ _ _ _ _ Hr) as Hf.
    set (crx' := appended crx _) in *.
    destruct Hret as (rs' & Hrs' & Hch' & ->). set (s4 := s3 <| sv_shm := _ |>).
    set (pool' := mk_chan (ch_cap pool) (ch_wm pool) (ch_q pool ++ [b])) in *.
    pose proof (rr_cmds _ _ _ _ _ _ _ _ _ _ _ (lk_ready _ _ _ _ _ _ _ _ _ Lb)) as [N1 N2 N3 N4 N5].
    cbn in N1, N2, N3, N4, N5.
    assert (cmds (sv_shm s3) = cmds (sv_shm s)) as Hcmds by by rewrite (fr_cmds _ _ _ Hf).
    assert (linked so blk' crx' c' cc pool' cring' s4 a) as Lc.
    { apply (linked_rings so blk' crx' c' cc pool pool' cring' cring' s3 s4 rs' a Lb); try done.
      - by rewrite Hch', lookup_insert_eq.
      - by rewrite Hch', lookup_insert_ne.
      - intros id Hid. rewrite Hch', lookup_insert_ne; [done|set_solver].
      - intros b' Hb'. rewrite Hcmds. cbn in Hb'. apply elem_of_app in Hb' as [Hb'|Hb'%list_elem_of_singleton].
        + by apply M4.
        + subst b'. by exists cm.
      - cbn. rewrite zlen_app. unfold zlen at 2. cbn. lia. }
    exists blk', crx', c', pool', cring'. split_and!; try done.
    + split; [done|]. split.
      * eapply on_queue_flag; [..|exact Q]; change (sv_glue s4) with (sv_glue s3); by rewrite (fr_glue _ _ _ Hf).
      * split; cbn.
        -- rewrite <- app_assoc. exact K1.
        -- rewrite zlen_app. unfold zlen in *. cbn in K2 |- *. lia.
        -- intros b' Hb'. change (∃ c0, cmds (sv_shm s3) !! b' = Some c0 ∧
             cmd_cmd c0 = SOCKET_RX_KICK_COMMAND ∧ cmd_ringset_idx c0 = i). rewrite Hcmds.
           apply K3. by right.
    + rewrite <- Hw2, <- Hw3, (linked_on_the_way _ _ _ _ _ _ _ _ _ Lb), (linked_on_the_way _ _ _ _ _ _ _ _ _ Lc).
      done.
    + change (queued pending s4 p) with (queued pending s3 p). rewrite (rf_left _ _ _ _ _ _ _ _ Hr).
      apply room_used.
Qed.
(** The application's call. *)
Definition take_done so (crx cc pool cring : chan) (y : sys K) (m : Z) (y' : sys K) : Prop :=
  ∃ blk' crx' c' cc' pool' cring', good so blk' crx' c' cc' pool' cring' (y_svc y') (y_app y') ∧
    m = default 0 (head (waiting cc crx)) ∧ (m = 0 ↔ waiting cc crx = []) ∧
    waiting cc' crx' = tail (waiting cc crx) ∧ queued pending (y_svc y') p = queued pending (y_svc y) p ∧
    ch_cap crx' = ch_cap crx ∧ ch_cap cring' = ch_cap cring ∧ ch_q pool' = tail (ch_q pool) ∧
    ch_q cring' = ch_q cring ++ (if zlen (ch_q cring) <? ch_cap cring then take 1 (ch_q pool) else []).

(** A channel the call leaves alone. *)
Lemma rx_after_chan cc rc pool ring q q' id ch :
  rx_after i i cid (RX_RING i) cc rc pool ring q q' →
  id ∉ [cid; RX_RING i; FREE_COMMAND_POOL; COMMAND_RING] →
  chans (rings (p_shm q)) !! id = Some ch → chans (rings (p_shm q')) !! id = Some ch.
Proof.
  intros A Hid Hch. destruct (ra_caps _ _ _ _ _ _ _ _ _ _ A id ch Hch) as (ch' & Hch' & E1 & E2).
  pose proof (ra_others _ _ _ _ _ _ _ _ _ _ A id Hid) as E3.
  rewrite (contents_chan _ _ _ Hch), (contents_chan _ _ _ Hch') in E3.
  rewrite Hch'. destruct ch, ch'. cbn in *. by subst.
Qed.

(** One it changes keeps its size. *)
Lemma rx_after_contents cc rc pool ring q q' id ch l :
  rx_after i i cid (RX_RING i) cc rc pool ring q q' →
  chans (rings (p_shm q)) !! id = Some ch → contents (p_shm q') id = l →
  chans (rings (p_shm q')) !! id = Some (mk_chan (ch_cap ch) (ch_wm ch) l).
Proof.
  intros A Hch Hl. destruct (ra_caps _ _ _ _ _ _ _ _ _ _ A id ch Hch) as (ch' & Hch' & E1 & E2).
  rewrite (contents_chan _ _ _ Hch') in Hl. rewrite Hch'. destruct ch'. cbn in *. by subst.
Qed.

(** Every buffer stays in one place; the one that was written is a kick. *)
Lemma kicks_only_take (m m' : shm) pool cring pool' cring' :
  0 ≤ i < 2 ^ 16 → (∀ b, b ∈ ch_q pool → is_Some (cmds m !! b)) →
  cmds m' = match head (ch_q pool) with
            | Some b => alter (rx_kick_cmd i) b (cmds m) | None => cmds m end →
  ch_q pool' = tail (ch_q pool) → ch_cap pool' = ch_cap pool →
  ch_q cring' = ch_q cring ++ (if zlen (ch_q cring) <? ch_cap cring then take 1 (ch_q pool) else []) →
  kicks_only m pool cring → kicks_only m' pool' cring'.
Proof.
  intros Hi Hb Hcm Hp Hcap Hr [K1 K2 K3]. destruct (ch_q pool) as [|b rest] eqn:Hpool; cbn in *.
  - assert (ch_q cring' = ch_q cring) as Hr' by (rewrite Hr; destruct (_ <? _); by rewrite app_nil_r).
    split; rewrite ?Hp, ?Hr', ?Hcap; [done|done|]. intros b Hin. rewrite Hcm. by apply K3.
  - rewrite take_0 in Hr. apply NoDup_cons in K1 as [Hnb K1]. destruct (Hb b ltac:(left)) as [cb Hcb].
    split.
    + rewrite Hp, Hr. destruct (_ <? _); [|by rewrite app_nil_r].
      rewrite app_assoc. apply NoDup_app. split_and!; [done| |apply NoDup_singleton].
      intros x Hx ->%list_elem_of_singleton. done.
    + rewrite Hp, Hr, Hcap, zlen_app. unfold zlen in *. cbn in K2. destruct (_ <? _); cbn; lia.
    + intros b' Hin. rewrite Hcm. destruct (decide (b' = b)) as [->|Hne].
      * exists (rx_kick_cmd i cb). rewrite lookup_alter_eq, Hcb. split_and!; [done|done|].
        cbn. unfold wrap32. rewrite Z.mod_small; lia.
      * rewrite lookup_alter_ne by done. apply K3. rewrite Hr in Hin.
        apply elem_of_app in Hin as [|Hin]; [done|]. destruct (_ <? _); [|by apply not_elem_of_nil in Hin].
        by apply list_elem_of_singleton in Hin.
Qed.

Lemma wp_take_buf y so blk crx c cc pool cring :
  good so blk crx c cc pool cring (y_svc y) (y_app y) →
  wp (on_application (ipaugenblick_dequeue_rx_buf i)) (take_done so crx cc pool cring y) y.
Proof.
  intros (L & Q & HK). pose proof L as [L1 L2 L3 L4 L5 L6]. apply wp_on_application.
  eapply wp_mono; [exact (dequeue_rx_buf_post i ld i blk cid (RX_RING i) cc crx pool cring _ L4)|].
  intros m [m' a'] (Hm & Hz & A). set (q := y_proc y) in *. set (q' := mk_proc m' a') in *.
  pose proof L4 as [R1 R2 R3 R4 R5 R6 [M1 M2 M3 M4 M5] R8 R9 R10 R11 R12].
  pose proof R11 as Hnd.
  repeat match goal with H : NoDup (_ :: _) |- _ => apply NoDup_cons in H as [? H] end.
  set (cq := contents m' cid). set (rq := contents m' (RX_RING i)).
  pose proof (rx_after_contents _ _ _ _ _ _ cid cc cq A R8 eq_refl) as Hcc.
  pose proof (rx_after_contents _ _ _ _ _ _ (RX_RING i) crx rq A R9 eq_refl) as Hrx.
  pose proof (rx_after_contents _ _ _ _ _ _ FREE_COMMAND_POOL pool _ A M2 (ra_pool _ _ _ _ _ _ _ _ _ _ A)) as Hpool.
  pose proof (rx_after_contents _ _ _ _ _ _ COMMAND_RING cring _ A M3 (ra_kick _ _ _ _ _ _ _ _ _ _ A)) as Hcring.
  pose proof (ra_cache _ _ _ _ _ _ _ _ _ _ A) as Hwait. fold cq rq in Hwait.
  cbn [p_shm q'] in Hcc, Hrx, Hpool, Hcring.
  set (cc' := mk_chan (ch_cap cc) (ch_wm cc) cq) in *. set (crx' := mk_chan (ch_cap crx) (ch_wm crx) rq) in *.
  set (pool' := mk_chan _ _ (tail _)) in *. set (cring' := mk_chan _ _ (_ ++ _)) in *.
  set (blk' := blk <| read_ready_to_app := 0 |>).
  assert (g_sockets m' !! i = Some blk') as Hblk.
  { pose proof (ra_socks _ _ _ _ _ _ _ _ _ _ A) as E. cbn in E. rewrite E, lookup_alter_eq.
    transitivity ((λ b, b <| read_ready_to_app := 0 |>) <$> Some blk); [f_equal; exact R6|done]. }
  pose proof L1 as [[B1 B2 B3 B4 B5 B6 [C1 C2 C3] B8] Hi].
  assert (chans (rings m') !! READY_RING (sat_parent_idx d) = Some c) as Hrdy.
  { apply (rx_after_chan _ _ _ _ _ _ _ c A); [|exact C3].
    rewrite !not_elem_of_cons. split_and!; [by apply not_eq_sym|done..|by apply not_elem_of_nil]. }
  pose proof (ra_rings _ _ _ _ _ _ _ _ _ _ A) as Hok.
  pose proof (ra_cmds _ _ _ _ _ _ _ _ _ _ A) as Hcmds. cbn in Hcmds.
  exists blk', crx', c, cc', pool', cring'. split_and!; try done.
  split; [|split].
  - split; [|by destruct L2|done| |done|done].
    + split; [|done]. split; try done. by rewrite Hi.
    + split; try done.
      * pose proof (ra_app _ _ _ _ _ _ _ _ _ _ A) as E. cbn [p_app q'] in E.
        change (lsds a' !! i = Some ld). rewrite <- R2. change (p_app (mk_proc _ ?x)) with x.
        change (p_app q) with (y_app y) in E. rewrite <- E. done.
      * split; [done..| |].
        -- intros b Hb. cbn. rewrite Hcmds. cbn in Hb. destruct (ch_q pool) as [|b0 rest] eqn:Hpq; [by apply not_elem_of_nil in Hb|].
           cbn. apply lookup_alter_is_Some. apply M4. by right.
        -- cbn in M5 |- *. destruct (ch_q pool); unfold zlen in *; cbn in *; lia.
      * exact (rr_distinct _ _ _ _ _ _ _ _ _ _ _ L4).
      * intros x Hx. pose proof (ra_mbufs _ _ _ _ _ _ _ _ _ _ A) as E. cbn [p_shm q'] in E.
        change (live (mbufs m') x). rewrite E. apply R12.
        change (x ∈ contents (p_shm q') cid ++ contents (p_shm q') (RX_RING i)) in Hx. rewrite Hwait in Hx. unfold waiting in Hx.
        destruct (ch_q cc ++ ch_q crx); [done|by right].
  - by eapply on_queue_flag; [..|exact Q].
  - by eapply (kicks_only_take (sv_shm (y_svc y))).
Qed.
(** *** Rounds *)

(** Nothing is on the command ring, and the rings are fit for use. *)
Record idle (y : sys K) : Prop := {
  id_ok : sys_ok y;
  id_commands : contents (sv_shm (y_svc y)) COMMAND_RING = [];
  id_pool : contents (sv_shm (y_svc y)) FREE_COMMAND_POOL ≠ [];
  id_rx : ∃ ch, chans (rings (sv_shm (y_svc y))) !! RX_RING i = Some ch ∧ 0 < ch_cap ch;
  id_ring : ∃ ch, chans (rings (sv_shm (y_svc y))) !! COMMAND_RING = Some ch ∧ 0 < ch_cap ch;
}.

(** The next packet, if there is one, is within the application's reach. *)
Definition primed (y : sys K) : Prop :=
  contents (sv_shm (y_svc y)) cid ++ contents (sv_shm (y_svc y)) (RX_RING i) = [] →
  queued pending (y_svc y) p = [].

Record round_done (y : sys K) (m : Z) (y' : sys K) : Prop := {
  rd_idle : idle y';
  rd_primed : primed y';
  rd_packet : m ≠ 0 → on_the_way (y_svc y) = m :: on_the_way (y_svc y');
  rd_nothing : m = 0 → on_the_way (y_svc y') = on_the_way (y_svc y);
  rd_zero : m = 0 ↔ contents (sv_shm (y_svc y)) cid ++ contents (sv_shm (y_svc y)) (RX_RING i) = [];
}.

Lemma good_contents so blk crx c cc pool cring s a :
  good so blk crx c cc pool cring s a →
  contents (sv_shm s) cid ++ contents (sv_shm s) (RX_RING i) = waiting cc crx ∧
  contents (sv_shm s) COMMAND_RING = ch_q cring ∧ contents (sv_shm s) FREE_COMMAND_POOL = ch_q pool ∧
  chans (rings (sv_shm s)) !! RX_RING i = Some crx ∧ chans (rings (sv_shm s)) !! COMMAND_RING = Some cring.
Proof.
  intros ([L1 L2 L3 [R1 R2 R3 R4 R5 R6 [M1 M2 M3 M4 M5] R8 R9 R10 R11 R12] L5 L6] & _ & _).
  cbn in *. rewrite (contents_chan _ _ _ R8), (contents_chan _ _ _ R9), (contents_chan _ _ _ M2), (contents_chan _ _ _ M3).
  done.
Qed.

Lemma wp_round fuel y : idle y → wp (round i fuel) (round_done y) y.
Proof.
  intros [(so & blk & crx & c & cc & pool & cring & G) Hcmd Hpool (crx0 & Hrx & Hrxcap) (cring0 & Hcr & Hcrcap)].
  destruct (good_contents _ _ _ _ _ _ _ _ _ G) as (Ew & Ec & Ep & Erx & Ecr).
  rewrite Ec in Hcmd. rewrite Ep in Hpool. assert (crx0 = crx) as -> by congruence.
  assert (cring0 = cring) as -> by congruence.
  unfold round. rewrite wp_bind. eapply wp_mono; [by apply (wp_take_buf y so blk crx c cc pool cring)|].
  intros m y1 (blk1 & crx1 & c1 & cc1 & pool1 & cring1 & G1 & Hm & Hz & Hw & Hq & Hcap1 & Hcap2 & Hp1 & Hc1).
  rewrite wp_bind. apply wp_on_service.
  eapply wp_mono; [by apply (wp_command fuel (y_svc y1) (y_app y1) so blk1 crx1 c1 cc1 pool1 cring1)|].
  intros ? s2 (blk2 & crx2 & c2 & pool2 & cring2 & G2 & Hway & Hcap3 & Hcap4 & Hdone). rewrite wp_ret.
  rewrite Hcmd in Hc1. destruct (ch_q pool) as [|b rest]; [done|].
  change (zlen []) with 0 in Hc1. rewrite (proj2 (Z.ltb_lt 0 (ch_cap cring))) in Hc1 by done.
  change ([] ++ take 1 (b :: rest)) with [b] in Hc1. rewrite Hc1 in Hdone.
  destruct Hdone as (Hpool2 & Hcring2 & Hfull).
  destruct (good_contents _ _ _ _ _ _ _ _ _ G2) as (Ew2 & Ec2 & Ep2 & Erx2 & Ecr2).
  assert (on_the_way (y_svc y) = waiting cc crx ++ heads (queued pending (y_svc y) p)) as E0
    by apply (linked_on_the_way _ _ _ _ _ _ _ _ _ (proj1 G)).
  assert (on_the_way s2 = tail (waiting cc crx) ++ heads (queued pending (y_svc y) p)) as E2.
  { by rewrite Hway, (linked_on_the_way _ _ _ _ _ _ _ _ _ (proj1 G1)), Hw, Hq. }
  split; cbn [y_svc].
  - split; cbn [y_svc].
    + by exists so, blk2, crx2, c2, cc1, pool2, cring2.
    + by rewrite Ec2.
    + rewrite Ep2, Hpool2. by destruct (ch_q pool1).
    + exists crx2. split; [done|lia].
    + exists cring2. split; [done|lia].
  - unfold primed. cbn [y_svc]. rewrite Ew2. intros Hnil. destruct Hfull as [|Hfull]; [done|].
    unfold waiting in Hnil. apply app_eq_nil in Hnil as [_ Hnil]. rewrite Hnil in Hfull.
    change (zlen []) with 0 in Hfull. lia.
  - intros Hm0. rewrite E0, E2. destruct (waiting cc crx) as [|x l]; [by destruct Hm0|]. cbn in Hm. by subst.
  - intros Hm0. rewrite E0, E2. by rewrite (proj1 Hz Hm0).
  - by rewrite Ew.
Qed.

Lemma wp_rounds n fuel : ∀ y, idle y → primed y → (length (on_the_way (y_svc y)) ≤ n)%nat →
  wp (rounds i n fuel) (λ l y', filter (.≠ 0) l = on_the_way (y_svc y) ∧ idle y' ∧ primed y' ∧
    on_the_way (y_svc y') = []) y.
Proof.
  induction n as [|n IH]; intros y Hid Hpr Hlen; cbn [rounds].
  - rewrite wp_ret. destruct (on_the_way (y_svc y)) eqn:E; [done|cbn in Hlen; lia].
  - rewrite wp_bind. eapply wp_mono; [by apply wp_round|]. intros m y1 [R1 R2 R3 R4 R5].
    assert (length (on_the_way (y_svc y1)) ≤ n)%nat as Hlen1.
    { destruct (decide (m = 0)) as [Hm|Hm]; [|rewrite (R3 Hm) in Hlen; cbn in Hlen; lia].
      rewrite (R4 Hm). unfold on_the_way. rewrite app_assoc, (proj1 R5 Hm), (Hpr (proj1 R5 Hm)). cbn. lia. }
    rewrite wp_bind. eapply wp_mono; [by apply IH|]. intros l y' (Hl & H1 & H2 & H3). rewrite wp_ret.
    split; [|done]. destruct (decide (m = 0)) as [Hm|Hm].
    + rewrite filter_cons_False by (intros ?; done). by rewrite Hl, (R4 Hm).
    + rewrite filter_cons_True by done. by rewrite Hl, (R3 Hm).
Qed.
End invariant.

(** ** Theorems *)

Section theorems.
Context {K : Type} `{Stack K} (pending : K → Z → list rx_msg).
Context (i p : Z) (d : socket_satelite_data_t) (ld : local_socket_descriptor) (cid : ring_id).
Abbreviation ok := (sys_ok i p d ld cid).
Abbreviation way y := (on_the_way pending i p cid (y_svc y)).

Lemma service_result {A} (m : M (svc K) A) Q y x y' :
  wp m Q (y_svc y) → on_service m y = Done (x, y') → Q x (y_svc y') ∧ y_app y' = y_app y.
Proof. unfold wp, on_service. destruct (m (y_svc y)) as [[x1 s1]| |]; [|done..]. intros HQ [= -> <-]. done. Qed.

Hypothesis Hstack : StackReceives pending.

(** What each step does to the packets on their way. *)
Lemma step_way y l y' : ok y → step pending i p y l y' →
  ok y' ∧ way y ++ arrived [l] = taken [l] ++ way y'.
Proof.
  intros (so & blk & crx & c & cc & pool & cring & G) Hs.
  destruct Hs as [m y s1 y' Ha Hd|fuel y y' Hd|fuel y y' Hd|m y y' Hd].
  - eapply service_result in Hd; [|exact (wp_arrive pending i p d ld cid m _ s1 _ _ _ _ _ _ _ _ G Ha)].
    destruct Hd as [(so' & G' & _ & Hw) Ea]. cbn in Ea. rewrite <- Ea in G'. split; [do 7 eexists; exact G'|]. by symmetry.
  - eapply service_result in Hd; [|exact (wp_poll pending i p d ld cid Hstack fuel _ _ _ _ _ _ _ _ _ G)].
    destruct Hd as [[Hok Hw] Ea]. rewrite <- Ea in Hok. split; [by destruct y'|]. cbn. by rewrite app_nil_r.
  - eapply service_result in Hd; [|exact (wp_command pending i p d ld cid Hstack fuel _ _ _ _ _ _ _ _ _ G)].
    destruct Hd as [(? & ? & ? & ? & ? & G' & Hw & _) Ea]. rewrite <- Ea in G'. split; [do 7 eexists; exact G'|]. cbn. by rewrite app_nil_r.
  - eapply wp_result in Hd; [|exact (wp_take_buf pending i p d ld cid y _ _ _ _ _ _ _ G)].
    destruct Hd as (? & ? & ? & cc' & ? & ? & G' & Hm & Hz & Hw & Hq & _). split; [do 7 eexists; exact G'|].
    rewrite (linked_on_the_way _ _ _ _ _ _ _ _ _ _ _ _ _ _ _ (proj1 G)), (linked_on_the_way _ _ _ _ _ _ _ _ _ _ _ _ _ _ _ (proj1 G')).
    rewrite Hw, Hq. cbn. rewrite app_nil_r. destruct (Z.eqb_spec m 0) as [Hm0|Hm0].
    + by rewrite (proj1 Hz Hm0).
    + destruct (waiting cc crx) as [|w q]; [by destruct Hm0|]. cbn in Hm. by subst.
Qed.
Lemma run_way y ls y' : run pending i p y ls y' → ok y → ok y' ∧ way y ++ arrived ls = taken ls ++ way y'.
Proof.
  induction 1 as [y|y l y1 ls y2 Hs Hr IH]; intros Hok; [by rewrite app_nil_r|].
  destruct (step_way y l y1 Hok Hs) as [Hok1 H1]. destruct (IH Hok1) as [Hok2 H2]. split; [done|].
  change (arrived (l :: ls)) with (arrived ([l] ++ ls)). change (taken (l :: ls)) with (taken ([l] ++ ls)).
  unfold arrived, taken in *. rewrite !bind_app. by rewrite app_assoc, H1, <- !app_assoc, H2.
Qed.

(** No call gets stuck, and an empty hand means that nothing is within reach. *)
Lemma step_enabled y : ok y →
  (∀ m s1, arrives pending p m (y_svc y) s1 → ∃ y', step pending i p y (Arrive m) y') ∧
  (∃ y', step pending i p y Poll y') ∧ (∃ y', step pending i p y Command y') ∧
  (∃ m y', step pending i p y (Take m) y' ∧
     (m = 0 ↔ contents (sv_shm (y_svc y)) cid ++ contents (sv_shm (y_svc y)) (RX_RING i) = [])).
Proof.
  intros (so & blk & crx & c & cc & pool & cring & G). split_and!.
  - intros m s1 Ha. edestruct (wp_returns (on_service (app_glue_sock_readable p)) (λ _ _, True) (mk_sys s1 (y_app y)))
      as ([] & y' & Hd & _); [|by exists y'; eapply step_arrive].
    apply wp_on_service. eapply wp_mono; [exact (wp_arrive pending i p d ld cid m _ s1 _ _ _ _ _ _ _ _ G Ha)|done].
  - edestruct (wp_returns (on_service (process_rx_ready_sockets 1)) (λ _ _, True) y)
      as ([] & y' & Hd & _); [|by exists y'; eapply step_poll].
    apply wp_on_service. eapply wp_mono; [exact (wp_poll pending i p d ld cid Hstack 0 _ _ _ _ _ _ _ _ _ G)|done].
  - edestruct (wp_returns (on_service (process_commands 0)) (λ _ _, True) y)
      as ([] & y' & Hd & _); [|by exists y'; eapply step_command].
    apply wp_on_service. eapply wp_mono; [exact (wp_command pending i p d ld cid Hstack 0 _ _ _ _ _ _ _ _ _ G)|done].
  - destruct (wp_returns _ _ _ (wp_take_buf pending i p d ld cid y _ _ _ _ _ _ _ G)) as (m & y' & Hd & Ht).
    exists m, y'. split; [by apply step_take|]. destruct Ht as (? & ? & ? & ? & ? & ? & _ & _ & Hz & _).
    by rewrite (proj1 (good_contents _ _ _ _ _ _ _ _ _ _ _ _ _ _ G)).
Qed.

(** C4. The receive path is a queue from end to end.  However arrivals, passes over the
    read queue, commands and the application's calls follow each other, what was on its
    way and what arrived is what was handed out followed by what is still on its way, in
    order: nothing is lost, invented, duplicated or reordered between the stack and the
    caller.  From every state such a run reaches, each of the four calls returns, and
    the application gets nothing exactly when its cache and its ring are empty. *)
Theorem receive_path_fifo y ls y' :
  ok y → run pending i p y ls y' →
  way y ++ arrived ls = taken ls ++ way y' ∧ ok y' ∧
  (∀ m s1, arrives pending p m (y_svc y') s1 → ∃ y2, step pending i p y' (Arrive m) y2) ∧
  (∃ y2, step pending i p y' Poll y2) ∧ (∃ y2, step pending i p y' Command y2) ∧
  (∃ m y2, step pending i p y' (Take m) y2 ∧
     (m = 0 ↔ contents (sv_shm (y_svc y')) cid ++ contents (sv_shm (y_svc y')) (RX_RING i) = [])).
Proof.
  intros Hok Hr. destruct (run_way y ls y' Hr Hok) as [Hok' Hw]. split; [done|]. split; [done|].
  by apply step_enabled.
Qed.

(** C5. Whatever has arrived is handed out.  An application that calls
    ipaugenblick_dequeue_rx_buf one time more than there are packets on their way, the
    service executing the command each call sends, gets all of them in order - those in
    its cache, those in the ring and those still in the stack - and then nothing is on
    its way: the kick each call sends is enough, no poll of the service is needed. *)
Theorem receive_path_delivers y n fuel :
  idle i p d ld cid y → length (way y) = n →
  wp (rounds i (Datatypes.S n) fuel) (λ l y', filter (.≠ 0) l = way y ∧ way y' = [] ∧
    idle i p d ld cid y') y.
Proof.
  intros Hid Hn. cbn [rounds]. rewrite wp_bind.
  eapply wp_mono; [by apply (wp_round pending i p d ld cid Hstack)|]. intros m y1 [R1 R2 R3 R4 R5].
  rewrite wp_bind. eapply wp_mono; [apply (wp_rounds pending i p d ld cid Hstack n); [done|done|]|].
  - destruct (decide (m = 0)) as [Hm|Hm]; [by rewrite (R4 Hm), Hn|].
    rewrite (R3 Hm) in Hn. cbn in Hn. lia.
  - intros l y' (Hl & H1 & H2 & H3). rewrite wp_ret. split_and!; [|done|done].
    destruct (decide (m = 0)) as [Hm|Hm].
    + rewrite filter_cons_False by (intros ?; done). by rewrite Hl, (R4 Hm).
    + rewrite filter_cons_True by done. by rewrite Hl, (R3 Hm).
Qed.
End theorems.

(** *** A concrete system *)

(** Connection 5 with socket 100: a packet in the cache, two in the ring, two in the
    stack; the socket is on the read queue. *)
Definition path_shm : shm :=
  mk_shm (list_to_map [(LOCAL_CACHE "demo" 5, demo_ring 3 8 [24]); (RX_RING 5, demo_ring 3 1 [25; 26]);
                       (READY_RING 0, demo_ring 3 8 []);
                       (FREE_COMMAND_POOL, demo_ring 0 8 [100; 101]); (COMMAND_RING, demo_ring 2 8 [])])
    (cmds demo_shm) {[5 := mk_socket 5 1 0 0 0 0 0]}
    {[24 := demo_mbuf 1 0; 25 := demo_mbuf 1 0; 26 := demo_mbuf 1 0]}.
Definition path_service : svc arrivals :=
  mk_svc path_shm {[5 := mk_satelite 100 5 0 (Some (TX_RING 5)) (Some (RX_RING 5)) 77]}
    {[0 := Some (READY_RING 0)]} ∅ [] [] {[100 := rx_socket 5]}
    (mk_glue [100] 1 [] 0 [] [] 0 0 0 0 0 0 0 0) (λ _, 0) [] {[100 := [9000; 9001]%positive]}.
Definition path_system : sys arrivals := mk_sys path_service demo_app.

Lemma path_rings : rings_ok (rings path_shm).
Proof. apply demo_rings_ok. repeat constructor; (do 3 eexists; split; [done|cbn; lia]). Qed.

Lemma path_system_good :
  good 5 100 (mk_satelite 100 5 0 (Some (TX_RING 5)) (Some (RX_RING 5)) 77) (demo_lsd 5 2)
    (LOCAL_CACHE "demo" 5) (rx_socket 5) (mk_socket 5 1 0 0 0 0 0) (mk_chan 7 1 [25; 26])
    (mk_chan 7 8 []) (mk_chan 7 8 [24]) demo_pool demo_cmd_ring path_service demo_app.
Proof.
  split; [|split; [done|]].
  - split; try done.
    + split; [|done]. split; try done. exact path_rings.
    + split; try done.
      * split; [exact path_rings|done|done|exact (cm_bufs _ _ _ demo_cmd_mem)|done].
      * repeat constructor; set_solver.
      * intros m Hm. cbn in Hm.
        repeat (apply elem_of_cons in Hm as [->|Hm]; [split; [done|by eexists]|]).
        by apply not_elem_of_nil in Hm.
  - split; [by apply (bool_decide_unpack (NoDup [100; 101]))|done|intros b Hb; by apply not_elem_of_nil in Hb].
Qed.

Lemma path_system_ok :
  sys_ok 5 100 (mk_satelite 100 5 0 (Some (TX_RING 5)) (Some (RX_RING 5)) 77) (demo_lsd 5 2)
    (LOCAL_CACHE "demo" 5) path_system.
Proof. do 7 eexists. exact path_system_good. Qed.

(** The service polls, then the application takes a packet. *)
Definition path_polled : sys arrivals :=
  match on_service (process_rx_ready_sockets 1) path_system with Done (_, y) => y | _ => path_system end.
Definition path_taken : sys arrivals :=
  match on_application (ipaugenblick_dequeue_rx_buf 5) path_polled with Done (_, y) => y | _ => path_system end.

Lemma path_run : run demo_pending 5 100 path_system [Poll; Take 24] path_taken.
Proof.
  eapply run_cons; [apply (step_poll _ _ _ 0); vm_compute; reflexivity|].
  eapply run_cons; [apply step_take; vm_compute; reflexivity|]. apply run_nil.
Qed.

Lemma receive_path_fifo_witness :
  [24; 25; 26; 9000; 9001] ++ arrived [Poll; Take 24] =
    taken [Poll; Take 24] ++ on_the_way demo_pending 5 100 (LOCAL_CACHE "demo" 5) (y_svc path_taken) ∧
  ∃ m y2, step demo_pending 5 100 path_taken (Take m) y2.
Proof.
  destruct (receive_path_fifo demo_pending 5 100 _ _ _ packet_stack_receives path_system _ path_taken
              path_system_ok path_run) as (H1 & _ & _ & _ & _ & m & y2 & H2 & _).
  split; [exact H1|]. by exists m, y2.
Defined.

Lemma receive_path_delivers_witness :
  wp (rounds 5 6 1) (λ l y', filter (.≠ 0) l = [24; 25; 26; 9000; 9001] ∧
    on_the_way demo_pending 5 100 (LOCAL_CACHE "demo" 5) (y_svc y') = [] ∧
    idle 5 100 (mk_satelite 100 5 0 (Some (TX_RING 5)) (Some (RX_RING 5)) 77) (demo_lsd 5 2)
      (LOCAL_CACHE "demo" 5) y') path_system.
Proof.
  refine (receive_path_delivers demo_pending 5 100 _ _ (LOCAL_CACHE "demo" 5) packet_stack_receives path_system 5 1 _ _);
    [|vm_compute; reflexivity].
  split; [exact path_system_ok|done|done| |]; (eexists; split; [vm_compute; reflexivity|vm_compute; reflexivity]).
Defined.
