(* ===== verification/RteTimer.v ===== *)
(** * DPDK's timers (dpdk-16.07/lib/librte_timer/rte_timer.c)

    The port keeps the stack's timers on DPDK's: per logical core a skip list of
    pending timers ordered by expiry, from which [rte_timer_manage] takes those that
    are due and runs their functions.  The service uses the library from one core
    only, so this is the library as that core sees it: [rte_lcore_id()] is the
    constant [lcore], every timer is on that core's list, the list's lock is always
    free, and an atomic compare-and-set succeeds.

    The functions the timers call are programs over the library's interface ([prog])
    that may also change the rest of the world. *)

From S2P Require Import Prelude.

(** ** Data (rte_timer.h) *)

Inductive timer_state := RTE_TIMER_STOP | RTE_TIMER_PENDING | RTE_TIMER_RUNNING | RTE_TIMER_CONFIG.
#[export] Instance timer_state_eq_dec : EqDecision timer_state.
Proof. solve_decision. Defined.
Definition RTE_TIMER_NO_OWNER : Z := -2.
Definition MAX_SKIPLIST_DEPTH : nat := 10.

(** [tm_fn] stands for the function pointer [f]. *)
Record rte_timer := mk_rte_timer {
  tm_expire : Z;
  tm_sl_next : list Z;
  tm_state : timer_state;
  tm_owner : Z;
  tm_period : Z;
  tm_fn : Z;
  tm_arg : Z;
}.
#[export] Instance eta_rte_timer : Eta rte_timer := λ t,
  mk_rte_timer (tm_expire t) (tm_sl_next t) (tm_state t) (tm_owner t) (tm_period t) (tm_fn t) (tm_arg t).

(** Address of [pending_head], the dummy timer at the head of the list. *)
Definition PENDING_HEAD : Z := -1.

(** [struct priv_timer] of the core, with the memory the timers are in, the cycle
    counter, the state of the random number generator and the rest of the world.
    [pt_fired] records the calls of timer functions: function, timer, argument. *)
Record priv_timer (W : Type) := mk_priv {
  pt_timers : gmap Z rte_timer;
  pt_updated : bool;
  curr_skiplist_depth : nat;
  running_tim : Z;
  pt_cycles : Z;
  pt_seed : Z;
  pt_world : W;
  pt_fired : list (Z * Z * Z);
}.
Arguments mk_priv {W} _ _ _ _ _ _ _ _.
Arguments pt_timers {W} _. Arguments pt_updated {W} _. Arguments curr_skiplist_depth {W} _.
Arguments running_tim {W} _. Arguments pt_cycles {W} _. Arguments pt_seed {W} _.
Arguments pt_world {W} _. Arguments pt_fired {W} _.
#[export] Instance eta_priv W : Eta (priv_timer W) := λ s,
  mk_priv (pt_timers s) (pt_updated s) (curr_skiplist_depth s) (running_tim s) (pt_cycles s)
    (pt_seed s) (pt_world s) (pt_fired s).

Inductive rte_timer_type := SINGLE | PERIODICAL.

(** Code that uses the library: calls of it, each with its result, time that passes,
    changes of the rest of the world; [P_fault] does not return. *)
Inductive prog (W A : Type) :=
  | P_ret (a : A)
  | P_fault
  | P_reset (tim ticks : Z) (type : rte_timer_type) (fn arg : Z) (k : Z → prog W A)
  | P_stop (tim : Z) (k : Z → prog W A)
  | P_pending (tim : Z) (k : bool → prog W A)
  | P_elapse (n : Z) (k : prog W A)
  | P_world (f : W → W) (k : W → prog W A).
Arguments P_ret {W A} _. Arguments P_fault {W A}.
Arguments P_reset {W A} _ _ _ _ _ _. Arguments P_stop {W A} _ _.
Arguments P_pending {W A} _ _. Arguments P_elapse {W A} _ _. Arguments P_world {W A} _ _.

#[export] Instance prog_ret W : MRet (prog W) := λ A a, P_ret a.
#[export] Instance prog_bind W : MBind (prog W) := λ A B f, fix go c :=
  match c with
  | P_ret a => f a
  | P_fault => P_fault
  | P_reset tim ticks type fn arg k => P_reset tim ticks type fn arg (λ rc, go (k rc))
  | P_stop tim k => P_stop tim (λ rc, go (k rc))
  | P_pending tim k => P_pending tim (λ b, go (k b))
  | P_elapse n k => P_elapse n (go k)
  | P_world g k => P_world g (λ w, go (k w))
  end.

(** [rte_bsf32]: the index of the lowest bit that is set. *)
Fixpoint lowest_bit (x : positive) : Z :=
  match x with xO x => lowest_bit x + 1 | _ => 0 end.
Definition rte_bsf32 (v : Z) : Z := match v with Zpos x => lowest_bit x | _ => 0 end.

(** [timer_get_skiplist_level], from the value of [rte_rand()]. *)
Definition timer_get_skiplist_level (random : Z) (curr_depth : nat) : nat :=
  let rand := Z.land (wrap32 random) (2 ^ 32 - 1 - 1) in
  let level := if rand =? 0 then MAX_SKIPLIST_DEPTH else Z.to_nat ((rte_bsf32 rand - 1) / 2) in
  let level := if (curr_depth <? level)%nat then curr_depth else level in
  if (MAX_SKIPLIST_DEPTH <=? level)%nat then (MAX_SKIPLIST_DEPTH - 1)%nat else level.

Section timers.
Context {W : Type}.
(** The core; the random number generator (of the C library); the timer functions. *)
Context (lcore : Z) (rte_rand : Z → Z * Z) (callback : Z → Z → Z → W → prog W unit).
Implicit Types (s : priv_timer W).
Abbreviation MT := (M (priv_timer W)).

(** ** Access *)

Definition timer_read (p : Z) : MT rte_timer := t ← gets (λ s, pt_timers s !! p); of_option t.
Definition timer_write (p : Z) (f : rte_timer → rte_timer) : MT unit :=
  _ ← timer_read p; modify (λ s, s <| pt_timers := alter f p (pt_timers s) |>).
Definition get_next (p : Z) (lvl : nat) : MT Z := t ← timer_read p; of_option (tm_sl_next t !! lvl).
Definition set_next (p : Z) (lvl : nat) (v : Z) : MT unit :=
  _ ← get_next p lvl;
  modify (λ s, s <| pt_timers := alter (λ t, t <| tm_sl_next := <[lvl := v]> (tm_sl_next t) |>) p (pt_timers s) |>).
Definition set_status (p : Z) (st : timer_state) (owner : Z) : MT unit :=
  timer_write p (λ t, t <| tm_state := st |> <| tm_owner := owner |>).
Definition set_depth (d : nat) : MT unit := modify (λ s, s <| curr_skiplist_depth := d |>).
Definition timer_fuel : MT nat := gets (λ s, Datatypes.S (size (pt_timers s))).

Definition rte_timer_init (tim : Z) : MT unit := set_status tim RTE_TIMER_STOP RTE_TIMER_NO_OWNER.

(** ** Taking a timer over *)

(** The previous state, or nothing ([-1]) when the timer cannot be changed now. *)
Definition timer_set_config_state (tim : Z) : MT (option timer_state) :=
  t ← timer_read tim;
  run ← gets running_tim;
  if decide (tm_state t = RTE_TIMER_RUNNING) then
    if negb (tm_owner t =? lcore) || negb (tim =? run) then mret None
    else _ ← set_status tim RTE_TIMER_CONFIG lcore; mret (Some (tm_state t))
  else if decide (tm_state t = RTE_TIMER_CONFIG) then mret None
  else _ ← set_status tim RTE_TIMER_CONFIG lcore; mret (Some (tm_state t)).

Definition timer_set_running_state (tim : Z) : MT bool :=
  t ← timer_read tim;
  if decide (tm_state t = RTE_TIMER_PENDING) then _ ← set_status tim RTE_TIMER_RUNNING lcore; mret true
  else mret false.

(** ** The skip list *)

(** The inner loop of [timer_get_prev_entries]. *)
Fixpoint walk_le (fuel : nat) (p : Z) (lvl : nat) (time_val : Z) : MT Z :=
  match fuel with
  | O => fault
  | Datatypes.S fuel =>
      nx ← get_next p lvl;
      if nx =? 0 then mret p
      else
        t ← timer_read nx;
        if tm_expire t <=? time_val then walk_le fuel nx lvl time_val else mret p
  end.

(** [prev[0], .., prev[lvl - 1]], given [prev[lvl]]. *)
Fixpoint prev_levels (lvl : nat) (p : Z) (time_val : Z) : MT (list Z) :=
  match lvl with
  | O => mret []
  | Datatypes.S lvl =>
      fuel ← timer_fuel;
      q ← walk_le fuel p lvl time_val;
      l ← prev_levels lvl q time_val;
      mret (l ++ [q])
  end.

Definition timer_get_prev_entries (time_val : Z) : MT (list Z) :=
  depth ← gets curr_skiplist_depth;
  _ ← require (depth <=? MAX_SKIPLIST_DEPTH)%nat;
  l ← prev_levels depth PENDING_HEAD time_val;
  mret (l ++ [PENDING_HEAD]).

(** The inner loop of [timer_get_prev_entries_for_node]. *)
Fixpoint walk_node (fuel : nat) (p : Z) (lvl : nat) (tim expire : Z) : MT Z :=
  match fuel with
  | O => fault
  | Datatypes.S fuel =>
      nx ← get_next p lvl;
      if nx =? 0 then mret p
      else if nx =? tim then mret p
      else
        t ← timer_read nx;
        if tm_expire t <=? expire then walk_node fuel nx lvl tim expire else mret p
  end.

Fixpoint node_levels (lvl : nat) (prev : list Z) (tim expire : Z) : MT (list Z) :=
  match lvl with
  | O => mret prev
  | Datatypes.S lvl =>
      fuel ← timer_fuel;
      p ← of_option (prev !! lvl);
      q ← walk_node fuel p lvl tim expire;
      node_levels lvl (<[lvl := q]> prev) tim expire
  end.

Definition timer_get_prev_entries_for_node (tim : Z) : MT (list Z) :=
  t ← timer_read tim;
  prev ← timer_get_prev_entries (wrap64 (tm_expire t - 1));
  depth ← gets curr_skiplist_depth;
  node_levels depth prev tim (tm_expire t).

(** One level of the insertion, and all from [lvl] down. *)
Definition link_at (tim : Z) (prev : list Z) (lvl : nat) : MT unit :=
  p ← of_option (prev !! lvl);
  nx ← get_next p lvl;
  _ ← set_next tim lvl nx;
  set_next p lvl tim.
Fixpoint link_levels (tim : Z) (prev : list Z) (lvl : nat) : MT unit :=
  _ ← link_at tim prev lvl;
  match lvl with O => mret tt | Datatypes.S lvl => link_levels tim prev lvl end.

(** The expiry of the first pending timer, or 0, in the head. *)
Definition head_expire_set : MT unit :=
  nx ← get_next PENDING_HEAD 0;
  t ← timer_read nx;
  timer_write PENDING_HEAD (λ h, h <| tm_expire := tm_expire t |>).

Definition timer_add (tim : Z) : MT unit :=
  t ← timer_read tim;
  prev ← timer_get_prev_entries (tm_expire t);
  random ← (λ s, Done (fst (rte_rand (pt_seed s)), s <| pt_seed := snd (rte_rand (pt_seed s)) |>));
  depth ← gets curr_skiplist_depth;
  let tim_level := timer_get_skiplist_level random depth in
  _ ← when (tim_level =? depth)%nat (set_depth (Datatypes.S depth));
  _ ← link_levels tim prev tim_level;
  head_expire_set.

Fixpoint unlink_levels (tim : Z) (prev : list Z) (lvl : nat) : MT unit :=
  match lvl with
  | O => mret tt
  | Datatypes.S lvl =>
      p ← of_option (prev !! lvl);
      nx ← get_next p lvl;
      _ ← (if nx =? tim then v ← get_next tim lvl; set_next p lvl v else mret tt);
      unlink_levels tim prev lvl
  end.

(** Empty levels at the top are given up. *)
Fixpoint lower_depth (lvl : nat) : MT unit :=
  match lvl with
  | O => mret tt
  | Datatypes.S lvl =>
      nx ← get_next PENDING_HEAD lvl;
      if nx =? 0 then
        depth ← gets curr_skiplist_depth;
        _ ← set_depth (depth - 1);
        lower_depth lvl
      else mret tt
  end.

Definition timer_del (tim : Z) : MT unit :=
  first ← get_next PENDING_HEAD 0;
  _ ← when (tim =? first)
        (nx ← get_next tim 0;
         e ← (if nx =? 0 then mret 0 else t ← timer_read nx; mret (tm_expire t));
         timer_write PENDING_HEAD (λ h, h <| tm_expire := e |>));
  prev ← timer_get_prev_entries_for_node tim;
  depth ← gets curr_skiplist_depth;
  _ ← unlink_levels tim prev depth;
  lower_depth depth.

(** ** The interface *)

Definition __rte_timer_reset (tim expire period fn arg : Z) : MT Z :=
  prev_status ← timer_set_config_state tim;
  match prev_status with
  | None => mret (-1)
  | Some st =>
      _ ← when (bool_decide (st = RTE_TIMER_RUNNING)) (modify (λ s, s <| pt_updated := true |>));
      _ ← when (bool_decide (st = RTE_TIMER_PENDING)) (timer_del tim);
      _ ← timer_write tim (λ t, t <| tm_period := period |> <| tm_expire := expire |>
                                  <| tm_fn := fn |> <| tm_arg := arg |>);
      _ ← timer_add tim;
      _ ← set_status tim RTE_TIMER_PENDING lcore;
      mret 0
  end.

Definition rte_timer_reset (tim ticks : Z) (type : rte_timer_type) (fn arg : Z) : MT Z :=
  cur_time ← gets pt_cycles;
  __rte_timer_reset tim (wrap64 (cur_time + ticks))
    (match type with PERIODICAL => ticks | SINGLE => 0 end) fn arg.

Definition rte_timer_stop (tim : Z) : MT Z :=
  prev_status ← timer_set_config_state tim;
  match prev_status with
  | None => mret (-1)
  | Some st =>
      _ ← when (bool_decide (st = RTE_TIMER_RUNNING)) (modify (λ s, s <| pt_updated := true |>));
      _ ← when (bool_decide (st = RTE_TIMER_PENDING)) (timer_del tim);
      _ ← set_status tim RTE_TIMER_STOP RTE_TIMER_NO_OWNER;
      mret 0
  end.

(** Its loop does not end while the timer cannot be stopped. *)
Fixpoint rte_timer_stop_sync (fuel : nat) (tim : Z) : MT unit :=
  match fuel with
  | O => fault
  | Datatypes.S fuel =>
      rc ← rte_timer_stop tim;
      if rc =? 0 then mret tt else rte_timer_stop_sync fuel tim
  end.

Definition rte_timer_pending (tim : Z) : MT bool :=
  t ← timer_read tim; mret (bool_decide (tm_state t = RTE_TIMER_PENDING)).

(** Such code at work. *)
Fixpoint run_prog {A} (c : prog W A) : MT A :=
  match c with
  | P_ret a => mret a
  | P_fault => fault
  | P_reset tim ticks type fn arg k => rc ← rte_timer_reset tim ticks type fn arg; run_prog (k rc)
  | P_stop tim k => rc ← rte_timer_stop tim; run_prog (k rc)
  | P_pending tim k => b ← rte_timer_pending tim; run_prog (k b)
  | P_elapse n k => _ ← modify (λ s, s <| pt_cycles := wrap64 (pt_cycles s + n) |>); run_prog k
  | P_world f k =>
      _ ← modify (λ s, s <| pt_world := f (pt_world s) |>);
      w ← gets pt_world;
      run_prog (k w)
  end.

(** ** The pass over expired timers *)

Fixpoint break_levels (prev : list Z) (lvl : nat) : MT unit :=
  match lvl with
  | O => mret tt
  | Datatypes.S lvl =>
      p ← of_option (prev !! lvl);
      _ ← (if p =? PENDING_HEAD then mret tt
           else
             nx ← get_next p lvl;
             _ ← set_next PENDING_HEAD lvl nx;
             _ ← (if nx =? 0 then
                    depth ← gets curr_skiplist_depth; set_depth (depth - 1)
                  else mret tt);
             set_next p lvl 0);
      break_levels prev lvl
  end.

(** From pending to running.  [last] is the last timer kept (where [pprev] points), or
    nothing while none was; returns the head of the run list. *)
Fixpoint mark_running (fuel : nat) (tim : Z) (last : option Z) (first : Z) : MT Z :=
  match fuel with
  | O => fault
  | Datatypes.S fuel =>
      if tim =? 0 then mret first
      else
        next_tim ← get_next tim 0;
        ok ← timer_set_running_state tim;
        if (ok : bool) then mark_running fuel next_tim (Some tim) first
        else
          match last with
          | Some p => _ ← set_next p 0 next_tim; mark_running fuel next_tim last first
          | None => mark_running fuel next_tim None next_tim
          end
  end.

Fixpoint run_expired (fuel : nat) (tim cur_time : Z) : MT unit :=
  match fuel with
  | O => fault
  | Datatypes.S fuel =>
      if tim =? 0 then mret tt
      else
        next_tim ← get_next tim 0;
        _ ← modify (λ s, s <| pt_updated := false |> <| running_tim := tim |>);
        t ← timer_read tim;
        w ← gets pt_world;
        _ ← modify (λ s, s <| pt_fired := pt_fired s ++ [(tm_fn t, tim, tm_arg t)] |>);
        _ ← run_prog (callback (tm_fn t) tim (tm_arg t) w);
        updated ← gets pt_updated;
        if (updated : bool) then run_expired fuel next_tim cur_time
        else
          t ← timer_read tim;
          if tm_period t =? 0 then
            _ ← set_status tim RTE_TIMER_STOP RTE_TIMER_NO_OWNER;
            run_expired fuel next_tim cur_time
          else
            _ ← set_status tim RTE_TIMER_PENDING lcore;
            _ ← __rte_timer_reset tim (wrap64 (cur_time + tm_period t)) (tm_period t) (tm_fn t) (tm_arg t);
            run_expired fuel next_tim cur_time
  end.

Definition rte_timer_manage : MT unit :=
  first ← get_next PENDING_HEAD 0;
  if first =? 0 then mret tt
  else
    cur_time ← gets pt_cycles;
    h ← timer_read PENDING_HEAD;
    if cur_time <? tm_expire h then mret tt
    else
      t ← timer_read first;
      if cur_time <? tm_expire t then mret tt
      else
        prev ← timer_get_prev_entries cur_time;
        depth ← gets curr_skiplist_depth;
        _ ← break_levels prev depth;
        fuel ← timer_fuel;
        run_first ← mark_running fuel first None first;
        nx ← get_next PENDING_HEAD 0;
        e ← (if nx =? 0 then mret 0 else t ← timer_read nx; mret (tm_expire t));
        _ ← timer_write PENDING_HEAD (λ h, h <| tm_expire := e |>);
        fuel ← timer_fuel;
        _ ← run_expired fuel run_first cur_time;
        modify (λ s, s <| running_tim := 0 |>).
End timers.

(** ** Linked lists *)

(** [linked f p l]: following [f] from [p] one meets the elements of [l], then 0. *)
Fixpoint linked (f : Z → option Z) (p : Z) (l : list Z) : Prop :=
  match l with
  | [] => f p = Some 0
  | x :: l => x ≠ 0 ∧ f p = Some x ∧ linked f x l
  end.

(** The last element of [l], or [p]. *)
Definition last_or (p : Z) (l : list Z) : Z := default p (last l).

Lemma last_or_cons p x l : last_or p (x :: l) = last_or x l.
Proof. unfold last_or. rewrite last_cons. by destruct (last l). Qed.
Lemma last_or_app p l x l' : last_or p (l ++ x :: l') = last_or x l'.
Proof.
  revert p. induction l as [|y l IH]; intros p; cbn; [by rewrite last_or_cons|]. by rewrite last_or_cons.
Qed.
Lemma last_or_elem p l : last_or p l ∈ p :: l.
Proof.
  unfold last_or. destruct (last l) as [x|] eqn:Hl; cbn; [|left].
  right. apply last_Some in Hl as [l' ->]. apply elem_of_app. right. left.
Qed.

Lemma linked_head f p l : linked f p l → f p = Some (hd 0 l).
Proof. destruct l; [done|]. by intros (_ & -> & _). Qed.

Lemma linked_ext f g p l : (∀ x, x ∈ p :: l → g x = f x) → linked f p l → linked g p l.
Proof.
  revert p. induction l as [|y l IH]; intros p Hfg; cbn; [rewrite Hfg by left; done|].
  intros (Hy & Hp & Hl). split; [done|]. split; [by rewrite Hfg by left|].
  apply IH; [|done]. intros x Hx. apply Hfg. by right.
Qed.

Lemma linked_app f p l1 l2 : linked f p (l1 ++ l2) → linked f (last_or p l1) l2.
Proof.
  revert p. induction l1 as [|x l1 IH]; intros p; cbn; [done|]. intros (_ & _ & Hl).
  rewrite last_or_cons. by apply IH.
Qed.

Lemma linked_last f p l1 l2 : linked f p (l1 ++ l2) → f (last_or p l1) = Some (hd 0 l2).
Proof. intros Hl. by apply linked_head, (linked_app _ p). Qed.

Lemma linked_nonzero f p l x : linked f p l → x ∈ l → x ≠ 0.
Proof.
  revert p. induction l as [|y l IH]; intros p; [by intros _ ?%not_elem_of_nil|].
  intros (Hy & _ & Hl) [->|Hx]%elem_of_cons; [done|by apply (IH y)].
Qed.

(** Putting [l2] behind [l1]. *)
Lemma linked_join f g p l1 l2 :
  NoDup (p :: l1) → linked f p (l1 ++ l2) →
  (∀ x, x ∈ p :: l1 → x ≠ last_or p l1 → g x = f x) →
  ∀ l3, Forall (.≠ 0) l3 → g (last_or p l1) = Some (hd 0 l3) →
  (∀ x l', l3 = x :: l' → linked g x l') → linked g p (l1 ++ l3).
Proof.
  intros Hnd Hl Hsame l3 Hnz Hlast Hl3. revert p Hnd Hl Hsame Hlast.
  induction l1 as [|y l1 IH]; intros p Hnd Hl Hsame Hlast; cbn.
  - destruct l3 as [|x l3]; [exact Hlast|]. inversion Hnz. split_and!; [done|exact Hlast|by apply Hl3].
  - cbn in Hl. destruct Hl as (Hy & Hp & Hl). apply NoDup_cons in Hnd as [Hp' Hnd].
    rewrite last_or_cons in Hlast, Hsame. split; [done|]. split.
    + rewrite Hsame; [done|left|]. pose proof (last_or_elem y l1). intros ->. done.
    + apply IH; [done|done| |done]. intros x Hx. apply Hsame. by right.
Qed.

(** Insertion behind [l1], removal behind [l1]. *)
Lemma linked_insert f g p l1 l2 t :
  NoDup (p :: l1 ++ l2) → t ∉ p :: l1 ++ l2 → t ≠ 0 → linked f p (l1 ++ l2) →
  g t = Some (hd 0 l2) → g (last_or p l1) = Some t →
  (∀ x, x ≠ t → x ≠ last_or p l1 → g x = f x) → linked g p (l1 ++ t :: l2).
Proof.
  intros Hnd Ht Ht0 Hl Hgt Hgl Hsame. pose proof (linked_app _ _ _ _ Hl) as Hl2.
  assert (∀ x, x ∈ l2 → g x = f x) as Hsame2.
  { intros x Hx. apply Hsame; [intros ->; apply Ht; right; apply elem_of_app; by right|].
    intros ->. rewrite app_comm_cons in Hnd. apply NoDup_app in Hnd as (_ & Hd & _).
    apply (Hd (last_or p l1)); [apply last_or_elem|done]. }
  eapply linked_join; [|exact Hl|..].
  - rewrite app_comm_cons in Hnd. by apply NoDup_app in Hnd as (? & _ & _).
  - intros x Hx Hne. apply Hsame; [|done]. intros ->. apply Ht. rewrite app_comm_cons.
    apply elem_of_app. by left.
  - constructor; [done|]. apply Forall_forall. intros x Hx. by apply (linked_nonzero _ _ _ _ Hl2).
  - exact Hgl.
  - intros x l' [= <- <-]. destruct l2 as [|y l2]; [exact Hgt|]. cbn in Hgt, Hl2 |- *.
    destruct Hl2 as (Hy & _ & Hl2). split_and!; [done..|]. eapply linked_ext; [|exact Hl2]. exact Hsame2.
Qed.

Lemma linked_remove f g p l1 l2 t :
  NoDup (p :: l1 ++ t :: l2) → linked f p (l1 ++ t :: l2) → g (last_or p l1) = Some (hd 0 l2) →
  (∀ x, x ∈ p :: l1 ++ l2 → x ≠ last_or p l1 → g x = f x) → linked g p (l1 ++ l2).
Proof.
  intros Hnd Hl Hgl Hsame. pose proof (linked_app _ _ _ _ Hl) as (_ & _ & Hl2).
  rewrite app_comm_cons in Hnd. apply NoDup_app in Hnd as (Hnd1 & Hd & Hnd2).
  apply NoDup_cons in Hnd2 as [_ Hnd2].
  eapply linked_join; [exact Hnd1|exact Hl| | |exact Hgl|].
  - intros x Hx. apply Hsame. rewrite app_comm_cons. apply elem_of_app. by left.
  - apply Forall_forall. intros x Hx. by apply (linked_nonzero _ _ _ _ Hl2).
  - intros x l' ->. destruct Hl2 as (_ & _ & Hl2). eapply linked_ext; [|exact Hl2].
    intros y Hy. apply Hsame; [rewrite app_comm_cons; apply elem_of_app; by right|].
    intros ->. apply (Hd (last_or p l1)); [apply last_or_elem|]. right. done.
Qed.

(** ** Lists ordered by expiry *)

Section ordered.
Context (E : Z → Z).

Fixpoint ordered (l : list Z) : Prop :=
  match l with [] => True | x :: l => Forall (λ y, E x ≤ E y) l ∧ ordered l end.
Definition upto (e : Z) (l : list Z) : list Z := filter (λ x, E x ≤ e) l.
Definition beyond (e : Z) (l : list Z) : list Z := filter (λ x, e < E x) l.

Lemma ordered_split e l : ordered l → l = upto e l ++ beyond e l.
Proof.
  unfold upto, beyond. induction l as [|x l IH]; [done|]. intros [Hx Hl].
  destruct (decide (E x ≤ e)) as [He|He].
  - rewrite filter_cons_True, (filter_cons_False (λ x, e < E x)) by lia. cbn [app]. by rewrite <- IH.
  - rewrite filter_cons_False, (filter_cons_True (λ x, e < E x)) by lia.
    assert (filter (λ y, E y ≤ e) l = []) as ->.
    { clear -Hx He. induction l as [|y l IH]; [done|].
      inversion Hx; subst. rewrite filter_cons_False by lia. by apply IH. }
    assert (filter (λ y, e < E y) l = l) as Hall; [|cbn [app]; by rewrite Hall].
    clear -Hx He. induction l as [|y l IH]; [done|]. inversion Hx; subst.
    rewrite filter_cons_True by lia. by rewrite IH.
Qed.

Lemma ordered_sublist l k : l `sublist_of` k → ordered k → ordered l.
Proof.
  induction 1 as [|x l k Hs IH|x l k Hs IH]; [done| |].
  - intros [Hx Hk]. split; [|by apply IH]. apply Forall_forall. intros y Hy.
    apply (proj1 (Forall_forall _ _) Hx). by eapply sublist_subseteq.
  - intros [_ Hk]. by apply IH.
Qed.

Lemma ordered_insert l1 l2 t :
  ordered (l1 ++ l2) → Forall (λ x, E x ≤ E t) l1 → Forall (λ x, E t ≤ E x) l2 → ordered (l1 ++ t :: l2).
Proof.
  induction l1 as [|x l1 IH]; cbn; [done|]. intros [Hx Hl] H1 H2. inversion H1; subst. split.
  - apply Forall_app in Hx as [Hx1 Hx2]. apply Forall_app. split; [done|]. by constructor.
  - by apply IH.
Qed.
End ordered.

(** ** The list in memory *)

#[local] Abbreviation HEAD := PENDING_HEAD.

Section list.
Context {W : Type}.
Implicit Types (s : priv_timer W).

Definition nxt s (lvl : nat) (p : Z) : option Z := t ← pt_timers s !! p; tm_sl_next t !! lvl.
Definition expire s (p : Z) : Z := from_option tm_expire 0 (pt_timers s !! p).
Definition with_next (p : Z) (lvl : nat) (v : Z) s : priv_timer W :=
  s <| pt_timers := alter (λ t, t <| tm_sl_next := <[lvl := v]> (tm_sl_next t) |>) p (pt_timers s) |>.

Lemma wp_timer_read p t (Q : rte_timer → priv_timer W → Prop) s :
  pt_timers s !! p = Some t → Q t s → wp (timer_read p) Q s.
Proof. intros Ht HQ. unfold timer_read. rewrite wp_bind, wp_gets. by rewrite Ht. Qed.
Lemma wp_timer_write p t f (Q : unit → priv_timer W → Prop) s :
  pt_timers s !! p = Some t → Q tt (s <| pt_timers := alter f p (pt_timers s) |>) → wp (timer_write p f) Q s.
Proof. intros Ht HQ. unfold timer_write. rewrite wp_bind. by apply (wp_timer_read p t). Qed.

Lemma nxt_Some s lvl p v : nxt s lvl p = Some v ↔ ∃ t, pt_timers s !! p = Some t ∧ tm_sl_next t !! lvl = Some v.
Proof. unfold nxt. destruct (pt_timers s !! p) as [t|]; cbn; [|naive_solver]. naive_solver. Qed.

Lemma wp_get_next p lvl v (Q : Z → priv_timer W → Prop) s :
  nxt s lvl p = Some v → Q v s → wp (get_next p lvl) Q s.
Proof.
  intros (t & Ht & Hv)%nxt_Some HQ. unfold get_next. rewrite wp_bind. apply (wp_timer_read p t); [done|].
  by rewrite Hv.
Qed.
Lemma wp_set_next p lvl v0 v (Q : unit → priv_timer W → Prop) s :
  nxt s lvl p = Some v0 → Q tt (with_next p lvl v s) → wp (set_next p lvl v) Q s.
Proof. intros Hn HQ. unfold set_next. rewrite wp_bind. by apply (wp_get_next p lvl v0). Qed.

Lemma nxt_with_next s p lvl v q l :
  is_Some (nxt s lvl p) →
  nxt (with_next p lvl v s) l q = if decide (q = p ∧ l = lvl) then Some v else nxt s l q.
Proof.
  intros [v0 (t & Ht & Hv)%nxt_Some]. unfold nxt, with_next. cbn.
  destruct (decide (q = p)) as [->|Hne].
  - rewrite lookup_alter_eq, Ht. cbn. destruct (decide (l = lvl)) as [->|Hl].
    + rewrite decide_True by done. apply list_lookup_insert_eq. by eapply lookup_lt_Some.
    + rewrite decide_False by naive_solver. by apply list_lookup_insert_ne.
  - rewrite decide_False by naive_solver. by rewrite lookup_alter_ne.
Qed.
Lemma nxt_with_next_eq s p lvl v : is_Some (nxt s lvl p) → nxt (with_next p lvl v s) lvl p = Some v.
Proof. intros Hs. rewrite nxt_with_next by done. by rewrite decide_True. Qed.
Lemma nxt_with_next_ne s p lvl v q l :
  is_Some (nxt s lvl p) → q ≠ p ∨ l ≠ lvl → nxt (with_next p lvl v s) l q = nxt s l q.
Proof. intros Hs Hne. rewrite nxt_with_next by done. rewrite decide_False; [done|]. naive_solver. Qed.

(** What writes to the links leave alone. *)
Definition core (t : rte_timer) : rte_timer := t <| tm_sl_next := [] |>.
Record same_but_links s s' : Prop := {
  sl_core p : core <$> pt_timers s' !! p = core <$> pt_timers s !! p;
  sl_shape p t : pt_timers s' !! p = Some t →
    ∃ t0, pt_timers s !! p = Some t0 ∧ length (tm_sl_next t) = length (tm_sl_next t0);
  sl_updated : pt_updated s' = pt_updated s;
  sl_running : running_tim s' = running_tim s;
  sl_cycles : pt_cycles s' = pt_cycles s;
  sl_world : pt_world s' = pt_world s;
  sl_fired : pt_fired s' = pt_fired s;
}.

Lemma same_but_links_refl s : same_but_links s s.
Proof. split; try done. intros p t Ht. by exists t. Qed.
Lemma same_but_links_trans s1 s2 s3 : same_but_links s1 s2 → same_but_links s2 s3 → same_but_links s1 s3.
Proof.
  intros [A1 A2 A3 A4 A5 A6 A7] [B1 B2 B3 B4 B5 B6 B7]. split; try congruence.
  intros p t Ht. destruct (B2 p t Ht) as (t1 & Ht1 & E1). destruct (A2 p t1 Ht1) as (t0 & Ht0 & E0).
  exists t0. split; [done|congruence].
Qed.
Lemma same_with_next p lvl v s : same_but_links s (with_next p lvl v s).
Proof.
  split; try done; unfold with_next; cbn; intros q.
  - destruct (decide (q = p)) as [->|Hne]; [|by rewrite lookup_alter_ne].
    rewrite lookup_alter_eq. by destruct (pt_timers s !! p).
  - intros t. destruct (decide (q = p)) as [->|Hne].
    + rewrite lookup_alter_eq. intros (t0 & Ht0 & ->)%fmap_Some. exists t0. split; [done|].
      cbn. apply length_insert.
    + rewrite lookup_alter_ne by done. intros Ht. by exists t.
Qed.
Lemma same_set_depth d s : same_but_links s (s <| curr_skiplist_depth := d |>).
Proof. split; try done. intros p t Ht. by exists t. Qed.

Lemma expire_same s s' p : same_but_links s s' → expire s' p = expire s p.
Proof.
  intros Hs. pose proof (sl_core _ _ Hs p) as Hc. unfold expire.
  destruct (pt_timers s' !! p) as [t'|], (pt_timers s !! p) as [t|]; try done. cbn in *.
  injection Hc. done.
Qed.

(** *** Walks *)

Lemma linked_live s lvl p l x : linked (nxt s lvl) p l → x ∈ p :: l → is_Some (pt_timers s !! x).
Proof.
  revert p. induction l as [|y l IH]; intros p; cbn.
  - intros (t & Ht & _)%nxt_Some ->%list_elem_of_singleton. by exists t.
  - intros (_ & (t & Ht & _)%nxt_Some & Hl) [->|Hx]%elem_of_cons; [by exists t|]. by apply (IH y).
Qed.

Lemma live_length s l : NoDup l → (∀ x, x ∈ l → is_Some (pt_timers s !! x)) → (length l ≤ size (pt_timers s))%nat.
Proof.
  intros Hnd Hl. rewrite <- (size_list_to_set (C := gset Z) l Hnd), <- size_dom.
  apply subseteq_size. intros x Hx%elem_of_list_to_set. apply elem_of_dom. by apply Hl.
Qed.

Lemma wp_walk_le fuel lvl e l2 : ∀ p l1 s,
  linked (nxt s lvl) p (l1 ++ l2) → Forall (λ x, expire s x ≤ e) l1 →
  (∀ x l, l2 = x :: l → e < expire s x) → (length l1 < fuel)%nat →
  wp (walk_le fuel p lvl e) (λ q s', s' = s ∧ q = last_or p l1) s.
Proof.
  induction fuel as [|fuel IH]; intros p l1 s Hl H1 H2 Hf; [lia|]. cbn [walk_le]. rewrite wp_bind.
  apply (wp_get_next _ _ (hd 0 (l1 ++ l2))); [by apply linked_head|].
  destruct l1 as [|x l1]; cbn [app hd].
  - destruct l2 as [|x l2]; [done|]. cbn. destruct Hl as (Hx & _ & Hl).
    rewrite (proj2 (Z.eqb_neq _ _) Hx), wp_bind.
    destruct (linked_live _ _ _ _ x Hl) as [t Ht]; [left|]. apply (wp_timer_read x t); [done|].
    specialize (H2 x l2 eq_refl). unfold expire in H2. rewrite Ht in H2. cbn in H2.
    by rewrite (proj2 (Z.leb_gt _ _) H2).
  - destruct Hl as (Hx & _ & Hl). inversion H1 as [|? ? He H1']; subst.
    rewrite (proj2 (Z.eqb_neq _ _) Hx), wp_bind.
    destruct (linked_live _ _ _ _ x Hl) as [t Ht]; [left|]. apply (wp_timer_read x t); [done|].
    unfold expire in He. rewrite Ht in He. cbn in He. rewrite (proj2 (Z.leb_le _ _) He), last_or_cons.
    apply IH; [done|done|done|cbn in Hf; lia].
Qed.

Lemma wp_walk_node fuel lvl tim e l2 : ∀ p l1 s,
  linked (nxt s lvl) p (l1 ++ l2) → Forall (λ x, expire s x ≤ e) l1 → tim ∉ l1 →
  (∀ x l, l2 = x :: l → x = tim ∨ e < expire s x) → (length l1 < fuel)%nat →
  wp (walk_node fuel p lvl tim e) (λ q s', s' = s ∧ q = last_or p l1) s.
Proof.
  induction fuel as [|fuel IH]; intros p l1 s Hl H1 Ht1 H2 Hf; [lia|]. cbn [walk_node]. rewrite wp_bind.
  apply (wp_get_next _ _ (hd 0 (l1 ++ l2))); [by apply linked_head|].
  destruct l1 as [|x l1]; cbn [app hd].
  - destruct l2 as [|x l2]; [done|]. cbn. destruct Hl as (Hx & _ & Hl).
    rewrite (proj2 (Z.eqb_neq _ _) Hx). destruct (Z.eqb_spec x tim) as [|Hne]; [done|].
    destruct (H2 x l2 eq_refl) as [|He]; [done|]. rewrite wp_bind.
    destruct (linked_live _ _ _ _ x Hl) as [t Ht]; [left|]. apply (wp_timer_read x t); [done|].
    unfold expire in He. rewrite Ht in He. cbn in He. by rewrite (proj2 (Z.leb_gt _ _) He).
  - destruct Hl as (Hx & _ & Hl). inversion H1 as [|? ? He H1']; subst.
    apply not_elem_of_cons in Ht1 as [Hne Ht1]. rewrite (proj2 (Z.eqb_neq _ _) Hx).
    rewrite (proj2 (Z.eqb_neq x tim)) by congruence. rewrite wp_bind.
    destruct (linked_live _ _ _ _ x Hl) as [t Ht]; [left|]. apply (wp_timer_read x t); [done|].
    unfold expire in He. rewrite Ht in He. cbn in He. rewrite (proj2 (Z.leb_le _ _) He), last_or_cons.
    apply IH; [done|done|done|done|cbn in Hf; lia].
Qed.

(** *** The skip list *)

(** [ls i] are the timers on level [i], in order. *)
Record levels s (ls : nat → list Z) : Prop := {
  lv_linked i : (i < MAX_SKIPLIST_DEPTH)%nat → linked (nxt s i) HEAD (ls i);
  lv_sub i : ls (Datatypes.S i) `sublist_of` ls i;
  lv_order : ordered (expire s) (ls 0%nat);
  lv_nodup : NoDup (HEAD :: ls 0%nat);
  lv_range : Forall (λ x, 0 < expire s x < 2 ^ 64) (ls 0%nat);
  lv_shape p t : pt_timers s !! p = Some t → length (tm_sl_next t) = MAX_SKIPLIST_DEPTH;
  lv_head : is_Some (pt_timers s !! HEAD);
}.

Record skiplist s (ls : nat → list Z) : Prop := {
  sk_levels : levels s ls;
  sk_depth : (curr_skiplist_depth s ≤ MAX_SKIPLIST_DEPTH)%nat;
  sk_empty i : (curr_skiplist_depth s ≤ i)%nat → ls i = [];
  sk_full i : (i < curr_skiplist_depth s)%nat → ls i ≠ [];
  sk_first x l : ls 0%nat = x :: l → expire s HEAD = expire s x;
}.

Lemma levels_sub0 s ls i : levels s ls → ls i `sublist_of` ls 0%nat.
Proof. intros Hl. induction i as [|i IH]; [done|]. etransitivity; [apply (lv_sub _ _ Hl)|done]. Qed.
Lemma levels_elem s ls i x : levels s ls → x ∈ ls i → x ∈ ls 0%nat.
Proof. intros Hl Hx. eapply elem_of_sublist; [exact Hx|by eapply levels_sub0]. Qed.
Lemma levels_order s ls i : levels s ls → ordered (expire s) (ls i).
Proof. intros Hl. eapply ordered_sublist; [by eapply levels_sub0|apply Hl]. Qed.
Lemma levels_nodup s ls i : levels s ls → NoDup (HEAD :: ls i).
Proof.
  intros Hl. pose proof (lv_nodup _ _ Hl) as [Hh Hnd]%NoDup_cons. apply NoDup_cons. split.
  - intros Hx. apply Hh. by eapply levels_elem.
  - eapply sublist_NoDup; [done|by eapply levels_sub0].
Qed.
Lemma levels_live s ls i x : levels s ls → x ∈ HEAD :: ls i → is_Some (pt_timers s !! x).
Proof.
  intros Hl [->|Hx]%elem_of_cons; [apply Hl|]. apply (linked_live _ 0%nat HEAD (ls 0%nat)).
  - apply Hl. unfold MAX_SKIPLIST_DEPTH. lia.
  - right. by eapply levels_elem.
Qed.
Lemma levels_fuel s ls i : levels s ls → (length (ls i) < Datatypes.S (size (pt_timers s)))%nat.
Proof.
  intros Hl. apply Nat.lt_succ_r. apply live_length.
  - by apply (levels_nodup s ls i), NoDup_cons in Hl as [_ ?].
  - intros x Hx. apply (levels_live s ls i); [done|by right].
Qed.
Lemma levels_next s ls i x :
  levels s ls → (i < MAX_SKIPLIST_DEPTH)%nat → is_Some (pt_timers s !! x) → is_Some (nxt s i x).
Proof.
  intros Hl Hi [t Ht]. pose proof (lv_shape _ _ Hl x t Ht) as Hs.
  destruct (lookup_lt_is_Some_2 (tm_sl_next t) i) as [v Hv]; [lia|]. exists v.
  apply nxt_Some. by exists t.
Qed.

(** *** Predecessors *)

Definition prev_le s (ls : nat → list Z) (e : Z) (i : nat) : Z := last_or HEAD (upto (expire s) e (ls i)).

Lemma elem_upto (E : Z → Z) e l x : x ∈ upto E e l ↔ E x ≤ e ∧ x ∈ l.
Proof. unfold upto. by rewrite list_elem_of_filter. Qed.

Lemma beyond_first (E : Z → Z) e l x l' : beyond E e l = x :: l' → e < E x.
Proof. intros Hb. assert (x ∈ beyond E e l) as Hx by (rewrite Hb; left). unfold beyond in Hx. by apply list_elem_of_filter in Hx as [? _]. Qed.

Lemma wp_prev_levels ls e s : levels s ls →
  ∀ lvl p, (lvl ≤ MAX_SKIPLIST_DEPTH)%nat → p = HEAD ∨ (p ∈ ls lvl ∧ expire s p ≤ e) →
  wp (prev_levels lvl p e) (λ l s', s' = s ∧ l = prev_le s ls e <$> seq 0 lvl) s.
Proof.
  intros Hl. induction lvl as [|lvl IH]; intros p Hlvl Hp; cbn [prev_levels]; [by rewrite wp_ret|].
  unfold timer_fuel. rewrite wp_bind, wp_gets, wp_bind.
  pose proof (lv_linked _ _ Hl lvl ltac:(lia)) as Hlk.
  pose proof (ordered_split (expire s) e _ (levels_order s ls lvl Hl)) as Hsplit.
  assert (∃ l1 l2, upto (expire s) e (ls lvl) = l1 ++ l2 ∧ p = last_or HEAD l1) as (l1 & l2 & Hu & Hpl).
  { destruct Hp as [->|[Hp He]]; [by exists [], (upto (expire s) e (ls lvl))|].
    assert (p ∈ upto (expire s) e (ls lvl)) as Hin.
    { apply elem_upto. split; [done|]. eapply elem_of_sublist; [exact Hp|apply Hl]. }
    apply list_elem_of_split in Hin as (l1 & l2 & ->). exists (l1 ++ [p]), l2.
    split; [by rewrite <- app_assoc|]. by rewrite last_or_app. }
  eapply wp_mono; [apply (wp_walk_le _ lvl e (beyond (expire s) e (ls lvl)) p l2)|].
  - rewrite Hpl. apply (linked_app _ HEAD). by rewrite app_assoc, <- Hu, <- Hsplit.
  - apply Forall_forall. intros x Hx. assert (x ∈ upto (expire s) e (ls lvl)) as [He _]%elem_upto; [|done].
    rewrite Hu. apply elem_of_app. by right.
  - intros x l'. apply beyond_first.
  - pose proof (levels_fuel s ls lvl Hl) as Hf. rewrite Hsplit, Hu, !length_app in Hf. lia.
  - intros q s' [-> ->]. cbn beta.
    assert (last_or p l2 = prev_le s ls e lvl) as ->.
    { unfold prev_le. rewrite Hu, Hpl. destruct l2 as [|y l2]; [by rewrite app_nil_r|].
      by rewrite last_or_app, last_or_cons. }
    rewrite wp_bind. eapply wp_mono; [apply IH; [lia|]|].
    + unfold prev_le. pose proof (last_or_elem HEAD (upto (expire s) e (ls lvl))) as Hx.
      apply elem_of_cons in Hx as [->|[He Hx]%elem_upto]; [by left|by right].
    + intros l s' [-> ->]. rewrite wp_ret. split; [done|]. rewrite seq_S, fmap_app. done.
Qed.

Lemma wp_prev_entries_levels ls e s :
  levels s ls → (curr_skiplist_depth s ≤ MAX_SKIPLIST_DEPTH)%nat → ls (curr_skiplist_depth s) = [] →
  wp (timer_get_prev_entries e)
    (λ l s', s' = s ∧ l = prev_le s ls e <$> seq 0 (Datatypes.S (curr_skiplist_depth s))) s.
Proof.
  intros Hl Hd Hnil. unfold timer_get_prev_entries. rewrite wp_bind, wp_gets, wp_bind, wp_require.
  split; [by apply Nat.leb_le|]. rewrite wp_bind.
  eapply wp_mono; [apply (wp_prev_levels ls e s); [done|done|by left]|].
  intros l s' [-> ->]. rewrite wp_ret. split; [done|]. rewrite seq_S, fmap_app. cbn.
  unfold prev_le at 3. by rewrite Hnil.
Qed.
Lemma wp_prev_entries ls e s : skiplist s ls →
  wp (timer_get_prev_entries e)
    (λ l s', s' = s ∧ l = prev_le s ls e <$> seq 0 (Datatypes.S (curr_skiplist_depth s))) s.
Proof. intros Hsk. apply wp_prev_entries_levels; [apply Hsk..|by apply (sk_empty _ _ Hsk)]. Qed.

Lemma lookup_prevs (P : nat → Z) n i : (i < n)%nat → (P <$> seq 0 n) !! i = Some (P i).
Proof. intros Hi. rewrite list_lookup_fmap, lookup_seq_lt by done. done. Qed.

(** *** Insertion *)

(** The state but for the links. *)
Record relinked s s' : Prop := {
  rl_same : same_but_links s s';
  rl_depth : curr_skiplist_depth s' = curr_skiplist_depth s;
  rl_seed : pt_seed s' = pt_seed s;
}.
Lemma relinked_refl s : relinked s s.
Proof. split; [apply same_but_links_refl|done..]. Qed.
Lemma relinked_trans s1 s2 s3 : relinked s1 s2 → relinked s2 s3 → relinked s1 s3.
Proof. intros [A1 A2 A3] [B1 B2 B3]. split; [by eapply same_but_links_trans|congruence..]. Qed.
Lemma relinked_with_next p lvl v s : relinked s (with_next p lvl v s).
Proof. split; [apply same_with_next|done..]. Qed.
Hint Resolve relinked_refl relinked_with_next : core.

Definition insert_at (E : Z → Z) (e tim : Z) (l : list Z) : list Z := upto E e l ++ tim :: beyond E e l.

Section insertion.
Context (E : Z → Z) (e tim : Z) (ls : nat → list Z) (n : nat).
Hypothesis Htim0 : tim ≠ 0.
Hypothesis Hnd : ∀ i, NoDup (HEAD :: ls i).
Hypothesis Hnew : ∀ i, tim ∉ HEAD :: ls i.
Hypothesis Hsplit : ∀ i, ls i = upto E e (ls i) ++ beyond E e (ls i).
Abbreviation P := (λ i : nat, last_or HEAD (upto E e (ls i))).

Lemma prev_is_elem i : P i ∈ HEAD :: ls i.
Proof.
  pose proof (last_or_elem HEAD (upto E e (ls i))) as Hx.
  apply elem_of_cons in Hx as [->|[_ Hx]%elem_upto]; [by left|by right].
Qed.

(** A timer that is neither inserted nor on the list. *)
Definition elsewhere (x : Z) : Prop := x ≠ tim ∧ ∀ j, x ∉ HEAD :: ls j.

Lemma wp_link_at lvl s :
  (lvl < n)%nat → linked (nxt s lvl) HEAD (ls lvl) → is_Some (nxt s lvl tim) →
  wp (link_at tim (P <$> seq 0 n) lvl) (λ _ s', relinked s s' ∧
    (∀ i x, i ≠ lvl → nxt s' i x = nxt s i x) ∧ linked (nxt s' lvl) HEAD (insert_at E e tim (ls lvl)) ∧
    (∀ i x, elsewhere x → nxt s' i x = nxt s i x)) s.
Proof.
  intros Hlvl Hl Ht. unfold link_at. rewrite wp_bind, lookup_prevs by done. cbn [of_option]. rewrite wp_ret, wp_bind.
  assert (nxt s lvl (P lvl) = Some (hd 0 (beyond E e (ls lvl)))) as Hp
    by (apply (linked_last _ HEAD); by rewrite <- Hsplit).
  apply (wp_get_next _ _ _ _ _ Hp). rewrite wp_bind. destruct Ht as [v0 Hv0].
  apply (wp_set_next _ _ v0); [done|]. set (s1 := with_next tim lvl _ s).
  assert (P lvl ≠ tim) as Hne by (intros Heq; apply (Hnew lvl); rewrite <- Heq; apply prev_is_elem).
  assert (nxt s1 lvl (P lvl) = Some (hd 0 (beyond E e (ls lvl)))) as Hp1.
  { unfold s1. rewrite nxt_with_next_ne; [done|by exists v0|by left]. }
  apply (wp_set_next _ _ _ _ _ _ Hp1). split; [|split; [|split]].
  - apply (relinked_trans s s1); apply relinked_with_next.
  - intros i x Hi. rewrite nxt_with_next_ne by (by eauto). unfold s1. by rewrite nxt_with_next_ne by (by eauto).
  - unfold insert_at. eapply linked_insert; [| |done|rewrite <- Hsplit; exact Hl|..].
    + rewrite <- Hsplit. apply Hnd.
    + rewrite <- Hsplit. apply Hnew.
    + rewrite nxt_with_next_ne by (eauto). unfold s1. apply nxt_with_next_eq. by exists v0.
    + apply nxt_with_next_eq. by eauto.
    + intros x Hx1 Hx2. rewrite nxt_with_next_ne by (eauto). unfold s1. rewrite nxt_with_next_ne by (eauto). done.
  - intros i x [Hx Hxl]. assert (x ≠ P lvl) by (intros ->; apply (Hxl lvl), prev_is_elem).
    rewrite nxt_with_next_ne by (eauto). unfold s1. rewrite nxt_with_next_ne by (eauto). done.
Qed.

Lemma wp_link_levels lvl : ∀ s,
  (lvl < n)%nat → (∀ i, (i ≤ lvl)%nat → linked (nxt s i) HEAD (ls i)) →
  (∀ i, (i ≤ lvl)%nat → is_Some (nxt s i tim)) →
  wp (link_levels tim (P <$> seq 0 n) lvl) (λ _ s', relinked s s' ∧
    (∀ i x, (lvl < i)%nat → nxt s' i x = nxt s i x) ∧
    (∀ i, (i ≤ lvl)%nat → linked (nxt s' i) HEAD (insert_at E e tim (ls i))) ∧
    (∀ i x, elsewhere x → nxt s' i x = nxt s i x)) s.
Proof.
  induction lvl as [|lvl IH]; intros s Hlvl Hl Ht; cbn [link_levels]; rewrite wp_bind.
  - eapply wp_mono; [apply (wp_link_at 0 s); [done|by apply Hl|by apply Ht]|].
    intros ? s1 (H1 & H2 & H3 & H4). rewrite wp_ret. split_and!; [done| | |done].
    + intros i x Hi. apply H2. lia.
    + intros i Hi. by replace i with 0%nat by lia.
  - eapply wp_mono; [apply (wp_link_at (Datatypes.S lvl) s); [done|by apply Hl|by apply Ht]|].
    intros ? s1 (H1 & H2 & H3 & H4). cbn beta.
    assert (∀ i x, (i ≤ lvl)%nat → nxt s1 i x = nxt s i x) as Hsame by (intros i x Hi; apply H2; lia).
    eapply wp_mono; [apply (IH s1); [lia| |]|].
    + intros i Hi. eapply linked_ext; [|apply Hl; lia]. intros x _. by apply Hsame.
    + intros i Hi. rewrite Hsame by done. apply Ht. lia.
    + intros ? s2 (G1 & G2 & G3 & G4). split_and!; [| | |intros i x Hx; by rewrite G4, H4].
      * by eapply relinked_trans.
      * intros i x Hi. rewrite G2 by lia. apply H2. lia.
      * intros i Hi. destruct (decide (i = Datatypes.S lvl)) as [->|]; [|apply G3; lia].
        eapply linked_ext; [|exact H3]. intros x _. apply G2. lia.
Qed.
End insertion.

Lemma skiplist_level_bounds random depth :
  (timer_get_skiplist_level random depth ≤ depth)%nat ∧
  (timer_get_skiplist_level random depth < MAX_SKIPLIST_DEPTH)%nat.
Proof.
  unfold timer_get_skiplist_level, MAX_SKIPLIST_DEPTH.
  set (l := if _ =? 0 then _ else _). clearbody l.
  destruct (Nat.ltb_spec depth l); [destruct (Nat.leb_spec 10 depth)|destruct (Nat.leb_spec 10 l)]; lia.
Qed.

Lemma sublist_filter_mono (Pr : Z → Prop) `{!∀ x, Decision (Pr x)} l k :
  l `sublist_of` k → filter Pr l `sublist_of` filter Pr k.
Proof.
  induction 1 as [|x l k Hs IH|x l k Hs IH]; [done| |].
  - destruct (decide (Pr x)); [rewrite !filter_cons_True by done; by constructor|by rewrite !filter_cons_False].
  - destruct (decide (Pr x)); [rewrite (filter_cons_True _ x k) by done; by constructor|by rewrite (filter_cons_False _ x k)].
Qed.

Lemma insert_at_perm E e tim l : l = upto E e l ++ beyond E e l → insert_at E e tim l ≡ₚ tim :: l.
Proof. intros Hl. unfold insert_at. rewrite Hl at 3. symmetry. apply Permutation_middle. Qed.

(** Everything but the list: its links, its depth and what its head keeps. *)
Record kept s s' : Prop := {
  kp_core p : p ≠ HEAD → core <$> pt_timers s' !! p = core <$> pt_timers s !! p;
  kp_updated : pt_updated s' = pt_updated s;
  kp_running : running_tim s' = running_tim s;
  kp_cycles : pt_cycles s' = pt_cycles s;
  kp_world : pt_world s' = pt_world s;
  kp_fired : pt_fired s' = pt_fired s;
}.
Lemma timers_kept_refl s : kept s s.
Proof. done. Qed.
Lemma timers_kept_trans s1 s2 s3 : kept s1 s2 → kept s2 s3 → kept s1 s3.
Proof. intros [A1 A2 A3 A4 A5 A6] [B1 B2 B3 B4 B5 B6]. split; try congruence. intros p Hp. by rewrite B1, A1. Qed.
Lemma kept_same s s' : same_but_links s s' → kept s s'.
Proof. intros [A1 A2 A3 A4 A5 A6 A7]. by split. Qed.
Lemma kept_expire s s' p : kept s s' → p ≠ HEAD → expire s' p = expire s p.
Proof.
  intros Hk Hp. pose proof (kp_core _ _ Hk p Hp) as Hc. unfold expire.
  destruct (pt_timers s' !! p) as [t'|], (pt_timers s !! p) as [t|]; try done. cbn in *. by injection Hc.
Qed.

Lemma ordered_ext E E' l : (∀ x, x ∈ l → E' x = E x) → ordered E l → ordered E' l.
Proof.
  intros HE. induction l as [|x l IH]; [done|]. intros [Hx Hl]. split.
  - apply Forall_forall. intros y Hy. rewrite !HE by (by left || by right).
    by apply (proj1 (Forall_forall _ _) Hx).
  - apply IH; [|done]. intros y Hy. apply HE. by right.
Qed.

(** The head's note of the first expiry. *)
Definition with_head_expire (e : Z) s : priv_timer W :=
  s <| pt_timers := alter (λ h, h <| tm_expire := e |>) HEAD (pt_timers s) |>.
Lemma kept_head_expire e s : kept s (with_head_expire e s).
Proof. split; try done. intros p Hp. unfold with_head_expire. cbn. by rewrite lookup_alter_ne. Qed.
Lemma nxt_head_expire e s i p : nxt (with_head_expire e s) i p = nxt s i p.
Proof.
  unfold nxt, with_head_expire. cbn. destruct (decide (p = HEAD)) as [->|Hne].
  - rewrite lookup_alter_eq. by destruct (pt_timers s !! HEAD).
  - by rewrite lookup_alter_ne.
Qed.
Lemma head_expire_head e s : is_Some (pt_timers s !! HEAD) → expire (with_head_expire e s) HEAD = e.
Proof. intros [h Hh]. unfold expire, with_head_expire. cbn. by rewrite lookup_alter_eq, Hh. Qed.
Lemma levels_head_expire e s ls : levels s ls → levels (with_head_expire e s) ls.
Proof.
  intros [L1 L2 L3 L4 L5 L6 L7].
  assert (∀ x, x ∈ ls 0%nat → expire (with_head_expire e s) x = expire s x) as HE.
  { intros x Hx. apply kept_expire; [apply kept_head_expire|]. intros ->. by apply NoDup_cons in L4 as [? _]. }
  split; try done.
  - intros i Hi. eapply linked_ext; [|by apply L1]. intros x _. apply nxt_head_expire.
  - by eapply ordered_ext.
  - apply Forall_forall. intros x Hx. rewrite HE by done. by apply (proj1 (Forall_forall _ _) L5).
  - intros p t. unfold with_head_expire. cbn. destruct (decide (p = HEAD)) as [->|Hne].
    + rewrite lookup_alter_eq. intros (h & Hh & ->)%fmap_Some. exact (L6 HEAD h Hh).
    + rewrite lookup_alter_ne by done. apply L6.
  - destruct L7 as [h Hh]. unfold with_head_expire. cbn. rewrite lookup_alter_eq, Hh. by eexists.
Qed.

Definition inserted (E : Z → Z) (e tim : Z) (lvl : nat) (ls : nat → list Z) (i : nat) : list Z :=
  if (i <=? lvl)%nat then insert_at E e tim (ls i) else ls i.

Lemma inserted_0 E e tim lvl ls : inserted E e tim lvl ls 0%nat = insert_at E e tim (ls 0%nat).
Proof. done. Qed.
Lemma inserted_le E e tim lvl ls i : (i ≤ lvl)%nat → inserted E e tim lvl ls i = insert_at E e tim (ls i).
Proof. intros Hi. unfold inserted. by rewrite (proj2 (Nat.leb_le _ _) Hi). Qed.
Lemma inserted_gt E e tim lvl ls i : (lvl < i)%nat → inserted E e tim lvl ls i = ls i.
Proof. intros Hi. unfold inserted. by rewrite (proj2 (Nat.leb_gt _ _) Hi). Qed.

Lemma levels_inserted s s' ls tim e lvl :
  levels s ls → same_but_links s s' → tim ∉ HEAD :: ls 0%nat → tim ≠ 0 → expire s tim = e → 0 < e < 2 ^ 64 →
  (∀ i x, (lvl < i)%nat → nxt s' i x = nxt s i x) →
  (∀ i, (i ≤ lvl)%nat → linked (nxt s' i) HEAD (insert_at (expire s) e tim (ls i))) →
  levels s' (inserted (expire s) e tim lvl ls).
Proof.
  intros Hl Hs Hnew Ht0 He Hr Hhi Hlo. pose proof Hl as [L1 L2 L3 L4 L5 L6 L7].
  assert (∀ x, expire s' x = expire s x) as HE by (intros x; by apply expire_same).
  pose proof (insert_at_perm (expire s) e tim (ls 0%nat) (ordered_split _ e _ L3)) as Hperm.
  split.
  - intros i Hi. destruct (decide (i ≤ lvl)%nat) as [Hle|Hgt].
    + rewrite inserted_le by done. by apply Hlo.
    + rewrite inserted_gt by lia. eapply linked_ext; [|by apply L1]. intros x _. apply Hhi. lia.
  - intros i. destruct (decide (Datatypes.S i ≤ lvl)%nat) as [Hle|Hgt].
    + rewrite !inserted_le by lia. unfold insert_at.
      apply sublist_app; [by apply sublist_filter_mono|]. constructor. by apply sublist_filter_mono.
    + rewrite (inserted_gt _ _ _ _ _ (Datatypes.S i)) by lia.
      destruct (decide (i ≤ lvl)%nat) as [Hi|Hi]; [rewrite inserted_le by done|by rewrite inserted_gt by lia].
      etransitivity; [apply L2|]. rewrite (ordered_split _ e _ (levels_order s ls i Hl)) at 1.
      unfold insert_at. apply sublist_app; [done|]. by constructor.
  - rewrite inserted_0. apply (ordered_ext (expire s)); [done|]. unfold insert_at.
    apply ordered_insert.
    + by rewrite <- (ordered_split _ e _ L3).
    + apply Forall_forall. intros x [Hx _]%elem_upto. lia.
    + apply Forall_forall. intros x Hx. unfold beyond in Hx. apply list_elem_of_filter in Hx as [Hx _]. lia.
  - rewrite inserted_0, Hperm. apply NoDup_cons in L4 as [Hh Hnd]. apply not_elem_of_cons in Hnew as [Hth Hnew].
    apply NoDup_cons. split; [|by constructor]. intros [Hx|Hx]%elem_of_cons; [by apply Hth|done].
  - rewrite inserted_0, Hperm. constructor; [by rewrite HE, He|].
    eapply Forall_impl; [exact L5|]. intros x. by rewrite HE.
  - intros p t Ht. destruct (sl_shape _ _ Hs p t Ht) as (t0 & Ht0' & ->). by apply (L6 p).
  - pose proof (sl_core _ _ Hs HEAD) as Hc. destruct L7 as [h Hh]. rewrite Hh in Hc.
    destruct (pt_timers s' !! HEAD) as [h'|]; [by eexists|done].
Qed.

(** The first of a non-empty list goes to the head's note. *)
Lemma wp_head_expire_set s ls x l (Q : unit → priv_timer W → Prop) :
  levels s ls → ls 0%nat = x :: l → Q tt (with_head_expire (expire s x) s) → wp head_expire_set Q s.
Proof.
  intros Hl Hx HQ. unfold head_expire_set.
  pose proof (lv_linked _ _ Hl 0%nat ltac:(unfold MAX_SKIPLIST_DEPTH; lia)) as Hlk. rewrite Hx in Hlk.
  destruct Hlk as (_ & Hn & _). rewrite wp_bind. apply (wp_get_next _ _ _ _ _ Hn).
  destruct (levels_live s ls 0%nat x Hl) as [t Ht]; [rewrite Hx; right; left|].
  rewrite wp_bind. apply (wp_timer_read x t); [done|]. destruct (lv_head _ _ Hl) as [h Hh].
  apply (wp_timer_write HEAD h); [done|]. unfold expire in HQ. by rewrite Ht in HQ.
Qed.

Lemma skiplist_insert_first E e tim l :
  ∃ x l', insert_at E e tim l = x :: l'.
Proof. unfold insert_at. destruct (upto E e l) as [|y u]; cbn; by eexists _, _. Qed.

Lemma wp_timer_add (rte_rand : Z → Z * Z) tim e ls s :
  skiplist s ls → tim ∉ HEAD :: ls 0%nat → tim ≠ 0 → is_Some (pt_timers s !! tim) → expire s tim = e → 0 < e < 2 ^ 64 →
  wp (timer_add rte_rand tim) (λ _ s', kept s s' ∧
    (∀ i x, x ≠ tim → x ∉ HEAD :: ls 0%nat → nxt s' i x = nxt s i x) ∧
    ∃ ls', skiplist s' ls' ∧ ls' 0%nat = insert_at (expire s) e tim (ls 0%nat)) s.
Proof.
  intros Hsk Hnew Ht0 [t Ht] He Hr. pose proof (sk_levels _ _ Hsk) as Hl.
  unfold timer_add. rewrite wp_bind. apply (wp_timer_read tim t); [done|].
  assert (tm_expire t = e) as -> by (unfold expire in He; by rewrite Ht in He).
  rewrite wp_bind. eapply wp_mono; [by apply (wp_prev_entries ls e s)|]. intros prev s0 [-> ->].
  rewrite wp_bind. unfold wp at 1. set (random := fst _). set (s1 := s <| pt_seed := _ |>).
  rewrite wp_bind, wp_gets. change (curr_skiplist_depth s1) with (curr_skiplist_depth s).
  cbv zeta. set (depth := curr_skiplist_depth s). set (lvl := timer_get_skiplist_level random depth).
  destruct (skiplist_level_bounds random depth) as [Hld Hlm]. fold lvl in Hld, Hlm.
  set (d' := if (lvl =? depth)%nat then Datatypes.S depth else depth).
  set (s2 := s1 <| curr_skiplist_depth := d' |>).
  assert (∀ Q : unit → priv_timer W → Prop, Q tt s2 → wp (when (lvl =? depth)%nat (set_depth (Datatypes.S depth))) Q s1) as Hwhen.
  { intros Q HQ. rewrite wp_when. unfold s2, d' in HQ. destruct (lvl =? depth)%nat; [exact HQ|]. by destruct s. }
  rewrite wp_bind. apply Hwhen. rewrite wp_bind.
  assert (∀ i, NoDup (HEAD :: ls i)) as Hnd by (intros i; by eapply levels_nodup).
  assert (∀ i, tim ∉ HEAD :: ls i) as Hnew'.
  { intros i. apply not_elem_of_cons in Hnew as [Hth Hn]. apply not_elem_of_cons. split; [done|].
    intros Hx. apply Hn. by eapply levels_elem. }
  eapply wp_mono; [apply (wp_link_levels (expire s) e tim ls (Datatypes.S depth) Ht0 Hnd Hnew' (λ i, ordered_split _ e _ (levels_order s ls i Hl)) lvl s2)|].
  - lia.
  - intros i Hi. apply (lv_linked _ _ Hl). lia.
  - intros i Hi. apply (levels_next s ls i tim Hl); [lia|by exists t].
  - intros ? s3 ([Hs3 Hd3 Hseed] & Hhi & Hlo & Hfr). cbn beta.
    assert (same_but_links s s3) as Hs.
    { eapply same_but_links_trans; [|exact Hs3]. unfold s2, s1. split; try done. intros p t0 Hp. by exists t0. }
    pose proof (levels_inserted s s3 ls tim e lvl Hl Hs Hnew Ht0 He Hr Hhi Hlo) as Hl3.
    set (ls' := inserted (expire s) e tim lvl ls) in *.
    destruct (skiplist_insert_first (expire s) e tim (ls 0%nat)) as (x & l & Hx).
    apply (wp_head_expire_set s3 ls' x l); [done|exact Hx|].
    pose proof (levels_head_expire (expire s3 x) _ _ Hl3) as Hl4.
    split; [eapply timers_kept_trans; [by apply kept_same|apply kept_head_expire]|].
    split. { intros i y Hyt Hyl. rewrite nxt_head_expire. apply Hfr. split; [done|]. intros j.
      rewrite not_elem_of_cons in *. split; [by apply Hyl|]. intros Hj. apply Hyl. by eapply levels_elem. }
    exists ls'. split; [|done].
    assert (curr_skiplist_depth (with_head_expire (expire s3 x) s3) = d') as Hd by done.
    pose proof (sk_depth _ _ Hsk) as Hdm. fold depth in Hdm.
    split; [done|..]; rewrite ?Hd; unfold d'.
    + destruct (Nat.eqb_spec lvl depth); lia.
    + intros i Hi. assert (lvl < i ∧ depth ≤ i)%nat as [Hli Hdi] by (destruct (Nat.eqb_spec lvl depth); lia).
      unfold ls'. rewrite inserted_gt by done. by apply (sk_empty _ _ Hsk).
    + intros i Hi. unfold ls'. destruct (decide (i ≤ lvl)%nat) as [Hle|Hgt].
      * rewrite inserted_le by done. destruct (skiplist_insert_first (expire s) e tim (ls i)) as (? & ? & ->). done.
      * rewrite inserted_gt by lia. apply (sk_full _ _ Hsk). fold depth. destruct (Nat.eqb_spec lvl depth); lia.
    + intros y l' Hy. change (ls' 0%nat) with (insert_at (expire s) e tim (ls 0%nat)) in Hy.
      rewrite Hx in Hy. injection Hy as <- <-. rewrite head_expire_head by apply Hl3.
      symmetry. apply kept_expire; [apply kept_head_expire|]. intros ->.
      pose proof (lv_nodup _ _ Hl3) as [Hh _]%NoDup_cons. apply Hh. unfold ls'. rewrite inserted_0, Hx. left.
Qed.

(** *** Removal *)

Section removal.
Context (E : Z → Z) (e tim : Z).
Hypothesis He : E tim = e.

(** What comes before [tim] where it would be looked for. *)
Fixpoint before (l : list Z) : list Z :=
  match l with
  | [] => []
  | x :: l => if x =? tim then [] else if E x <=? e then x :: before l else []
  end.

Lemma before_notin l : tim ∉ before l.
Proof.
  induction l as [|x l IH]; cbn; [by apply not_elem_of_nil|].
  destruct (Z.eqb_spec x tim); [by apply not_elem_of_nil|]. destruct (_ <=? _); [|by apply not_elem_of_nil].
  apply not_elem_of_cons. by split.
Qed.
Lemma before_le l : Forall (λ x, E x ≤ e) (before l).
Proof.
  induction l as [|x l IH]; cbn; [done|]. destruct (_ =? _); [done|].
  destruct (Z.leb_spec (E x) e); [by constructor|done].
Qed.
Lemma before_rest l : ∃ r, l = before l ++ r ∧ ∀ x r', r = x :: r' → x = tim ∨ e < E x.
Proof.
  induction l as [|x l (r & Hl & Hr)]; [by exists []|]. cbn. destruct (Z.eqb_spec x tim) as [->|Hne].
  - exists (tim :: l). split; [done|]. intros y r' [= <- _]. by left.
  - destruct (Z.leb_spec (E x) e) as [Hle|Hgt].
    + exists r. split; [cbn; by rewrite <- Hl|done].
    + exists (x :: l). split; [done|]. intros y r' [= <- _]. right. lia.
Qed.
Lemma before_split l : ordered E l → tim ∈ l → ∃ r, l = before l ++ tim :: r.
Proof.
  induction l as [|x l IH]; [by intros _ ?%not_elem_of_nil|]. intros [Hx Hl] Hin. cbn.
  destruct (Z.eqb_spec x tim) as [->|Hne]; [by exists l|].
  apply elem_of_cons in Hin as [?|Hin]; [by subst|].
  pose proof (proj1 (Forall_forall _ _) Hx tim Hin) as Hle. cbn beta in Hle. rewrite He in Hle.
  rewrite (proj2 (Z.leb_le _ _) Hle). destruct (IH Hl Hin) as [r Hr]. exists r. cbn. by rewrite <- Hr.
Qed.
Lemma before_upto l : ordered E l → ∃ m, before l = upto E (e - 1) l ++ m.
Proof.
  unfold upto. induction l as [|x l IH]; [by exists []|]. intros [Hx Hl].
  destruct (decide (E x ≤ e - 1)) as [Hle|Hgt].
  - rewrite filter_cons_True by done. cbn [before]. rewrite (proj2 (Z.eqb_neq x tim)) by (intros ->; lia).
    rewrite (proj2 (Z.leb_le (E x) e)) by lia. destruct (IH Hl) as [m Hm]. exists m. by rewrite Hm.
  - rewrite filter_cons_False by done. exists (before (x :: l)).
    assert (filter (λ y, E y ≤ e - 1) l = []) as ->; [|done].
    clear -Hx Hgt. induction l as [|y l IH]; [done|]. inversion Hx; subst.
    rewrite filter_cons_False by lia. by apply IH.
Qed.

Definition prev_node (ls : nat → list Z) (i : nat) : Z := last_or HEAD (before (ls i)).

Lemma prev_node_elem ls i : prev_node ls i ∈ HEAD :: ls i.
Proof.
  destruct (before_rest (ls i)) as (r & Hl & _). unfold prev_node.
  set (b := before (ls i)) in *. clearbody b. rewrite Hl.
  pose proof (last_or_elem HEAD b) as Hx. apply elem_of_cons in Hx as [->|Hx]; [by left|right].
  apply elem_of_app. by left.
Qed.
End removal.

Lemma wp_node_levels ls tim e s : levels s ls → expire s tim = e →
  ∀ lvl prev, (lvl ≤ MAX_SKIPLIST_DEPTH)%nat →
  (∀ i, (i < lvl)%nat → prev !! i = Some (prev_le s ls (e - 1) i)) →
  wp (node_levels lvl prev tim e) (λ l s', s' = s ∧
    (∀ i, (i < lvl)%nat → l !! i = Some (prev_node (expire s) e tim ls i)) ∧
    (∀ i, (lvl ≤ i)%nat → l !! i = prev !! i)) s.
Proof.
  intros Hl He. induction lvl as [|lvl IH]; intros prev Hlvl Hprev; cbn [node_levels].
  { rewrite wp_ret. split_and!; [done|lia|done]. }
  unfold timer_fuel. rewrite wp_bind, wp_gets, wp_bind, Hprev by lia. cbn [of_option]. rewrite wp_ret, wp_bind.
  destruct (before_upto (expire s) e tim He (ls lvl) (levels_order s ls lvl Hl)) as [m Hm].
  destruct (before_rest (expire s) e tim (ls lvl)) as (r & Hsplit & Hr).
  pose proof (before_le (expire s) e tim (ls lvl)) as Hle. pose proof (before_notin (expire s) e tim (ls lvl)) as Hnt.
  eapply wp_mono; [apply (wp_walk_node _ lvl tim e r (prev_le s ls (e - 1) lvl) m)|].
  - unfold prev_le. apply (linked_app _ HEAD). rewrite app_assoc, <- Hm, <- Hsplit. apply Hl. lia.
  - rewrite Hm in Hle. by apply Forall_app in Hle as [_ ?].
  - intros Hin. apply Hnt. rewrite Hm. apply elem_of_app. by right.
  - exact Hr.
  - pose proof (levels_fuel s ls lvl Hl) as Hf. rewrite Hsplit, Hm, !length_app in Hf. lia.
  - intros q s' [-> ->]. cbn beta.
    assert (last_or (prev_le s ls (e - 1) lvl) m = prev_node (expire s) e tim ls lvl) as ->.
    { unfold prev_le, prev_node. rewrite Hm. destruct m as [|y m]; [by rewrite app_nil_r|].
      by rewrite last_or_app, last_or_cons. }
    assert (lvl < length prev)%nat as Hlen by (eapply lookup_lt_Some, Hprev; lia).
    eapply wp_mono; [apply IH; [lia|]|].
    + intros i Hi. rewrite list_lookup_insert_ne by lia. apply Hprev. lia.
    + intros l s' (-> & H1 & H2). split_and!; [done| |].
      * intros i Hi. destruct (decide (i = lvl)) as [->|]; [|apply H1; lia].
        rewrite H2 by lia. by apply list_lookup_insert_eq.
      * intros i Hi. rewrite H2 by lia. apply list_lookup_insert_ne. lia.
Qed.

Lemma filter_ne_split (b r : list Z) tim : NoDup (b ++ tim :: r) → filter (.≠ tim) (b ++ tim :: r) = b ++ r.
Proof.
  intros (Hb & Hd & [Hr Hnd]%NoDup_cons)%NoDup_app. rewrite filter_app, filter_cons_False by naive_solver.
  rewrite !filter_ne_notin; [done|done|]. intros Hin. apply (Hd tim Hin). left.
Qed.

Lemma wp_unlink_levels ls (E : Z → Z) tim e prev : tim ≠ 0 → tim ≠ HEAD → E tim = e →
  (∀ i, NoDup (HEAD :: ls i)) → (∀ i, ordered E (ls i)) →
  ∀ lvl s, (∀ i, (i < lvl)%nat → prev !! i = Some (prev_node E e tim ls i)) →
  (∀ i, (i < lvl)%nat → linked (nxt s i) HEAD (ls i)) →
  wp (unlink_levels tim prev lvl) (λ _ s', relinked s s' ∧
    (∀ i x, (lvl ≤ i)%nat → nxt s' i x = nxt s i x) ∧
    (∀ i, (i < lvl)%nat → linked (nxt s' i) HEAD (filter (.≠ tim) (ls i))) ∧
    (∀ i x, (∀ j, x ∉ HEAD :: ls j) → nxt s' i x = nxt s i x)) s.
Proof.
  intros Ht0 Hth He Hnd Hord. induction lvl as [|lvl IH]; intros s Hprev Hl; cbn [unlink_levels].
  { rewrite wp_ret. split_and!; [apply relinked_refl|done|lia|done]. }
  rewrite wp_bind, Hprev by lia. cbn [of_option]. rewrite wp_ret, wp_bind.
  destruct (before_rest E e tim (ls lvl)) as (r & Hsplit & Hr). set (b := before E e tim (ls lvl)) in *.
  pose proof (Hl lvl ltac:(lia)) as Hlk. pose proof (Hnd lvl) as Hndl.
  assert (nxt s lvl (prev_node E e tim ls lvl) = Some (hd 0 r)) as Hn
    by (apply (linked_last _ HEAD); fold b; by rewrite <- Hsplit).
  apply (wp_get_next _ _ _ _ _ Hn). rewrite wp_bind.
  assert (∀ s1, relinked s s1 → (∀ i x, i ≠ lvl → nxt s1 i x = nxt s i x) →
    (∀ i x, (∀ j, x ∉ HEAD :: ls j) → nxt s1 i x = nxt s i x) → linked (nxt s1 lvl) HEAD (filter (.≠ tim) (ls lvl)) →
    wp (unlink_levels tim prev lvl) (λ _ s', relinked s s' ∧
      (∀ i x, (Datatypes.S lvl ≤ i)%nat → nxt s' i x = nxt s i x) ∧
      (∀ i, (i < Datatypes.S lvl)%nat → linked (nxt s' i) HEAD (filter (.≠ tim) (ls i))) ∧
      (∀ i x, (∀ j, x ∉ HEAD :: ls j) → nxt s' i x = nxt s i x)) s1) as Hgo.
  { intros s1 H1 H2 H4 H3. eapply wp_mono; [apply (IH s1)|].
    - intros i Hi. apply Hprev. lia.
    - intros i Hi. eapply linked_ext; [|apply Hl; lia]. intros x _. apply H2. lia.
    - intros ? s2 (G1 & G2 & G3 & G4). split_and!; [| | |intros i x Hx; by rewrite G4, H4].
      + by eapply relinked_trans.
      + intros i x Hi. rewrite G2 by lia. apply H2. lia.
      + intros i Hi. destruct (decide (i = lvl)) as [->|]; [|apply G3; lia].
        eapply linked_ext; [|exact H3]. intros x _. by apply G2. }
  destruct (decide (tim ∈ ls lvl)) as [Hin|Hnin].
  - destruct (before_split E e tim He _ (Hord lvl) Hin) as [r' Hr']. fold b in Hr'.
    assert (r = tim :: r') as -> by (rewrite Hsplit in Hr' at 1; by apply app_inv_head in Hr').
    cbn [hd]. rewrite Z.eqb_refl, wp_bind. rewrite Hsplit in Hlk, Hndl.
    pose proof (linked_app _ _ _ _ Hlk) as (_ & _ & Hlk2). apply linked_head in Hlk2.
    apply (wp_get_next _ _ _ _ _ Hlk2), (wp_set_next _ _ _ _ _ _ Hn).
    apply Hgo; [apply relinked_with_next| | |].
    + intros i x Hi. apply nxt_with_next_ne; [by eauto|by right].
    + intros i x Hx. apply nxt_with_next_ne; [by eauto|]. left. intros ->. apply (Hx lvl), prev_node_elem.
    + rewrite Hsplit at 1. rewrite filter_ne_split by by apply NoDup_cons in Hndl as [_ ?].
      eapply linked_remove; [exact Hndl|exact Hlk|apply nxt_with_next_eq; by eauto|].
      intros x _ Hx. apply nxt_with_next_ne; [by eauto|by left].
  - rewrite (proj2 (Z.eqb_neq (hd 0 r) tim)).
    + rewrite wp_ret. apply Hgo; [apply relinked_refl|done|done|]. by rewrite filter_ne_notin.
    + intros Heq. apply Hnin. rewrite Hsplit. apply elem_of_app. right.
      destruct r as [|y r]; [by cbn in Heq|]. cbn in Heq. subst. left.
Qed.

Lemma wp_lower_depth ls : ∀ lvl s,
  levels s ls → curr_skiplist_depth s = lvl → (lvl ≤ MAX_SKIPLIST_DEPTH)%nat → (∀ i, (lvl ≤ i)%nat → ls i = []) →
  wp (lower_depth lvl) (λ _ s', ∃ d, s' = s <| curr_skiplist_depth := d |> ∧ (d ≤ lvl)%nat ∧
    (∀ i, (d ≤ i)%nat → ls i = []) ∧ (∀ i, (i < d)%nat → ls i ≠ [])) s.
Proof.
  induction lvl as [|lvl IH]; intros s Hl Hd Hm Hnil; cbn [lower_depth].
  { rewrite wp_ret. exists 0%nat. split_and!; [rewrite <- Hd; by destruct s|lia|done|lia]. }
  pose proof (lv_linked _ _ Hl lvl ltac:(lia)) as Hlk.
  rewrite wp_bind. apply (wp_get_next _ _ _ _ _ (linked_head _ _ _ Hlk)).
  destruct (ls lvl) as [|x l] eqn:Hx.
  - cbn [hd Z.eqb]. rewrite wp_bind, wp_gets, wp_bind. unfold set_depth. rewrite wp_modify, Hd.
    replace (Datatypes.S lvl - 1)%nat with lvl by lia.
    eapply wp_mono; [apply (IH (s <| curr_skiplist_depth := lvl |>))|].
    + by destruct Hl.
    + done.
    + lia.
    + intros i Hi. destruct (decide (i = lvl)) as [->|]; [done|]. apply Hnil. lia.
    + intros ? s' (d & -> & H1 & H2 & H3). exists d. split_and!; [done|lia|done|done].
  - cbn [hd]. destruct Hlk as (Hx0 & _). rewrite (proj2 (Z.eqb_neq _ _) Hx0), wp_ret.
    exists (Datatypes.S lvl). split_and!; [rewrite <- Hd; by destruct s|lia|done|].
    intros i Hi Heq. assert (ls lvl `sublist_of` ls i) as Hs.
    { assert (i ≤ lvl)%nat as Hle by lia. clear -Hl Hle. induction Hle; [done|].
      etransitivity; [apply (lv_sub _ _ Hl)|done]. }
    rewrite Heq, Hx in Hs. by apply sublist_nil_r in Hs.
Qed.

Lemma levels_removed s s' ls tim :
  levels s ls → same_but_links s s' →
  (∀ i, (i < MAX_SKIPLIST_DEPTH)%nat → linked (nxt s' i) HEAD (filter (.≠ tim) (ls i))) →
  levels s' (λ i, filter (.≠ tim) (ls i)).
Proof.
  intros [L1 L2 L3 L4 L5 L6 L7] Hs Hlk.
  assert (∀ x, expire s' x = expire s x) as HE by (intros x; by apply expire_same).
  split; try done.
  - intros i. by apply sublist_filter_mono.
  - apply (ordered_ext (expire s)); [done|]. eapply ordered_sublist; [apply sublist_filter|done].
  - apply NoDup_cons in L4 as [Hh Hnd]. apply NoDup_cons. split; [|by apply NoDup_filter].
    intros Hin. apply list_elem_of_filter in Hin as [_ Hin]. done.
  - apply Forall_forall. intros x Hx. apply list_elem_of_filter in Hx as [_ Hx]. rewrite HE.
    by apply (proj1 (Forall_forall _ _) L5).
  - intros p t Ht. destruct (sl_shape _ _ Hs p t Ht) as (t0 & Ht0 & ->). by apply (L6 p).
  - pose proof (sl_core _ _ Hs HEAD) as Hc. destruct L7 as [h Hh]. rewrite Hh in Hc.
    destruct (pt_timers s' !! HEAD) as [h'|]; [by eexists|done].
Qed.

(** The head's note before a removal. *)
Definition del_note (ls : nat → list Z) (tim : Z) s : priv_timer W :=
  match ls 0%nat with
  | x :: l => if tim =? x then with_head_expire (match l with y :: _ => expire s y | [] => 0 end) s else s
  | [] => s
  end.

Lemma wp_del_note ls tim (Q : unit → priv_timer W → Prop) s :
  levels s ls → tim ≠ 0 → Q tt (del_note ls tim s) →
  wp (first ← get_next HEAD 0;
      when (tim =? first)
        (nx ← get_next tim 0;
         e ← (if nx =? 0 then mret 0 else t ← timer_read nx; mret (tm_expire t));
         timer_write HEAD (λ h, h <| tm_expire := e |>))) Q s.
Proof.
  intros Hl Ht0 HQ. pose proof (lv_linked _ _ Hl 0%nat ltac:(unfold MAX_SKIPLIST_DEPTH; lia)) as Hlk.
  rewrite wp_bind. apply (wp_get_next _ _ _ _ _ (linked_head _ _ _ Hlk)). rewrite wp_when. unfold del_note in HQ.
  destruct (ls 0%nat) as [|x l] eqn:Hx; cbn [hd].
  - by rewrite (proj2 (Z.eqb_neq _ _) Ht0).
  - destruct (Z.eqb_spec tim x) as [->|Hne]; [|done]. destruct Hlk as (_ & _ & Hlk).
    rewrite wp_bind. apply (wp_get_next _ _ _ _ _ (linked_head _ _ _ Hlk)). rewrite wp_bind.
    destruct (lv_head _ _ Hl) as [h Hh]. destruct l as [|y l]; cbn [hd].
    + cbn [Z.eqb]. rewrite wp_ret. by apply (wp_timer_write HEAD h).
    + destruct Hlk as (Hy & _ & Hlk). rewrite (proj2 (Z.eqb_neq _ _) Hy), wp_bind.
      destruct (linked_live _ _ _ _ y Hlk) as [t Ht]; [left|]. apply (wp_timer_read y t); [done|].
      rewrite wp_ret. apply (wp_timer_write HEAD h); [done|]. unfold expire in HQ. by rewrite Ht in HQ.
Qed.

Lemma del_note_kept ls tim s : kept s (del_note ls tim s).
Proof. unfold del_note. destruct (ls 0%nat) as [|x l]; [done|]. destruct (tim =? x); [apply kept_head_expire|done]. Qed.
Lemma del_note_levels ls tim s : levels s ls → levels (del_note ls tim s) ls.
Proof. intros Hl. unfold del_note. destruct (ls 0%nat); [done|]. destruct (tim =? _); [by apply levels_head_expire|done]. Qed.
Lemma del_note_depth ls tim s : curr_skiplist_depth (del_note ls tim s) = curr_skiplist_depth s.
Proof. unfold del_note. destruct (ls 0%nat); [done|]. by destruct (tim =? _). Qed.

Lemma del_note_nxt ls tim s i x : nxt (del_note ls tim s) i x = nxt s i x.
Proof. unfold del_note. destruct (ls 0%nat); [done|]. destruct (tim =? _); [apply nxt_head_expire|done]. Qed.

(** The note is right for the list without the timer. *)
Lemma del_note_first ls tim s x l :
  skiplist s ls → filter (.≠ tim) (ls 0%nat) = x :: l → expire (del_note ls tim s) HEAD = expire s x.
Proof.
  intros Hsk Hf. pose proof (sk_first _ _ Hsk) as Hfirst. pose proof (lv_nodup _ _ (sk_levels _ _ Hsk)) as Hnd.
  unfold del_note. destruct (ls 0%nat) as [|y k]; [done|].
  apply NoDup_cons in Hnd as [_ [Hy Hnd]%NoDup_cons]. destruct (Z.eqb_spec tim y) as [->|Hne].
  - rewrite filter_cons_False in Hf by naive_solver. rewrite filter_ne_notin in Hf by done. subst k.
    apply head_expire_head, Hsk.
  - rewrite filter_cons_True in Hf by done. injection Hf as -> _. by eapply Hfirst.
Qed.

Lemma wp_timer_del tim ls s :
  skiplist s ls → tim ≠ 0 → tim ≠ HEAD → is_Some (pt_timers s !! tim) → 0 < expire s tim < 2 ^ 64 →
  wp (timer_del tim) (λ _ s', kept s s' ∧ (∀ i x, x ∉ HEAD :: ls 0%nat → nxt s' i x = nxt s i x) ∧
    ∃ ls', skiplist s' ls' ∧ ls' 0%nat = filter (.≠ tim) (ls 0%nat)) s.
Proof.
  intros Hsk Ht0 Hth [t Ht] Hr. pose proof (sk_levels _ _ Hsk) as Hl. set (e := expire s tim) in *.
  assert (∀ (m : M (priv_timer W) unit) Q, wp (_ ← (first ← get_next HEAD 0;
      when (tim =? first)
        (nx ← get_next tim 0;
         e ← (if nx =? 0 then mret 0 else t ← timer_read nx; mret (tm_expire t));
         timer_write HEAD (λ h, h <| tm_expire := e |>))); m) Q s → wp (first ← get_next HEAD 0;
      _ ← when (tim =? first)
        (nx ← get_next tim 0;
         e ← (if nx =? 0 then mret 0 else t ← timer_read nx; mret (tm_expire t));
         timer_write HEAD (λ h, h <| tm_expire := e |>)); m) Q s) as Hassoc.
  { intros m Q. rewrite !wp_bind. intros Hw. eapply wp_mono; [exact Hw|]. intros a s'. by rewrite wp_bind. }
  unfold timer_del. apply Hassoc. rewrite wp_bind. apply (wp_del_note ls); [done|done|]. clear Hassoc.
  set (s1 := del_note ls tim s). pose proof (del_note_levels ls tim s Hl) as Hl1. fold s1 in Hl1.
  pose proof (del_note_kept ls tim s) as Hk1. fold s1 in Hk1.
  pose proof (kept_expire _ _ tim Hk1 Hth) as He1. fold e in He1.
  pose proof (del_note_depth ls tim s) as Hd1. fold s1 in Hd1. pose proof (sk_depth _ _ Hsk) as Hdm.
  rewrite wp_bind. unfold timer_get_prev_entries_for_node. rewrite wp_bind.
  assert (∃ t1, pt_timers s1 !! tim = Some t1 ∧ tm_expire t1 = e) as (t1 & Ht1 & Et1).
  { pose proof (kp_core _ _ Hk1 tim Hth) as Hc. rewrite Ht in Hc. unfold expire in He1.
    destruct (pt_timers s1 !! tim) as [t1|]; [by exists t1|done]. }
  apply (wp_timer_read tim t1); [done|]. rewrite Et1, wrap64_small by lia. rewrite wp_bind.
  eapply wp_mono; [apply (wp_prev_entries_levels ls (e - 1) s1 Hl1); rewrite Hd1; [done|by apply (sk_empty _ _ Hsk)]|].
  intros prev s' [-> ->]. rewrite wp_bind, wp_gets, Hd1.
  eapply wp_mono; [apply (wp_node_levels ls tim e s1 Hl1 He1 (curr_skiplist_depth s)); [done|]|].
  { intros i Hi. apply lookup_prevs. lia. }
  intros prev s' (-> & Hprev & _). rewrite wp_bind, wp_gets, Hd1, wp_bind.
  eapply wp_mono; [apply (wp_unlink_levels ls (expire s1) tim e prev Ht0 Hth He1)|].
  - intros i. by eapply levels_nodup.
  - intros i. by eapply levels_order.
  - exact Hprev.
  - intros i Hi. apply (lv_linked _ _ Hl1). lia.
  - intros ? s2 ([Hs2 Hd2 Hseed] & Hhi & Hlo & Hfr). cbn beta. set (ls' := λ i, filter (.≠ tim) (ls i)) in *.
    assert (levels s2 ls') as Hl2.
    { apply (levels_removed s1); [done|done|]. intros i Hi.
      destruct (decide (i < curr_skiplist_depth s)%nat) as [|Hge]; [by apply Hlo|].
      rewrite (sk_empty _ _ Hsk) by lia. pose proof (lv_linked _ _ Hl1 i Hi) as Hlk.
      rewrite (sk_empty _ _ Hsk) in Hlk by lia. eapply linked_ext; [|exact Hlk]. intros x _. apply Hhi. lia. }
    eapply wp_mono; [apply (wp_lower_depth ls' (curr_skiplist_depth s) s2 Hl2); [congruence|done|]|].
    { intros i Hi. unfold ls'. by rewrite (sk_empty _ _ Hsk). }
    intros ? s3 (d & -> & Hd & Hnil & Hne).
    split; [eapply timers_kept_trans; [exact Hk1|]; eapply timers_kept_trans; [by apply kept_same|]; by apply kept_same, same_set_depth|].
    split. { intros i y Hyl. transitivity (nxt s2 i y); [done|]. rewrite Hfr; [apply del_note_nxt|]. intros j.
      rewrite not_elem_of_cons in *. split; [by apply Hyl|]. intros Hj. apply Hyl. by eapply levels_elem. }
    exists ls'. split; [|done]. split; [by destruct Hl2|cbn; lia|exact Hnil|exact Hne|].
    intros x l Hx. change (expire s2 HEAD = expire s2 x). rewrite !(expire_same s1 s2) by done.
    unfold s1 at 1. rewrite (del_note_first ls tim s x l Hsk Hx). symmetry. apply kept_expire; [done|].
    intros ->. pose proof (lv_nodup _ _ Hl2) as [Hh _]%NoDup_cons. apply Hh. rewrite Hx. left.
Qed.
End list.

(** Removal of an element. *)
Lemma elem_filter_ne (l : list Z) tim x : x ≠ tim → x ∈ filter (.≠ tim) l ↔ x ∈ l.
Proof. intros Hne. rewrite list_elem_of_filter. naive_solver. Qed.
Lemma notin_filter_ne (l : list Z) tim : tim ∉ filter (.≠ tim) l.
Proof. intros Hin. by apply list_elem_of_filter in Hin as [? _]. Qed.

(** ** States of timers *)

Section states.
Context {W : Type}.
Context (lcore : Z) (rte_rand : Z → Z * Z).
Implicit Types (s : priv_timer W).

(** [q] are the pending timers in the order of their expiry, [run] those that are to
    run, or are running, in the present pass. *)
Record timers_ok s (q run : list Z) : Prop := {
  ti_list : ∃ ls, skiplist s ls ∧ ls 0%nat = q;
  ti_pending p t : p ≠ HEAD → pt_timers s !! p = Some t → tm_state t = RTE_TIMER_PENDING ↔ p ∈ q;
  ti_running p t : p ≠ HEAD → pt_timers s !! p = Some t → tm_state t = RTE_TIMER_RUNNING ↔ p ∈ run;
  ti_owner p t : p ≠ HEAD → pt_timers s !! p = Some t → tm_state t = RTE_TIMER_RUNNING → tm_owner t = lcore;
  ti_config p t : p ≠ HEAD → pt_timers s !! p = Some t → tm_state t ≠ RTE_TIMER_CONFIG;
  ti_null : pt_timers s !! 0 = None;
  ti_single p t : p ≠ HEAD → pt_timers s !! p = Some t → tm_state t ≠ RTE_TIMER_STOP → tm_period t = 0;
  ti_nodup : NoDup run;
  ti_live x : x ∈ run → x ≠ HEAD ∧ is_Some (pt_timers s !! x);
}.

(** A timer another function of this pass is waiting to be called for: it can be
    neither set nor stopped. *)
Definition busy s (run : list Z) (tim : Z) : Prop := tim ∈ run ∧ tim ≠ running_tim s.

(** Everything but timer [tim] and the list. *)
Record rest_kept (tim : Z) (upd : bool) s s' : Prop := {
  rk_core p : p ≠ HEAD → p ≠ tim → core <$> pt_timers s' !! p = core <$> pt_timers s !! p;
  rk_updated : pt_updated s' = upd || pt_updated s;
  rk_running : running_tim s' = running_tim s;
  rk_cycles : pt_cycles s' = pt_cycles s;
  rk_world : pt_world s' = pt_world s;
  rk_fired : pt_fired s' = pt_fired s;
}.

Lemma rest_kept_trans tim u1 u2 s1 s2 s3 :
  rest_kept tim u1 s1 s2 → rest_kept tim u2 s2 s3 → rest_kept tim (u2 || u1) s1 s3.
Proof.
  intros [A1 A2 A3 A4 A5 A6] [B1 B2 B3 B4 B5 B6]. split; try congruence.
  - intros p H1 H2. by rewrite B1, A1.
  - by rewrite B2, A2, orb_assoc.
Qed.
Lemma kept_rest tim s s' : kept s s' → rest_kept tim false s s'.
Proof. intros [A1 A2 A3 A4 A5 A6]. split; try done. intros p Hp _. by apply A1. Qed.

Definition altered (tim : Z) (f : rte_timer → rte_timer) s : priv_timer W :=
  s <| pt_timers := alter f tim (pt_timers s) |>.

Lemma rest_altered tim f s : rest_kept tim false s (altered tim f s).
Proof. split; try done. intros p _ Hp. unfold altered. cbn. by rewrite lookup_alter_ne. Qed.

(** The list does not depend on a timer's other fields, nor on its expiry while it
    is not on it. *)
Lemma skiplist_altered tim f ls s :
  tim ≠ HEAD → (∀ t, tm_sl_next (f t) = tm_sl_next t) →
  (tim ∈ ls 0%nat → ∀ t, tm_expire (f t) = tm_expire t) → skiplist s ls → skiplist (altered tim f s) ls.
Proof.
  intros Hth Hf He [[L1 L2 L3 L4 L5 L6 L7] S2 S3 S4 S5].
  assert (∀ i x, nxt (altered tim f s) i x = nxt s i x) as HN.
  { intros i x. unfold nxt, altered. cbn. destruct (decide (tim = x)) as [->|Hne].
    - rewrite lookup_alter_eq. destruct (pt_timers s !! x) as [t|]; [|done]. cbn. by rewrite Hf.
    - by rewrite lookup_alter_ne. }
  assert (∀ x, x ∈ HEAD :: ls 0%nat → expire (altered tim f s) x = expire s x) as HE.
  { intros x Hx. unfold expire, altered. cbn. destruct (decide (tim = x)) as [<-|Hne].
    - rewrite lookup_alter_eq. destruct (pt_timers s !! tim) as [t|]; [|done]. cbn. apply He.
      by apply elem_of_cons in Hx as [|].
    - by rewrite lookup_alter_ne. }
  split; [split|..]; try done.
  - intros i Hi. eapply linked_ext; [|by apply L1]. intros x _. apply HN.
  - eapply ordered_ext; [|exact L3]. intros x Hx. apply HE. by right.
  - apply Forall_forall. intros x Hx. rewrite HE by by right. by apply (proj1 (Forall_forall _ _) L5).
  - intros p t. unfold altered. cbn. destruct (decide (tim = p)) as [<-|Hne].
    + rewrite lookup_alter_eq. intros (t0 & Ht0 & ->)%fmap_Some. rewrite Hf. by apply (L6 tim).
    + rewrite lookup_alter_ne by done. apply L6.
  - unfold altered. cbn. by rewrite lookup_alter_ne.
  - intros x l Hx. rewrite !HE; [by apply (S5 x l)|rewrite Hx; right; left|left].
Qed.

(** The links of timers that are not on the list. *)
Definition frame (tim : Z) (q : list Z) s s' : Prop :=
  ∀ i x, x ≠ HEAD → x ≠ tim → x ∉ q → nxt s' i x = nxt s i x.
Lemma nxt_altered tim f s i x : x ≠ tim → nxt (altered tim f s) i x = nxt s i x.
Proof. intros Hne. unfold nxt, altered. cbn. by rewrite lookup_alter_ne. Qed.

(** [tim] taken off the list, in the state of a timer being configured. *)
Record detached (tim : Z) (t : rte_timer) (q : list Z) s s' : Prop := {
  dt_list : ∃ ls, skiplist s' ls ∧ ls 0%nat = filter (.≠ tim) q;
  dt_tim : core <$> pt_timers s' !! tim =
    Some (core (t <| tm_state := RTE_TIMER_CONFIG |> <| tm_owner := lcore |>));
  dt_rest : rest_kept tim (bool_decide (tm_state t = RTE_TIMER_RUNNING)) s s';
  dt_frame : frame tim q s s';
}.

Lemma wp_config_state tim t q run s :
  timers_ok s q run → tim ≠ HEAD → pt_timers s !! tim = Some t → ¬ busy s run tim →
  wp (timer_set_config_state lcore tim) (λ r s', r = Some (tm_state t) ∧
    s' = altered tim (λ t, t <| tm_state := RTE_TIMER_CONFIG |> <| tm_owner := lcore |>) s) s.
Proof.
  intros Hok Hth Ht Hb. unfold timer_set_config_state. rewrite wp_bind. apply (wp_timer_read tim t); [done|].
  rewrite wp_bind, wp_gets. unfold set_status.
  destruct (decide (tm_state t = RTE_TIMER_RUNNING)) as [Hrun|Hrun].
  - pose proof (proj1 (ti_running _ _ _ Hok tim t Hth Ht) Hrun) as Hin.
    rewrite (ti_owner _ _ _ Hok tim t Hth Ht Hrun), Z.eqb_refl.
    assert (tim = running_tim s) as <- by (destruct (decide (tim = running_tim s)); [done|by destruct Hb]).
    rewrite Z.eqb_refl. cbn [negb orb]. rewrite wp_bind. by apply (wp_timer_write tim t).
  - rewrite decide_False by by apply (ti_config _ _ _ Hok tim t).
    rewrite wp_bind. by apply (wp_timer_write tim t).
Qed.

Lemma wp_config_busy tim q run s :
  timers_ok s q run → busy s run tim → wp (timer_set_config_state lcore tim) (λ r s', r = None ∧ s' = s) s.
Proof.
  intros Hok [Hin Hne]. destruct (ti_live _ _ _ Hok tim Hin) as [Hth [t Ht]].
  unfold timer_set_config_state. rewrite wp_bind. apply (wp_timer_read tim t); [done|].
  rewrite wp_bind, wp_gets. rewrite decide_True by by apply (ti_running _ _ _ Hok tim t).
  rewrite (proj2 (Z.eqb_neq _ _) Hne). cbn [negb]. by rewrite orb_true_r.
Qed.

Lemma wp_detach {A} tim t q run s (m : M (priv_timer W) A) Q :
  timers_ok s q run → tim ≠ HEAD → pt_timers s !! tim = Some t →
  (∀ s', detached tim t q s s' → wp m Q s') →
  wp (_ ← when (bool_decide (tm_state t = RTE_TIMER_RUNNING)) (modify (λ s, s <| pt_updated := true |>));
      _ ← when (bool_decide (tm_state t = RTE_TIMER_PENDING)) (timer_del tim);
      m) Q (altered tim (λ t, t <| tm_state := RTE_TIMER_CONFIG |> <| tm_owner := lcore |>) s).
Proof.
  intros Hok Hth Ht HQ. destruct (ti_list _ _ _ Hok) as (ls & Hsk & Hq).
  assert (tim ≠ 0) as Ht0 by (intros ->; by rewrite (ti_null _ _ _ Hok) in Ht).
  set (f := λ t : rte_timer, t <| tm_state := RTE_TIMER_CONFIG |> <| tm_owner := lcore |>).
  pose proof (skiplist_altered tim f ls s Hth ltac:(done) ltac:(done) Hsk) as Hsk1.
  set (s1 := altered tim f s) in *. set (u := bool_decide (tm_state t = RTE_TIMER_RUNNING)).
  set (s2 := s1 <| pt_updated := u || pt_updated s1 |>).
  assert (∀ Q' : unit → priv_timer W → Prop, Q' tt s2 → wp (when u (modify (λ s, s <| pt_updated := true |>))) Q' s1) as Hupd.
  { intros Q' HQ'. rewrite wp_when. assert (∀ s0 : priv_timer W, s0 <| pt_updated := pt_updated s0 |> = s0) as Heta by by intros [].
    unfold s2 in HQ'. destruct u; [exact HQ'|]. cbn [orb] in HQ'. by rewrite Heta in HQ'. }
  rewrite wp_bind. apply Hupd. clear Hupd.
  assert (skiplist s2 ls) as Hsk2 by (destruct Hsk1 as [[] ? ? ? ?]; by split; [split|..]).
  assert (rest_kept tim u s s2) as Hr2.
  { split; try done. intros p _ Hp. unfold s2, s1, altered. cbn. by rewrite lookup_alter_ne. }
  assert (pt_timers s2 !! tim = Some (f t)) as Ht2 by (unfold s2, s1, altered; cbn; by rewrite lookup_alter_eq, Ht).
  rewrite wp_bind, wp_when. destruct (bool_decide_reflect (tm_state t = RTE_TIMER_PENDING)) as [Hp|Hp].
  - eapply wp_mono; [apply (wp_timer_del tim ls s2 Hsk2 Ht0 Hth); [by eexists|]|].
    + pose proof (proj1 (ti_pending _ _ _ Hok tim t Hth Ht) Hp) as Hin. rewrite <- Hq in Hin.
      by apply (proj1 (Forall_forall _ _) (lv_range _ _ (sk_levels _ _ Hsk2))).
    + intros ? s3 (Hk & Hfr & ls' & Hsk3 & Hls'). apply HQ. split.
      * exists ls'. split; [done|]. by rewrite Hls', Hq.
      * rewrite (kp_core _ _ Hk tim Hth), Ht2. done.
      * pose proof (rest_kept_trans tim u false s s2 s3 Hr2 (kept_rest tim _ _ Hk)) as Hr3. exact Hr3.
      * intros i x Hx1 Hx2 Hx3. rewrite Hfr; [by apply nxt_altered|]. rewrite Hq. by intros [|]%elem_of_cons.
  - apply HQ. split; [|by rewrite Ht2|done|intros i x Hx1 Hx2 Hx3; by apply nxt_altered]. exists ls. split; [done|]. rewrite Hq.
    symmetry. apply filter_ne_notin. intros Hin. by apply Hp, (ti_pending _ _ _ Hok tim t).
Qed.

Lemma insert_at_ext E E' e tim l :
  (∀ x, x ∈ l → E' x = E x) → insert_at E' e tim l = insert_at E e tim l.
Proof.
  intros HE. unfold insert_at, upto, beyond. f_equal; [|f_equal];
    (induction l as [|x l IH]; [done|]; assert (E' x = E x) as Hx by (apply HE; left);
     assert (∀ y, y ∈ l → E' y = E y) as HE' by (intros y Hy; apply HE; by right); specialize (IH HE')).
  - destruct (decide (E x ≤ e)); [rewrite !filter_cons_True by lia; by rewrite IH|by rewrite !filter_cons_False by lia].
  - destruct (decide (e < E x)); [rewrite !filter_cons_True by lia; by rewrite IH|by rewrite !filter_cons_False by lia].
Qed.

(** One timer changes its state. *)
Lemma timers_ok_change tim t' u q q' run run' s s' :
  timers_ok s q run → tim ≠ HEAD → tim ≠ 0 → rest_kept tim u s s' →
  (∃ ls, skiplist s' ls ∧ ls 0%nat = q') → core <$> pt_timers s' !! tim = Some t' →
  tm_state t' ≠ RTE_TIMER_CONFIG → (tm_state t' = RTE_TIMER_RUNNING → tm_owner t' = lcore) →
  (tm_state t' = RTE_TIMER_PENDING ↔ tim ∈ q') → (tm_state t' = RTE_TIMER_RUNNING ↔ tim ∈ run') →
  (tm_state t' ≠ RTE_TIMER_STOP → tm_period t' = 0) → (∀ x, x ≠ tim → x ∈ q' ↔ x ∈ q) → (∀ x, x ≠ tim → x ∈ run' ↔ x ∈ run) → NoDup run' →
  timers_ok s' q' run'.
Proof.
  intros [O1 O2 O3 O4 O5 O6 O9 O7 O8] Hth Ht0 Hr Hls Ht' Hc Hown Hp Hrn Hsg Hq Hrun Hnd.
  assert (∃ t1, pt_timers s' !! tim = Some t1 ∧ tm_state t1 = tm_state t' ∧ tm_owner t1 = tm_owner t' ∧
    tm_period t1 = tm_period t') as (t1 & Ht1 & E1 & E2 & E3).
  { destruct (pt_timers s' !! tim) as [t1|]; [|done]. injection Ht' as <-. by exists t1. }
  assert (∀ p t, p ≠ HEAD → p ≠ tim → pt_timers s' !! p = Some t →
    ∃ t0, pt_timers s !! p = Some t0 ∧ tm_state t = tm_state t0 ∧ tm_owner t = tm_owner t0 ∧
      tm_period t = tm_period t0) as Hback.
  { intros p t H1 H2 Ht. pose proof (rk_core _ _ _ _ Hr p H1 H2) as Hcore. rewrite Ht in Hcore.
    destruct (pt_timers s !! p) as [t0|]; [|done]. injection Hcore. by exists t0. }
  split; [done|..].
  - intros p t H1 Ht. destruct (decide (p = tim)) as [->|H2].
    + assert (t = t1) as -> by congruence. by rewrite E1.
    + destruct (Hback p t H1 H2 Ht) as (t0 & Ht0' & -> & _ & _). rewrite Hq by done. by apply O2.
  - intros p t H1 Ht. destruct (decide (p = tim)) as [->|H2].
    + assert (t = t1) as -> by congruence. by rewrite E1.
    + destruct (Hback p t H1 H2 Ht) as (t0 & Ht0' & -> & _ & _). rewrite Hrun by done. by apply O3.
  - intros p t H1 Ht. destruct (decide (p = tim)) as [->|H2].
    + assert (t = t1) as -> by congruence. rewrite E1, E2. done.
    + destruct (Hback p t H1 H2 Ht) as (t0 & Ht0' & -> & -> & _). by apply (O4 p).
  - intros p t H1 Ht. destruct (decide (p = tim)) as [->|H2].
    + assert (t = t1) as -> by congruence. by rewrite E1.
    + destruct (Hback p t H1 H2 Ht) as (t0 & Ht0' & -> & _ & _). by apply (O5 p).
  - pose proof (rk_core _ _ _ _ Hr 0 ltac:(done) (not_eq_sym Ht0)) as Hcore. rewrite O6 in Hcore.
    by destruct (pt_timers s' !! 0).
  - intros p t H1 Ht. destruct (decide (p = tim)) as [->|H2].
    + assert (t = t1) as -> by congruence. by rewrite E1, E3.
    + destruct (Hback p t H1 H2 Ht) as (t0 & Ht0' & -> & _ & ->). by apply (O9 p).
  - done.
  - intros x Hx. destruct (decide (x = tim)) as [->|Hne]; [by split; [|exists t1]|].
    destruct (O8 x (proj1 (Hrun x Hne) Hx)) as [Hxh [t0 Ht0']]. split; [done|].
    pose proof (rk_core _ _ _ _ Hr x Hxh Hne) as Hcore. rewrite Ht0' in Hcore.
    destruct (pt_timers s' !! x) as [t|]; [by exists t|done].
Qed.

(** What setting and stopping a timer do. *)
Record was_set (tim e fn arg : Z) (q run : list Z) s s' : Prop := {
  ws_ok : timers_ok s' (insert_at (expire s) e tim (filter (.≠ tim) q)) (filter (.≠ tim) run);
  ws_tim : core <$> pt_timers s' !! tim = Some (mk_rte_timer e [] RTE_TIMER_PENDING lcore 0 fn arg);
  ws_rest : rest_kept tim (bool_decide (tim ∈ run)) s s';
  ws_frame : frame tim q s s';
}.
Record was_stopped (tim : Z) (t : rte_timer) (q run : list Z) s s' : Prop := {
  wt_ok : timers_ok s' (filter (.≠ tim) q) (filter (.≠ tim) run);
  wt_tim : core <$> pt_timers s' !! tim =
    Some (core (t <| tm_state := RTE_TIMER_STOP |> <| tm_owner := RTE_TIMER_NO_OWNER |>));
  wt_rest : rest_kept tim (bool_decide (tim ∈ run)) s s';
  wt_frame : frame tim q s s';
}.

Lemma detached_upd tim t q run s s' :
  timers_ok s q run → tim ≠ HEAD → pt_timers s !! tim = Some t → detached tim t q s s' →
  rest_kept tim (bool_decide (tim ∈ run)) s s'.
Proof.
  intros Hok Hth Ht Hd. replace (bool_decide (tim ∈ run)) with (bool_decide (tm_state t = RTE_TIMER_RUNNING)); [apply Hd|].
  apply bool_decide_ext. by apply (ti_running _ _ _ Hok).
Qed.

Lemma wp_reset tim t e fn arg q run s :
  timers_ok s q run → tim ≠ HEAD → pt_timers s !! tim = Some t → ¬ busy s run tim → 0 < e < 2 ^ 64 →
  wp (__rte_timer_reset lcore rte_rand tim e 0 fn arg) (λ rc s', rc = 0 ∧ was_set tim e fn arg q run s s') s.
Proof.
  intros Hok Hth Ht Hb He. assert (tim ≠ 0) as Ht0 by (intros ->; by rewrite (ti_null _ _ _ Hok) in Ht).
  unfold __rte_timer_reset. rewrite wp_bind. eapply wp_mono; [by apply (wp_config_state tim t q run s)|].
  intros r s1 [-> ->]. apply (wp_detach tim t q run s); [done..|]. intros s2 Hd.
  pose proof (detached_upd tim t q run s s2 Hok Hth Ht Hd) as Hr2.
  destruct Hd as [(ls & Hsk & Hls) Ht2 _ Hfr2].
  destruct (pt_timers s2 !! tim) as [t2|] eqn:Et2; [|done].
  set (f := λ t : rte_timer, t <| tm_period := 0 |> <| tm_expire := e |> <| tm_fn := fn |> <| tm_arg := arg |>).
  assert (tim ∉ ls 0%nat) as Hnin by (rewrite Hls; apply notin_filter_ne).
  rewrite wp_bind. apply (wp_timer_write tim t2); [done|]. change (_ <| pt_timers := _ |>) with (altered tim f s2).
  pose proof (skiplist_altered tim f ls s2 Hth ltac:(done) ltac:(done) Hsk) as Hsk3. set (s3 := altered tim f s2) in *.
  assert (pt_timers s3 !! tim = Some (f t2)) as Et3 by (unfold s3, altered; cbn; by rewrite lookup_alter_eq, Et2).
  rewrite wp_bind. eapply wp_mono; [apply (wp_timer_add rte_rand tim e ls s3 Hsk3)|].
  - intros [|]%elem_of_cons; done.
  - done.
  - by eexists.
  - unfold expire. by rewrite Et3.
  - done.
  - intros ? s4 (Hk & Hfr4 & ls' & Hsk4 & Hls'). cbn beta.
    assert (core <$> pt_timers s4 !! tim = Some (core (f t2))) as Et4 by (by rewrite (kp_core _ _ Hk tim Hth), Et3).
    destruct (pt_timers s4 !! tim) as [t4|] eqn:Et4'; [|done].
    rewrite wp_bind. unfold set_status. apply (wp_timer_write tim t4); [done|].
    set (g := λ t : rte_timer, t <| tm_state := RTE_TIMER_PENDING |> <| tm_owner := lcore |>).
    change (_ <| pt_timers := _ |>) with (altered tim g s4).
    pose proof (skiplist_altered tim g ls' s4 Hth ltac:(done) ltac:(done) Hsk4) as Hsk5.
    rewrite wp_ret. split; [done|]. set (s5 := altered tim g s4) in *.
    assert (rest_kept tim (bool_decide (tim ∈ run)) s s5) as Hr5.
    { eapply (rest_kept_trans tim _ false); [|apply rest_altered].
      eapply (rest_kept_trans tim _ false); [|by apply kept_rest].
      eapply (rest_kept_trans tim _ false); [exact Hr2|apply rest_altered]. }
    assert (core <$> pt_timers s5 !! tim = Some (mk_rte_timer e [] RTE_TIMER_PENDING lcore 0 fn arg)) as Et5.
    { unfold s5, altered. cbn. rewrite lookup_alter_eq, Et4'. cbn. unfold core, f in Et4. cbn in Et4. injection Et4 as E1 _ _ E4 E5 E6.
      by rewrite <- E1, <- E4, <- E5, <- E6. }
    assert (ls' 0%nat = insert_at (expire s) e tim (filter (.≠ tim) q)) as Hq'.
    { rewrite Hls', Hls. apply insert_at_ext. intros x Hx.
      assert (x ≠ tim) as Hxt by (intros ->; by apply notin_filter_ne in Hx).
      assert (x ≠ HEAD) as Hxh.
      { intros ->. pose proof (lv_nodup _ _ (sk_levels _ _ Hsk)) as [Hh _]%NoDup_cons. by rewrite Hls in Hh. }
      pose proof (rk_core _ _ _ _ Hr2 x Hxh Hxt) as Hcx. unfold s3, expire, altered. cbn.
      rewrite lookup_alter_ne by done. destruct (pt_timers s2 !! x), (pt_timers s !! x); try done.
      cbn in *. by injection Hcx. }
    pose proof (ordered_split (expire s) e (filter (.≠ tim) q)) as Hsplit.
    assert (filter (.≠ tim) q = upto (expire s) e (filter (.≠ tim) q) ++ beyond (expire s) e (filter (.≠ tim) q)) as Hsp.
    { apply Hsplit. destruct (ti_list _ _ _ Hok) as (ls0 & Hsk0 & <-). eapply ordered_sublist; [apply sublist_filter|apply Hsk0]. }
    pose proof (insert_at_perm _ _ tim _ Hsp) as Hperm.
    split; [|exact Et5|exact Hr5|].
    2: { intros i x H1 H2 H3. unfold s5. rewrite nxt_altered by done. rewrite Hfr4; [|done|].
      - unfold s3. rewrite nxt_altered by done. by apply Hfr2.
      - rewrite Hls. intros [|Hx]%elem_of_cons; [done|]. by apply elem_filter_ne in Hx. }
    apply (timers_ok_change tim (mk_rte_timer e [] RTE_TIMER_PENDING lcore 0 fn arg) _ q _ run _ s s5 Hok Hth Ht0 Hr5); try done.
    + by exists ls'.
    + split; [|done]. intros _. rewrite Hperm. left.
    + split; [done|]. intros Hin. by apply notin_filter_ne in Hin.
    + intros x Hx. rewrite Hperm, elem_of_cons, elem_filter_ne by done. naive_solver.
    + intros x Hx. by apply elem_filter_ne.
    + apply NoDup_filter, Hok.
Qed.

Lemma wp_stop tim t q run s :
  timers_ok s q run → tim ≠ HEAD → pt_timers s !! tim = Some t → ¬ busy s run tim →
  wp (rte_timer_stop lcore tim) (λ rc s', rc = 0 ∧ was_stopped tim t q run s s') s.
Proof using Type.
  clear rte_rand.
  intros Hok Hth Ht Hb. assert (tim ≠ 0) as Ht0 by (intros ->; by rewrite (ti_null _ _ _ Hok) in Ht).
  unfold rte_timer_stop. rewrite wp_bind. eapply wp_mono; [by apply (wp_config_state tim t q run s)|].
  intros r s1 [-> ->]. apply (wp_detach tim t q run s); [done..|]. intros s2 Hd.
  pose proof (detached_upd tim t q run s s2 Hok Hth Ht Hd) as Hr2.
  destruct Hd as [(ls & Hsk & Hls) Ht2 _ Hfr2].
  destruct (pt_timers s2 !! tim) as [t2|] eqn:Et2; [|done].
  rewrite wp_bind. unfold set_status. apply (wp_timer_write tim t2); [done|].
  set (g := λ t : rte_timer, t <| tm_state := RTE_TIMER_STOP |> <| tm_owner := RTE_TIMER_NO_OWNER |>).
  change (_ <| pt_timers := _ |>) with (altered tim g s2).
  pose proof (skiplist_altered tim g ls s2 Hth ltac:(done) ltac:(done) Hsk) as Hsk3.
  rewrite wp_ret. split; [done|]. set (s3 := altered tim g s2) in *.
  assert (rest_kept tim (bool_decide (tim ∈ run)) s s3) as Hr3
    by (eapply (rest_kept_trans tim _ false); [exact Hr2|apply rest_altered]).
  assert (core <$> pt_timers s3 !! tim = Some (core (g t))) as Et3.
  { unfold s3, altered. cbn. rewrite lookup_alter_eq, Et2. cbn. unfold core in Ht2. cbn in Ht2. injection Ht2 as E1 _ _ E4 E5 E6. transitivity (Some (mk_rte_timer (tm_expire t2) [] RTE_TIMER_STOP RTE_TIMER_NO_OWNER (tm_period t2) (tm_fn t2) (tm_arg t2))); [done|].
    by rewrite E1, E4, E5, E6. }
  split; [|exact Et3|exact Hr3|].
  2: { intros i x H1 H2 H3. unfold s3. rewrite nxt_altered by done. by apply Hfr2. }
  apply (timers_ok_change tim (core (g t)) _ q _ run _ s s3 Hok Hth Ht0 Hr3); try done.
  + by exists ls.
  + split; [done|]. intros Hin. by apply notin_filter_ne in Hin.
  + split; [done|]. intros Hin. by apply notin_filter_ne in Hin.
  + intros x Hx. by apply elem_filter_ne.
  + intros x Hx. by apply elem_filter_ne.
  + apply NoDup_filter, Hok.
Qed.

(** *** Timer functions *)

(** A function uses the timers [D], sets none more than [T] cycles ahead and takes at
    most [b] cycles; no timer is periodical. *)
Fixpoint prog_ok {A} (D : gset Z) (T b : Z) (c : prog W A) : Prop :=
  match c with
  | P_ret _ => True
  | P_fault => False
  | P_reset tim ticks type _ _ k => tim ∈ D ∧ type = SINGLE ∧ 0 ≤ ticks ≤ T ∧ ∀ rc, prog_ok D T b (k rc)
  | P_stop tim k => tim ∈ D ∧ ∀ rc, prog_ok D T b (k rc)
  | P_pending tim k => tim ∈ D ∧ ∀ r, prog_ok D T b (k r)
  | P_elapse n k => 0 ≤ n ≤ b ∧ prog_ok D T (b - n) k
  | P_world _ k => ∀ w, prog_ok D T b (k w)
  end.

Definition known (D : gset Z) s : Prop := ∀ x, x ∈ D → x ≠ HEAD ∧ is_Some (pt_timers s !! x).

(** What a function leaves alone: the timers waiting for their turn, and the one that
    runs, unless it notes that it was changed. *)
Record served (D : gset Z) (b : Z) (run : list Z) s s' (q' run' : list Z) : Prop := {
  se_ok : timers_ok s' q' run';
  se_run : (run' = run ∧ pt_updated s' = pt_updated s) ∨
    (run' = filter (.≠ running_tim s) run ∧ pt_updated s' = true);
  se_updated : pt_updated s' = false → run' = run ∧ pt_updated s = false ∧
    (running_tim s ∈ run → core <$> pt_timers s' !! running_tim s = core <$> pt_timers s !! running_tim s);
  se_busy x : busy s run x → core <$> pt_timers s' !! x = core <$> pt_timers s !! x ∧ ∀ i, nxt s' i x = nxt s i x;
  se_running : running_tim s' = running_tim s;
  se_cycles : pt_cycles s ≤ pt_cycles s' ≤ pt_cycles s + b;
  se_fired : pt_fired s' = pt_fired s;
  se_known : known D s → known D s';
  se_outside x : x ≠ HEAD → x ∉ D → core <$> pt_timers s' !! x = core <$> pt_timers s !! x;
}.

Lemma served_refl D b q run s : timers_ok s q run → 0 ≤ b → served D b run s s q run.
Proof. intros Hok Hb. split; try done; [by left|lia]. Qed.

Lemma filter_ne_twice (l : list Z) x : filter (.≠ x) (filter (.≠ x) l) = filter (.≠ x) l.
Proof. apply filter_ne_notin, notin_filter_ne. Qed.

Lemma busy_served D b run s s' q' run' x : served D b run s s' q' run' → busy s run x → busy s' run' x.
Proof.
  intros Hs [Hin Hne]. unfold busy. rewrite (se_running _ _ _ _ _ _ _ Hs). split; [|done].
  destruct (se_run _ _ _ _ _ _ _ Hs) as [[-> _]|[-> _]]; [done|]. by apply elem_filter_ne.
Qed.

Lemma served_trans D b1 b2 run s1 s2 s3 q2 run2 q3 run3 :
  served D b1 run s1 s2 q2 run2 → served D b2 run2 s2 s3 q3 run3 → served D (b1 + b2) run s1 s3 q3 run3.
Proof.
  intros A B. pose proof A as [A1 A2 A3 A4 A5 A6 A7 A8 A9]. pose proof B as [B1 B2 B3 B4 B5 B6 B7 B8 B9].
  split; [done| | | |congruence|lia|congruence|auto|].
  - rewrite A5 in B2. destruct A2 as [[-> E1]|[-> E1]], B2 as [[-> E2]|[-> E2]].
    + left. split; [done|congruence].
    + by right.
    + right. split; [done|congruence].
    + right. split; [apply filter_ne_twice|done].
  - intros Hu. destruct (B3 Hu) as (-> & Hu2 & Hc2). destruct (A3 Hu2) as (-> & Hu1 & Hc1).
    split_and!; [done|done|]. intros Hin. rewrite A5 in Hc2. by rewrite Hc2, Hc1.
  - intros x Hx. destruct (A4 x Hx) as [E1 F1]. destruct (B4 x (busy_served _ _ _ _ _ _ _ _ A Hx)) as [E2 F2].
    split; [congruence|]. intros i. by rewrite F2, F1.
  - intros x H1 H2. by rewrite B9, A9.
Qed.

Lemma known_rest D tim u s s' t' :
  rest_kept tim u s s' → core <$> pt_timers s' !! tim = Some t' → known D s → known D s'.
Proof.
  intros Hr Ht Hk x Hx. destruct (Hk x Hx) as [Hh [t Hxt]]. split; [done|].
  destruct (decide (x = tim)) as [->|Hne]; [by destruct (pt_timers s' !! tim); [eexists|]|].
  pose proof (rk_core _ _ _ _ Hr x Hh Hne) as Hc. rewrite Hxt in Hc.
  by destruct (pt_timers s' !! x); [eexists|].
Qed.

(** Setting or stopping a timer that is not busy. *)
Lemma served_change D tim t' u q run q' s s' :
  tim ∈ D → timers_ok s q run → tim ≠ HEAD → ¬ busy s run tim → timers_ok s' q' (filter (.≠ tim) run) →
  rest_kept tim (bool_decide (tim ∈ run)) s s' → frame tim q s s' →
  core <$> pt_timers s' !! tim = Some t' → 0 ≤ u →
  served D u run s s' q' (filter (.≠ tim) run).
Proof.
  intros HD Hok Hth Hb Hok' Hr Hf Ht' Hu. pose proof Hr as [R1 R2 R3 R4 R5 R6].
  assert (tim ∈ run → tim = running_tim s) as Hrun.
  { intros Hin. destruct (decide (tim = running_tim s)); [done|]. by destruct Hb. }
  split; try done.
  - destruct (decide (tim ∈ run)) as [Hin|Hnin].
    + right. rewrite <- (Hrun Hin), R2, bool_decide_eq_true_2 by done. done.
    + left. rewrite R2, bool_decide_eq_false_2 by done. split; [by apply filter_ne_notin|done].
  - rewrite R2. intros [Hnin%bool_decide_eq_false Hu0]%orb_false_iff. split_and!; [by apply filter_ne_notin|done|].
    intros Hin. apply R1; [by apply (ti_live _ _ _ Hok)|]. by intros <-.
  - intros x [Hin Hne]. destruct (ti_live _ _ _ Hok x Hin) as [Hh [tx Hx]].
    assert (x ≠ tim) as Hxt by (intros ->; by apply Hne, Hrun). split; [by apply R1|].
    intros i. apply Hf; [done|done|]. intros Hq.
    pose proof (proj2 (ti_pending _ _ _ Hok x tx Hh Hx) Hq) as E1.
    pose proof (proj2 (ti_running _ _ _ Hok x tx Hh Hx) Hin) as E2. congruence.
  - rewrite R4. lia.
  - by eapply known_rest.
  - intros x H1 H2. apply R1; [done|]. by intros ->.
Qed.

Lemma wp_run_prog {A} D T (c : prog W A) : 0 ≤ T → ∀ b q run s,
  timers_ok s q run → known D s → prog_ok D T b c → 0 < pt_cycles s → 0 ≤ b → pt_cycles s + b + T < 2 ^ 64 →
  wp (run_prog lcore rte_rand c) (λ _ s', ∃ q' run', served D b run s s' q' run') s.
Proof.
  intros HT. induction c as [a| |tim ticks ty fn arg k IH|tim k IH|tim k IH|n k IH|f k IH]; intros b q run s Hok HD Hc Hcy Hb Hbig;
    cbn [run_prog]; cbn in Hc.
  - rewrite wp_ret. exists q, run. by apply served_refl.
  - done.
  - destruct Hc as (Htim & -> & Hticks & Hk). destruct (HD tim Htim) as [Hth [t Ht]].
    rewrite wp_bind. unfold rte_timer_reset. rewrite wp_bind, wp_gets, wrap64_small by lia.
    assert (∀ rc s1 q1 run1, served D 0 run s s1 q1 run1 →
      wp (run_prog lcore rte_rand (k rc)) (λ _ s', ∃ q' run', served D b run s s' q' run') s1) as Hgo.
    { intros rc s1 q1 run1 H1. pose proof (se_cycles _ _ _ _ _ _ _ H1).
      eapply wp_mono; [apply (IH rc b q1 run1 s1); [apply H1|by apply (se_known _ _ _ _ _ _ _ H1)|apply Hk|lia..]|].
      intros ? s2 (q2 & run2 & H2). exists q2, run2. replace b with (0 + b) by lia. by eapply served_trans. }
    destruct (decide (busy s run tim)) as [Hbusy|Hfree].
    + unfold __rte_timer_reset. rewrite wp_bind. eapply wp_mono; [by apply (wp_config_busy tim q run s)|].
      intros r s1 [-> ->]. rewrite wp_ret. eapply Hgo, served_refl; [exact Hok|lia].
    + eapply wp_mono; [apply (wp_reset tim t _ fn arg q run s Hok Hth Ht Hfree); lia|].
      intros rc s1 [-> [W1 W2 W3 W4]]. eapply Hgo, served_change; [exact Htim|exact Hok|exact Hth|done|exact W1|done|done|exact W2|lia].
  - destruct Hc as (Htim & Hk). destruct (HD tim Htim) as [Hth [t Ht]]. rewrite wp_bind.
    assert (∀ rc s1 q1 run1, served D 0 run s s1 q1 run1 →
      wp (run_prog lcore rte_rand (k rc)) (λ _ s', ∃ q' run', served D b run s s' q' run') s1) as Hgo.
    { intros rc s1 q1 run1 H1. pose proof (se_cycles _ _ _ _ _ _ _ H1).
      eapply wp_mono; [apply (IH rc b q1 run1 s1); [apply H1|by apply (se_known _ _ _ _ _ _ _ H1)|apply Hk|lia..]|].
      intros ? s2 (q2 & run2 & H2). exists q2, run2. replace b with (0 + b) by lia. by eapply served_trans. }
    destruct (decide (busy s run tim)) as [Hbusy|Hfree].
    + unfold rte_timer_stop. rewrite wp_bind. eapply wp_mono; [by apply (wp_config_busy tim q run s)|].
      intros r s1 [-> ->]. rewrite wp_ret. eapply Hgo, served_refl; [exact Hok|lia].
    + eapply wp_mono; [apply (wp_stop tim t q run s Hok Hth Ht Hfree)|].
      intros rc s1 [-> [W1 W2 W3 W4]]. eapply Hgo, served_change; [exact Htim|exact Hok|exact Hth|done|exact W1|done|done|exact W2|lia].
  - destruct Hc as (Htim & Hk). destruct (HD tim Htim) as [Hth [t Ht]].
    unfold rte_timer_pending. rewrite !wp_bind. apply (wp_timer_read tim t); [done|]. rewrite wp_ret.
    apply (IH _ b q run s); done.
  - destruct Hc as [Hn Hk]. rewrite wp_bind, wp_modify, wrap64_small by lia. set (s1 := s <| pt_cycles := _ |>).
    assert (served D n run s s1 q run) as H1.
    { split; try done; [|by left|unfold s1; cbn; lia]. destruct Hok as [(ls & [[] ? ? ? ?] & Hls) O2 O3 O4 O5 O6 O9 O7 O8].
      split; try done. exists ls. split; [|done]. by split; [split|..]. }
    eapply wp_mono; [apply (IH (b - n) q run s1); [apply H1|exact HD|done|unfold s1; cbn; lia..]|].
    intros ? s2 (q2 & run2 & H2). exists q2, run2. replace b with (n + (b - n)) by lia. by eapply served_trans.
  - rewrite wp_bind, wp_modify. rewrite wp_bind, wp_gets. set (s1 := s <| pt_world := _ |>).
    assert (served D 0 run s s1 q run) as H1.
    { split; try done; [|by left|unfold s1; cbn; lia]. destruct Hok as [(ls & [[] ? ? ? ?] & Hls) O2 O3 O4 O5 O6 O9 O7 O8].
      split; try done. exists ls. split; [|done]. by split; [split|..]. }
    eapply wp_mono; [apply (IH _ b q run s1); [apply H1|exact HD|apply Hc|done..]|].
    intros ? s2 (q2 & run2 & H2). exists q2, run2. replace b with (0 + b) by lia. by eapply served_trans.
Qed.

(** *** The pass over expired timers *)

Context (callback : Z → Z → Z → W → prog W unit).

Definition expired s (now : Z) (l : list Z) : list Z := upto (expire s) now l.
Definition remaining s (now : Z) (l : list Z) : list Z := beyond (expire s) now l.

Lemma split_now s ls now i : levels s ls → ls i = expired s now (ls i) ++ remaining s now (ls i).
Proof. intros Hl. apply ordered_split. by eapply levels_order. Qed.

Lemma remaining_sub s ls now i j : levels s ls → (i ≤ j)%nat → remaining s now (ls j) `sublist_of` remaining s now (ls i).
Proof.
  intros Hl Hij. apply sublist_filter_mono. induction Hij as [|j Hij IH]; [done|].
  etransitivity; [apply (lv_sub _ _ Hl)|done].
Qed.

(** Breaking the list below level [lvl]. *)
Record broken (now : Z) (ls : nat → list Z) (lvl : nat) s s' : Prop := {
  br_same : same_but_links s s';
  br_done i : (lvl ≤ i < MAX_SKIPLIST_DEPTH)%nat → linked (nxt s' i) HEAD (remaining s now (ls i));
  br_todo i x : (i < lvl)%nat → nxt s' i x = nxt s i x;
  br_depth : (lvl ≤ curr_skiplist_depth s')%nat ∧ (curr_skiplist_depth s' ≤ curr_skiplist_depth s)%nat ∧
    (∀ i, (lvl ≤ i < curr_skiplist_depth s')%nat → remaining s now (ls i) ≠ []) ∧
    (∀ i, (curr_skiplist_depth s' ≤ i)%nat → remaining s now (ls i) = []);
  br_run x l : lvl = 0%nat → expired s now (ls 0%nat) = x :: l → linked (nxt s' 0%nat) x l;
}.

Lemma broken_level now ls lvl s s1 : levels s ls →
  (lvl < MAX_SKIPLIST_DEPTH)%nat → broken now ls (Datatypes.S lvl) s s1 →
  expired s now (ls lvl) ≠ [] →
  let p := prev_le s ls now lvl in
  let nx := hd 0 (remaining s now (ls lvl)) in
  let d := if nx =? 0 then (curr_skiplist_depth s1 - 1)%nat else curr_skiplist_depth s1 in
  broken now ls lvl s (with_next p lvl 0 ((with_next HEAD lvl nx s1) <| curr_skiplist_depth := d |>)).
Proof.
  intros Hl Hlvl [B1 B2 B3 (B4 & B5 & B6 & B7) _] Hne p nx d.
  pose proof (lv_linked _ _ Hl lvl Hlvl) as Hlk. pose proof (split_now s ls now lvl Hl) as Hsp.
  pose proof (levels_nodup s ls lvl Hl) as Hnd. set (u := expired s now (ls lvl)) in *.
  set (r := remaining s now (ls lvl)) in *. assert (p = last_or HEAD u) as Hp by done.
  assert (p ≠ HEAD) as Hph.
  { intros Hh. rewrite Hsp in Hnd. apply NoDup_cons in Hnd as [Hnin _]. apply Hnin. apply elem_of_app. left.
    destruct u as [|y u]; [done|]. rewrite Hp, last_or_cons in Hh. rewrite <- Hh. apply last_or_elem. }
  assert ((nx =? 0) = bool_decide (r = [])) as Hnx.
  { unfold nx. rewrite Hsp in Hlk. apply linked_app in Hlk. destruct r as [|y r0]; [done|].
    destruct Hlk as (Hy & _). cbn [hd]. rewrite bool_decide_eq_false_2 by done. by apply Z.eqb_neq. }
  assert (is_Some (nxt s1 lvl HEAD)) as Hs1 by (rewrite B3 by lia; rewrite (linked_head _ _ _ Hlk); eauto).
  set (s2 := (with_next HEAD lvl nx s1) <| curr_skiplist_depth := d |>).
  assert (∀ i x, nxt s2 i x = nxt (with_next HEAD lvl nx s1) i x) as E2 by done.
  assert (nxt s lvl p = Some nx) as Hpn by (rewrite Hp; apply (linked_last _ HEAD); by rewrite <- Hsp).
  assert (is_Some (nxt s2 lvl p)) as Hs2.
  { rewrite E2, nxt_with_next_ne by (by auto). rewrite B3 by lia. rewrite Hpn. eauto. }
  assert (∀ i x, i ≠ lvl → nxt (with_next p lvl 0 s2) i x = nxt s1 i x) as Hoth.
  { intros i x Hi. rewrite nxt_with_next_ne by auto. rewrite E2. apply nxt_with_next_ne; auto. }
  assert (∀ x, x ≠ p → x ≠ HEAD → nxt (with_next p lvl 0 s2) lvl x = nxt s lvl x) as Hlv.
  { intros x H1 H2. rewrite nxt_with_next_ne by auto. rewrite E2, nxt_with_next_ne by auto. apply B3. lia. }
  assert (linked (nxt (with_next p lvl 0 s2) lvl) HEAD r) as Hr.
  { assert (nxt (with_next p lvl 0 s2) lvl HEAD = Some nx) as Hh.
    { rewrite nxt_with_next_ne by auto. rewrite E2. by apply nxt_with_next_eq. }
    rewrite Hsp in Hlk, Hnd. apply linked_app in Hlk as Hlk2. destruct r as [|y r0] eqn:Er; [exact Hh|].
    destruct Hlk2 as (Hy & _ & Hlk2). split_and!; [done|exact Hh|]. eapply linked_ext; [|exact Hlk2].
    intros x Hx. apply Hlv.
    - intros ->. apply NoDup_cons in Hnd as [_ (_ & Hd & _)%NoDup_app]. apply (Hd p); [|done].
      destruct u as [|z u]; [done|]. rewrite Hp, last_or_cons. apply last_or_elem.
    - intros ->. apply NoDup_cons in Hnd as [Hnin _]. apply Hnin, elem_of_app. by right. }
  split.
  - eapply same_but_links_trans; [exact B1|]. eapply same_but_links_trans; [apply (same_with_next HEAD lvl nx)|].
    eapply same_but_links_trans; [apply same_set_depth|apply same_with_next].
  - intros i Hi. destruct (decide (i = lvl)) as [->|Hil]; [exact Hr|].
    eapply linked_ext; [|apply (B2 i); lia]. intros x _. by apply Hoth.
  - intros i x Hi. rewrite Hoth by lia. apply B3. lia.
  - change (curr_skiplist_depth (with_next p lvl 0 s2)) with d. unfold d. rewrite Hnx.
    destruct (bool_decide_reflect (r = [])) as [Er|Er].
    + assert (curr_skiplist_depth s1 = Datatypes.S lvl) as Hd1.
      { apply Nat.le_antisymm; [|done]. apply Nat.le_ngt. intros Hgt.
        apply (B6 (Datatypes.S lvl) ltac:(lia)). pose proof (remaining_sub s ls now lvl (Datatypes.S lvl) Hl ltac:(lia)) as Hsub.
        fold r in Hsub. rewrite Er in Hsub. by apply sublist_nil_r in Hsub. }
      rewrite Hd1. split_and!; [lia|lia|lia|]. intros i Hi. destruct (decide (i = lvl)) as [->|]; [done|]. apply B7. lia.
    + split_and!; [lia|lia| |done]. intros i Hi. destruct (decide (i = lvl)) as [->|]; [done|]. apply B6. lia.
  - intros x l -> Hx. fold u in Hx. rewrite Hx in Hp. rewrite last_or_cons in Hp.
    rewrite Hsp, Hx in Hlk, Hnd. cbn in Hlk. destruct Hlk as (_ & _ & Hlk).
    apply NoDup_cons in Hnd as [Hnin Hnd]. rewrite <- (app_nil_r l).
    cbn in Hnd. rewrite app_comm_cons in Hnd. apply NoDup_app in Hnd as (Hnd & _ & _).
    eapply linked_join; [exact Hnd|exact Hlk| |done| |done].
    + intros y Hy Hyp. rewrite <- Hp in Hyp. apply Hlv; [done|]. intros ->. apply Hnin.
      apply elem_of_app. by left.
    + rewrite <- Hp. apply nxt_with_next_eq. done.
Qed.

Lemma prev_le_head s ls now i : levels s ls → prev_le s ls now i = HEAD → expired s now (ls i) = [].
Proof.
  intros Hl Hp. unfold prev_le in Hp. fold (expired s now (ls i)) in Hp.
  destruct (expired s now (ls i)) as [|x u] eqn:Hu; [done|]. exfalso.
  pose proof (levels_nodup s ls i Hl) as [Hnin _]%NoDup_cons. apply Hnin.
  rewrite (split_now s ls now i Hl), Hu. apply elem_of_app. left. rewrite last_or_cons in Hp.
  rewrite <- Hp. apply last_or_elem.
Qed.

Lemma wp_break_levels now ls prev s : skiplist s ls →
  ∀ lvl s1, (lvl ≤ curr_skiplist_depth s)%nat →
  (∀ i, (i < lvl)%nat → prev !! i = Some (prev_le s ls now i)) → broken now ls lvl s s1 →
  wp (break_levels prev lvl) (λ _ s', broken now ls 0 s s') s1.
Proof.
  intros Hsk. pose proof (sk_levels _ _ Hsk) as Hl. pose proof (sk_depth _ _ Hsk) as Hdm.
  induction lvl as [|lvl IH]; intros s1 Hlvl Hprev Hb; cbn [break_levels]; [by rewrite wp_ret|].
  rewrite wp_bind, Hprev by lia. cbn [of_option]. rewrite wp_ret, wp_bind.
  pose proof (lv_linked _ _ Hl lvl ltac:(lia)) as Hlk. pose proof (split_now s ls now lvl Hl) as Hsp.
  destruct (Z.eqb_spec (prev_le s ls now lvl) HEAD) as [Hp|Hp].
  - apply prev_le_head in Hp; [|done]. rewrite wp_ret. apply IH; [lia|intros i Hi; apply Hprev; lia|].
    assert (remaining s now (ls lvl) = ls lvl) as Hr by (rewrite Hsp at 2; by rewrite Hp).
    destruct Hb as [B1 B2 B3 (B4 & B5 & B6 & B7) _]. split; [done| | | |].
    + intros i Hi. destruct (decide (i = lvl)) as [->|]; [|apply B2; lia]. rewrite Hr.
      eapply linked_ext; [|exact Hlk]. intros x _. apply B3. lia.
    + intros i x Hi. apply B3. lia.
    + split_and!; [lia|done| |done]. intros i Hi. destruct (decide (i = lvl)) as [->|]; [|apply B6; lia].
      rewrite Hr. apply (sk_full _ _ Hsk). lia.
    + intros x l -> Hx. by rewrite Hp in Hx.
  - assert (expired s now (ls lvl) ≠ []) as Hne.
    { intros He. apply Hp. unfold prev_le. fold (expired s now (ls lvl)). by rewrite He. }
    assert (nxt s1 lvl (prev_le s ls now lvl) = Some (hd 0 (remaining s now (ls lvl)))) as Hn.
    { rewrite (br_todo _ _ _ _ _ Hb) by lia. apply (linked_last _ HEAD (expired s now (ls lvl))). by rewrite <- Hsp. }
    rewrite wp_bind. apply (wp_get_next _ _ _ _ _ Hn).
    assert (nxt s1 lvl HEAD = Some (hd 0 (ls lvl))) as Hh.
    { rewrite (br_todo _ _ _ _ _ Hb) by lia. by apply linked_head. }
    rewrite wp_bind. apply (wp_set_next _ _ _ _ _ _ Hh).
    pose proof (broken_level now ls lvl s s1 Hl ltac:(lia) Hb Hne) as Hb'. cbv zeta in Hb'.
    set (nx := hd 0 (remaining s now (ls lvl))) in *. set (s2 := with_next HEAD lvl nx s1) in *.
    set (d := if nx =? 0 then _ else _) in *.
    assert (∀ Q : unit → priv_timer W → Prop, Q tt (s2 <| curr_skiplist_depth := d |>) →
      wp (if nx =? 0 then depth ← gets curr_skiplist_depth; set_depth (depth - 1) else mret tt) Q s2) as Hd.
    { intros Q HQ. unfold d in HQ. destruct (nx =? 0).
      - rewrite wp_bind, wp_gets. exact HQ.
      - rewrite wp_ret. assert (∀ s0 : priv_timer W, s0 <| curr_skiplist_depth := curr_skiplist_depth s0 |> = s0) as Heta by by intros [].
        change (curr_skiplist_depth s1) with (curr_skiplist_depth s2) in HQ. by rewrite Heta in HQ. }
    rewrite wp_bind. apply Hd.
    assert (nxt (s2 <| curr_skiplist_depth := d |>) lvl (prev_le s ls now lvl) = Some nx) as Hn2.
    { change (nxt s2 lvl (prev_le s ls now lvl) = Some nx). unfold s2. rewrite nxt_with_next_ne by eauto. exact Hn. }
    apply (wp_set_next _ _ _ _ _ _ Hn2). apply IH; [lia| |exact Hb']. intros i Hi. apply Hprev. lia.
Qed.

(** *** Marking *)

Definition running_status (t : rte_timer) : rte_timer := t <| tm_state := RTE_TIMER_RUNNING |> <| tm_owner := lcore |>.
Definition marked (l : list Z) s : priv_timer W := foldl (λ s p, altered p running_status s) s l.

Lemma nxt_status f tim s i x : (∀ t, tm_sl_next (f t) = tm_sl_next t) → nxt (altered tim f s) i x = nxt s i x.
Proof.
  intros Hf. unfold nxt, altered. cbn. destruct (decide (tim = x)) as [->|Hne].
  - rewrite lookup_alter_eq. destruct (pt_timers s !! x); [|done]. cbn. by rewrite Hf.
  - by rewrite lookup_alter_ne.
Qed.
Lemma nxt_marked l : ∀ s i x, nxt (marked l s) i x = nxt s i x.
Proof. induction l as [|p l IH]; intros s i x; [done|]. cbn. fold (marked l (altered p running_status s)). rewrite IH. by apply nxt_status. Qed.

Lemma lookup_marked l : ∀ s x, NoDup l →
  pt_timers (marked l s) !! x = if decide (x ∈ l) then running_status <$> pt_timers s !! x else pt_timers s !! x.
Proof.
  induction l as [|p l IH]; intros s x Hnd; [by rewrite decide_False by apply not_elem_of_nil|].
  apply NoDup_cons in Hnd as [Hp Hnd]. cbn. fold (marked l (altered p running_status s)). rewrite IH by done.
  unfold altered. cbn. destruct (decide (x = p)) as [->|Hne].
  - rewrite decide_False, decide_True, lookup_alter_eq by (done || left). done.
  - rewrite lookup_alter_ne by done. destruct (decide (x ∈ l)) as [Hin|Hnin].
    + by rewrite decide_True by by right.
    + rewrite decide_False; [done|]. by intros [|]%elem_of_cons.
Qed.

Lemma marked_rest l : ∀ s, pt_updated (marked l s) = pt_updated s ∧ running_tim (marked l s) = running_tim s ∧
  pt_cycles (marked l s) = pt_cycles s ∧ pt_world (marked l s) = pt_world s ∧ pt_fired (marked l s) = pt_fired s ∧
  curr_skiplist_depth (marked l s) = curr_skiplist_depth s ∧ size (pt_timers (marked l s)) = size (pt_timers s).
Proof.
  induction l as [|p l IH]; intros s; [done|]. cbn. fold (marked l (altered p running_status s)).
  destruct (IH (altered p running_status s)) as (-> & -> & -> & -> & -> & -> & ->). split_and!; try done.
  unfold altered. cbn. rewrite <- !size_dom. f_equal. apply dom_alter_L.
Qed.

Lemma wp_mark_running l : ∀ fuel tim last first s,
  NoDup l → tim = hd 0 l → (∀ x l', l = x :: l' → x ≠ 0 ∧ linked (nxt s 0%nat) x l') →
  (∀ x, x ∈ l → ∃ t, pt_timers s !! x = Some t ∧ tm_state t = RTE_TIMER_PENDING) → (length l < fuel)%nat →
  wp (mark_running lcore fuel tim last first) (λ r s', r = first ∧ s' = marked l s) s.
Proof.
  induction l as [|x l IH]; intros fuel tim last first s Hnd Htim Hlk Hst Hf; (destruct fuel as [|fuel]; [cbn in Hf; lia|]);
    cbn [mark_running]; subst tim; cbn [hd].
  - cbn [Z.eqb]. by rewrite wp_ret.
  - destruct (Hlk x l eq_refl) as [Hx0 Hl]. apply NoDup_cons in Hnd as [Hx Hnd].
    destruct (Hst x ltac:(left)) as (t & Ht & Hp).
    rewrite (proj2 (Z.eqb_neq _ _) Hx0), wp_bind. apply (wp_get_next _ _ _ _ _ (linked_head _ _ _ Hl)).
    rewrite wp_bind. unfold timer_set_running_state. rewrite wp_bind. apply (wp_timer_read x t); [done|].
    rewrite decide_True by done. rewrite wp_bind. unfold set_status. apply (wp_timer_write x t); [done|]. rewrite wp_ret.
    change (_ <| pt_timers := _ |>) with (altered x running_status s).
    apply IH; [done|done| | |cbn in Hf; lia].
    + intros y l' ->. destruct Hl as (Hy & _ & Hl). split; [done|]. eapply linked_ext; [|exact Hl].
      intros z _. by apply nxt_status.
    + intros y Hy. destruct (Hst y ltac:(by right)) as (ty & Hty & Hpy). exists ty. split; [|done].
      unfold altered. cbn. rewrite lookup_alter_ne; [done|]. by intros ->.
Qed.

(** *** Running *)

(** The call a timer that is due leads to. *)
Definition call_of s (x : Z) : Z * Z * Z :=
  (from_option tm_fn 0 (pt_timers s !! x), x, from_option tm_arg 0 (pt_timers s !! x)).

Lemma call_core s s' x : core <$> pt_timers s' !! x = core <$> pt_timers s !! x → call_of s' x = call_of s x.
Proof.
  intros Hc. unfold call_of. destruct (pt_timers s' !! x) as [t'|], (pt_timers s !! x) as [t|]; try done.
  cbn in *. by injection Hc as _ _ _ _ -> ->.
Qed.

(** Changes of the bookkeeping fields. *)
Lemma timers_ok_fields q run s s' :
  pt_timers s' = pt_timers s → curr_skiplist_depth s' = curr_skiplist_depth s → timers_ok s q run → timers_ok s' q run.
Proof.
  intros E1 E2 [(ls & [[L1 L2 L3 L4 L5 L6 L7] S2 S3 S4 S5] & Hls) O2 O3 O4 O5 O6 O9 O7 O8].
  assert (∀ i x, nxt s' i x = nxt s i x) as HN by (intros i x; unfold nxt; by rewrite E1).
  assert (∀ x, expire s' x = expire s x) as HE by (intros x; unfold expire; by rewrite E1).
  split; rewrite ?E1; try done. exists ls. split; [|done]. split; [split|..]; rewrite ?E1, ?E2; try done.
  - intros i Hi. eapply linked_ext; [|by apply L1]. intros x _. apply HN.
  - by apply (ordered_ext (expire s)).
  - eapply Forall_impl; [exact L5|]. intros x. by rewrite HE.
  - intros x l Hx. rewrite !HE. by eapply S5.
Qed.

(** What a pass, or the rest of it, leaves. *)
Record pass_end (D : gset Z) (l : list Z) s s' : Prop := {
  pe_ok : ∃ q, timers_ok s' q [];
  pe_known : known D s';
  pe_fired : pt_fired s' = pt_fired s ++ (call_of s <$> l);
  pe_outside x : x ≠ HEAD → x ∉ D → x ∉ l → core <$> pt_timers s' !! x = core <$> pt_timers s !! x;
}.

Section pass.
Context (D : gset Z) (T b : Z).
Hypothesis HT : 0 ≤ T.
Hypothesis Hb : 0 ≤ b.
Hypothesis Hcallback : ∀ fn tim arg w, prog_ok D T b (callback fn tim arg w).

(** A timer whose function has returned is stopped. *)
Definition stopped (t : rte_timer) : rte_timer :=
  t <| tm_state := RTE_TIMER_STOP |> <| tm_owner := RTE_TIMER_NO_OWNER |>.

Lemma stop_running x t q l s :
  timers_ok s q (x :: l) → known D s → x ∉ l → x ≠ 0 → pt_timers s !! x = Some t → tm_state t = RTE_TIMER_RUNNING →
  timers_ok (altered x stopped s) q l ∧ known D (altered x stopped s) ∧
  ∀ y, y ≠ x → core <$> pt_timers (altered x stopped s) !! y = core <$> pt_timers s !! y ∧
    ∀ i, nxt (altered x stopped s) i y = nxt s i y.
Proof.
  intros E1 HD Hxl Hx0 Ht Hrun. pose proof (ti_nodup _ _ _ E1) as [_ Hnd]%NoDup_cons. destruct (ti_live _ _ _ E1 x ltac:(left)) as [Hxh _].
  assert (x ∉ q) as Hxq by (intros Hin; apply (ti_pending _ _ _ E1 x t) in Hin; [congruence|done|done]).
  split_and!.
  - apply (timers_ok_change x (core (stopped t)) false q q (x :: l) l s (altered x stopped s) E1 Hxh Hx0); try done.
    + apply rest_altered.
    + destruct (ti_list _ _ _ E1) as (ls & Hsk & Hls). exists ls. split; [|done]. by apply skiplist_altered.
    + unfold altered. cbn. by rewrite lookup_alter_eq, Ht.
    + intros y Hy. rewrite elem_of_cons. naive_solver.
  - intros y Hy. destruct (HD y Hy) as [Hh [ty Hty]]. split; [done|].
    unfold altered. cbn. destruct (decide (y = x)) as [->|Hne]; [rewrite lookup_alter_eq, Hty; by eexists|].
    rewrite lookup_alter_ne by done. by exists ty.
  - intros y Hy. unfold altered. cbn. rewrite lookup_alter_ne by done.
    split; [done|]. intros i. by apply nxt_status.
Qed.

Lemma wp_run_expired now l : ∀ fuel tim q s,
  timers_ok s q l → known D s → tim = hd 0 l → (∀ x l', l = x :: l' → x ≠ 0 ∧ linked (nxt s 0%nat) x l') →
  0 < pt_cycles s → pt_cycles s + b * zlen l + T < 2 ^ 64 → (length l < fuel)%nat →
  wp (run_expired lcore rte_rand callback fuel tim now) (λ _ s', pass_end D l s s') s.
Proof.
  induction l as [|x l IH]; intros fuel tim q s Hok HD Htim Hlk Hcy Hbig Hf; (destruct fuel as [|fuel]; [cbn in Hf; lia|]);
    cbn [run_expired]; subst tim; cbn [hd].
  - cbn [Z.eqb]. rewrite wp_ret. split; [by exists q|done|by rewrite app_nil_r|done].
  - destruct (Hlk x l eq_refl) as [Hx0 Hl]. pose proof (ti_nodup _ _ _ Hok) as [Hxl Hnd]%NoDup_cons.
    destruct (ti_live _ _ _ Hok x ltac:(left)) as [Hxh [t Ht]].
    assert (tm_state t = RTE_TIMER_RUNNING) as Hrun by (apply (ti_running _ _ _ Hok x t); [done..|left]).
    rewrite (proj2 (Z.eqb_neq _ _) Hx0), wp_bind. apply (wp_get_next _ _ _ _ _ (linked_head _ _ _ Hl)).
    rewrite wp_bind, wp_modify, wp_bind. set (s1 := _ <| running_tim := x |>).
    apply (wp_timer_read x t); [done|]. rewrite wp_bind, wp_gets, wp_bind, wp_modify.
    set (s2 := s1 <| pt_fired := _ |>).
    assert (timers_ok s2 q (x :: l)) as Hok2 by by apply (timers_ok_fields q (x :: l) s).
    assert (zlen (x :: l) = 1 + zlen l) as Hz by (unfold zlen; cbn [length]; lia). rewrite Hz in Hbig.
    pose proof (zlen_nonneg l) as Hz0.
    rewrite wp_bind. eapply wp_mono; [apply (wp_run_prog D T _ HT b q (x :: l) s2 Hok2 HD (Hcallback _ _ _ _) Hcy Hb); change (pt_cycles s2) with (pt_cycles s); nia|].
    intros ? s3 (q3 & run3 & [E1 E2 E3 E4 E5 E6 E7 E8 E9]). cbn beta.
    change (running_tim s2) with x in *. change (pt_updated s2) with false in *. change (pt_cycles s2) with (pt_cycles s) in *.
    assert (filter (.≠ x) (x :: l) = l) as Hfl by (rewrite filter_cons_False by naive_solver; by apply filter_ne_notin).
    assert (∀ y, y ∈ l → core <$> pt_timers s3 !! y = core <$> pt_timers s !! y ∧ ∀ i, nxt s3 i y = nxt s i y) as Hrest.
    { intros y Hy. apply E4. split; [by right|]. change (running_tim s2) with x. by intros ->. }
    (* the rest of the pass, from any state in which [x] has been dealt with *)
    assert (∀ q4 s4, timers_ok s4 q4 l → known D s4 → pt_cycles s4 = pt_cycles s3 → pt_fired s4 = pt_fired s3 →
      (∀ y, y ≠ x → core <$> pt_timers s4 !! y = core <$> pt_timers s3 !! y ∧ ∀ i, nxt s4 i y = nxt s3 i y) →
      wp (run_expired lcore rte_rand callback fuel (hd 0 l) now) (λ _ s', pass_end D (x :: l) s s') s4) as Hgo.
    { intros q4 s4 H1 H2 H3 H4 H5. eapply wp_mono; [apply (IH fuel (hd 0 l) q4 s4)|]; try done.
      - intros y l' Hy. rewrite Hy in Hl. destruct Hl as (Hy0 & _ & Hl). split; [done|].
        eapply linked_ext; [|exact Hl]. intros z Hz'. rewrite <- Hy in Hz'.
        assert (z ≠ x) as Hzx by (by intros ->). rewrite (proj2 (H5 z Hzx)). by apply Hrest.
      - rewrite H3. lia.
      - rewrite H3. nia.
      - cbn in Hf. lia.
      - intros ? s5 [F1 F2 F3 F4]. split; [done|done| |].
        2: { intros y H6 H7 [H8 H9]%not_elem_of_cons. rewrite F4, (proj1 (H5 y H8)) by done. by apply E9. }
        rewrite F3, H4, E7.
        change (pt_fired s2) with (pt_fired s ++ [(tm_fn t, x, tm_arg t)]). rewrite <- app_assoc. cbn.
        f_equal. f_equal; [unfold call_of; by rewrite Ht|]. apply list_fmap_ext. intros i y Hy.
        apply list_elem_of_lookup_2 in Hy. apply call_core. rewrite (proj1 (H5 y ltac:(by intros ->))). by apply Hrest. }
    rewrite wp_bind, wp_gets. destruct (pt_updated s3) eqn:Hu.
    + destruct E2 as [[_ ?]|[-> _]]; [done|]. rewrite Hfl in E1. apply (Hgo q3); [exact E1|by apply E8|done..].
    + destruct (E3 eq_refl) as (-> & _ & Hc3). specialize (Hc3 ltac:(left)).
      change (pt_timers s2 !! x) with (pt_timers s !! x) in Hc3. rewrite Ht in Hc3.
      destruct (pt_timers s3 !! x) as [t3|] eqn:Ht3; [|done].
      rewrite wp_bind. apply (wp_timer_read x t3); [done|].
      assert (tm_state t3 = RTE_TIMER_RUNNING) as Hr3 by (unfold core in Hc3; cbn in Hc3; injection Hc3; congruence).
      rewrite (ti_single _ _ _ E1 x t3) by (done || by rewrite Hr3). cbn [Z.eqb].
      rewrite wp_bind. unfold set_status. apply (wp_timer_write x t3); [done|].
      change (_ <| pt_timers := _ |>) with (altered x stopped s3).
      destruct (stop_running x t3 q3 l s3 E1 (E8 HD) Hxl Hx0 Ht3 Hr3) as (G1 & G2 & G3). by apply (Hgo q3).
Qed.

Lemma expire_core s s' x : core <$> pt_timers s' !! x = core <$> pt_timers s !! x → expire s' x = expire s x.
Proof.
  unfold expire. intros Hc. destruct (pt_timers s' !! x), (pt_timers s !! x); try done. cbn in *. by injection Hc.
Qed.

(** The state once the list is broken, the expired timers are marked and the head's
    note is made. *)
Definition parted now (q : list Z) (e : Z) s s1 : priv_timer W := with_head_expire e (marked (expired s now q) s1).

Lemma broken_core now q s s1 ls lvl e p :
  broken now ls lvl s s1 → NoDup (expired s now q) → p ≠ HEAD →
  core <$> pt_timers (parted now q e s s1) !! p =
    if decide (p ∈ expired s now q) then core ∘ running_status <$> pt_timers s !! p else core <$> pt_timers s !! p.
Proof.
  intros [B1 _ _ _ _] Hu Hp. unfold parted. rewrite (kp_core _ _ (kept_head_expire e _) p Hp), lookup_marked by done.
  pose proof (sl_core _ _ B1 p) as Hc. destruct (decide (p ∈ expired s now q)); [|exact Hc].
  destruct (pt_timers s1 !! p) as [t1|], (pt_timers s !! p) as [t|]; try done. cbn in Hc |- *.
  unfold core in Hc. cbn in Hc. injection Hc as E1 _ _ E4 E5 E6. f_equal.
  transitivity (mk_rte_timer (tm_expire t) [] RTE_TIMER_RUNNING lcore (tm_period t) (tm_fn t) (tm_arg t)); [|done].
  rewrite <- E1, <- E4, <- E5, <- E6. done.
Qed.

Lemma broken_levels now q s s1 ls :
  skiplist s ls → ls 0%nat = q → broken now ls 0 s s1 → NoDup (expired s now q) →
  levels (marked (expired s now q) s1) (λ i, remaining s now (ls i)).
Proof.
  intros Hsk Hq [B1 B2 B3 _ _] Hu. pose proof (sk_levels _ _ Hsk) as Hl. set (u := expired s now q) in *.
  pose proof (lv_nodup _ _ Hl) as [Hh Hnd]%NoDup_cons. rewrite Hq in Hh, Hnd.
  assert (∀ x, expire (marked u s1) x = expire s x) as HE.
  { intros x. rewrite <- (expire_same s s1 x B1). unfold expire. rewrite lookup_marked by done.
    destruct (decide (x ∈ u)); [|done]. by destruct (pt_timers s1 !! x). }
  split.
  - intros i Hi. eapply linked_ext; [|apply (B2 i); lia]. intros x _. apply nxt_marked.
  - intros i. by apply remaining_sub; [|lia].
  - apply (ordered_ext (expire s)); [done|]. eapply ordered_sublist; [apply sublist_filter|apply Hl].
  - rewrite Hq. apply NoDup_cons. split; [|by apply NoDup_filter].
    intros Hin. by apply list_elem_of_filter in Hin as [_ ?].
  - apply Forall_forall. intros x Hx. rewrite HE. apply list_elem_of_filter in Hx as [_ Hx].
    by apply (proj1 (Forall_forall _ _) (lv_range _ _ Hl)).
  - intros p t. rewrite lookup_marked by done. intros Ht.
    assert (∃ t1, pt_timers s1 !! p = Some t1 ∧ tm_sl_next t = tm_sl_next t1) as (t1 & Ht1 & ->).
    { destruct (decide (p ∈ u)); [|by exists t]. apply fmap_Some in Ht as (t1 & Ht1 & ->). by exists t1. }
    destruct (sl_shape _ _ B1 p t1 Ht1) as (t0 & Ht0 & ->). by apply (lv_shape _ _ Hl p).
  - rewrite lookup_marked by done. rewrite decide_False by (intros [_ Hin]%elem_upto; done).
    pose proof (sl_core _ _ B1 HEAD) as Hc. destruct (lv_head _ _ Hl) as [h Hhd]. rewrite Hhd in Hc.
    destruct (pt_timers s1 !! HEAD); [by eexists|done].
Qed.

Lemma broken_skiplist now q s s1 ls e :
  skiplist s ls → ls 0%nat = q → broken now ls 0 s s1 → NoDup (expired s now q) →
  (∀ x l, remaining s now q = x :: l → e = expire s x) →
  skiplist (parted now q e s s1) (λ i, remaining s now (ls i)).
Proof.
  intros Hsk Hq Hbr Hu He. pose proof (broken_levels now q s s1 ls Hsk Hq Hbr Hu) as Hl2.
  pose proof Hbr as [_ _ _ (B4 & B5 & B6 & B7) _].
  assert (curr_skiplist_depth (parted now q e s s1) = curr_skiplist_depth s1) as Hd.
  { transitivity (curr_skiplist_depth (marked (expired s now q) s1)); [done|apply marked_rest]. }
  split; rewrite ?Hd.
  - by apply levels_head_expire.
  - etransitivity; [exact B5|apply Hsk].
  - exact B7.
  - intros i Hi. apply B6. lia.
  - intros x l Hx. rewrite Hq in Hx.
    transitivity (expire s x); [unfold parted; rewrite head_expire_head by apply Hl2; by apply (He x l)|].
    assert (x ∈ remaining s now q) as Hin by (rewrite Hx; left). apply list_elem_of_filter in Hin as [Hlt Hin].
    symmetry. apply expire_core. rewrite (broken_core now q s s1 ls 0 e x Hbr Hu).
    + rewrite decide_False; [done|]. intros [? _]%elem_upto. lia.
    + intros ->. rewrite <- Hq in Hin. by pose proof (lv_nodup _ _ (sk_levels _ _ Hsk)) as [? _]%NoDup_cons.
Qed.

Lemma core_fields t t0 : core t = core t0 →
  tm_state t = tm_state t0 ∧ tm_owner t = tm_owner t0 ∧ tm_period t = tm_period t0.
Proof. intros E. unfold core in E. cbn in E. by injection E. Qed.

Lemma broken_ok now q s s1 ls e :
  timers_ok s q [] → skiplist s ls → ls 0%nat = q → broken now ls 0 s s1 →
  (∀ x l, remaining s now q = x :: l → e = expire s x) →
  timers_ok (parted now q e s s1) (remaining s now q) (expired s now q).
Proof.
  intros Hok Hsk Hq Hbr He. pose proof (sk_levels _ _ Hsk) as Hl.
  pose proof (lv_nodup _ _ Hl) as [Hh Hnd]%NoDup_cons. rewrite Hq in Hh, Hnd.
  pose proof (split_now s ls now 0%nat Hl) as Hsp. rewrite Hq in Hsp.
  assert (∀ x, x ∈ expired s now q → x ∈ q) as Huq by (intros x Hx; rewrite Hsp; apply elem_of_app; by left).
  assert (NoDup (expired s now q)) as Hu by by apply NoDup_filter.
  assert (∀ x, x ∈ q → x ∈ remaining s now q ↔ x ∉ expired s now q) as Hrest.
  { intros x Hx. unfold remaining, expired, beyond, upto. rewrite !list_elem_of_filter. split; [lia|].
    intros Hn. destruct (decide (now < expire s x)); [by split|]. destruct Hn. split; [lia|done]. }
  assert (∀ x, x ∈ remaining s now q → x ∈ q) as Hrq by (intros x Hx; by apply list_elem_of_filter in Hx as [_ ?]).
  set (s3 := parted now q e s s1).
  assert (∀ p t, p ≠ HEAD → pt_timers s3 !! p = Some t → ∃ t0, pt_timers s !! p = Some t0 ∧
    (p ∈ expired s now q ∧ tm_state t0 = RTE_TIMER_PENDING ∧ tm_state t = RTE_TIMER_RUNNING ∧ tm_owner t = lcore ∨
     p ∉ expired s now q ∧ tm_state t = tm_state t0 ∧ tm_owner t = tm_owner t0) ∧ tm_period t = tm_period t0) as Hback.
  { intros p t Hp Ht. pose proof (broken_core now q s s1 ls 0 e p Hbr Hu Hp) as Hc. fold s3 in Hc. rewrite Ht in Hc.
    destruct (pt_timers s !! p) as [t0|] eqn:Ht0; [|by destruct (decide _)]. exists t0. split; [done|].
    destruct (decide (p ∈ expired s now q)) as [Hin|Hnin]; cbn in Hc.
    - assert (core t = core (running_status t0)) as Hct by congruence. apply core_fields in Hct as (E1 & E2 & E3).
      split; [left|done]. split_and!; [done| |done|done]. by apply (ti_pending _ _ _ Hok p t0), Huq.
    - assert (core t = core t0) as Hct by congruence. apply core_fields in Hct as (E1 & E2 & E3). by split; [right|]. }
  split.
  - exists (λ i, remaining s now (ls i)). split; [by apply broken_skiplist|by rewrite Hq].
  - intros p t Hp Ht. destruct (Hback p t Hp Ht) as (t0 & Ht0 & [(Hin & E0 & -> & _)|(Hnin & -> & _)] & _).
    + split; [done|]. intros Hr. by apply (Hrest p (Huq p Hin)) in Hr.
    + rewrite (ti_pending _ _ _ Hok p t0 Hp Ht0). split; [|apply Hrq]. intros Hin. by apply (Hrest p Hin).
  - intros p t Hp Ht. destruct (Hback p t Hp Ht) as (t0 & Ht0 & [(Hin & E0 & -> & _)|(Hnin & -> & _)] & _); [done|].
    rewrite (ti_running _ _ _ Hok p t0 Hp Ht0). split; [by intros ?%not_elem_of_nil|done].
  - intros p t Hp Ht. destruct (Hback p t Hp Ht) as (t0 & Ht0 & [(Hin & E0 & _ & ->)|(Hnin & -> & ->)] & _); [done|].
    by apply (ti_owner _ _ _ Hok p).
  - intros p t Hp Ht. destruct (Hback p t Hp Ht) as (t0 & Ht0 & [(Hin & E0 & -> & _)|(Hnin & -> & _)] & _); [done|].
    by apply (ti_config _ _ _ Hok p).
  - pose proof (broken_core now q s s1 ls 0 e 0 Hbr Hu ltac:(done)) as Hc. rewrite (ti_null _ _ _ Hok) in Hc.
    fold s3 in Hc. destruct (pt_timers s3 !! 0); [by destruct (decide _)|done].
  - intros p t Hp Ht. destruct (Hback p t Hp Ht) as (t0 & Ht0 & [(Hin & E0 & _ & _)|(Hnin & -> & _)] & ->).
    + intros _. apply (ti_single _ _ _ Hok p t0 Hp Ht0). by rewrite E0.
    + by apply (ti_single _ _ _ Hok p).
  - done.
  - intros x Hx. assert (x ≠ HEAD) as Hxh by (intros ->; by apply Hh, Huq). split; [done|].
    pose proof (broken_core now q s s1 ls 0 e x Hbr Hu Hxh) as Hc. fold s3 in Hc. rewrite decide_True in Hc by done.
    destruct (levels_live s ls 0%nat x Hl) as [t0 Ht0]; [right; rewrite Hq; by apply Huq|]. rewrite Ht0 in Hc.
    destruct (pt_timers s3 !! x); [by eexists|done].
Qed.

Lemma timers_first s q ls : timers_ok s q [] → skiplist s ls → ls 0%nat = q → nxt s 0%nat HEAD = Some (hd 0 q).
Proof. intros _ Hsk <-. apply linked_head, (lv_linked _ _ (sk_levels _ _ Hsk)). unfold MAX_SKIPLIST_DEPTH. lia. Qed.

Lemma expired_first s ls q x l now :
  skiplist s ls → ls 0%nat = q → q = x :: l → now < expire s x → expired s now q = [].
Proof.
  intros Hsk Hq -> Hlt. pose proof (lv_order _ _ (sk_levels _ _ Hsk)) as Ho. rewrite Hq in Ho. destruct Ho as [Hx _].
  unfold expired, upto. rewrite filter_cons_False by lia.
  clear -Hx Hlt. induction l as [|y l IH]; [done|]. inversion Hx; subst. rewrite filter_cons_False by lia. by apply IH.
Qed.

Lemma linked_parted now q e s s1 ls x u :
  broken now ls 0 s s1 → ls 0%nat = q → expired s now q = x :: u → linked (nxt s1 0%nat) x u →
  linked (nxt (parted now q e s s1) 0%nat) x u.
Proof. intros _ _ _ Hl. eapply linked_ext; [|exact Hl]. intros z _. unfold parted. by rewrite nxt_head_expire, nxt_marked. Qed.

(** The second half of a pass: the functions of the timers that are due are called. *)
Lemma wp_pass_tail now q s s1 ls e x u :
  timers_ok s q [] → skiplist s ls → ls 0%nat = q → broken now ls 0 s s1 →
  (∀ y l, remaining s now q = y :: l → e = expire s y) →
  known D s → 0 < pt_cycles s → pt_cycles s + b * zlen (expired s now q) + T < 2 ^ 64 →
  expired s now q = x :: u → x ≠ 0 →
  wp (fuel ← timer_fuel; _ ← run_expired lcore rte_rand callback fuel x now; modify (λ s, s <| running_tim := 0 |>))
    (λ _ s', pass_end D (expired s now q) s s') (parted now q e s s1).
Proof.
  intros Hok Hsk Hq Hbr He HD Hcy Hbig Hu Hx0. pose proof (broken_ok now q s s1 ls e Hok Hsk Hq Hbr He) as Hok3.
  pose proof (ti_nodup _ _ _ Hok3) as Hnd. pose proof (broken_core now q s s1 ls 0 e) as Hcore.
  pose proof Hbr as [[_ _ _ _ B5 _ B7] _ _ _ Hrun].
  pose proof (linked_parted now q e s s1 ls x u Hbr Hq Hu (Hrun x u eq_refl ltac:(by rewrite Hq))) as Hlk.
  set (s3 := parted now q e s s1) in *.
  assert (pt_cycles s3 = pt_cycles s ∧ pt_fired s3 = pt_fired s) as [Hcy3 Hf3].
  { destruct (marked_rest (expired s now q) s1) as (_ & _ & E3 & _ & E5 & _).
    split; [transitivity (pt_cycles s1); [exact E3|congruence]|transitivity (pt_fired s1); [exact E5|congruence]]. }
  assert (∀ y, y ≠ HEAD → is_Some (pt_timers s !! y) → is_Some (pt_timers s3 !! y)) as Hlive.
  { intros y Hy [t Ht]. specialize (Hcore y Hbr Hnd Hy). rewrite Ht in Hcore. fold s3 in Hcore.
    destruct (pt_timers s3 !! y); [by eexists|by destruct (decide _)]. }
  unfold timer_fuel. rewrite wp_bind, wp_gets, wp_bind. eapply wp_mono.
  { apply (wp_run_expired now (expired s now q) _ x (remaining s now q) s3 Hok3); rewrite ?Hcy3; try done.
    - intros y Hy. destruct (HD y Hy). split; [done|]. by apply Hlive.
    - by rewrite Hu.
    - rewrite Hu. intros y k [= <- <-]. done.
    - apply Nat.lt_succ_r, live_length; [done|]. intros y Hy. by apply (ti_live _ _ _ Hok3). }
  intros ? s4 [(q4 & F1) F2 F3 F4]. rewrite wp_modify. split; [exists q4; by apply (timers_ok_fields q4 [] s4)|done| |].
  - change (pt_fired (s4 <| running_tim := 0 |>)) with (pt_fired s4). rewrite F3, Hf3. f_equal. apply list_fmap_ext. intros i y Hy.
    apply list_elem_of_lookup_2 in Hy. assert (y ≠ HEAD) as Hyh by apply (ti_live _ _ _ Hok3 y Hy).
    specialize (Hcore y Hbr Hnd Hyh). rewrite decide_True in Hcore by done. fold s3 in Hcore. unfold call_of.
    destruct (pt_timers s3 !! y), (pt_timers s !! y); try done. cbn in Hcore.
    injection Hcore as _ _ _ _ E5 E6. cbn. by rewrite E5, E6.
  - intros y H1 H2 H3. change (pt_timers (s4 <| running_tim := 0 |>)) with (pt_timers s4). rewrite F4 by done.
    specialize (Hcore y Hbr Hnd H1). by rewrite decide_False in Hcore by done.
Qed.
Lemma broken_start now ls s : skiplist s ls → broken now ls (curr_skiplist_depth s) s s.
Proof.
  intros Hsk. pose proof (sk_levels _ _ Hsk) as Hl. split; [apply same_but_links_refl| |done| |].
  - intros i Hi. pose proof (lv_linked _ _ Hl i ltac:(lia)) as Hlk.
    unfold remaining. rewrite (sk_empty _ _ Hsk i) in * by lia. exact Hlk.
  - split_and!; [done|done|lia|]. intros i Hi. unfold remaining. by rewrite (sk_empty _ _ Hsk i) by lia.
  - intros y k Hd. rewrite (sk_empty _ _ Hsk 0%nat) by lia. done.
Qed.

(** Marking what is due. *)
Lemma wp_mark_due now q s s1 ls x u (Q : Z → priv_timer W → Prop) :
  timers_ok s q [] → skiplist s ls → ls 0%nat = q → broken now ls 0 s s1 → expired s now q = x :: u → x ≠ 0 →
  Q x (marked (expired s now q) s1) → wp (mark_running lcore (Datatypes.S (size (pt_timers s1))) x None x) Q s1.
Proof.
  intros Hok Hsk Hq Hbr Hu Hx0 HQ. pose proof (sk_levels _ _ Hsk) as Hl.
  pose proof (lv_nodup _ _ Hl) as [Hhn Hnd]%NoDup_cons. rewrite Hq in Hhn, Hnd.
  assert (NoDup (expired s now q)) as Hndu by by apply NoDup_filter.
  pose proof (br_run _ _ _ _ _ Hbr x u eq_refl ltac:(by rewrite Hq)) as Hrun.
  eapply wp_mono; [apply (wp_mark_running (expired s now q) _ x None x s1 Hndu)|].
  - by rewrite Hu.
  - rewrite Hu. intros y k [= <- <-]. done.
  - intros y [_ Hy]%elem_upto. assert (y ≠ HEAD) as Hyh by (by intros ->).
    destruct (levels_live s ls 0%nat y Hl) as [ty Hty]; [right; by rewrite Hq|].
    pose proof (proj2 (ti_pending _ _ _ Hok y ty Hyh Hty) Hy) as Hp.
    pose proof (sl_core _ _ (br_same _ _ _ _ _ Hbr) y) as Hc. rewrite Hty in Hc.
    destruct (pt_timers s1 !! y) as [ty1|]; [|done]. exists ty1. split; [done|].
    assert (core ty1 = core ty) as Hct by (cbn in Hc; congruence). by apply core_fields in Hct as (-> & _).
  - apply Nat.lt_succ_r, live_length; [done|]. rewrite Hu. intros y Hy. by eapply linked_live.
  - by intros r s2 [-> ->].
Qed.

(** The expiry of the first timer of a list, or 0. *)
Lemma wp_first_expire (s2 : priv_timer W) l (Q : Z → priv_timer W → Prop) :
  linked (nxt s2 0%nat) HEAD l → Q (match l with y :: _ => expire s2 y | [] => 0 end) s2 →
  wp (if hd 0 l =? 0 then mret 0 else t ← timer_read (hd 0 l); mret (tm_expire t)) Q s2.
Proof.
  intros Hlk HQ. destruct l as [|y r]; cbn [hd]; [exact HQ|]. destruct Hlk as (Hy0 & _ & Hlk).
  rewrite (proj2 (Z.eqb_neq _ _) Hy0), wp_bind. destruct (linked_live _ _ _ _ y Hlk) as [ty Hty]; [left|].
  apply (wp_timer_read y ty); [done|]. unfold expire in HQ. by rewrite Hty in HQ.
Qed.

(** The first half of a pass ends with the list divided. *)
Lemma wp_manage_due now q s ls x u {A} (m : Z → M (priv_timer W) A) Q :
  timers_ok s q [] → skiplist s ls → ls 0%nat = q → expired s now q = x :: u → x ≠ 0 →
  (∀ s1 e, broken now ls 0 s s1 → (∀ y l, remaining s now q = y :: l → e = expire s y) → wp (m x) Q (parted now q e s s1)) →
  wp (prev ← timer_get_prev_entries now; depth ← gets curr_skiplist_depth; _ ← break_levels prev depth;
      fuel ← timer_fuel; run_first ← mark_running lcore fuel x None x; nx ← get_next PENDING_HEAD 0;
      e ← (if nx =? 0 then mret 0 else t ← timer_read nx; mret (tm_expire t));
      _ ← timer_write PENDING_HEAD (λ h, h <| tm_expire := e |>); m run_first) Q s.
Proof.
  intros Hok Hsk Hq Hu Hx0 HQ. rewrite wp_bind. eapply wp_mono; [by apply (wp_prev_entries ls now s)|].
  intros prev s0 [-> ->]. rewrite wp_bind, wp_gets, wp_bind. eapply wp_mono.
  { apply (wp_break_levels now ls _ s Hsk (curr_skiplist_depth s) s); [done|intros i Hi; apply lookup_prevs; lia|].
    by apply broken_start. }
  intros ? s1 Hbr. cbn beta. pose proof (ti_nodup _ _ _ (broken_ok now q s s1 ls
    (match remaining s now q with y :: _ => expire s y | [] => 0 end) Hok Hsk Hq Hbr ltac:(by intros y l ->))) as Hndu.
  unfold timer_fuel. rewrite wp_bind, wp_gets, wp_bind. eapply (wp_mark_due now q s s1 ls x u); [done..|].
  set (s2 := marked (expired s now q) s1). pose proof (broken_levels now q s s1 ls Hsk Hq Hbr Hndu) as Hl2. fold s2 in Hl2.
  pose proof (lv_linked _ _ Hl2 0%nat ltac:(unfold MAX_SKIPLIST_DEPTH; lia)) as Hlk2. cbn beta in Hlk2. rewrite Hq in Hlk2.
  rewrite wp_bind. apply (wp_get_next _ _ _ _ _ (linked_head _ _ _ Hlk2)). rewrite wp_bind. apply (wp_first_expire _ _ _ Hlk2).
  destruct (lv_head _ _ Hl2) as [h2 Hh2]. rewrite wp_bind. apply (wp_timer_write HEAD h2); [done|].
  apply (HQ s1); [done|]. intros y k ->. rewrite <- (expire_same s s1 y (br_same _ _ _ _ _ Hbr)).
  unfold expire, s2. rewrite lookup_marked by done. destruct (decide _); [|done]. by destruct (pt_timers s1 !! y).
Qed.

(** What the functions are called from. *)
Definition call_expired (x now : Z) : M (priv_timer W) unit :=
  fuel ← timer_fuel; _ ← run_expired lcore rte_rand callback fuel x now; modify (λ s, s <| running_tim := 0 |>).

Lemma wp_manage_start q s (Q : unit → priv_timer W → Prop) :
  timers_ok s q [] → (expired s (pt_cycles s) q = [] → Q tt s) →
  (∀ ls s1 e x u, skiplist s ls → ls 0%nat = q → broken (pt_cycles s) ls 0 s s1 →
    (∀ y l, remaining s (pt_cycles s) q = y :: l → e = expire s y) →
    expired s (pt_cycles s) q = x :: u → x ≠ 0 →
    wp (call_expired x (pt_cycles s)) Q (parted (pt_cycles s) q e s s1)) →
  wp (rte_timer_manage lcore rte_rand callback) Q s.
Proof.
  intros Hok Hnone Hdue. set (now := pt_cycles s) in *. destruct (ti_list _ _ _ Hok) as (ls & Hsk & Hq).
  pose proof (sk_levels _ _ Hsk) as Hl. pose proof (timers_first s q ls Hok Hsk Hq) as Hfirst.
  unfold rte_timer_manage. rewrite wp_bind. apply (wp_get_next _ _ _ _ _ Hfirst).
  destruct q as [|x l]; cbn [hd]; [cbn [Z.eqb]; rewrite wp_ret; by apply Hnone|].
  assert (x ≠ 0 ∧ is_Some (pt_timers s !! x)) as [Hx0 [t Ht]].
  { pose proof (lv_linked _ _ Hl 0%nat ltac:(unfold MAX_SKIPLIST_DEPTH; lia)) as Hlk. rewrite Hq in Hlk.
    split; [apply Hlk|]. apply (levels_live s ls 0%nat x Hl). rewrite Hq. right. left. }
  rewrite (proj2 (Z.eqb_neq _ _) Hx0), wp_bind, wp_gets. fold now. destruct (lv_head _ _ Hl) as [h Hh].
  rewrite wp_bind. apply (wp_timer_read HEAD h); [done|].
  assert (tm_expire h = expire s x ∧ tm_expire t = expire s x) as [-> Et].
  { pose proof (sk_first _ _ Hsk x l Hq) as E. unfold expire in E |- *. rewrite Hh, Ht in E. by rewrite Ht. }
  destruct (Z.ltb_spec now (expire s x)) as [Hlt|Hge].
  { rewrite wp_ret. apply Hnone. by eapply expired_first. }
  rewrite wp_bind. apply (wp_timer_read x t); [done|]. rewrite Et, (proj2 (Z.ltb_ge _ _)) by done.
  assert (∃ u, expired s now (x :: l) = x :: u) as [u Hu].
  { unfold expired, upto. rewrite filter_cons_True by done. by eexists. }
  apply (wp_manage_due now (x :: l) s ls x u); [done..|]. intros s1 e Hbr He. by apply (Hdue ls s1 e x u).
Qed.

Lemma wp_manage q s :
  timers_ok s q [] → known D s → 0 < pt_cycles s →
  pt_cycles s + b * zlen (expired s (pt_cycles s) q) + T < 2 ^ 64 →
  wp (rte_timer_manage lcore rte_rand callback) (λ _ s',
    pass_end D (expired s (pt_cycles s) q) s s' ∧ (expired s (pt_cycles s) q = [] → s' = s)) s.
Proof.
  intros Hok HD Hcy Hbig. apply (wp_manage_start q); [done| |].
  - intros Hnil. split; [|done]. rewrite Hnil. split; [by exists q|done|by rewrite app_nil_r|done].
  - intros ls s1 e x u Hsk Hq Hbr He Hu Hx0. eapply wp_mono; [by apply (wp_pass_tail _ q s s1 ls e x u)|].
    intros ? s4 Hend. split; [exact Hend|]. by rewrite Hu.
Qed.
End pass.

(** A pass in which one timer has expired, whose function sets or stops it. *)
Lemma wp_manage_one q s x (Q : unit → priv_timer W → Prop) :
  timers_ok s q [] → expired s (pt_cycles s) q = [x] →
  (∀ s3 t, pt_timers s3 !! x = Some t → timers_ok s3 (remaining s (pt_cycles s) q) [x] → running_tim s3 = x →
    pt_cycles s3 = pt_cycles s → pt_world s3 = pt_world s → call_of s3 x = call_of s x →
    (∀ y, y ∈ remaining s (pt_cycles s) q → expire s3 y = expire s y) → pt_updated s3 = false →
    wp (run_prog lcore rte_rand (callback (tm_fn t) x (tm_arg t) (pt_world s)))
      (λ _ s', pt_updated s' = true ∧ Q tt (s' <| running_tim := 0 |>)) s3) →
  wp (rte_timer_manage lcore rte_rand callback) Q s.
Proof.
  intros Hok Hone Hfn. apply (wp_manage_start q); [done|by rewrite Hone|].
  intros ls s1 e ? ? Hsk Hq Hbr He Hu Hx0. rewrite Hone in Hu. injection Hu as <- <-. set (now := pt_cycles s) in *.
  pose proof (broken_ok now q s s1 ls e Hok Hsk Hq Hbr He) as Hok3. rewrite Hone in Hok3.
  pose proof (linked_parted now q e s s1 ls x [] Hbr Hq Hone (br_run _ _ _ _ _ Hbr x [] eq_refl ltac:(by rewrite Hq))) as Hlk.
  pose proof (broken_core now q s s1 ls 0 e) as Hcore. pose proof Hbr as [[_ _ _ _ B5 B6 _] _ _ _ _].
  set (s3 := parted now q e s s1) in *. destruct (marked_rest (expired s now q) s1) as (_ & _ & E3 & E4 & _).
  destruct (ti_live _ _ _ Hok3 x ltac:(left)) as [Hxh [t Ht]].
  unfold call_expired, timer_fuel. rewrite wp_bind, wp_gets, wp_bind.
  destruct (size (pt_timers s3)) as [|n] eqn:Hsz.
  { apply map_size_empty_inv in Hsz. by rewrite Hsz in Ht. }
  cbn [run_expired]. rewrite (proj2 (Z.eqb_neq _ _) Hx0), wp_bind. apply (wp_get_next _ _ _ _ _ Hlk).
  rewrite wp_bind, wp_modify, wp_bind. apply (wp_timer_read x t); [done|]. rewrite wp_bind, wp_gets, wp_bind, wp_modify.
  rewrite wp_bind. set (s4 := _ <| pt_fired := _ |>).
  assert (pt_world s4 = pt_world s) as Hw by (transitivity (pt_world s1); [exact E4|exact B6]).
  change (pt_world (_ <| running_tim := x |>)) with (pt_world s4). rewrite Hw.
  assert (∀ y, y ≠ HEAD → call_of s3 y = call_of s y ∧ expire s3 y = expire s y) as Hsame.
  { intros y Hy. specialize (Hcore y Hbr (ti_nodup _ _ _ (broken_ok now q s s1 ls e Hok Hsk Hq Hbr He)) Hy). fold s3 in Hcore.
    unfold call_of, expire. destruct (pt_timers s3 !! y), (pt_timers s !! y), (decide (y ∈ expired s now q)); try done;
      cbn in Hcore; injection Hcore as E _ _ _ E5 E6; cbn; by rewrite E, E5, E6. }
  eapply wp_mono; [apply (Hfn s4 t)|]; try done.
  - by apply (timers_ok_fields _ _ s3).
  - transitivity (pt_cycles s1); [exact E3|exact B5].
  - by apply (Hsame x).
  - intros y Hy. apply (Hsame y). intros ->. pose proof (lv_nodup _ _ (sk_levels _ _ Hsk)) as [Hh _]%NoDup_cons.
    apply Hh. rewrite Hq. by apply list_elem_of_filter in Hy as [_ ?].
  - intros ? s5 [Hu HQ]. rewrite wp_bind, wp_gets, Hu. exact HQ.
Qed.
End states.

(** ** Composing code that uses the library *)

Section composition.
Context {W : Type} (lcore : Z) (rte_rand : Z → Z * Z).

Lemma run_prog_bind {A B} (c : prog W A) (f : A → prog W B) s :
  run_prog lcore rte_rand (c ≫= f) s = (a ← run_prog lcore rte_rand c; run_prog lcore rte_rand (f a)) s.
Proof.
  unfold mbind at 2, M_bind. revert s.
  induction c as [a| |tim ticks ty fn arg k IH|tim k IH|tim k IH|n k IH|g k IH]; intros s; [done..| | | | |]; cbn;
    unfold mbind, M_bind.
  - destruct (rte_timer_reset _ _ _ _ _ _ _ _) as [[rc s']| |]; [apply IH|done..].
  - destruct (rte_timer_stop _ _ _) as [[rc s']| |]; [apply IH|done..].
  - destruct (rte_timer_pending _ _) as [[b s']| |]; [apply IH|done..].
  - apply IH.
  - apply IH.
Qed.

Lemma wp_prog_bind {A B} (c : prog W A) (f : A → prog W B) Q s :
  wp (run_prog lcore rte_rand (c ≫= f)) Q s ↔
  wp (run_prog lcore rte_rand c) (λ a s', wp (run_prog lcore rte_rand (f a)) Q s') s.
Proof. rewrite <- wp_bind. unfold wp. by rewrite run_prog_bind. Qed.

Lemma prog_ok_mono {A} D T (c : prog W A) : ∀ b b', b ≤ b' → prog_ok D T b c → prog_ok D T b' c.
Proof.
  induction c as [a| |tim ticks ty fn arg k IH|tim k IH|tim k IH|n k IH|g k IH]; intros b b' Hb; cbn; [done..| | | | |].
  - intros (H1 & H2 & H3 & H4). do 3 (split; [done|]). intros rc. by eapply IH.
  - intros [H1 H2]. split; [done|]. intros rc. by eapply IH.
  - intros [H1 H2]. split; [done|]. intros rc. by eapply IH.
  - intros [H1 H2]. split; [lia|]. eapply IH; [|exact H2]. lia.
  - intros H w. by eapply IH.
Qed.

Lemma prog_ok_bind {A B} D T (c : prog W A) (f : A → prog W B) b1 b2 : 0 ≤ b1 → 0 ≤ b2 →
  prog_ok D T b1 c → (∀ a, prog_ok D T b2 (f a)) → prog_ok D T (b1 + b2) (c ≫= f).
Proof.
  intros Hb1 Hb2 Hc Hf. revert b1 Hb1 Hc.
  induction c as [a| |tim ticks ty fn arg k IH|tim k IH|tim k IH|n k IH|g k IH]; intros b1 Hb1; cbn; [| done| | | | |].
  - intros _. eapply prog_ok_mono; [|apply Hf]. lia.
  - intros (H1 & H2 & H3 & H4). do 3 (split; [done|]). intros rc. by apply IH.
  - intros [H1 H2]. split; [done|]. intros rc. by apply IH.
  - intros [H1 H2]. split; [done|]. intros rc. by apply IH.
  - intros [H1 H2]. split; [lia|]. replace (b1 + b2 - n) with (b1 - n + b2) by lia. apply IH; [lia|done].
  - intros H w. by apply IH.
Qed.
End composition.

(** ** The library as its users see it *)

Section interface.
Context {W : Type}.
Context (lcore : Z) (rte_rand : Z → Z * Z).
Implicit Types (s : priv_timer W).

(** Setting a timer.  A timer that waits for its turn in a pass over expired
    timers is refused and nothing changes.  Any other - new, stopped, already pending
    or running its own function - is from then on pending exactly once: it stands
    behind every pending timer that expires before it or at the same time and before
    every one that expires later, whatever level of the skip list the random number
    puts it on; the list stays well formed, the timer has the given function and
    argument, and no other timer, nor the clock, changes. *)
Lemma timer_reset_spec s q run tim t ticks fn arg :
  timers_ok lcore s q run → tim ≠ PENDING_HEAD → pt_timers s !! tim = Some t → 0 < pt_cycles s + ticks < 2 ^ 64 →
  wp (rte_timer_reset lcore rte_rand tim ticks SINGLE fn arg) (λ rc s',
    (busy s run tim → rc = -1 ∧ s' = s) ∧
    (¬ busy s run tim → rc = 0 ∧ was_set lcore tim (pt_cycles s + ticks) fn arg q run s s')) s.
Proof.
  intros Hok Hth Ht He. unfold rte_timer_reset. rewrite wp_bind, wp_gets, wrap64_small by lia.
  destruct (decide (busy s run tim)) as [Hb|Hb].
  - unfold __rte_timer_reset. rewrite wp_bind. eapply wp_mono; [by apply (wp_config_busy lcore tim q run s)|].
    intros r s1 [-> ->]. by rewrite wp_ret.
  - eapply wp_mono; [by apply (wp_reset lcore rte_rand tim t _ fn arg q run s)|]. intros rc s1 H. by split.
Qed.

(** Stopping a timer: refused, without effect, for a timer that waits for its turn
    in a pass over expired timers; any other is not pending afterwards, the others are
    pending in the order they were, and the list stays well formed. *)
Lemma timer_stop_spec s q run tim t :
  timers_ok lcore s q run → tim ≠ PENDING_HEAD → pt_timers s !! tim = Some t →
  wp (rte_timer_stop lcore tim) (λ rc s',
    (busy s run tim → rc = -1 ∧ s' = s) ∧
    (¬ busy s run tim → rc = 0 ∧ was_stopped lcore tim t q run s s')) s.
Proof.
  intros Hok Hth Ht. destruct (decide (busy s run tim)) as [Hb|Hb].
  - unfold rte_timer_stop. rewrite wp_bind. eapply wp_mono; [by apply (wp_config_busy lcore tim q run s)|].
    intros r s1 [-> ->]. by rewrite wp_ret.
  - eapply wp_mono; [by apply (wp_stop lcore tim t q run s)|]. intros rc s1 H. by split.
Qed.

(** [rte_timer_stop_sync] never returns for a timer that waits for its turn in a
    pass over expired timers: however often the loop goes round, the timer cannot be
    stopped, since the pass that would run it is the caller's own. *)
Lemma stop_sync_hangs s q run tim fuel :
  timers_ok lcore s q run → busy s run tim → rte_timer_stop_sync lcore fuel tim s = Fault.
Proof.
  intros Hok Hb.
  assert (rte_timer_stop lcore tim s = Done (-1, s)) as Hstop.
  { pose proof (wp_config_busy lcore tim q run s Hok Hb) as Hc. unfold wp in Hc.
    unfold rte_timer_stop, mbind, M_bind. destruct (timer_set_config_state lcore tim s) as [[r s1]| |]; [|done..].
    destruct Hc as [-> ->]. done. }
  induction fuel as [|fuel IH]; [done|]. cbn [rte_timer_stop_sync]. unfold mbind, M_bind. by rewrite Hstop.
Qed.

(** C17. A pass over expired timers ends, whatever the timers' functions do with the
    timers - among them to set or stop the running timer, another one of this pass or
    itself: it calls exactly the functions of the timers that had expired when it
    began, each once, in the order of their expiry and, for equal times, of their
    setting; the timers set during the pass wait for the next one.  Afterwards the list
    is well formed and no timer is left marked as running.  When nothing has expired
    nothing changes. *)
Theorem timer_manage_spec (callback : Z → Z → Z → W → prog W unit) D T b s q :
  0 ≤ T → 0 ≤ b → (∀ fn tim arg w, prog_ok D T b (callback fn tim arg w)) →
  timers_ok lcore s q [] → known D s → 0 < pt_cycles s →
  pt_cycles s + b * zlen (expired s (pt_cycles s) q) + T < 2 ^ 64 →
  wp (rte_timer_manage lcore rte_rand callback) (λ _ s',
    pass_end lcore D (expired s (pt_cycles s) q) s s' ∧ (expired s (pt_cycles s) q = [] → s' = s)) s.
Proof. intros HT Hb Hc Hok HD Hcy Hbig. by apply (wp_manage lcore rte_rand callback D T b). Qed.
End interface.

(** ** A core with four timers *)

(** Timers in zeroed memory after [rte_timer_init]. *)
Definition fresh_timers {W} (ids : list Z) (cycles : Z) (w : W) : priv_timer W :=
  let zeros := replicate MAX_SKIPLIST_DEPTH 0 in
  mk_priv (<[PENDING_HEAD := mk_rte_timer 0 zeros RTE_TIMER_STOP 0 0 0 0]>
             (list_to_map ((λ x, (x, mk_rte_timer 0 zeros RTE_TIMER_STOP RTE_TIMER_NO_OWNER 0 0 0)) <$> ids)))
    false 0 0 cycles 1 w [].

Lemma fresh_ok {W} lcore ids cycles (w : W) : 0 ∉ ids → timers_ok lcore (fresh_timers ids cycles w) [] [].
Proof.
  intros H0. set (s := fresh_timers ids cycles w).
  assert (∀ p t, pt_timers s !! p = Some t →
    tm_sl_next t = replicate MAX_SKIPLIST_DEPTH 0 ∧ tm_state t = RTE_TIMER_STOP) as Hz.
  { intros p t. unfold s, fresh_timers. cbn [pt_timers]. intros [[<- <-]|[_ Ht]]%lookup_insert_Some; [done|].
    apply elem_of_list_to_map_2, list_elem_of_fmap in Ht as (x & [= -> ->] & _). done. }
  assert (is_Some (pt_timers s !! PENDING_HEAD)) as Hh by (unfold s, fresh_timers; cbn [pt_timers]; rewrite lookup_insert_eq; by eexists).
  split; try done.
  - exists (λ _, []). split; [|done]. split; [split| | | |]; try done.
    + intros i Hi. cbn. destruct Hh as [h Hh]. apply nxt_Some. exists h. split; [done|].
      destruct (Hz _ _ Hh) as [-> _]. by apply lookup_replicate.
    + apply NoDup_singleton.
    + intros p t Ht. by destruct (Hz p t Ht) as [-> _].
    + cbn. unfold MAX_SKIPLIST_DEPTH. lia.
    + cbn. lia.
  - intros p t _ Ht. destruct (Hz p t Ht) as [_ ->]. split; [done|]. by intros ?%not_elem_of_nil.
  - intros p t _ Ht. destruct (Hz p t Ht) as [_ ->]. split; [done|]. by intros ?%not_elem_of_nil.
  - intros p t _ Ht. by destruct (Hz p t Ht) as [_ ->].
  - intros p t _ Ht. by destruct (Hz p t Ht) as [_ ->].
  - unfold s, fresh_timers. cbn [pt_timers]. rewrite lookup_insert_ne by done. apply not_elem_of_list_to_map_1.
    rewrite <- list_fmap_compose. cbn. by rewrite list_fmap_id.
  - intros p t _ Ht. by destruct (Hz p t Ht) as [_ ->].
  - constructor.
  - intros x ?%not_elem_of_nil. done.
Qed.

(** The state after a timer is set, and when a timer of a pass waits for its turn. *)
Definition after_reset {W} (lcore : Z) (rte_rand : Z → Z * Z) (tim ticks fn arg : Z) (s : priv_timer W) : priv_timer W :=
  match rte_timer_reset lcore rte_rand tim ticks SINGLE fn arg s with Done (_, s') => s' | _ => s end.

Lemma after_reset_ok {W} lcore rte_rand tim ticks fn arg q (s : priv_timer W) :
  timers_ok lcore s q [] → tim ≠ PENDING_HEAD → is_Some (pt_timers s !! tim) → 0 < pt_cycles s + ticks < 2 ^ 64 →
  timers_ok lcore (after_reset lcore rte_rand tim ticks fn arg s)
    (insert_at (expire s) (pt_cycles s + ticks) tim (filter (.≠ tim) q)) [].
Proof.
  intros Hok Hth [t Ht] He.
  pose proof (timer_reset_spec lcore rte_rand s q [] tim t ticks fn arg Hok Hth Ht He) as H.
  unfold after_reset. unfold wp in H. destruct (rte_timer_reset _ _ _ _ _ _ _ s) as [[rc s']| |]; [|done..].
  by destruct (proj2 H ltac:(by intros [?%not_elem_of_nil _])) as [_ [Hok' _ _ _]].
Qed.

Lemma running_ok {W} lcore x q run (s : priv_timer W) :
  timers_ok lcore s q run → x ≠ PENDING_HEAD → x ≠ 0 → x ∉ q → x ∉ run →
  (∃ t, pt_timers s !! x = Some t ∧ tm_period t = 0) → timers_ok lcore (altered x (running_status lcore) s) q (x :: run).
Proof.
  intros Hok Hh H0 Hq Hr (t & Ht & Hp). destruct (ti_list _ _ _ _ Hok) as (ls & Hsk & Hls).
  apply (timers_ok_change lcore x (core (running_status lcore t)) false q q run (x :: run) s); try done.
  - apply rest_altered.
  - exists ls. split; [|done]. by apply skiplist_altered.
  - unfold altered. cbn. by rewrite lookup_alter_eq, Ht.
  - split; [intros _; left|done].
  - intros y Hy. rewrite elem_of_cons. naive_solver.
  - apply NoDup_cons. split; [done|apply Hok].
Qed.

Section demo.
#[local] Definition demo_rand (seed : Z) : Z * Z := let n := wrap32 (seed * 1103515245 + 12345) in (n, n).
(** The first function takes three cycles and tries to stop timer 10, the second sets
    timer 12 again. *)
#[local] Definition demo_callback (fn tim arg : Z) (w : unit) : prog unit unit :=
  if fn =? 1 then P_elapse 3 (P_stop 10 (λ _, P_ret tt))
  else if fn =? 2 then P_reset 12 5 SINGLE 2 0 (λ _, P_ret tt) else P_ret tt.
#[local] Definition demo_set (tim ticks fn : Z) := after_reset (W := unit) 1 demo_rand tim ticks fn 0.
#[local] Definition demo_s : priv_timer unit :=
  demo_set 13 50 3 (demo_set 12 10 2 (demo_set 11 10 1 (demo_set 10 30 3 (fresh_timers [10; 11; 12; 13] 100 tt)))).
(** 35 cycles later. *)
#[local] Definition demo_late : priv_timer unit := demo_s <| pt_cycles := 135 |>.

Lemma timers_demo_ok : timers_ok 1 demo_s [11; 12; 10; 13] [].
Proof.
  pose proof (fresh_ok 1 [10; 11; 12; 13] 100 tt ltac:(set_solver)) as H0.
  apply (after_reset_ok 1 demo_rand 10 30 3 0) in H0; [|done|by eexists|done].
  apply (after_reset_ok 1 demo_rand 11 10 1 0) in H0; [|done|vm_compute; by eexists|done].
  apply (after_reset_ok 1 demo_rand 12 10 2 0) in H0; [|done|vm_compute; by eexists|done].
  apply (after_reset_ok 1 demo_rand 13 50 3 0) in H0; [|done|vm_compute; by eexists|done].
  exact H0.
Qed.

(** Timer 10 is called although the function of timer 11 stops it; timer 12, set again
    by its own function, is called once. *)
Lemma timer_manage_spec_witness :
  wp (rte_timer_manage 1 demo_rand demo_callback)
    (λ _ s', pt_fired s' = [(1, 11, 0); (2, 12, 0); (3, 10, 0)] ∧ ∃ q, timers_ok 1 s' q []) demo_late.
Proof.
  assert (timers_ok 1 demo_late [11; 12; 10; 13] []) as Hok by (by apply (timers_ok_fields 1 _ [] demo_s); [..|apply timers_demo_ok]).
  refine (wp_mono _ _ _ _ (timer_manage_spec 1 demo_rand demo_callback {[10; 11; 12; 13]} 5 3 demo_late [11; 12; 10; 13] _ _ _ Hok _ _ _) _);
    [done|done| | |done|vm_compute; done|].
  - intros fn tim arg w. unfold demo_callback. destruct (fn =? 1); [|destruct (fn =? 2)]; cbn; split_and?; try done; set_solver.
  - intros x Hx. assert (x = 10 ∨ x = 11 ∨ x = 12 ∨ x = 13) as Hx' by set_solver.
    destruct Hx' as [->|[->|[->| ->]]]; (split; [done|vm_compute; by eexists]).
  - intros ? s' [[H1 _ H3 _] _]. split; [|exact H1]. rewrite H3. reflexivity.
Defined.
End demo.
