(* ===== verification/Timing.v ===== *)
(** * Time: conversions (porting/timing_porting.c)

    The ported stack counts time in jiffies, [HZ] to the second; the system tick adds
    one every thousandth of a second (KTimer). *)

From S2P Require Import Prelude.

(** ** 64-bit integers *)

Definition sint64 (x : Z) : Z := (x + 2 ^ 63) mod 2 ^ 64 - 2 ^ 63.

Lemma sint64_small x : - 2 ^ 63 ≤ x < 2 ^ 63 → sint64 x = x.
Proof. intros H. unfold sint64. rewrite Z.mod_small; lia. Qed.
Lemma wrap64_add_wrap x y : wrap64 (wrap64 x + y) = wrap64 (x + y).
Proof. apply Zplus_mod_idemp_l. Qed.
Lemma wrap64_sub_wrap x y : wrap64 (wrap64 x - y) = wrap64 (x - y).
Proof. apply Zminus_mod_idemp_l. Qed.
Lemma wrap64_sub_wrap_r x y : wrap64 (x - wrap64 y) = wrap64 (x - y).
Proof. apply Zminus_mod_idemp_r. Qed.

(** [CONFIG_HZ] of the library's build, and the kernel's constants. *)
Definition HZ : Z := 1000.
Definition USER_HZ : Z := 100.
Definition NSEC_PER_SEC : Z := 1000000000.
Definition TICK_NSEC : Z := (NSEC_PER_SEC + HZ / 2) / HZ.

(** ** Conversions (timing_porting.c) *)

Definition round_jiffies_up (j : Z) : Z := j.
Definition get_seconds : Z := 0.
Definition jiffies_to_usecs (j : Z) : Z := wrap32 (j / 1000).
Definition msecs_to_jiffies (m : Z) : Z := m.
Definition usecs_to_jiffies (u : Z) : Z := wrap32 (u * 1000).
Definition jiffies_to_msecs (j : Z) : Z := wrap32 j.
(** [TICK_NSEC % (NSEC_PER_SEC / USER_HZ)] is not 0, so the last branch is compiled. *)
Definition jiffies_to_clock_t (x : Z) : Z := wrap64 (x * TICK_NSEC) / (NSEC_PER_SEC / USER_HZ).

Record timespec := mk_timespec { tv_sec : Z; tv_nsec : Z }.
Record timeval := mk_timeval { tval_sec : Z; tval_usec : Z }.

(** The bodies that read a clock are compiled out: the caller's [timespec] stays as it
    was. *)
Definition ktime_get_real : Z := 0.
Definition __getnstimeofday (ts : timespec) : Z * timespec := (0, ts).
Definition getnstimeofday (ts : timespec) : timespec := snd (__getnstimeofday ts).

(** C's division truncates; [rem] is negative with the dividend. *)
Definition ns_to_timespec (nsec : Z) : timespec :=
  if nsec =? 0 then mk_timespec 0 0
  else
    let sec := Z.quot nsec NSEC_PER_SEC in
    let rem := Z.rem nsec NSEC_PER_SEC in
    if rem <? 0 then mk_timespec (sec - 1) (rem + NSEC_PER_SEC) else mk_timespec sec rem.

Definition ns_to_timeval (nsec : Z) : timeval :=
  let ts := ns_to_timespec nsec in mk_timeval (tv_sec ts) (Z.quot (tv_nsec ts) 1000).

(** [time_before(a, b)] of dummies.h. *)
Definition time_before (a b : Z) : bool := sint64 (wrap64 (a - b)) <? 0.

Definition round_jiffies_common (jiffies j cpu : Z) (force_up : bool) : Z :=
  let original := j in
  let j := wrap64 (j + cpu * 3) in
  let rem := j mod HZ in
  let j := if (rem <? HZ / 4) && negb force_up then wrap64 (j - rem) else wrap64 (j - rem + HZ) in
  let j := wrap64 (j - cpu * 3) in
  if time_before jiffies j then j else original.

Definition __round_jiffies_relative (jiffies j cpu : Z) : Z :=
  wrap64 (round_jiffies_common jiffies (wrap64 (j + jiffies)) cpu false - jiffies).
Definition round_jiffies_relative (jiffies cpu j : Z) : Z := __round_jiffies_relative jiffies j cpu.

(** ** Seconds and fractions *)

Lemma ns_to_timespec_floor nsec :
  ns_to_timespec nsec = mk_timespec (nsec / NSEC_PER_SEC) (nsec mod NSEC_PER_SEC).
Proof.
  unfold ns_to_timespec. change NSEC_PER_SEC with 1000000000.
  destruct (Z.eqb_spec nsec 0) as [->|Hne]; [done|].
  pose proof (Z.quot_rem nsec 1000000000 ltac:(lia)) as Hqr.
  pose proof (Z.rem_bound_abs nsec 1000000000 ltac:(lia)) as Hb.
  pose proof (Z.div_mod nsec 1000000000 ltac:(lia)) as Hdm.
  pose proof (Z.mod_pos_bound nsec 1000000000 ltac:(lia)) as Hm.
  cbv zeta. destruct (Z.ltb_spec (Z.rem nsec 1000000000) 0); f_equal; lia.
Qed.

(** Times before and after the epoch split alike: the nanoseconds of
    [ns_to_timespec] are always between 0 and a second, seconds and nanoseconds make
    up the time exactly, for negative times too, and [ns_to_timeval] rounds down to
    the microsecond. *)
Lemma ns_split_spec nsec :
  let ts := ns_to_timespec nsec in
  let tv := ns_to_timeval nsec in
  nsec = tv_sec ts * NSEC_PER_SEC + tv_nsec ts ∧ 0 ≤ tv_nsec ts < NSEC_PER_SEC ∧
  tval_sec tv = tv_sec ts ∧ 0 ≤ tval_usec tv < 1000000 ∧
  0 ≤ nsec - (tval_sec tv * NSEC_PER_SEC + tval_usec tv * 1000) < 1000.
Proof.
  cbv zeta. unfold ns_to_timeval. rewrite ns_to_timespec_floor. cbn [tv_sec tv_nsec tval_sec tval_usec].
  change NSEC_PER_SEC with 1000000000.
  pose proof (Z.div_mod nsec 1000000000 ltac:(lia)) as Hdm.
  pose proof (Z.mod_pos_bound nsec 1000000000 ltac:(lia)) as Hm.
  set (n := nsec mod 1000000000) in *. rewrite Z.quot_div_nonneg by lia.
  pose proof (Z.div_mod n 1000 ltac:(lia)) as Hdm'. pose proof (Z.mod_pos_bound n 1000 ltac:(lia)).
  lia.
Qed.

(** ** Rounding to whole seconds *)

Lemma time_before_spec a b : 0 ≤ a < 2 ^ 63 → 0 ≤ b < 2 ^ 63 → time_before a b = (a <? b).
Proof.
  intros Ha Hb. unfold time_before, sint64, wrap64.
  destruct (Z.le_gt_cases b a).
  - rewrite (Z.mod_small (a - b)) by lia. rewrite Z.mod_small by lia.
    rewrite (proj2 (Z.ltb_ge _ _)) by lia. by rewrite (proj2 (Z.ltb_ge _ _)) by lia.
  - replace ((a - b) mod 2 ^ 64) with (a - b + 2 ^ 64)
      by (apply Z.mod_unique with (-1); lia).
    replace ((a - b + 2 ^ 64 + 2 ^ 63) mod 2 ^ 64) with (a - b + 2 ^ 63)
      by (apply Z.mod_unique with 1; lia).
    rewrite (proj2 (Z.ltb_lt _ _)) by lia. by rewrite (proj2 (Z.ltb_lt _ _)) by lia.
Qed.

(** The rounding, without wrap-around. *)
Lemma round_jiffies_common_spec jiffies j cpu force_up :
  0 ≤ jiffies < 2 ^ 63 → 0 ≤ cpu → 0 ≤ j → j + 3 * cpu + HZ < 2 ^ 63 → 3 * cpu ≤ j →
  let up := j + 3 * cpu in
  let whole := if (up mod HZ <? HZ / 4) && negb force_up then up - up mod HZ
               else up - up mod HZ + HZ in
  HZ ≤ j →
  round_jiffies_common jiffies j cpu force_up =
    if jiffies <? whole - 3 * cpu then whole - 3 * cpu else j.
Proof.
  change HZ with 1000. intros Hj Hc Hj0 Hbig Hcj up whole Hbig'. unfold round_jiffies_common.
  change HZ with 1000. cbv zeta.
  assert (wrap64 (j + cpu * 3) = up) as E1 by (unfold up; rewrite wrap64_small by lia; lia). rewrite E1.
  pose proof (Z.mod_pos_bound up 1000 ltac:(lia)) as Hm.
  assert ((if (up mod 1000 <? 1000 / 4) && negb force_up then wrap64 (up - up mod 1000)
           else wrap64 (up - up mod 1000 + 1000)) = whole) as ->.
  { unfold whole. destruct (_ && _); apply wrap64_small; unfold up in *; lia. }
  assert (0 ≤ whole - 3 * cpu < 2 ^ 63) as Hw by (unfold whole, up in *; destruct (_ && _); lia).
  replace (wrap64 (whole - cpu * 3)) with (whole - 3 * cpu) by (rewrite wrap64_small by lia; lia).
  by rewrite time_before_spec.
Qed.

(** Rounding a timeout to whole seconds stays near it and in the future: the
    result is the timeout itself, or such that the firing time, skewed by three
    jiffies per processor, is a whole second; it is at most a quarter of a second
    early and three quarters late, and a positive timeout stays positive. *)
Lemma round_jiffies_bounds jiffies j cpu :
  0 ≤ jiffies → 0 ≤ cpu → 0 < j → HZ ≤ j + jiffies → 3 * cpu ≤ j + jiffies →
  j + jiffies + 3 * cpu + HZ < 2 ^ 63 →
  let r := round_jiffies_relative jiffies cpu j in
  0 < r ∧ (r = j ∨ (jiffies + r + 3 * cpu) mod HZ = 0) ∧ - (HZ / 4) < r - j ≤ 3 * HZ / 4.
Proof.
  change HZ with 1000. intros Hj Hc Hj0 Hbig Hcj Hmax r.
  unfold r, round_jiffies_relative, __round_jiffies_relative.
  rewrite (wrap64_small (j + jiffies)) by lia.
  rewrite round_jiffies_common_spec by (change HZ with 1000; lia). change HZ with 1000.
  rewrite andb_true_r. set (up := j + jiffies + 3 * cpu) in *.
  pose proof (Z.mod_pos_bound up 1000 ltac:(lia)) as Hm. pose proof (Z.div_mod up 1000 ltac:(lia)) as Hdm.
  change (1000 / 4) with 250. change (3 * 1000 / 4) with 750.
  set (whole := if up mod 1000 <? 250 then _ else _).
  assert (whole mod 1000 = 0 ∧ - 250 < whole - up ≤ 750) as [Hw0 Hw].
  { unfold whole. destruct (Z.ltb_spec (up mod 1000) 250); split; try lia.
    - replace (up - up mod 1000) with (up / 1000 * 1000) by lia. apply Z.mod_mul. lia.
    - replace (up - up mod 1000 + 1000) with ((up / 1000 + 1) * 1000) by lia. apply Z.mod_mul. lia. }
  clearbody whole. destruct (Z.ltb_spec jiffies (whole - 3 * cpu)).
  - rewrite wrap64_small by lia. split_and!; [lia| |lia|lia]. right.
    replace (jiffies + (whole - 3 * cpu - jiffies) + 3 * cpu) with whole by lia. done.
  - rewrite wrap64_small by lia. split_and!; [lia| |lia|lia]. left. lia.
Qed.

(** 500 jiffies on processor 2, at jiffy 1234567. *)
Example round_jiffies_demo :
  round_jiffies_relative 1234567 2 1600 = 1427 ∧
  0 < 1427 ∧ (1427 = 1600 ∨ (1234567 + 1427 + 6) mod HZ = 0) ∧ - (HZ / 4) < 1427 - 1600 ≤ 3 * HZ / 4.
Proof.
  split; [done|]. apply (round_jiffies_bounds 1234567 1600 2); unfold HZ; lia.
Defined.
