(* ===== verification/KTimer.v ===== *)
(** * The kernel's timers, delayed work and system tick on DPDK's timers
    (porting/timer_porting.c, tasklet_workqueues_porting.c, timing_porting.c)

    A [timer_list] or a [delayed_work] and the [rte_timer] inside go by one address,
    and so do a [delayed_work] and its [work_struct] (at offset 0).  The functions of
    timers, tasklets and work are the stack's: parameters of the model, programs over
    the timer library and the state [port].  The port's own functions are written in the
    same language, so that they can be called inside a timer's function and outside. *)

From stdpp Require Import functions.
From S2P Require Import Prelude RteTimer Timing.

(** ** Data *)

(** The fields the port uses; [data] is [unsigned long]. *)
Record timer_list := mk_timer { tm_expires : Z; tm_function : Z; tm_data : Z }.
Record tasklet_struct := mk_tasklet { tk_next : Z; tk_state : Z; tk_count : Z; tk_func : Z; tk_data : Z }.
Record delayed_work := mk_dwork { dw_func : Z; dw_expires : Z }.

(** What the port keeps besides the timers: the count of ticks and the objects, by
    address. *)
Record port := mk_port {
  jiffies : Z;
  port_timers : Z → timer_list;
  port_works : Z → delayed_work;
  port_tasklets : Z → tasklet_struct;
}.
#[export] Instance eta_port : Eta port := λ w,
  mk_port (jiffies w) (port_timers w) (port_works w) (port_tasklets w).

(** The static [systick], and the functions the port gives to DPDK. *)
Definition SYSTICK : Z := -2.
Definition systick_expiry : Z := 1.
Definition timer_expiry : Z := 2.
Definition delayed_work_expiry : Z := 3.

Section port.
(** [rte_get_timer_hz()]; calls of the functions of timers and tasklets, with their
    [unsigned long], and of [work_func_t]. *)
Context (timer_hz : Z) (call : Z → Z → prog port unit) (call_work : Z → Z → prog port unit).
Abbreviation P := (prog port).

Definition get_port : P port := P_world id P_ret.
Definition set_port (f : port → port) : P unit := P_world f (λ _, P_ret tt).
Definition reset_timer (p ticks fn arg : Z) : P Z := P_reset p ticks SINGLE fn arg P_ret.
Definition stop_timer (p : Z) : P Z := P_stop p P_ret.
Definition timer_pending (p : Z) : P bool := P_pending p P_ret.

(** [rte_timer_stop_sync], as code that may run inside a timer's function. *)
Fixpoint stop_timer_sync (fuel : nat) (p : Z) : P unit :=
  match fuel with
  | O => P_fault
  | Datatypes.S fuel => rc ← stop_timer p; if rc =? 0 then mret tt else stop_timer_sync fuel p
  end.

(** ** timer_porting.c *)

Definition init_timer_key (p : Z) : M (priv_timer port) unit := rte_timer_init p.

Definition del_timer (p : Z) : P bool :=
  pending ← timer_pending p;
  if (pending : bool) then rc ← stop_timer p; mret (rc =? 0) else mret false.

Definition del_timer_sync (fuel : nat) (p : Z) : P bool :=
  pending ← timer_pending p;
  if (pending : bool) then _ ← stop_timer_sync fuel p; mret true else mret false.

Definition timer_expiry_cbk (tim arg : Z) : P unit :=
  w ← get_port; call (tm_function (port_timers w arg)) (tm_data (port_timers w arg)).

(** The number of cycles a timer is programmed for. *)
Definition timer_cycles (jiffies expires : Z) : Z :=
  wrap64 (timer_hz * wrap64 (expires - jiffies)) / HZ.

Definition mod_timer (p expires : Z) : P bool :=
  pending ← timer_pending p;
  w ← get_port;
  rc ← reset_timer p (timer_cycles (jiffies w) expires) timer_expiry p;
  mret (negb (rc =? 0) || (pending : bool)).

Definition add_timer (p : Z) : P unit :=
  w ← get_port; _ ← mod_timer p (tm_expires (port_timers w p)); mret tt.

(** ** tasklet_workqueues_porting.c *)

Definition tasklet_init (t func data : Z) : P unit :=
  set_port (λ w, w <| port_tasklets := <[t := mk_tasklet 0 0 0 func data]> (port_tasklets w) |>).
Definition tasklet_schedule (t : Z) : P unit :=
  w ← get_port; call (tk_func (port_tasklets w t)) (tk_data (port_tasklets w t)).

Definition delayed_work_timer_fn (data : Z) : P unit :=
  w ← get_port; call_work (dw_func (port_works w data)) data.
Definition queue_work_on (work : Z) : P bool := _ ← delayed_work_timer_fn work; mret true.
Definition delayed_work_expiry_cbk (tim arg : Z) : P unit := delayed_work_timer_fn arg.

Definition set_work_expires (p expires : Z) : P unit :=
  set_port (λ w, w <| port_works := <[p := mk_dwork (dw_func (port_works w p)) expires]> (port_works w) |>).

(** Delayed work multiplies the absolute time by the cycles per second. *)
Definition queue_delayed_work_on (p delay : Z) : P bool :=
  w ← get_port;
  let expires := wrap64 (jiffies w + delay) in
  _ ← set_work_expires p expires;
  rc ← reset_timer p (wrap64 (timer_hz * expires)) delayed_work_expiry p;
  mret (rc =? 0).
Definition mod_delayed_work_on (p delay : Z) : P bool :=
  w ← get_port;
  let expires := wrap64 (jiffies w + delay) in
  _ ← set_work_expires p expires;
  rc ← reset_timer p (wrap64 (timer_hz * expires)) delayed_work_expiry p;
  mret (rc =? 0).

Definition cancel_delayed_work (p : Z) : P bool := _ ← stop_timer p; mret true.
Definition cancel_delayed_work_sync (fuel : nat) (p : Z) : P bool :=
  _ ← stop_timer_sync fuel p; mret true.

(** ** The system tick (timing_porting.c) *)

Definition systick_expiry_cbk (tim arg : Z) : P unit :=
  _ ← set_port (λ w, w <| jiffies := wrap64 (jiffies w + 1) |>);
  _ ← reset_timer SYSTICK (timer_hz / 1000) systick_expiry 0;
  mret tt.

Definition init_systick (lcore : Z) (rte_rand : Z → Z * Z) : M (priv_timer port) unit :=
  _ ← rte_timer_init SYSTICK;
  _ ← rte_timer_reset lcore rte_rand SYSTICK (timer_hz / 1000) SINGLE systick_expiry 0;
  mret tt.

(** The functions DPDK calls; no timer is given any other. *)
Definition port_callback (fn tim arg : Z) (_ : port) : P unit :=
  if fn =? systick_expiry then systick_expiry_cbk tim arg
  else if fn =? timer_expiry then timer_expiry_cbk tim arg
  else if fn =? delayed_work_expiry then delayed_work_expiry_cbk tim arg
  else mret tt.
End port.

(** ** Steps of such code *)

Section steps.
Context (lcore : Z) (rte_rand : Z → Z * Z).
Abbreviation run := (run_prog lcore rte_rand).
Implicit Types (s : priv_timer port).

Lemma wp_prog_ret {A} (a : A) Q s : wp (run (mret a)) Q s ↔ Q a s.
Proof. done. Qed.
Lemma wp_get_port Q s : wp (run get_port) Q s ↔ Q (pt_world s) s.
Proof. unfold get_port. cbn. rewrite wp_bind, wp_modify, wp_bind, wp_gets, wp_ret. by destruct s. Qed.
Lemma wp_set_port f Q s : wp (run (set_port f)) Q s ↔ Q tt (s <| pt_world := f (pt_world s) |>).
Proof. unfold set_port. cbn. by rewrite wp_bind, wp_modify, wp_bind, wp_gets, wp_ret. Qed.
Lemma wp_reset_timer p ticks fn arg Q s :
  wp (run (reset_timer p ticks fn arg)) Q s ↔ wp (rte_timer_reset lcore rte_rand p ticks SINGLE fn arg) Q s.
Proof. unfold reset_timer. cbn. by rewrite wp_bind. Qed.
Lemma wp_stop_timer p Q s : wp (run (stop_timer p)) Q s ↔ wp (rte_timer_stop lcore p) Q s.
Proof. unfold stop_timer. cbn. by rewrite wp_bind. Qed.
Lemma wp_timer_pending p t (Q : bool → priv_timer port → Prop) s :
  pt_timers s !! p = Some t → Q (bool_decide (tm_state t = RTE_TIMER_PENDING)) s → wp (run (timer_pending p)) Q s.
Proof.
  intros Ht HQ. unfold timer_pending. cbn. rewrite wp_bind. unfold rte_timer_pending.
  rewrite wp_bind. apply (wp_timer_read p t); [done|]. by rewrite wp_ret, wp_ret.
Qed.

Lemma stop_timer_sync_run fuel p s : run (stop_timer_sync fuel p) s = rte_timer_stop_sync lcore fuel p s.
Proof.
  revert s. induction fuel as [|fuel IH]; intros s; [done|]. cbn [stop_timer_sync rte_timer_stop_sync].
  rewrite run_prog_bind. unfold mbind, M_bind, stop_timer. cbn. unfold mbind, M_bind.
  destruct (rte_timer_stop lcore p s) as [[rc s']| |]; [|done..]. cbn. destruct (rc =? 0); [done|]. apply IH.
Qed.
End steps.

(** ** What the port promises of timers *)

Section promises.
Context (timer_hz : Z) (call call_work : Z → Z → prog port unit).
Context (lcore : Z) (rte_rand : Z → Z * Z).
Implicit Types (s : priv_timer port).
Abbreviation run_on := (run_prog lcore rte_rand).

Lemma timer_cycles_bounds jiff d :
  0 < timer_hz → 0 ≤ jiff → 0 ≤ d → jiff + d < 2 ^ 64 → timer_hz * d < 2 ^ 64 →
  let c := timer_cycles timer_hz jiff (jiff + d) in
  0 ≤ c ∧ c * HZ ≤ timer_hz * d < (c + 1) * HZ.
Proof.
  intros Hhz Hj Hd Hsum Hprod. unfold timer_cycles.
  replace (jiff + d - jiff) with d by lia. rewrite (wrap64_small d) by lia.
  rewrite wrap64_small by nia. change HZ with 1000. cbv zeta.
  pose proof (Z.div_mod (timer_hz * d) 1000 ltac:(lia)). pose proof (Z.mod_pos_bound (timer_hz * d) 1000 ltac:(lia)).
  split; [apply Z.div_pos; nia|lia].
Qed.

Lemma pending_iff s q run p t :
  timers_ok lcore s q run → p ≠ PENDING_HEAD → pt_timers s !! p = Some t →
  bool_decide (tm_state t = RTE_TIMER_PENDING) = bool_decide (p ∈ q).
Proof. intros Hok Hp Ht. apply bool_decide_ext. by apply (ti_pending _ _ _ _ Hok). Qed.

Lemma busy_not_pending s q run p t :
  timers_ok lcore s q run → pt_timers s !! p = Some t → busy s run p → p ∉ q.
Proof.
  intros Hok Ht [Hin _] Hq. destruct (ti_live _ _ _ _ Hok p Hin) as [Hp _].
  apply (ti_running _ _ _ _ Hok p t Hp Ht) in Hin. apply (ti_pending _ _ _ _ Hok p t Hp Ht) in Hq. congruence.
Qed.

(** C18. [mod_timer] sets a timer - stopped, pending or running its own function - [d]
    jiffies ahead: it is then pending once, after that many jiffies' worth of cycles
    rounded down to a cycle, in its place among the other timers, and the call tells
    whether it was pending before.  A timer whose function is still to be called in
    the present pass is not set: nothing changes, and the call tells that the timer
    was active. *)
Theorem mod_timer_spec s q run p t d :
  timers_ok lcore s q run → p ≠ PENDING_HEAD → pt_timers s !! p = Some t →
  0 < timer_hz → 0 ≤ jiffies (pt_world s) → 0 ≤ d → jiffies (pt_world s) + d < 2 ^ 64 → timer_hz * d < 2 ^ 64 →
  0 < pt_cycles s → pt_cycles s + timer_hz * d < 2 ^ 64 →
  wp (run_on (mod_timer timer_hz p (jiffies (pt_world s) + d))) (λ active s',
    (busy s run p → active = true ∧ s' = s) ∧
    (¬ busy s run p → active = bool_decide (p ∈ q) ∧
      ∃ c, c * HZ ≤ timer_hz * d < (c + 1) * HZ ∧
        was_set lcore p (pt_cycles s + c) timer_expiry p q run s s')) s.
Proof.
  intros Hok Hp Ht Hhz Hj Hd Hsum Hprod Hcy Hbig. unfold mod_timer.
  rewrite wp_prog_bind. apply (wp_timer_pending _ _ p t); [done|]. rewrite wp_prog_bind, wp_get_port.
  pose proof (timer_cycles_bounds _ d Hhz Hj Hd Hsum Hprod) as [Hc0 Hc]. set (c := timer_cycles _ _ _) in *.
  rewrite wp_prog_bind, wp_reset_timer. rewrite (pending_iff s q run p t) by done.
  change HZ with 1000 in *.
  eapply wp_mono; [by apply (timer_reset_spec lcore rte_rand s q run p t c); [..|lia]|].
  intros rc s' [H1 H2]. rewrite wp_prog_ret. split.
  - intros Hb. by destruct (H1 Hb) as [-> ->].
  - intros Hb. destruct (H2 Hb) as [-> Hset]. split; [done|]. by exists c.
Qed.

(** C19. [del_timer] and [del_timer_sync] return, and tell whether the timer was pending;
    one that was is not afterwards, while the others are pending as before.  For one
    that was not - a stopped timer, the one whose function runs, and one whose function
    is still to be called in the present pass - they do nothing at all. *)
Theorem del_timer_spec s q run p t fuel :
  timers_ok lcore s q run → p ≠ PENDING_HEAD → pt_timers s !! p = Some t →
  let deleted r s' :=
    (p ∈ q → r = true ∧ was_stopped lcore p t q run s s') ∧ (p ∉ q → r = false ∧ s' = s) in
  wp (run_on (del_timer p)) deleted s ∧ wp (run_on (del_timer_sync (Datatypes.S fuel) p)) deleted s.
Proof.
  intros Hok Hp Ht deleted. unfold del_timer, del_timer_sync.
  assert (∀ Q : Z → priv_timer port → Prop, p ∈ q → (∀ s', was_stopped lcore p t q run s s' → Q 0 s') →
    wp (run_on (stop_timer p)) Q s) as Hstop.
  { intros Q Hq HQ. rewrite wp_stop_timer. eapply wp_mono; [by apply (timer_stop_spec lcore s q run p t)|].
    intros rc s' [_ H]. destruct H as [-> H]; [|by apply HQ]. intros Hb. by apply (busy_not_pending s q run p t). }
  split; rewrite wp_prog_bind; (apply (wp_timer_pending _ _ p t); [done|]); rewrite (pending_iff s q run p t) by done;
    destruct (bool_decide_reflect (p ∈ q)) as [Hq|Hq]; try (split; by intros).
  - rewrite wp_prog_bind. apply Hstop; [done|]. intros s' Hs. split; [by split|done].
  - rewrite wp_prog_bind. cbn [stop_timer_sync]. rewrite wp_prog_bind. apply Hstop; [done|]. intros s' Hs. split; [by split|done].
Qed.

(** C35. Delayed work is queued, and modified, for the cycles of the whole time since the
    start plus the delay, taken as seconds - [HZ] times as long as a timer waits, and
    that counted from start-up - while its recorded expiry is right.  While its timer
    waits for its turn in a pass over expired timers it cannot be set - the calls say
    so - nor cancelled: [cancel_delayed_work] claims success and does nothing, and
    [cancel_delayed_work_sync] never returns. *)
Theorem delayed_work_spec s q run p t d :
  timers_ok lcore s q run → p ≠ PENDING_HEAD → pt_timers s !! p = Some t →
  0 < timer_hz → 0 ≤ jiffies (pt_world s) → 0 ≤ d → 0 < pt_cycles s →
  pt_cycles s + timer_hz * (jiffies (pt_world s) + d) < 2 ^ 64 →
  let j := jiffies (pt_world s) + d in
  let s1 := s <| pt_world := (pt_world s) <| port_works :=
              <[p := mk_dwork (dw_func (port_works (pt_world s) p)) j]> (port_works (pt_world s)) |> |> in
  let queued r s' :=
    (busy s run p → r = false ∧ s' = s1) ∧
    (¬ busy s run p → r = true ∧ was_set lcore p (pt_cycles s + timer_hz * j) delayed_work_expiry p q run s1 s') in
  wp (run_on (queue_delayed_work_on timer_hz p d)) queued s ∧
  wp (run_on (mod_delayed_work_on timer_hz p d)) queued s ∧
  wp (run_on (cancel_delayed_work p)) (λ r s', r = true ∧ (busy s run p → s' = s) ∧
    (¬ busy s run p → was_stopped lcore p t q run s s')) s ∧
  (∀ fuel, busy s run p → run_on (cancel_delayed_work_sync fuel p) s = Fault) ∧
  (∀ fuel, ¬ busy s run p → wp (run_on (cancel_delayed_work_sync (Datatypes.S fuel) p))
    (λ r s', r = true ∧ was_stopped lcore p t q run s s') s).
Proof.
  intros Hok Hp Ht Hhz Hj Hd Hcy Hbig j s1 queued.
  assert (timers_ok lcore s1 q run) as Hok1 by by apply (timers_ok_fields _ _ _ s).
  assert (0 ≤ j ∧ j < 2 ^ 64 ∧ wrap64 j = j) as (Hj0 & Hj64 & Hjw) by (split_and!; [lia|nia|apply wrap64_small; nia]).
  assert (wp (run_on (queue_delayed_work_on timer_hz p d)) queued s) as Hqueue.
  { unfold queue_delayed_work_on. rewrite wp_prog_bind, wp_get_port. fold j. rewrite Hjw.
    unfold set_work_expires. rewrite wp_prog_bind, wp_set_port. fold s1. rewrite wp_prog_bind, wp_reset_timer.
    rewrite wrap64_small by nia.
    eapply wp_mono; [by apply (timer_reset_spec lcore rte_rand s1 q run p t (timer_hz * j)); [..|change (pt_cycles s1) with (pt_cycles s); nia]|].
    intros rc s' [H1 H2]. rewrite wp_prog_ret. split; intros Hb.
    - by destruct (H1 Hb) as [-> ->].
    - by destruct (H2 Hb) as [-> H]. }
  split; [exact Hqueue|]. split; [exact Hqueue|]. split_and!.
  - unfold cancel_delayed_work. rewrite wp_prog_bind, wp_stop_timer.
    eapply wp_mono; [by apply (timer_stop_spec lcore s q run p t)|]. intros rc s' [H1 H2]. rewrite wp_prog_ret.
    split_and!; [done|intros Hb; by apply H1|intros Hb; by apply H2].
  - intros fuel Hb. unfold cancel_delayed_work_sync. rewrite run_prog_bind. unfold mbind, M_bind.
    rewrite stop_timer_sync_run. by rewrite (stop_sync_hangs lcore s q run p fuel).
  - intros fuel Hb. unfold cancel_delayed_work_sync. rewrite wp_prog_bind. cbn [stop_timer_sync].
    rewrite wp_prog_bind, wp_stop_timer. eapply wp_mono; [by apply (timer_stop_spec lcore s q run p t)|].
    intros rc s' [_ H]. by destruct (H Hb) as [-> H'].
Qed.

(** The system tick counts passes, not milliseconds: a pass in which the tick is the
    timer that is due adds one to [jiffies] however late the pass comes, and programs
    the next tick a thousandth of a second after the pass, not after the last tick. *)
Theorem systick_pass s q :
  timers_ok lcore s q [] → expired s (pt_cycles s) q = [SYSTICK] →
  call_of s SYSTICK = (systick_expiry, SYSTICK, 0) → 0 < timer_hz → 0 < pt_cycles s →
  pt_cycles s + timer_hz / 1000 < 2 ^ 64 → 0 ≤ jiffies (pt_world s) < 2 ^ 64 - 1 →
  wp (rte_timer_manage lcore rte_rand (port_callback timer_hz call call_work)) (λ _ s',
    jiffies (pt_world s') = jiffies (pt_world s) + 1 ∧ expire s' SYSTICK = pt_cycles s + timer_hz / 1000 ∧
    timers_ok lcore s'
      (insert_at (expire s) (pt_cycles s + timer_hz / 1000) SYSTICK (remaining s (pt_cycles s) q)) []) s.
Proof.
  intros Hok Hone Hcall Hhz Hcy Hbig Hj. assert (0 ≤ timer_hz / 1000) as Hq by (apply Z.div_pos; lia).
  apply (wp_manage_one lcore rte_rand _ q s SYSTICK); [done..|].
  intros s3 t Ht Hok3 Hrun Hcy3 Hw3 Hcall3 Hexp Hupd. set (rem := remaining s (pt_cycles s) q) in *.
  rewrite Hcall in Hcall3. unfold call_of in Hcall3. rewrite Ht in Hcall3. injection Hcall3 as Hfn Harg.
  change (tm_fn t = systick_expiry) in Hfn. rewrite Hfn. unfold port_callback. cbn [Z.eqb Pos.eqb systick_expiry].
  unfold systick_expiry_cbk. rewrite wp_prog_bind, wp_set_port. set (s4 := s3 <| pt_world := _ |>).
  assert (timers_ok lcore s4 rem [SYSTICK]) as Hok4 by by apply (timers_ok_fields _ _ _ s3).
  assert (SYSTICK ∉ rem) as Hnin.
  { intros Hin. apply (ti_pending _ _ _ _ Hok3 SYSTICK t) in Hin; [|done|done].
    pose proof (proj2 (ti_running _ _ _ _ Hok3 SYSTICK t ltac:(done) Ht) ltac:(left)). congruence. }
  rewrite wp_prog_bind, wp_reset_timer.
  eapply wp_mono; [apply (timer_reset_spec lcore rte_rand s4 rem [SYSTICK] SYSTICK t); [done..|]|].
  { change (pt_cycles s4) with (pt_cycles s3). rewrite Hcy3. lia. }
  intros rc s5 [_ H]. destruct H as [-> [W1 W2 W3 _]]; [by intros [_ ?]|]. rewrite wp_prog_ret.
  change (pt_cycles s4) with (pt_cycles s3) in *. rewrite Hcy3 in *. rewrite (filter_ne_notin rem) in W1 by done.
  rewrite filter_cons_False, filter_nil in W1 by naive_solver.
  rewrite (insert_at_ext (expire s)) in W1 by done.
  split_and!; [by rewrite (rk_updated _ _ _ _ W3)| | |by apply (timers_ok_fields _ _ _ s5)].
  - change (jiffies (pt_world s5) = jiffies (pt_world s) + 1). rewrite (rk_world _ _ _ _ W3).
    change (wrap64 (jiffies (pt_world s3) + 1) = jiffies (pt_world s) + 1). rewrite Hw3. apply wrap64_small. lia.
  - change (expire s5 SYSTICK = pt_cycles s + timer_hz / 1000). unfold expire.
    destruct (pt_timers s5 !! SYSTICK) as [t5|]; [|done]. cbn in W2 |- *. injection W2 as E _ _ _ _ _. exact E.
Qed.
End promises.

(** ** A port with the system tick and two timers *)

Section demo.
#[local] Definition demo_rand (seed : Z) : Z * Z := let n := wrap32 (seed * 1103515245 + 12345) in (n, n).
#[local] Definition demo_call (fn data : Z) : prog port unit := P_ret tt.
#[local] Definition demo_port : port := mk_port 1000 (λ _, mk_timer 0 0 0) (λ _, mk_dwork 0 0) (λ _, mk_tasklet 0 0 0 0 0).
#[local] Definition demo_fresh : priv_timer port := fresh_timers [SYSTICK; 10; 11] 5000 demo_port.
(** 2000 cycles to the tick; timer 10 expires ten ticks ahead. *)
#[local] Definition demo_s : priv_timer port :=
  after_reset 1 demo_rand 10 20000 timer_expiry 10 (after_reset 1 demo_rand SYSTICK 2000 systick_expiry 0 demo_fresh).
(** Timers 10 and 11 of one pass, the first of which runs. *)
#[local] Definition demo_mid : priv_timer port :=
  altered 10 (running_status 1) (altered 11 (running_status 1) demo_fresh) <| running_tim := 10 |>.

Lemma port_demo_ok : timers_ok 1 demo_s [SYSTICK; 10] [].
Proof.
  pose proof (fresh_ok 1 [SYSTICK; 10; 11] 5000 demo_port ltac:(set_solver)) as H0.
  apply (after_reset_ok 1 demo_rand SYSTICK 2000 systick_expiry 0) in H0; [|done|by eexists|done].
  apply (after_reset_ok 1 demo_rand 10 20000 timer_expiry 10) in H0; [|done|vm_compute; by eexists|done].
  exact H0.
Qed.

Lemma port_demo_mid_ok : timers_ok 1 demo_mid [] [10; 11].
Proof.
  assert (timers_ok 1 (altered 11 (running_status 1) demo_fresh) [] [11]) as H.
  { apply running_ok; [by apply fresh_ok; set_solver|done|done|set_solver|set_solver|].
    eexists; split; [vm_compute; reflexivity|done]. }
  apply (timers_ok_fields 1 _ _ (altered 10 (running_status 1) (altered 11 (running_status 1) demo_fresh))); [done..|].
  apply running_ok; [exact H|done|done|set_solver|set_solver|]. eexists; split; [vm_compute; reflexivity|done].
Qed.

(** Timer 11, five ticks ahead, goes before timer 10. *)
Lemma mod_timer_spec_witness :
  wp (run_prog 1 demo_rand (mod_timer 2000000 11 1005))
    (λ active s', active = false ∧ timers_ok 1 s' [SYSTICK; 11; 10] []) demo_s.
Proof.
  refine (wp_mono _ _ _ _ (mod_timer_spec 2000000 1 demo_rand demo_s [SYSTICK; 10] [] 11 _ 5 port_demo_ok _ _ _ _ _ _ _ _ _) _);
    [done|vm_compute; reflexivity|done..|].
  intros active s' [_ H]. destruct H as [-> (c & Hc & [H _ _ _])]; [by intros [?%not_elem_of_nil _]|]. split; [done|].
  change HZ with 1000 in Hc. assert (c = 10000) as -> by lia. exact H.
Defined.

Lemma del_timer_spec_witness :
  wp (run_prog 1 demo_rand (del_timer 10)) (λ r s', r = true ∧ timers_ok 1 s' [SYSTICK] []) demo_s ∧
  wp (run_prog 1 demo_rand (del_timer 11)) (λ r s', r = false ∧ s' = demo_mid) demo_mid.
Proof.
  split.
  - refine (wp_mono _ _ _ _ (proj1 (del_timer_spec 1 demo_rand demo_s [SYSTICK; 10] [] 10 _ 0 port_demo_ok _ _)) _);
      [done|vm_compute; reflexivity|].
    intros r s' [H _]. destruct H as [-> [H _ _ _]]; [right; left|]. split; [done|exact H].
  - refine (wp_mono _ _ _ _ (proj1 (del_timer_spec 1 demo_rand demo_mid [] [10; 11] 11 _ 0 port_demo_mid_ok _ _)) _);
      [done|vm_compute; reflexivity|].
    intros r s' [_ H]. apply H. apply not_elem_of_nil.
Defined.

Lemma delayed_work_spec_witness :
  wp (run_prog 1 demo_rand (queue_delayed_work_on 2000000 11 5)) (λ r _, r = false) demo_mid ∧
  run_prog 1 demo_rand (cancel_delayed_work_sync 1000 11) demo_mid = Fault.
Proof.
  destruct (delayed_work_spec 2000000 1 demo_rand demo_mid [] [10; 11] 11 _ 5 port_demo_mid_ok ltac:(done)
    ltac:(vm_compute; reflexivity) ltac:(done) ltac:(done) ltac:(done) ltac:(done) ltac:(done)) as (H1 & _ & _ & H4 & _).
  assert (busy demo_mid [10; 11] 11) as Hb by (split; [right; left|done]). split.
  - refine (wp_mono _ _ _ _ H1 _). intros r s' [H _]. by apply H.
  - by apply H4.
Defined.

(** Six ticks late. *)
Lemma systick_pass_witness :
  wp (rte_timer_manage 1 demo_rand (port_callback 2000000 demo_call demo_call))
    (λ _ s', jiffies (pt_world s') = 1001 ∧ expire s' SYSTICK = 22000 ∧ timers_ok 1 s' [SYSTICK; 10] [])
    (demo_s <| pt_cycles := 20000 |>).
Proof.
  assert (timers_ok 1 (demo_s <| pt_cycles := 20000 |>) [SYSTICK; 10] []) as Hok
    by (by apply (timers_ok_fields 1 _ [] demo_s); [..|apply port_demo_ok]).
  refine (systick_pass 2000000 demo_call demo_call 1 demo_rand (demo_s <| pt_cycles := 20000 |>) [SYSTICK; 10] Hok _ _ _ _ _ _);
    by vm_compute.
Defined.
End demo.
