(* ===== verification/DevConfig.v ===== *)
(** * Start-up: port mask, address configuration, announcements (porting/libinit.c)

    The service reads [dpdk_ip_stack_config.txt] - lines of a port number, an address
    and a mask - into a table, gives each enabled port its addresses, and tells every
    client which interfaces and addresses there are.  Characters are bytes 0..255; the
    standard library's [fscanf], [strtoul] and [htonl] are written out for the calls
    made here; creating a device, its name and [inet_addr] are parameters.  What the calls
    listed here do to the interfaces is in [Ifconf]. *)

From S2P Require Import Prelude Mem Mbuf.

(** ** Characters and scanning *)

Definition is_space (c : Z) : bool := (c =? 32) || ((9 <=? c) && (c <=? 13)).
Definition is_digit (c : Z) : bool := (48 <=? c) && (c <=? 57).
Definition is_sign (c : Z) : bool := (c =? 43) || (c =? 45).

(** The longest prefix of characters satisfying [p], and the rest. *)
Fixpoint span (p : Z → bool) (l : list Z) : list Z * list Z :=
  match l with
  | [] => ([], [])
  | c :: l' => if p c then let '(a, b) := span p l' in (c :: a, b) else ([], l)
  end.

Definition skip_space (l : list Z) : list Z := snd (span is_space l).
Definition number (base : Z) (digit : Z → Z) (ds : list Z) : Z :=
  fold_left (λ n d, n * base + digit d) ds 0.
Definition decimal (ds : list Z) : Z := number 10 (λ d, d - 48) ds.

(** The outcome of one conversion of [scanf]. *)
Inductive scan (A : Type) := Converted (a : A) | Mismatch | InputEnd.
Arguments Converted {A} _.
Arguments Mismatch {A}.
Arguments InputEnd {A}.

(** [%d]; a sign that no digit follows has been read all the same. *)
Definition scan_int (l : list Z) : scan Z * list Z :=
  match skip_space l with
  | [] => (InputEnd, [])
  | c :: l' =>
      let '(ds, rest) := span is_digit (if is_sign c then l' else c :: l') in
      match ds with
      | [] => (Mismatch, rest)
      | _ => (Converted (sint32 (if c =? 45 then - decimal ds else decimal ds)), rest)
      end
  end.

(** [%s]: a word. *)
Definition scan_word (l : list Z) : scan (list Z) * list Z :=
  match skip_space l with
  | [] => (InputEnd, [])
  | l' => let '(w, rest) := span (λ c, negb (is_space c)) l' in (Converted w, rest)
  end.

(** ** The configuration table *)

Definition RTE_MAX_ETHPORTS : Z := 32.
Definition ALIASES_MAX_NUMBER : Z := 4.
Definition CONFIG_SIZE : Z := RTE_MAX_ETHPORTS * ALIASES_MAX_NUMBER.

Record dpdk_dev_config_t := mk_dev_config {
  port_number : Z;
  ip_addr_str : list Z;
  ip_mask_str : list Z;
}.

(** A string with its terminator fits the 20 bytes of its field. *)
Definition field_fits (w : list Z) : bool := zlen w <? 20.

(** [fscanf(f, "%d %s %s", ...)] into entry [e]: the result, the entry and what is left
    of the file; [None] when a word overruns its field. *)
Definition fscanf (l : list Z) (e : dpdk_dev_config_t) : option (Z * dpdk_dev_config_t * list Z) :=
  match scan_int l with
  | (InputEnd, rest) => Some (-1, e, rest)
  | (Mismatch, rest) => Some (0, e, rest)
  | (Converted port, rest) =>
      let e := mk_dev_config port (ip_addr_str e) (ip_mask_str e) in
      match scan_word rest with
      | (Converted ip, rest) =>
          if negb (field_fits ip) then None
          else
            let e := mk_dev_config (port_number e) ip (ip_mask_str e) in
            match scan_word rest with
            | (Converted mask, rest) =>
                if negb (field_fits mask) then None
                else Some (3, mk_dev_config (port_number e) (ip_addr_str e) mask, rest)
            | (_, rest) => Some (2, e, rest)
            end
      | (_, rest) => Some (1, e, rest)
      end
  end.

Definition blank : dpdk_dev_config_t := mk_dev_config (-1) [] [].

(** [while(!feof(f))]: the end is noticed by the read that runs into it. *)
Fixpoint config_loop (fuel : nat) (l : list Z) (feof : bool) (i : nat)
    (cfg : list dpdk_dev_config_t) : outcome (list dpdk_dev_config_t) :=
  if feof then Done cfg
  else
    match fuel with
    | O => Fault
    | S fuel =>
        match cfg !! i with
        | None => Fault
        | Some e =>
            match fscanf l e with
            | None => Fault
            | Some (rc, e, rest) =>
                let cfg := <[i := e]> cfg in
                let feof := match rest with [] => true | _ => false end in
                if rc =? 0 then config_loop fuel rest feof i cfg
                else if Z.of_nat (S i) =? CONFIG_SIZE then Done cfg
                else config_loop fuel rest feof (S i) cfg
            end
        end
    end.

Definition get_dpdk_ip_stack_config (file : option (list Z)) (cfg : list dpdk_dev_config_t)
  : outcome (Z * list dpdk_dev_config_t) :=
  match file with
  | None => Done (-1, cfg)
  | Some l =>
      let cfg := (λ e, mk_dev_config (-1) (ip_addr_str e) (ip_mask_str e)) <$> cfg in
      match config_loop (S (S (length l))) l false 0 cfg with
      | Done cfg => Done (0, cfg)
      | Exit => Exit
      | Fault => Fault
      end
  end.

(** The index of a port's first entry. *)
Definition get_dpdk_config_entry (cfg : list dpdk_dev_config_t) (portnum : Z) : option nat :=
  fst <$> list_find (λ e, port_number e = portnum) cfg.

(** ** The port mask *)

Definition hex_value (c : Z) : option Z :=
  if is_digit c then Some (c - 48)
  else if (97 <=? c) && (c <=? 102) then Some (c - 87)
  else if (65 <=? c) && (c <=? 70) then Some (c - 55)
  else None.
Definition is_hex (c : Z) : bool := match hex_value c with Some _ => true | None => false end.

(** [strtoul(s, &end, 16)] (64-bit, saturating) and the characters from [end] on; the
    "0x" counts when a digit follows. *)
Definition strtoul16 (s : list Z) : Z * list Z :=
  let l := skip_space s in
  let neg := match l with c :: _ => c =? 45 | [] => false end in
  let l := match l with c :: l' => if is_sign c then l' else l | [] => l end in
  let l := match l with
           | z :: x :: d :: l' =>
               if (z =? 48) && ((x =? 120) || (x =? 88)) && is_hex d then d :: l' else l
           | _ => l
           end in
  let '(ds, rest) := span is_hex l in
  match ds with
  | [] => (0, s)
  | _ =>
      let v := number 16 (λ d, default 0 (hex_value d)) ds in
      if 2 ^ 64 <=? v then (2 ^ 64 - 1, rest)
      else ((if neg then (- v) mod 2 ^ 64 else v), rest)
  end.

Definition parse_portmask (s : list Z) : Z :=
  let '(pm, rest) := strtoul16 s in
  match s, rest with
  | [], _ => -1
  | _, _ :: _ => -1
  | _, [] => if pm =? 0 then -1 else sint32 pm
  end.

(** Option [-p]: the result and [enabled_port_mask]. *)
Definition parse_args_p (optarg : list Z) : option Z :=
  let enabled_port_mask := wrap32 (parse_portmask optarg) in
  if enabled_port_mask =? 0 then None else Some enabled_port_mask.

(** ** Giving the ports their addresses *)

Inductive dev_call :=
  | SetDevAddr (dev : Z) (mac : list Z) (ip mask : list Z)
  | AddDevAddr (dev idx : Z) (ip mask : list Z).

Record boot := mk_boot { bt_devices : list Z; bt_calls : list dev_call }.
#[export] Instance eta_boot : Eta boot := λ b, mk_boot (bt_devices b) (bt_calls b).

(** The drivers: the device made for a port, with or without hardware, and a port's
    hardware address. *)
Class Drivers := {
  create_netdev : Z → Z;
  init_dpdk_sw_loop : Z → Z;
  rte_eth_macaddr_get : Z → list Z;
}.

Section ports.
Context `{Drivers} (cfg : list dpdk_dev_config_t).

Definition call (c : dev_call) : M boot unit :=
  modify (λ b, b <| bt_calls := bt_calls b ++ [c] |>).

(** [dpdk_devices[portid] = dev]. *)
Definition set_device (portid dev : Z) : M boot unit :=
  _ ← require (portid <? RTE_MAX_ETHPORTS);
  modify (λ b, b <| bt_devices := lset (bt_devices b) portid dev |>).

(** The walk over the entries behind the port's first one; [p] is the pointer's index. *)
Fixpoint alias_loop (fuel : nat) (portid : Z) (p : nat) (sub_if_idx : Z) : M boot unit :=
  match fuel with
  | O => fault
  | S fuel =>
      if sub_if_idx <? CONFIG_SIZE then
        let p := S p in
        e ← of_option (cfg !! p);
        if negb (port_number e =? portid) then mret tt
        else
          devs ← gets bt_devices;
          _ ← call (AddDevAddr (lget devs portid) (sub_if_idx - portid) (ip_addr_str e) (ip_mask_str e));
          alias_loop fuel portid p (sub_if_idx + 1)
      else mret tt
  end.

(** One port: its device, its first address, its aliases. *)
Definition setup_port (portid dev : Z) (mac : list Z) (p : nat) : M boot unit :=
  e ← of_option (cfg !! p);
  _ ← set_device portid dev;
  _ ← call (SetDevAddr dev mac (ip_addr_str e) (ip_mask_str e));
  alias_loop (S (Z.to_nat CONFIG_SIZE)) portid p portid.

Definition hardware_port (enabled_port_mask portid : Z) : M boot unit :=
  if negb (Z.testbit enabled_port_mask portid) then mret tt
  else
    match get_dpdk_config_entry cfg portid with
    | None => mret tt
    | Some p => setup_port portid (create_netdev portid) (rte_eth_macaddr_get portid) p
    end.

(** [while(1)]; every port found has an entry, so as many rounds as entries are enough. *)
Fixpoint loopback_ports (fuel : nat) (portid : Z) : M boot unit :=
  match get_dpdk_config_entry cfg portid with
  | None => mret tt
  | Some p =>
      match fuel with
      | O => fault
      | S fuel =>
          _ ← setup_port portid (init_dpdk_sw_loop portid) (replicate 6 0) p;
          loopback_ports fuel ((portid + 1) mod 2 ^ 8)
      end
  end.

(** The part of [dpdk_linux_tcpip_init] that sets up the devices. *)
Definition setup_devices (nb_ports enabled_port_mask : Z) : M boot unit :=
  let nb_ports := if RTE_MAX_ETHPORTS <? nb_ports then RTE_MAX_ETHPORTS else nb_ports in
  if nb_ports =? 0 then loopback_ports (length cfg) 0
  else for_each (seqZ 0 nb_ports) (hardware_port enabled_port_mask).
End ports.

(** ** Telling the clients *)

Definition uint8 (x : Z) : Z := x mod 256.
Definition encode_16 (val : Z) : list Z := [uint8 (Z.shiftl val 8); uint8 (Z.land val 255)].
Definition encode_32 (val : Z) : list Z :=
  [uint8 (wrap32 (Z.shiftl val 24)); uint8 (wrap32 (Z.shiftl val 16));
   uint8 (wrap32 (Z.shiftl val 8)); uint8 val].
Definition encode_64 (val : Z) : list Z :=
  [uint8 (Z.shiftl val 56 mod 2 ^ 64); uint8 (Z.shiftl val 48 mod 2 ^ 64);
   uint8 (Z.shiftl val 40 mod 2 ^ 64); uint8 (Z.shiftl val 32 mod 2 ^ 64);
   uint8 (Z.shiftl val 24 mod 2 ^ 64); uint8 (Z.shiftl val 16 mod 2 ^ 64);
   uint8 (Z.shiftl val 8 mod 2 ^ 64); uint8 val].

Definition htonl (x : Z) : Z := le_word (rev (le_bytes 4 x)).

Definition IFACE_NAME_SIZE : Z := 20.

(** The locals of the two functions that change. *)
Record announce := mk_announce { an_buf : list Z; an_offset : Z; an_hw_addr_len : Z }.
#[export] Instance eta_announce : Eta announce := λ a,
  mk_announce (an_buf a) (an_offset a) (an_hw_addr_len a).

(** [bs] written at [&buf[offset]], then [offset += size]. *)
Definition put (bs : list Z) (size : Z) : M announce unit :=
  a ← gets id;
  let o := Z.to_nat (an_offset a) in
  _ ← require (an_offset a + zlen bs <=? zlen (an_buf a));
  modify (λ a, a <| an_buf := take o (an_buf a) ++ bs ++ drop (o + length bs) (an_buf a) |>
                 <| an_offset := an_offset a + size |>).

(** [get_dev_name dev] is where the device's name is, given as the 20 bytes there;
    [sockaddr_dl] is never assigned: its bytes are what the stack held. *)
Class Devices := {
  get_dev_name : Z → list Z;
  sockaddr_dl : list Z;
  inet_addr : list Z → Z;
}.

Section announcements.
Context `{Devices} (dpdk_devices : list Z) (dpdk_dev_config : list dpdk_dev_config_t).

Definition announce_device (dev_idx : Z) : M announce unit :=
  let dev := lget dpdk_devices dev_idx in
  if dev =? 0 then mret tt
  else
    _ ← put (get_dev_name dev) IFACE_NAME_SIZE;
    _ ← put (encode_32 dev_idx) 4;
    _ ← put [0] 1;
    _ ← put (encode_64 67) 8;
    _ ← put (encode_32 1) 4;
    _ ← put (encode_32 1500) 4;
    _ ← put (encode_32 1500) 4;
    _ ← put (encode_32 0) 4;
    _ ← modify (λ a, a <| an_hw_addr_len := htonl (an_hw_addr_len a) |>);
    len ← gets an_hw_addr_len;
    _ ← put (le_bytes 4 len) 4;
    put sockaddr_dl 6.

Definition get_all_devices (buf : list Z) : outcome (Z * list Z) :=
  match for_each (seqZ 0 RTE_MAX_ETHPORTS) announce_device (mk_announce buf 0 6) with
  | Done (_, a) => Done (an_offset a, an_buf a)
  | Exit => Exit
  | Fault => Fault
  end.

Definition announce_address (dev_idx : Z) : M announce unit :=
  e ← of_option (dpdk_dev_config !! Z.to_nat dev_idx);
  if (lget dpdk_devices dev_idx =? 0) || (port_number e =? -1) then mret tt
  else
    _ ← put (encode_32 dev_idx) 4;
    _ ← put [67] 1;
    _ ← put [AF_INET] 1;
    _ ← put (le_bytes 4 (inet_addr (ip_addr_str e))) 4;
    _ ← put [32] 1;
    _ ← put (le_bytes 4 0) 4;
    put [32] 1.

Definition get_all_addresses (buf : list Z) : outcome (Z * list Z) :=
  match for_each (seqZ 0 RTE_MAX_ETHPORTS) announce_address (mk_announce buf 0 0) with
  | Done (_, a) => Done (an_offset a, an_buf a)
  | Exit => Exit
  | Fault => Fault
  end.
End announcements.

(** ** Reading the configuration *)

Lemma span_app p a b :
  Forall (λ c, p c = true) a → match b with [] => True | c :: _ => p c = false end →
  span p (a ++ b) = (a, b).
Proof.
  induction 1 as [|c a Hc Ha IH]; intros Hb; cbn.
  - destruct b as [|c b]; cbn; [done|by rewrite Hb].
  - by rewrite Hc, (IH Hb).
Qed.

Lemma skip_space_app sp b :
  Forall (λ c, is_space c = true) sp → match b with [] => True | c :: _ => is_space c = false end →
  skip_space (sp ++ b) = b.
Proof. intros Hs Hb. unfold skip_space. by rewrite span_app. Qed.

Lemma digit_not_space c : is_digit c = true → is_space c = false ∧ is_sign c = false ∧ (c =? 45) = false.
Proof. unfold is_digit, is_space, is_sign. lia. Qed.
Lemma space_not_digit c : is_space c = true → is_digit c = false.
Proof. unfold is_digit, is_space. lia. Qed.

(** A line of the file: number, address and mask, each followed by white space. *)
Record cfg_line := mk_line {
  ln_port : list Z; ln_sep1 : list Z; ln_ip : list Z; ln_sep2 : list Z; ln_mask : list Z;
  ln_end : list Z;
}.
Definition line_text (l : cfg_line) : list Z :=
  ln_port l ++ ln_sep1 l ++ ln_ip l ++ ln_sep2 l ++ ln_mask l ++ ln_end l.
Definition line_entry (l : cfg_line) : dpdk_dev_config_t :=
  mk_dev_config (sint32 (decimal (ln_port l))) (ln_ip l) (ln_mask l).

Definition spaces (l : list Z) : Prop := Forall (λ c, is_space c = true) l.
Definition word (l : list Z) : Prop :=
  l ≠ [] ∧ Forall (λ c, negb (is_space c) = true) l ∧ field_fits l = true.
Record line_ok (l : cfg_line) : Prop := {
  lo_port : ln_port l ≠ [] ∧ Forall (λ c, is_digit c = true) (ln_port l);
  lo_sep1 : ln_sep1 l ≠ [] ∧ spaces (ln_sep1 l);
  lo_ip : word (ln_ip l);
  lo_sep2 : ln_sep2 l ≠ [] ∧ spaces (ln_sep2 l);
  lo_mask : word (ln_mask l);
  lo_end : ln_end l ≠ [] ∧ spaces (ln_end l);
}.

Lemma scan_int_digits sp ds b :
  spaces sp → ds ≠ [] → Forall (λ c, is_digit c = true) ds →
  match b with [] => True | c :: _ => is_digit c = false end →
  scan_int (sp ++ ds ++ b) = (Converted (sint32 (decimal ds)), b).
Proof.
  intros Hsp Hne Hds Hb. destruct ds as [|d ds]; [done|].
  pose proof (Forall_inv Hds) as Hd. apply digit_not_space in Hd as (Hd1 & Hd2 & Hd3).
  unfold scan_int. rewrite skip_space_app by done. cbn [app]. rewrite Hd2, Hd3.
  change (d :: ds ++ b) with ((d :: ds) ++ b). by rewrite span_app.
Qed.

Lemma scan_word_word sp w b :
  spaces sp → word w → b ≠ [] → spaces b ∨ (∃ b1 b2, b = b1 ++ b2 ∧ b1 ≠ [] ∧ spaces b1) →
  scan_word (sp ++ w ++ b) = (Converted w, b).
Proof.
  intros Hsp (Hne & Hw & _) Hb0 Hb. destruct w as [|c w]; [done|].
  pose proof (Forall_inv Hw) as Hc. cbn beta in Hc. apply negb_true_iff in Hc.
  unfold scan_word. rewrite skip_space_app by done. cbn [app].
  change (c :: w ++ b) with ((c :: w) ++ b). rewrite span_app; [done|done|].
  assert (match b with [] => True | c :: _ => is_space c = true end) as Hsp'.
  { destruct Hb as [Hb|(b1 & b2 & -> & Hb1 & Hb)].
    - destruct Hb; done.
    - destruct Hb; done. }
  destruct b; [done|]. by rewrite Hsp'.
Qed.

Lemma fscanf_line sp l rest e :
  spaces sp → line_ok l →
  fscanf (sp ++ line_text l ++ rest) e = Some (3, line_entry l, ln_end l ++ rest).
Proof.
  intros Hsp [[Hp1 Hp2] [Hs1 Hs1'] Hip [Hs2 Hs2'] Hm [He He']].
  unfold fscanf, line_text. rewrite <- !(assoc_L (++)).
  rewrite scan_int_digits; [|done..|].
  2: { destruct Hs1' as [|c ? Hc]; [done|]. cbn. by apply space_not_digit. }
  rewrite scan_word_word; [|done..| |].
  2: { by destruct (ln_sep2 l). }
  2: { right. by eexists _, _. }
  rewrite (proj2 (proj2 Hip)). cbn [negb port_number ip_mask_str].
  rewrite scan_word_word; [|done..| |].
  2: { by destruct (ln_end l). }
  2: { right. by eexists _, _. }
  by rewrite (proj2 (proj2 Hm)).
Qed.

Lemma fscanf_spaces sp e : spaces sp → fscanf sp e = Some (-1, e, []).
Proof.
  intros Hsp. unfold fscanf, scan_int. rewrite <- (app_nil_r sp). by rewrite skip_space_app.
Qed.


Lemma list_insert_middle {A} (pre : list A) x y post :
  <[length pre := x]> (pre ++ y :: post) = pre ++ x :: post.
Proof. by rewrite insert_app_r_alt, Nat.sub_diag by done. Qed.

(** One round of the loop on a line. *)
Lemma config_loop_line fuel sp l rest pre e post :
  spaces sp → line_ok l →
  config_loop (S fuel) (sp ++ line_text l ++ rest) false (length pre) (pre ++ e :: post) =
    if Z.of_nat (S (length pre)) =? CONFIG_SIZE then Done (pre ++ line_entry l :: post)
    else config_loop fuel (ln_end l ++ rest) false (length (pre ++ [line_entry l]))
           ((pre ++ [line_entry l]) ++ post).
Proof.
  intros Hsp Hl. cbn [config_loop]. rewrite list_lookup_middle by done.
  rewrite fscanf_line by done. cbn [Z.eqb]. rewrite list_insert_middle.
  destruct (lo_end l Hl) as [Hend _]. destruct (ln_end l) as [|c w]; [done|].
  rewrite length_app, Nat.add_1_r, <- (assoc_L (++)). done.
Qed.

Lemma config_loop_lines lines fuel sp pre post :
  spaces sp → Forall line_ok lines → (length lines < fuel)%nat →
  zlen (pre ++ post) = CONFIG_SIZE → post ≠ [] →
  config_loop (S fuel) (sp ++ concat (line_text <$> lines)) false (length pre) (pre ++ post) =
    Done (pre ++ take (length post) (line_entry <$> lines) ++ drop (length lines) post).
Proof.
  intros Hsp Hls. revert fuel sp pre post Hsp.
  induction Hls as [|l lines Hl Hls IH]; intros fuel sp pre post Hsp Hf Hc Hp;
    (destruct post as [|e post]; [done|]); (destruct fuel as [|fuel]; [cbn in Hf; lia|]).
  - cbn [fmap list_fmap concat length]. rewrite take_nil, drop_0, app_nil_r. cbn [app config_loop].
    rewrite list_lookup_middle by done. rewrite fscanf_spaces by done. rewrite list_insert_middle.
    cbn [Z.eqb]. by destruct (_ =? CONFIG_SIZE).
  - cbn [fmap list_fmap concat length] in *. rewrite config_loop_line by done.
    rewrite zlen_app in Hc. unfold zlen in Hc. cbn [length] in Hc.
    cbn [length take drop]. destruct (Z.eqb_spec (Z.of_nat (S (length pre))) CONFIG_SIZE) as [Heq|Hne].
    + destruct post as [|e' post]; [|cbn [length] in Hc; lia]. by rewrite drop_nil.
    + rewrite (IH fuel (ln_end l) (pre ++ [line_entry l]) post).
      * by rewrite <- (assoc_L (++)).
      * apply (lo_end l Hl).
      * lia.
      * unfold zlen. rewrite !length_app. cbn [length]. lia.
      * intros ->. cbn [length] in Hc. lia.
Qed.

(** A line that starts with neither a number nor a sign is read for ever. *)
Lemma config_loop_bad_line c junk fuel sp pre e post :
  spaces sp → is_space c = false → is_digit c = false → is_sign c = false →
  config_loop fuel (sp ++ c :: junk) false (length pre) (pre ++ e :: post) = Fault.
Proof.
  intros Hsp Hc1 Hc2 Hc3. revert sp Hsp. induction fuel as [|fuel IH]; intros sp Hsp; [done|].
  cbn [config_loop]. rewrite list_lookup_middle by done.
  assert (fscanf (sp ++ c :: junk) e = Some (0, e, c :: junk)) as ->.
  { unfold fscanf, scan_int. rewrite skip_space_app; [|exact Hsp|exact Hc1]. rewrite Hc3. cbn [span]. by rewrite Hc2. }
  cbn [Z.eqb]. rewrite list_insert_middle. apply (IH []). constructor.
Qed.

Lemma config_loop_lines_bad lines c junk fuel sp pre post :
  spaces sp → Forall line_ok lines →
  is_space c = false → is_digit c = false → is_sign c = false →
  zlen (pre ++ post) = CONFIG_SIZE → (length lines < length post)%nat →
  config_loop fuel (sp ++ concat (line_text <$> lines) ++ c :: junk) false (length pre) (pre ++ post)
    = Fault.
Proof.
  intros Hsp Hls Hc1 Hc2 Hc3. revert fuel sp pre post Hsp.
  induction Hls as [|l lines Hl Hls IH]; intros fuel sp pre post Hsp Hc Hlen;
    (destruct post as [|e post]; [cbn in Hlen; lia|]).
  - by apply config_loop_bad_line.
  - destruct fuel as [|fuel]; [done|]. cbn [fmap list_fmap concat length] in *.
    rewrite <- (assoc_L (++) (line_text l)), config_loop_line by done.
    rewrite zlen_app in Hc. unfold zlen in Hc. cbn [length] in Hc.
    rewrite (proj2 (Z.eqb_neq _ _)) by lia. apply IH.
    + apply (lo_end l Hl).
    + unfold zlen. rewrite !length_app. cbn [length]. lia.
    + lia.
Qed.

Lemma length_lines lines : Forall line_ok lines → (length lines ≤ length (concat (line_text <$> lines)))%nat.
Proof.
  induction 1 as [|l lines Hl _ IH]; [cbn; lia|]. rewrite fmap_cons.
  cbn [concat]. rewrite length_app. destruct (lo_port l Hl) as [Hp _].
  assert (1 ≤ length (line_text l))%nat.
  { unfold line_text. rewrite length_app. destruct (ln_port l); [done|]. cbn [length]. lia. }
  cbn [length]. lia.
Qed.

(** C39. Reading the configuration: a file of up to 128 lines "port address mask", in
    any white-space layout, fills the table with its entries in order, whatever the
    table held, and marks the rest unused; further lines are ignored; without a file
    the table is left alone and -1 returned.  A line that begins with anything but a
    number - a comment, say - is never got past: the start-up hangs. *)
Theorem config_read_spec lines cfg :
  Forall line_ok lines → zlen cfg = CONFIG_SIZE →
  let unused := (λ e, mk_dev_config (-1) (ip_addr_str e) (ip_mask_str e)) <$> cfg in
  get_dpdk_ip_stack_config None cfg = Done (-1, cfg) ∧
  get_dpdk_ip_stack_config (Some (concat (line_text <$> lines))) cfg =
    Done (0, take 128 (line_entry <$> lines) ++ drop (length lines) unused) ∧
  (∀ c junk fuel, is_space c = false → is_digit c = false → is_sign c = false →
    (length lines < 128)%nat →
    get_dpdk_ip_stack_config (Some (concat (line_text <$> lines) ++ c :: junk)) cfg = Fault ∧
    config_loop fuel (concat (line_text <$> lines) ++ c :: junk) false 0 unused = Fault).
Proof.
  intros Hls Hc unused. assert (zlen unused = CONFIG_SIZE) as Hu
    by (unfold unused, zlen; rewrite length_fmap; done).
  assert (length unused = 128%nat) as Hlen by (unfold zlen in Hu; change CONFIG_SIZE with 128 in Hu; lia).
  split_and!; [done| |].
  - unfold get_dpdk_ip_stack_config. fold unused.
    rewrite (config_loop_lines lines (S (length (concat (line_text <$> lines)))) [] [] unused);
      [|constructor|done| |done|by intros Hn; rewrite Hn in Hlen].
    2: { pose proof (length_lines lines Hls). lia. }
    by rewrite Hlen.
  - intros c junk fuel Hc1 Hc2 Hc3 Hlt.
    pose proof (λ fuel, config_loop_lines_bad lines c junk fuel [] [] unused ltac:(constructor) Hls
      Hc1 Hc2 Hc3 Hu ltac:(lia)) as Hbad. cbn [app length] in Hbad. split; [|apply Hbad].
    unfold get_dpdk_ip_stack_config. fold unused. by rewrite Hbad.
Qed.

(** The characters of a text. *)
Definition chars (s : string) : list Z :=
  (λ c, Z.of_nat (Ascii.nat_of_ascii c)) <$> String.list_ascii_of_string s.

Definition demo_lines : list cfg_line :=
  [mk_line (chars "0") [32] (chars "10.0.0.1") [32; 9] (chars "255.255.255.0") [10];
   mk_line (chars "0") [32] (chars "10.0.0.2") [32] (chars "255.255.255.0") [10];
   mk_line (chars "1") [32] (chars "10.1.0.1") [32] (chars "255.255.0.0") [10; 10]].

Lemma demo_lines_ok : Forall line_ok demo_lines.
Proof.
  repeat constructor; cbn; try done; repeat constructor.
Qed.

Definition demo_cfg : list dpdk_dev_config_t :=
  (line_entry <$> demo_lines) ++ replicate 125 blank.

Lemma config_read_spec_witness :
  get_dpdk_ip_stack_config (Some (chars "0 10.0.0.1 	255.255.255.0
0 10.0.0.2 255.255.255.0
1 10.1.0.1 255.255.0.0

")) (replicate 128 blank) = Done (0, demo_cfg) ∧
  get_dpdk_ip_stack_config (Some (concat (line_text <$> demo_lines) ++ chars "# spare")) (replicate 128 blank)
    = Fault.
Proof.
  destruct (config_read_spec demo_lines (replicate 128 blank) demo_lines_ok ltac:(done)) as (_ & H1 & H2).
  split; [exact H1|]. apply (H2 35 (chars " spare") 0%nat); [done..|cbn; lia].
Defined.

(** ** Setting up the ports *)

Definition port_entries (cfg : list dpdk_dev_config_t) (portid : Z) : list dpdk_dev_config_t :=
  filter (λ e, port_number e = portid) cfg.

(** The calls a port's entries stand for: the first is its address, the others its
    aliases, numbered from 0. *)
Definition port_calls (dev : Z) (mac : list Z) (es : list dpdk_dev_config_t) : list dev_call :=
  match es with
  | [] => []
  | e :: es =>
      SetDevAddr dev mac (ip_addr_str e) (ip_mask_str e) ::
      imap (λ k e, AddDevAddr dev (Z.of_nat k) (ip_addr_str e) (ip_mask_str e)) es
  end.

(** A port's entries stand together, another entry behind them. *)
Definition grouped (cfg : list dpdk_dev_config_t) (portid : Z) : Prop :=
  port_entries cfg portid = [] ∨
  ∃ pre nxt post, cfg = pre ++ port_entries cfg portid ++ nxt :: post ∧
    Forall (λ e, port_number e ≠ portid) pre ∧ port_number nxt ≠ portid ∧
    portid + zlen (port_entries cfg portid) ≤ CONFIG_SIZE.

Section ports_spec.
Context `{Drivers} (cfg : list dpdk_dev_config_t).

Lemma port_entries_port portid : Forall (λ e, port_number e = portid) (port_entries cfg portid).
Proof. apply Forall_forall. intros e [??]%list_elem_of_filter. done. Qed.

Lemma get_entry_none portid :
  port_entries cfg portid = [] → get_dpdk_config_entry cfg portid = None.
Proof.
  intros Hnil. unfold get_dpdk_config_entry.
  destruct (list_find _ cfg) as [[i e]|] eqn:Hf; [|done].
  apply list_find_Some in Hf as (Hi & Hp & _). apply list_elem_of_lookup_2 in Hi.
  assert (e ∈ port_entries cfg portid) as He by by apply list_elem_of_filter.
  rewrite Hnil in He. by apply not_elem_of_nil in He.
Qed.

Lemma get_entry_first portid pre e rest :
  cfg = pre ++ e :: rest → Forall (λ e, port_number e ≠ portid) pre → port_number e = portid →
  get_dpdk_config_entry cfg portid = Some (length pre).
Proof.
  intros -> Hpre He. unfold get_dpdk_config_entry.
  rewrite (proj2 (list_find_Some _ _ (length pre) e)); [done|]. split_and!.
  - by apply list_lookup_middle.
  - done.
  - intros j y Hj Hlt. rewrite lookup_app_l in Hj by done.
    by eapply Forall_lookup_1 in Hpre.
Qed.

Lemma alias_loop_spec portid es fuel pre e nxt post sub b :
  cfg = pre ++ e :: es ++ nxt :: post → Forall (λ e, port_number e = portid) es →
  port_number nxt ≠ portid → (length es < fuel)%nat → sub + zlen es ≤ CONFIG_SIZE →
  wp (alias_loop cfg fuel portid (length pre) sub)
    (λ _ b', b' = b <| bt_calls := bt_calls b ++
       imap (λ k e, AddDevAddr (lget (bt_devices b) portid) (sub - portid + Z.of_nat k)
                      (ip_addr_str e) (ip_mask_str e)) es |>) b.
Proof.
  intros Hcfg Hes Hnxt. revert fuel pre e sub b Hcfg.
  induction Hes as [|e' es He' Hes IH]; intros fuel pre e sub b Hcfg Hf Hsub;
    (destruct fuel as [|fuel]; [cbn in Hf; lia|]); cbn [alias_loop].
  - assert (b = b <| bt_calls := bt_calls b ++ [] |>) as Hb by (destruct b; cbn; by rewrite app_nil_r).
    destruct (sub <? CONFIG_SIZE); [|by rewrite wp_ret].
    assert (cfg !! S (length pre) = Some nxt) as ->.
    { rewrite Hcfg. cbn [app]. rewrite (cons_middle e), (assoc_L (++)).
      apply list_lookup_middle. rewrite length_app. cbn. lia. }
    cbn [of_option]. wp_run. by rewrite (proj2 (Z.eqb_neq _ _) Hnxt).
  - unfold zlen in Hsub. cbn [length] in *. rewrite (proj2 (Z.ltb_lt _ _)) by lia.
    assert (cfg = (pre ++ [e]) ++ e' :: es ++ nxt :: post) as Hcfg' by by rewrite <- (assoc_L (++)).
    replace (S (length pre)) with (length (pre ++ [e])) by (rewrite length_app; cbn; lia).
    replace (cfg !! length (pre ++ [e])) with (Some e') by (rewrite Hcfg'; by rewrite list_lookup_middle).
    cbn [of_option]. wp_run. rewrite He', Z.eqb_refl. unfold call. wp_run.
    eapply wp_mono; [apply (IH _ _ _ _ _ Hcfg'); [lia|unfold zlen; lia]|].
    intros ? b' ->. destruct b as [devs calls]. cbn. rewrite <- (assoc_L (++)). cbn [app].
    unfold set_field, eta_boot. cbn. do 3 f_equal; [f_equal; lia|].
    apply imap_ext. intros i x _. cbn. f_equal. lia.
Qed.

Lemma setup_port_spec portid dev mac pre nxt post es e b :
  cfg = pre ++ (e :: es) ++ nxt :: post → Forall (λ e, port_number e = portid) es →
  port_number nxt ≠ portid → portid + zlen (e :: es) ≤ CONFIG_SIZE →
  0 ≤ portid < RTE_MAX_ETHPORTS → zlen (bt_devices b) = RTE_MAX_ETHPORTS →
  wp (setup_port cfg portid dev mac (length pre))
    (λ _ b', b' = mk_boot (lset (bt_devices b) portid dev)
                    (bt_calls b ++ port_calls dev mac (e :: es))) b.
Proof.
  intros Hcfg Hes Hnxt Hsz Hp Hdev. unfold setup_port.
  replace (cfg !! length pre) with (Some e) by (rewrite Hcfg; cbn [app]; by rewrite list_lookup_middle).
  cbn [of_option]. unfold set_device, call. wp_run. rewrite wp_require. split; [lia|]. wp_run.
  change CONFIG_SIZE with 128 in Hsz. unfold zlen in Hsz. cbn [length] in Hsz.
  eapply wp_mono; [apply (alias_loop_spec portid es _ pre e nxt post); [done..| |]|].
  - change (Z.to_nat CONFIG_SIZE) with 128%nat. lia.
  - unfold zlen. change CONFIG_SIZE with 128. lia.
  - intros ? b' ->. unfold set_field, eta_boot. cbn. rewrite lget_lset_eq by (rewrite Hdev; lia).
    rewrite <- (assoc_L (++)). cbn [app]. do 3 f_equal. apply imap_ext. intros i x _. cbn. f_equal. lia.
Qed.

(** A port with entries, found and set up. *)
Lemma found_port_spec portid dev mac b :
  grouped cfg portid → port_entries cfg portid ≠ [] → 0 ≤ portid < RTE_MAX_ETHPORTS →
  zlen (bt_devices b) = RTE_MAX_ETHPORTS →
  ∃ p, get_dpdk_config_entry cfg portid = Some p ∧
    wp (setup_port cfg portid dev mac p)
      (λ _ b', b' = mk_boot (lset (bt_devices b) portid dev)
                      (bt_calls b ++ port_calls dev mac (port_entries cfg portid))) b.
Proof.
  intros [?|(pre & nxt & post & Hcfg & Hpre & Hnxt & Hsz)] Hne Hp Hdev; [done|].
  pose proof (port_entries_port portid) as Hall. revert Hcfg Hne Hsz Hall.
  generalize (port_entries cfg portid). intros [|e es] Hcfg Hne Hsz Hall; [done|].
  apply Forall_cons in Hall as [He Hes]. exists (length pre). split.
  - by eapply get_entry_first.
  - by eapply setup_port_spec.
Qed.

(** What the first [n] ports have become: [on] says which are set up. *)
Definition ports_done (on : Z → bool) (dev : Z → Z) (mac : Z → list Z) (n : Z) (b : boot) : Prop :=
  bt_calls b = flat_map (λ p, if on p then port_calls (dev p) (mac p) (port_entries cfg p) else [])
                 (seqZ 0 n) ∧
  zlen (bt_devices b) = RTE_MAX_ETHPORTS ∧
  (∀ p, 0 ≤ p < RTE_MAX_ETHPORTS →
    lget (bt_devices b) p =
      if (p <? n) && on p && negb (bool_decide (port_entries cfg p = [])) then dev p else 0).

Lemma seqZ_snoc n : 0 ≤ n → seqZ 0 (n + 1) = seqZ 0 n ++ [n].
Proof. intros. by rewrite seqZ_app by lia. Qed.

Lemma ports_done_skip on dev mac n b :
  0 ≤ n → on n = false ∨ port_entries cfg n = [] →
  ports_done on dev mac n b → ports_done on dev mac (n + 1) b.
Proof.
  intros Hn Hskip (Hc & Hl & Hd). split_and!; [|done|].
  - rewrite seqZ_snoc, flat_map_app, Hc by done. cbn [flat_map]. rewrite app_nil_r.
    destruct Hskip as [->| ->]; [|destruct (on n)]; by rewrite app_nil_r.
  - intros p Hp. rewrite Hd by done. destruct (Z.eq_dec p n) as [->|Hne].
    + rewrite (proj2 (Z.ltb_ge _ _)), (proj2 (Z.ltb_lt n (n + 1))) by lia. cbn.
      destruct Hskip as [->| ->]; [done|]. by rewrite bool_decide_eq_true_2, andb_false_r by done.
    + assert ((p <? n + 1) = (p <? n)) as -> by lia. done.
Qed.

Lemma ports_done_port on dev mac n b :
  0 ≤ n < RTE_MAX_ETHPORTS → on n = true → port_entries cfg n ≠ [] →
  ports_done on dev mac n b →
  ports_done on dev mac (n + 1)
    (mk_boot (lset (bt_devices b) n (dev n))
       (bt_calls b ++ port_calls (dev n) (mac n) (port_entries cfg n))).
Proof.
  intros Hn Hon Hne (Hc & Hl & Hd). split_and!; cbn [bt_calls bt_devices].
  - rewrite seqZ_snoc, flat_map_app, Hc by lia. cbn [flat_map]. by rewrite Hon, app_nil_r.
  - by rewrite zlen_lset.
  - intros p Hp. destruct (Z.eq_dec p n) as [->|Hpn].
    + rewrite lget_lset_eq by (rewrite Hl; lia).
      rewrite (proj2 (Z.ltb_lt n (n + 1))), Hon, bool_decide_eq_false_2 by (done || lia). done.
    + rewrite lget_lset_ne by lia. rewrite Hd by done.
      assert ((p <? n + 1) = (p <? n)) as -> by lia. done.
Qed.

Lemma hardware_port_spec mask n b :
  0 ≤ n < RTE_MAX_ETHPORTS → grouped cfg n →
  ports_done (Z.testbit mask) create_netdev rte_eth_macaddr_get n b →
  wp (hardware_port cfg mask n)
    (λ _, ports_done (Z.testbit mask) create_netdev rte_eth_macaddr_get (n + 1)) b.
Proof.
  intros Hn Hg Hdone. unfold hardware_port. destruct (Z.testbit mask n) eqn:Hb.
  2: { cbn [negb]. rewrite wp_ret. apply ports_done_skip; [lia|by left|done]. }
  cbn [negb]. destruct (decide (port_entries cfg n = [])) as [Hnil|Hne].
  - rewrite get_entry_none by done. rewrite wp_ret. apply ports_done_skip; [lia|by right|done].
  - destruct (found_port_spec n (create_netdev n) (rte_eth_macaddr_get n) b) as (p & -> & Hwp);
      [done..|apply Hdone|].
    eapply wp_mono; [exact Hwp|]. intros ? b' ->. by apply ports_done_port.
Qed.

Definition no_mac (_ : Z) : list Z := replicate 6 0.

Lemma loopback_ports_spec k fuel n b :
  0 ≤ n → n + Z.of_nat k ≤ RTE_MAX_ETHPORTS → (k ≤ fuel)%nat →
  (∀ p, 0 ≤ p < RTE_MAX_ETHPORTS → grouped cfg p) →
  (∀ p, n ≤ p < n + Z.of_nat k → port_entries cfg p ≠ []) →
  port_entries cfg (n + Z.of_nat k) = [] →
  ports_done (λ _, true) init_dpdk_sw_loop no_mac n b →
  wp (loopback_ports cfg fuel n)
    (λ _, ports_done (λ _, true) init_dpdk_sw_loop no_mac (n + Z.of_nat k)) b.
Proof.
  revert fuel n b. induction k as [|k IH]; intros fuel n b Hn Hk Hf Hg Hes Hend Hdone.
  - rewrite Z.add_0_r in *. destruct fuel; cbn [loopback_ports]; by rewrite get_entry_none.
  - destruct fuel as [|fuel]; [lia|]. cbn [loopback_ports].
    destruct (found_port_spec n (init_dpdk_sw_loop n) (replicate 6 0) b) as (p & -> & Hwp);
      [apply Hg; lia|apply Hes; lia|lia|apply Hdone|].
    rewrite wp_bind. eapply wp_mono; [exact Hwp|]. intros ? b' ->. cbn beta.
    change RTE_MAX_ETHPORTS with 32 in *. rewrite (Z.mod_small (n + 1)) by lia.
    replace (n + Z.of_nat (S k)) with ((n + 1) + Z.of_nat k) in * by lia.
    apply IH; [lia..|done| |done|].
    + intros q Hq. apply Hes. lia.
    + apply (ports_done_port _ _ no_mac); [change RTE_MAX_ETHPORTS with 32; lia|done|apply Hes; lia|done].
Qed.
End ports_spec.

(** Setting up the ports from a table in which each port's entries stand together:
    with hardware, every enabled port that has entries gets its device and exactly
    its entries, the first as its address and the others as aliases 0, 1, ... in the
    order of the file; ports without entries or not enabled are left alone.  Without
    hardware the same is done for ports 0, 1, ... up to the first without an entry. *)
Theorem ports_configured `{Drivers} cfg mask b :
  zlen cfg = CONFIG_SIZE → (∀ p, 0 ≤ p < RTE_MAX_ETHPORTS → grouped cfg p) →
  b = mk_boot (replicate 32 0) [] →
  (∀ nb_ports, 0 < nb_ports →
    wp (setup_devices cfg nb_ports mask)
      (λ _, ports_done cfg (Z.testbit mask) create_netdev rte_eth_macaddr_get
              (Z.min nb_ports RTE_MAX_ETHPORTS)) b) ∧
  (∀ n, 0 ≤ n ≤ RTE_MAX_ETHPORTS → (∀ p, 0 ≤ p < n → port_entries cfg p ≠ []) →
    port_entries cfg n = [] →
    wp (setup_devices cfg 0 mask)
      (λ _, ports_done cfg (λ _, true) init_dpdk_sw_loop no_mac n) b).
Proof.
  intros Hcfg Hg ->.
  assert (∀ on dev mac, ports_done cfg on dev mac 0 (mk_boot (replicate 32 0) [])) as H0.
  { intros. split_and!; [done..|]. intros p Hp. rewrite (proj2 (Z.ltb_ge _ _)) by lia. cbn [andb bt_devices].
    unfold lget. rewrite lookup_replicate_2; [done|].
    change RTE_MAX_ETHPORTS with 32 in *. lia. }
  split.
  - intros nb Hnb. unfold setup_devices. change RTE_MAX_ETHPORTS with 32 in *.
    assert ((if 32 <? nb then 32 else nb) = Z.min nb 32) as -> by (destruct (Z.ltb_spec 32 nb); lia). cbv zeta.
    rewrite (proj2 (Z.eqb_neq _ _)) by lia.
    apply (wp_for_each_seqZ _ _ (λ i, ports_done cfg (Z.testbit mask) create_netdev rte_eth_macaddr_get i));
      [lia|apply H0|].
    intros i s Hi Hs. apply hardware_port_spec; [change RTE_MAX_ETHPORTS with 32; lia|apply Hg; lia|done].
  - intros n Hn Hes Hend. cbn [setup_devices]. change (32 <? 0) with false.
    pose proof (loopback_ports_spec cfg (Z.to_nat n) (length cfg) 0 (mk_boot (replicate 32 0) [])) as Hl.
    rewrite Z.add_0_l, Z2Nat.id in Hl by lia.
    unfold setup_devices. change (RTE_MAX_ETHPORTS <? 0) with false. cbn [Z.eqb].
    apply Hl; [lia|lia| |done..|apply H0].
    change CONFIG_SIZE with 128 in Hcfg. change RTE_MAX_ETHPORTS with 32 in *. unfold zlen in Hcfg. lia.
Qed.

Section demo_drivers.
#[local] Instance demo_drivers : Drivers := {|
  create_netdev p := 4096 + p; init_dpdk_sw_loop p := 8192 + p;
  rte_eth_macaddr_get p := [2; 0; 0; 0; 0; p] |}.

Lemma demo_cfg_grouped p : 0 ≤ p < RTE_MAX_ETHPORTS → grouped demo_cfg p.
Proof.
  change RTE_MAX_ETHPORTS with 32. intros Hp.
  assert (p = 0 ∨ p = 1 ∨ 2 ≤ p) as [->|[->|Hp2]] by lia.
  - right. eexists [], _, _. split_and!; [vm_compute; reflexivity|constructor|done|done].
  - right. eexists [_; _], _, _. split_and!; [vm_compute; reflexivity|by repeat constructor|done|done].
  - left. assert (forallb (λ p, Nat.eqb (length (port_entries demo_cfg p)) 0) (seqZ 2 30) = true) as Hall
      by (vm_compute; done).
    rewrite forallb_forall in Hall. specialize (Hall p). rewrite Nat.eqb_eq in Hall.
    apply nil_length_inv, Hall. apply list_elem_of_In, elem_of_seqZ. lia.
Qed.

(** Port 0 has an alias; port 2 is enabled too but not configured. *)
Lemma ports_configured_witness :
  wp (setup_devices demo_cfg 3 7)
    (λ _ b, bt_calls b =
       [SetDevAddr 4096 [2; 0; 0; 0; 0; 0] (chars "10.0.0.1") (chars "255.255.255.0");
        AddDevAddr 4096 0 (chars "10.0.0.2") (chars "255.255.255.0");
        SetDevAddr 4097 [2; 0; 0; 0; 0; 1] (chars "10.1.0.1") (chars "255.255.0.0")])
    (mk_boot (replicate 32 0) []) ∧
  wp (setup_devices demo_cfg 3 7)
    (λ _, ports_done demo_cfg (Z.testbit 7) create_netdev rte_eth_macaddr_get 3)
    (mk_boot (replicate 32 0) []) ∧
  wp (setup_devices demo_cfg 0 0)
    (λ _, ports_done demo_cfg (λ _, true) init_dpdk_sw_loop no_mac 2) (mk_boot (replicate 32 0) []).
Proof.
  split; [vm_compute; reflexivity|].
  destruct (ports_configured demo_cfg 7 _ ltac:(done) demo_cfg_grouped eq_refl) as [H1 _].
  destruct (ports_configured demo_cfg 0 _ ltac:(done) demo_cfg_grouped eq_refl) as [_ H2].
  split; [by apply (H1 3)|]. apply H2; [vm_compute; split; done| |by vm_compute].
  intros p Hp Hnil. assert (p = 0 ∨ p = 1) as [->| ->] by lia; vm_compute in Hnil; done.
Defined.
End demo_drivers.

(** ** Announcements *)

(** What a reader of the announcements makes of a field: most significant byte first. *)
Definition be_word (bs : list Z) : Z := fold_left (λ n b, n * 256 + b) bs 0.

Lemma uint8_shiftl v k m : 8 ≤ k → 8 ≤ m → uint8 (Z.shiftl v k mod 2 ^ m) = 0.
Proof.
  intros Hk Hm. unfold uint8. change 256 with (2 ^ 8). rewrite Z.mod_mod_divide.
  - rewrite Z.shiftl_mul_pow2 by lia. replace k with (k - 8 + 8) by lia.
    rewrite Z.pow_add_r, Z.mul_assoc by lia. by apply Z.mod_mul.
  - exists (2 ^ (m - 8)). rewrite <- Z.pow_add_r by lia. f_equal. lia.
Qed.

Lemma encode_32_bytes v : encode_32 v = [0; 0; 0; uint8 v].
Proof. unfold encode_32, wrap32. by rewrite !uint8_shiftl. Qed.
Lemma encode_64_bytes v : encode_64 v = [0; 0; 0; 0; 0; 0; 0; uint8 v].
Proof. unfold encode_64. by rewrite !uint8_shiftl. Qed.
Lemma encode_16_bytes v : encode_16 v = [0; uint8 v].
Proof.
  unfold encode_16. f_equal.
  - unfold uint8. rewrite Z.shiftl_mul_pow2 by lia. by apply Z.mod_mul.
  - f_equal. unfold uint8. change 255 with (2 ^ 8 - 1). rewrite land_mask by lia. by apply Zmod_mod.
Qed.

Section announcements_spec.
Context `{Devices} (devs : list Z) (cfg : list dpdk_dev_config_t) (buf : list Z).

(** The buffer holds [w] in front of what it held. *)
Definition written (w : list Z) (a : announce) : Prop :=
  an_buf a = w ++ drop (length w) buf ∧ an_offset a = zlen w.

Lemma put_spec w bs size a :
  written w a → zlen (w ++ bs) ≤ zlen buf → zlen bs = size →
  wp (put bs size) (λ _ a', written (w ++ bs) a' ∧ an_hw_addr_len a' = an_hw_addr_len a) a.
Proof.
  intros [Hb Ho] Hsz Hn. rewrite zlen_app in Hsz. unfold put. wp_run. cbn [id].
  rewrite wp_require. unfold zlen in *. split.
  { rewrite Hb, Ho, length_app, length_drop. apply Z.leb_le. lia. }
  rewrite wp_modify. split; [|done]. unfold written. cbn. rewrite Hb, Ho.
  split; [|unfold zlen; rewrite length_app; lia].
  rewrite Nat2Z.id, take_app_length, <- (assoc_L (++)). do 2 f_equal.
  rewrite drop_app_ge by lia. rewrite drop_drop. f_equal. rewrite length_app. lia.
Qed.

(** What is announced of the device at [idx], the [n]-th announced; the length of the
    hardware address changes byte order from one to the next. *)
Definition device_record (n : nat) (idx : Z) : list Z :=
  get_dev_name (lget devs idx) ++ [0; 0; 0; idx] ++ [0] ++ [0; 0; 0; 0; 0; 0; 0; 67] ++
  [0; 0; 0; 1] ++ [0; 0; 0; 220] ++ [0; 0; 0; 220] ++ [0; 0; 0; 0] ++
  (if Nat.even n then [0; 0; 0; 6] else [6; 0; 0; 0]) ++ sockaddr_dl.

(** What is announced as the address of the device at [idx]: that of the table's entry
    number [idx]. *)
Definition address_record (idx : Z) : list Z :=
  [0; 0; 0; idx] ++ [67] ++ [AF_INET] ++
  le_bytes 4 (inet_addr (ip_addr_str (nth (Z.to_nat idx) cfg blank))) ++ [32] ++ [0; 0; 0; 0] ++ [32].

Definition hw_len (n : nat) : Z := if Nat.even n then 6 else 100663296.
Lemma htonl_hw_len n : htonl (hw_len n) = hw_len (S n).
Proof. unfold hw_len. rewrite Nat.even_succ, <- Nat.negb_even. by destruct (Nat.even n). Qed.
Lemma hw_len_bytes n :
  le_bytes 4 (hw_len (S n)) = if Nat.even n then [0; 0; 0; 6] else [6; 0; 0; 0].
Proof. unfold hw_len. rewrite Nat.even_succ, <- Nat.negb_even. by destruct (Nat.even n). Qed.

Hypothesis names : ∀ d, zlen (get_dev_name d) = IFACE_NAME_SIZE.
Hypothesis garbage : zlen sockaddr_dl = 6.

Ltac put_side :=
  first [ eassumption
        | unfold zlen; rewrite !length_app, ?length_le_bytes; cbn [length]; lia
        | unfold zlen; rewrite ?length_le_bytes; done || lia ].
Ltac put_next :=
  rewrite wp_bind; eapply wp_mono; [apply put_spec; put_side|];
  cbn beta;
  lazymatch goal with
  | Hw : written _ ?a, Hh : an_hw_addr_len ?a = _ |- ∀ (_ : _) _, _ →  _ =>
      clear Hw; intros ? ? [Hw Hh2]; rewrite Hh in Hh2; clear Hh; rename Hh2 into Hh; cbn beta
  end.

Lemma announce_device_spec w n idx a :
  written w a → an_hw_addr_len a = hw_len n → 0 ≤ idx < RTE_MAX_ETHPORTS → lget devs idx ≠ 0 →
  zlen w + 59 ≤ zlen buf →
  wp (announce_device devs idx)
    (λ _ a', written (w ++ device_record n idx) a' ∧ an_hw_addr_len a' = hw_len (S n)) a.
Proof.
  change RTE_MAX_ETHPORTS with 32. intros Hw Hh Hi Hd Hsz. unfold announce_device.
  rewrite (proj2 (Z.eqb_neq _ _) Hd). rewrite encode_64_bytes, !encode_32_bytes.
  assert (uint8 idx = idx) as -> by (apply Z.mod_small; lia).
  pose proof (names (lget devs idx)) as Hn. change IFACE_NAME_SIZE with 20 in *.
  pose proof (length_le_bytes 4 (htonl (hw_len n))) as Hlen.
  unfold zlen in Hsz, Hn. pose proof garbage as Hg. unfold zlen in Hg.
  unfold device_record. rewrite <- hw_len_bytes, <- htonl_hw_len.
  do 8 put_next. rewrite wp_bind, wp_modify. cbn beta.
  match goal with |- wp _ _ ?x =>
    assert (written _ x ∧ an_hw_addr_len x = htonl (hw_len n)) as [Hw' Hh'] by
      (split; [exact Hw|unfold set_field, eta_announce; cbn; by rewrite Hh]);
    generalize dependent x
  end.
  intros x Hw' Hh'. clear dependent s'6. rewrite wp_bind, wp_gets. rewrite Hh'.
  put_next.
  eapply wp_mono; [apply put_spec; put_side|]. clear Hw'. intros ? ? [Hw' ->].
  split; [|done]. by rewrite <- !(assoc_L (++)) in Hw'.
Qed.

Lemma announce_address_spec w idx a e :
  written w a → 0 ≤ idx < RTE_MAX_ETHPORTS → cfg !! Z.to_nat idx = Some e →
  lget devs idx ≠ 0 → port_number e ≠ -1 → zlen w + 16 ≤ zlen buf →
  wp (announce_address devs cfg idx) (λ _, written (w ++ address_record idx)) a.
Proof.
  change RTE_MAX_ETHPORTS with 32. intros Hw Hi He Hd Hp Hsz. unfold announce_address.
  rewrite He. cbn [of_option]. rewrite wp_bind, wp_ret. rewrite (proj2 (Z.eqb_neq _ _) Hd), (proj2 (Z.eqb_neq _ _) Hp).
  cbn [orb]. rewrite !encode_32_bytes.
  assert (uint8 idx = idx) as -> by (apply Z.mod_small; lia).
  unfold address_record. rewrite (nth_lookup_Some _ _ _ _ He).
  pose proof (length_le_bytes 4 (inet_addr (ip_addr_str e))) as Hlen. unfold zlen in Hsz.
  assert (an_hw_addr_len a = an_hw_addr_len a) as Hh by done. revert Hh.
  generalize (an_hw_addr_len a) at 2. intros h Hh.
  do 6 put_next.
  eapply wp_mono; [apply put_spec; put_side|]. clear Hw. intros ? ? [Hw _].
  by rewrite <- !(assoc_L (++)) in Hw.
Qed.

Definition present (n : Z) : list Z := filter (λ i, lget devs i ≠ 0) (seqZ 0 n).
Definition addressed (n : Z) : list Z :=
  filter (λ i, lget devs i ≠ 0 ∧ port_number (nth (Z.to_nat i) cfg blank) ≠ -1) (seqZ 0 n).

Lemma length_filter_seqZ (P : Z → Prop) `{∀ x, Decision (P x)} n :
  0 ≤ n → Z.of_nat (length (filter P (seqZ 0 n))) ≤ n.
Proof. intros. pose proof (length_filter P (seqZ 0 n)) as Hf. rewrite length_seqZ in Hf. lia. Qed.

Lemma filter_seqZ_snoc (P : Z → Prop) `{∀ x, Decision (P x)} n :
  0 ≤ n → filter P (seqZ 0 (n + 1)) = filter P (seqZ 0 n) ++ if decide (P n) then [n] else [].
Proof.
  intros. rewrite seqZ_snoc, filter_app by done. rewrite filter_cons, filter_nil.
  by destruct (decide (P n)).
Qed.

Lemma zlen_records (f : nat → Z → list Z) k l :
  (∀ n i, zlen (f n i) = k) → zlen (concat (imap f l)) = k * zlen l.
Proof.
  intros Hf. revert f Hf. induction l as [|i l IH]; intros f Hf; [unfold zlen; cbn; lia|].
  rewrite imap_cons. cbn [concat]. rewrite zlen_app, Hf, IH by (intros; apply Hf).
  unfold zlen. cbn [length]. lia.
Qed.

Lemma concat_imap_snoc (f : nat → Z → list Z) l i :
  concat (imap f (l ++ [i])) = concat (imap f l) ++ f (length l) i.
Proof. rewrite imap_app, concat_app. cbn. by rewrite app_nil_r, Nat.add_0_r. Qed.

Lemma zlen_device_record n idx : zlen (device_record n idx) = 59.
Proof.
  unfold device_record. rewrite !zlen_app, names, garbage. by destruct (Nat.even n).
Qed.
Lemma zlen_address_record idx : zlen (address_record idx) = 16.
Proof. unfold address_record. rewrite !zlen_app. unfold zlen at 4. by rewrite length_le_bytes. Qed.

Lemma devices_announced :
  59 * RTE_MAX_ETHPORTS ≤ zlen buf →
  get_all_devices devs buf =
    let ds := present RTE_MAX_ETHPORTS in
    Done (59 * zlen ds, concat (imap device_record ds) ++ drop (length (concat (imap device_record ds))) buf).
Proof.
  intros Hsz.
  assert (wp (for_each (seqZ 0 RTE_MAX_ETHPORTS) (announce_device devs))
    (λ _ a, written (concat (imap device_record (present RTE_MAX_ETHPORTS))) a ∧
            an_hw_addr_len a = hw_len (length (present RTE_MAX_ETHPORTS))) (mk_announce buf 0 6)) as Hwp.
  { apply (wp_for_each_seqZ _ _ (λ i a, written (concat (imap device_record (present i))) a ∧
            an_hw_addr_len a = hw_len (length (present i)))); [done|done|].
    intros i a Hi [Hw Hh]. cbn beta.
    rewrite (filter_seqZ_snoc (λ i, lget devs i ≠ 0) i : _ → present (i + 1) = _) by lia. fold (present i).
    destruct (decide (lget devs i ≠ 0)) as [Hd|Hd].
    - eapply wp_mono; [apply (announce_device_spec (concat (imap device_record (present i))) (length (present i))); [done..|]|].
      + rewrite (zlen_records _ 59) by apply zlen_device_record.
        pose proof (length_filter_seqZ (λ i, lget devs i ≠ 0) i ltac:(lia)). unfold zlen at 1, present. lia.
      + intros ? a' [Hw' Hh']. rewrite concat_imap_snoc, length_app, Nat.add_1_r. done.
    - unfold announce_device. rewrite (proj2 (Z.eqb_eq (lget devs i) 0)) by lia. rewrite wp_ret.
      by rewrite !app_nil_r. }
  unfold get_all_devices, wp in *. destruct (for_each _ _ _) as [[? a]| |]; [|done..].
  destruct Hwp as [[-> ->] _]. by rewrite (zlen_records _ 59) by apply zlen_device_record.
Qed.

Lemma addresses_announced :
  zlen cfg = CONFIG_SIZE → 16 * RTE_MAX_ETHPORTS ≤ zlen buf →
  get_all_addresses devs cfg buf =
    let ds := addressed RTE_MAX_ETHPORTS in
    let w := concat (imap (λ _, address_record) ds) in
    Done (16 * zlen ds, w ++ drop (length w) buf).
Proof.
  intros Hcfg Hsz. set (rec := λ _ : nat, address_record).
  assert (wp (for_each (seqZ 0 RTE_MAX_ETHPORTS) (announce_address devs cfg))
    (λ _ a, written (concat (imap rec (addressed RTE_MAX_ETHPORTS))) a) (mk_announce buf 0 0)) as Hwp.
  { apply (wp_for_each_seqZ _ _ (λ i a, written (concat (imap rec (addressed i))) a)); [done|done|].
    intros i a Hi Hw. cbn beta.
    rewrite (filter_seqZ_snoc _ i : _ → addressed (i + 1) = _) by lia. fold (addressed i).
    change CONFIG_SIZE with 128 in Hcfg. change RTE_MAX_ETHPORTS with 32 in *.
    destruct (lookup_lt_is_Some_2 cfg (Z.to_nat i)) as [e He]; [unfold zlen in Hcfg; lia|].
    rewrite (nth_lookup_Some _ _ _ _ He).
    destruct (decide (lget devs i ≠ 0 ∧ port_number e ≠ -1)) as [[Hd Hp]|Hd].
    - eapply wp_mono; [apply (announce_address_spec (concat (imap rec (addressed i))) i a e); [done..|]|].
      + rewrite (zlen_records _ 16) by (intros; apply zlen_address_record).
        pose proof (length_filter_seqZ
          (λ i, lget devs i ≠ 0 ∧ port_number (nth (Z.to_nat i) cfg blank) ≠ -1) i ltac:(lia)).
        unfold zlen at 1, addressed. lia.
      + intros ? a' Hw'. by rewrite concat_imap_snoc.
    - unfold announce_address. rewrite He. cbn [of_option]. rewrite wp_bind, wp_ret.
      assert ((lget devs i =? 0) || (port_number e =? -1) = true) as -> by lia. rewrite wp_ret.
      by rewrite app_nil_r. }
  unfold get_all_addresses, wp in *. destruct (for_each _ _ _) as [[? a]| |]; [|done..].
  destruct Hwp as [-> ->]. cbv zeta. by rewrite (zlen_records _ 16) by (intros; apply zlen_address_record).
Qed.
End announcements_spec.

(** A field of a record, as its reader takes it. *)
Definition field (off len : nat) (bs : list Z) : Z := be_word (take len (drop off bs)).

Section announcements_claims.
Context `{Devices}.

Lemma field_after_name devs n idx off len :
  zlen (get_dev_name (lget devs idx)) = IFACE_NAME_SIZE →
  field (20 + off) len (device_record devs n idx) =
  field off len (drop 20 (device_record devs n idx)) ∧
  drop 20 (device_record devs n idx) =
    [0; 0; 0; idx] ++ [0] ++ [0; 0; 0; 0; 0; 0; 0; 67] ++ [0; 0; 0; 1] ++ [0; 0; 0; 220] ++
    [0; 0; 0; 220] ++ [0; 0; 0; 0] ++ (if Nat.even n then [0; 0; 0; 6] else [6; 0; 0; 0]) ++ sockaddr_dl.
Proof.
  intros Hn. unfold field. rewrite drop_drop. split; [done|]. unfold device_record.
  apply drop_app_length'. change IFACE_NAME_SIZE with 20 in Hn. unfold zlen in Hn. lia.
Qed.

(** C40. What a client is told.  The records of the devices present, 59 bytes each, and
    of the addresses, 16 bytes each, follow one another in the buffer, nothing behind
    them is touched and their size is returned.  But the encoders keep the low byte
    only: any number above 255 reads back modulo 256, an MTU of 1500 as 220; the length
    of the hardware address reads 6 for every other device and 6 * 2^24 for the rest;
    and the address announced for a device is the table's entry with the device's
    number, whichever port that entry is for. *)
Theorem announcements_spec devs cfg buf :
  (∀ d, zlen (get_dev_name d) = IFACE_NAME_SIZE) → zlen sockaddr_dl = 6 →
  zlen cfg = CONFIG_SIZE → 59 * RTE_MAX_ETHPORTS ≤ zlen buf →
  (let w := concat (imap (device_record devs) (present devs RTE_MAX_ETHPORTS)) in
   get_all_devices devs buf =
     Done (59 * zlen (present devs RTE_MAX_ETHPORTS), w ++ drop (length w) buf)) ∧
  (let w := concat (imap (λ _, address_record cfg) (addressed devs cfg RTE_MAX_ETHPORTS)) in
   get_all_addresses devs cfg buf =
     Done (16 * zlen (addressed devs cfg RTE_MAX_ETHPORTS), w ++ drop (length w) buf)) ∧
  (∀ v, be_word (encode_16 v) = v mod 256 ∧ be_word (encode_32 v) = v mod 256 ∧
        be_word (encode_64 v) = v mod 256) ∧
  (∀ n idx, let r := device_record devs n idx in
     field 20 4 r = idx ∧ field 25 8 r = 67 ∧ field 37 4 r = 1500 mod 256 ∧
     field 49 4 r = if Nat.even n then 6 else 6 * 2 ^ 24).
Proof.
  intros Hn Hg Hc Hb. split_and!.
  - by apply devices_announced.
  - apply addresses_announced; [done|]. change RTE_MAX_ETHPORTS with 32 in *. lia.
  - intros v. by rewrite encode_16_bytes, encode_32_bytes, encode_64_bytes.
  - intros n idx r. unfold r.
    destruct (field_after_name devs n idx 0 4 (Hn _)) as [H1 Hr].
    destruct (field_after_name devs n idx 5 8 (Hn _)) as [H2 _].
    destruct (field_after_name devs n idx 17 4 (Hn _)) as [H3 _].
    destruct (field_after_name devs n idx 29 4 (Hn _)) as [H4 _].
    cbn [Nat.add] in *. rewrite H1, H2, H3, H4, Hr. by destruct (Nat.even n).
Qed.
End announcements_claims.

Section demo_devices.
#[local] Instance demo_devices : Devices := {|
  get_dev_name d := replicate 20 d; sockaddr_dl := [9; 9; 9; 9; 9; 9];
  inet_addr s := lget s 3 + 256 * lget s 7 |}.

(** Two devices: the second, which has the address 10.1.0.1, is announced with
    10.0.0.2. *)
Lemma announcements_spec_witness :
  get_all_devices [65; 66] (replicate 2000 255) =
    Done (118, (device_record [65; 66] 0 0 ++ device_record [65; 66] 1 1) ++ replicate 1882 255) ∧
  get_all_addresses [65; 66] demo_cfg (replicate 2000 255) =
    Done (32, (address_record demo_cfg 0 ++ address_record demo_cfg 1) ++ replicate 1968 255) ∧
  field 6 4 (address_record demo_cfg 1) = be_word (le_bytes 4 (inet_addr (chars "10.0.0.2"))) ∧
  field 37 4 (device_record [65; 66] 0 0) = 220.
Proof.
  destruct (announcements_spec [65; 66] demo_cfg (replicate 2000 255)) as (H1 & H2 & _ & H4);
    [intros; by vm_compute|done|done|by vm_compute|].
  split_and!; [exact H1|exact H2|by vm_compute|apply (H4 0%nat 0)].
Defined.
End demo_devices.

(** ** The port mask *)

(** A mask that cannot be parsed gives -1, which the caller, testing for 0, takes for
    a mask with every port enabled. *)
Lemma bad_portmask s :
  parse_portmask s = -1 → parse_args_p s = Some (2 ^ 32 - 1) ∧
  (∀ p, 0 ≤ p < RTE_MAX_ETHPORTS → Z.testbit (2 ^ 32 - 1) p = true).
Proof.
  intros Hs. unfold parse_args_p. rewrite Hs. split; [done|].
  intros p Hp. change RTE_MAX_ETHPORTS with 32 in Hp.
  replace (2 ^ 32 - 1) with (Z.ones 32) by done. by apply Z.ones_spec_low.
Qed.

Example portmask_examples :
  parse_args_p (chars "3") = Some 3 ∧ parse_args_p (chars "0xF") = Some 15 ∧
  parse_args_p (chars "ports") = Some (2 ^ 32 - 1) ∧ parse_args_p (chars "100000000") = None.
Proof. by vm_compute. Qed.
