(* ===== verification/Iovec.v ===== *)
(** * Packets handed over in an iovec (porting/mm_porting.c)

    The ported stack does not copy what it receives: [memcpy_toiovec] links the packet
    buffers themselves into a chain, taking a reference to each, and that chain is
    what the application gets.  [memcpy_fromiovecend2] does copy, from a chain into
    the stack's memory. *)

From S2P Require Import Prelude Ring Mem Mbuf AppData.

(** ** Operations *)

Record iovec := mk_iovec { iov_head : Z; iov_tail : Z; iov_len : Z }.

Section iovec.
Context {S : Type} `{Part shm S}.

(** [None] when there is less data than [len]. *)
Definition rte_pktmbuf_adj (p len : Z) : M S (option Z) :=
  m ← mbuf_read p;
  if mb_data_len m <? len then mret None
  else
    _ ← mbuf_write p (λ m, m <| mb_data_len := wrap16 (mb_data_len m - len) |>
           <| mb_data_off := wrap16 (mb_data_off m + len) |>
           <| mb_pkt_len := wrap32 (mb_pkt_len m - len) |>);
    m ← mbuf_read p;
    mret (Some (mb_data_off m)).

(** The result and the iovec afterwards; [nb_segs] has 8 bits. *)
Definition memcpy_toiovec (iov : iovec) (mbuf offset len : Z) : M S (Z * iovec) :=
  data ← rte_pktmbuf_adj mbuf (wrap16 offset);
  match data with
  | None => mret (-1, iov)
  | Some _ =>
      _ ← rte_mbuf_refcnt_update mbuf 1;
      iov ← (if iov_head iov =? 0 then
               n ← rte_pktmbuf_data_len mbuf;
               _ ← mbuf_write mbuf (λ m, m <| mb_pkt_len := n |>);
               _ ← mbuf_write mbuf (λ m, m <| mb_nb_segs := 1 |>);
               mret (mk_iovec mbuf mbuf (iov_len iov))
             else if negb (iov_tail iov =? mbuf) then
               _ ← mbuf_write (iov_tail iov) (λ m, m <| mb_next := mbuf |>);
               t ← mbuf_read (iov_tail iov);
               n ← rte_pktmbuf_data_len mbuf;
               _ ← mbuf_write (iov_head iov) (λ m, m <| mb_pkt_len := wrap32 (mb_pkt_len m + n) |>);
               _ ← mbuf_write (iov_head iov) (λ m, m <| mb_nb_segs := (mb_nb_segs m + 1) mod 2 ^ 8 |>);
               mret (mk_iovec (iov_head iov) (mb_next t) (iov_len iov))
             else mret iov);
      mret (0, mk_iovec (iov_head iov) (iov_tail iov) (sint32 (iov_len iov + len)))
  end.

(** [rte_memcpy(kdata + at, bytes, ...)] into memory of the length of [kdata]. *)
Definition copy_to (kdata : list Z) (at_ : Z) (bytes : list Z) : M S (list Z) :=
  _ ← require (at_ + zlen bytes <=? zlen kdata);
  mret (take (Z.to_nat at_) kdata ++ bytes ++ drop (Z.to_nat at_ + length bytes) kdata).

Fixpoint fromiovecend2_loop (fuel : nat) (current : Z) (kdata : list Z) (copied offset len : Z)
    : M S (list Z * Z) :=
  if (current =? 0) || (len <=? copied) then mret (kdata, copied)
  else
    match fuel with
    | O => fault
    | Datatypes.S fuel =>
        m ← mbuf_read current;
        if offset <? mb_data_len m then
          let n := mb_data_len m - offset in
          kdata ← copy_to kdata copied (slice (mb_buf m) (mb_data_off m + offset) n);
          fromiovecend2_loop fuel (mb_next m) kdata (copied + n) 0 len
        else fromiovecend2_loop fuel (mb_next m) kdata copied (offset - mb_data_len m) len
    end.

Definition memcpy_fromiovecend2 (kdata : list Z) (iov : iovec) (offset len : Z) : M S (Z * list Z) :=
  fuel ← chain_fuel;
  '(kdata, copied) ← fromiovecend2_loop fuel (iov_head iov) kdata 0 offset len;
  mret (if copied =? len then 1 else 0, kdata).

Definition memcpy_fromiovec2 (kdata : list Z) (iov : iovec) (len : Z) : M S (Z * list Z) :=
  memcpy_fromiovecend2 kdata iov 0 len.
End iovec.

(** ** A chain that grows at its end *)

(** The iovec holds the chain [l], its head the totals. *)
Record iov_ok (ms : gmap Z rte_mbuf) (iov : iovec) (l : list Z) : Prop := {
  io_chain : chain ms (iov_head iov) l;
  io_tail : iov_tail iov = default 0 (last l);
  io_totals : ∀ h b, head l = Some h → ms !! h = Some b →
    mb_pkt_len b = zlen (payload ms l) ∧ mb_nb_segs b = zlen l;
}.

(** A buffer that [off] bytes of can be skipped, in no chain. *)
Record single (b : rte_mbuf) (off : Z) : Prop := {
  sg_data : data_ok b;
  sg_next : mb_next b = 0;
  sg_off : 0 ≤ off ≤ mb_data_len b;
  sg_ref : 0 < mb_refcnt b ∧ mb_refcnt b + 1 < 2 ^ 16;
}.

(** [x] after it has been taken up. *)
Definition taken_up (off : Z) (b : rte_mbuf) : rte_mbuf :=
  b <| mb_data_len := mb_data_len b - off |> <| mb_data_off := mb_data_off b + off |>
    <| mb_pkt_len := wrap32 (mb_pkt_len b - off) |> <| mb_refcnt := mb_refcnt b + 1 |>.

Lemma seg_bytes_taken off b :
  single b off → seg_bytes (taken_up off b) = drop (Z.to_nat off) (seg_bytes b).
Proof.
  intros [_ _ Ho _]. unfold seg_bytes. cbn. symmetry. by apply drop_slice.
Qed.

Lemma chain_snoc ms ms' p l t x bx :
  chain ms p l → last l = Some t → x ≠ 0 → ms' !! x = Some bx → mb_next bx = 0 →
  (∀ q b, q ∈ l → ms !! q = Some b →
     ∃ b', ms' !! q = Some b' ∧ mb_next b' = if decide (q = t) then x else mb_next b) →
  chain ms' p (l ++ [x]).
Proof.
  intros Hc Ht Hx Hbx Hnx Hq. assert (chain ms' x [x]) as Hcx.
  { econstructor; [done..|]. rewrite Hnx. constructor. }
  pose proof (chain_NoDup _ _ _ Hc) as Hnd. revert Ht Hnd Hq.
  induction Hc as [|p b l Hp Hb Hc IH]; intros Ht Hnd Hq; [done|].
  destruct (Hq p b ltac:(constructor) Hb) as (b' & Hb' & Hn).
  apply NoDup_cons in Hnd as [Hpl Hnd]. destruct l as [|q l].
  - injection Ht as ->. rewrite decide_True in Hn by done. cbn.
    econstructor; [done..|]. by rewrite Hn.
  - rewrite last_cons_cons in Ht. econstructor; [done..|].
    rewrite Hn. rewrite decide_False.
    2: { intros ->. apply Hpl. by apply last_Some_elem_of. }
    apply IH; [done..|]. intros q' b0 Hq' Hb0. apply Hq; [by constructor|done].
Qed.

(** ** One buffer *)

(** The data, and who refers to it, are as before. *)
Record kept (b b' : rte_mbuf) : Prop := {
  kp_buf : mb_buf b' = mb_buf b;
  kp_off : mb_data_off b' = mb_data_off b;
  kp_len : mb_data_len b' = mb_data_len b;
  kp_ref : mb_refcnt b' = mb_refcnt b;
}.
Lemma kept_bytes b b' : kept b b' → seg_bytes b' = seg_bytes b.
Proof. intros [E1 E2 E3 _]. unfold seg_bytes. by rewrite E1, E2, E3. Qed.
Lemma kept_refl b : kept b b.
Proof. done. Qed.

(** What appending [x] to the chain [l] does to the buffers. *)
Record appended_buf (ms ms' : gmap Z rte_mbuf) (l : list Z) (x off : Z) : Prop := {
  ap_new : ∀ b, ms !! x = Some b → ∃ b', ms' !! x = Some b' ∧ kept (taken_up off b) b' ∧ mb_next b' = mb_next b;
  ap_old : ∀ q b, q ≠ x → ms !! q = Some b → ∃ b', ms' !! q = Some b' ∧ kept b b' ∧
    mb_next b' = (if decide (last l = Some q) then x else mb_next b);
  ap_other : ∀ q, q ∉ l → q ≠ x → ms' !! q = ms !! q;
}.

Lemma appended_payload ms ms' l x off k :
  appended_buf ms ms' l x off → x ∉ k → (∀ q, q ∈ k → is_Some (ms !! q)) →
  payload ms' k = payload ms k.
Proof.
  intros Hap Hx. induction k as [|q k IH]; intros Hk; [done|].
  apply not_elem_of_cons in Hx as [Hxq Hxk].
  destruct (Hk q ltac:(constructor)) as [b Hb].
  destruct (ap_old _ _ _ _ _ Hap q b) as (b' & Hb' & Hkb & _); [done..|].
  rewrite (payload_cons ms' _ b'), (payload_cons ms _ b), (kept_bytes b b') by done.
  f_equal. apply IH; [done|]. intros q' Hq'. apply Hk. by constructor.
Qed.

Lemma appended_new_payload ms ms' l x off b :
  appended_buf ms ms' l x off → ms !! x = Some b → single b off →
  payload ms' [x] = drop (Z.to_nat off) (seg_bytes b).
Proof.
  intros Hap Hb Hs. destruct (ap_new _ _ _ _ _ Hap b Hb) as (b' & Hb' & Hk & _).
  rewrite (payload_cons _ _ b'), (kept_bytes (taken_up off b) b') by done.
  unfold payload. cbn. rewrite app_nil_r. by apply seg_bytes_taken.
Qed.

Lemma appended_chain ms ms' iov l x off b :
  iov_ok ms iov l → appended_buf ms ms' l x off → ms !! x = Some b → single b off →
  x ∉ l → x ≠ 0 → l ≠ [] → chain ms' (iov_head iov) (l ++ [x]).
Proof.
  intros [Hc _ _] Hap Hb Hs Hx Hx0 Hl. destruct (ap_new _ _ _ _ _ Hap b Hb) as (bx & Hbx & _ & Hn).
  destruct (last l) as [t|] eqn:Ht; [|by apply last_None in Ht].
  eapply chain_snoc; [done..| |].
  - rewrite Hn. apply (sg_next _ _ Hs).
  - intros q b0 Hq Hb0. destruct (ap_old _ _ _ _ _ Hap q b0) as (b' & Hb' & _ & Hn');
      [by intros ->|done|]. exists b'. split; [done|]. rewrite Hn', Ht.
    destruct (decide (q = t)) as [->|Hne]; [by rewrite decide_True|].
    rewrite decide_False; [done|]. by intros [= ->].
Qed.

Lemma wp_adj x b off (Q : option Z → shm → Prop) (m : shm) :
  mbufs m !! x = Some b → single b off →
  (∀ o, Q (Some o) (m <| mbufs := <[x := b <| mb_data_len := mb_data_len b - off |>
        <| mb_data_off := mb_data_off b + off |>
        <| mb_pkt_len := wrap32 (mb_pkt_len b - off) |>]> (mbufs m) |>)) →
  wp (rte_pktmbuf_adj x off) Q m.
Proof.
  intros Hb [[Hd1 [Hd2 Hd3]] _ Ho _] HQ. unfold rte_pktmbuf_adj. rewrite wp_bind.
  eapply wp_mbuf_read; [done|]. rewrite (proj2 (Z.ltb_ge _ _)) by lia. rewrite wp_bind.
  eapply wp_mbuf_write; [done|]. cbn [part_set part_get part_refl]. rewrite wp_bind.
  eapply wp_mbuf_read; [apply lookup_insert_eq|]. rewrite wp_ret.
  assert (wrap16 (mb_data_len b - off) = mb_data_len b - off) as -> by (apply Z.mod_small; lia).
  assert (wrap16 (mb_data_off b + off) = mb_data_off b + off) as -> by (apply Z.mod_small; lia).
  apply HQ.
Qed.

Lemma wp_ref_up x b (Q : Z → shm → Prop) (m : shm) :
  mbufs m !! x = Some b → 0 < mb_refcnt b → mb_refcnt b + 1 < 2 ^ 16 →
  (∀ n, Q n (m <| mbufs := <[x := b <| mb_refcnt := mb_refcnt b + 1 |>]> (mbufs m) |>)) →
  wp (rte_mbuf_refcnt_update x 1) Q m.
Proof.
  intros Hb H0 H1 HQ. eapply wp_refcnt_up; [done..|]. intros n. cbn [ref_bufs foldr part_get part_set part_refl].
  rewrite (alter_insert_lookup _ _ _ b) by done. apply HQ.
Qed.

(** The call on a live buffer that is not in the chain. *)
Definition handed_over (iov : iovec) (l : list Z) (x off len : Z) (m : shm)
    (r : Z * iovec) (m' : shm) : Prop :=
  fst r = 0 ∧ iov_len (snd r) = sint32 (iov_len iov + len) ∧
  iov_ok (mbufs m') (snd r) (l ++ [x]) ∧ appended_buf (mbufs m) (mbufs m') l x off ∧
  rings m' = rings m ∧ cmds m' = cmds m ∧ g_sockets m' = g_sockets m.

Definition fresh_head (n : Z) (b : rte_mbuf) : rte_mbuf := b <| mb_pkt_len := n |> <| mb_nb_segs := 1 |>.
Definition grown_head (n : Z) (b : rte_mbuf) : rte_mbuf :=
  b <| mb_pkt_len := wrap32 (mb_pkt_len b + n) |> <| mb_nb_segs := (mb_nb_segs b + 1) mod 2 ^ 8 |>.

Lemma appended_empty ms x b off :
  ms !! x = Some b →
  appended_buf ms (<[x := fresh_head (mb_data_len b - off) (taken_up off b)]> ms) [] x off.
Proof.
  intros Hb. split.
  - intros b0 Hb0. rewrite Hb in Hb0. injection Hb0 as <-. eexists. by rewrite lookup_insert_eq.
  - intros q b0 Hq Hb0. rewrite lookup_insert_ne by done. by exists b0.
  - intros q _ Hq. by rewrite lookup_insert_ne.
Qed.

Lemma appended_grown ms x b off l t h :
  ms !! x = Some b → x ∉ l → last l = Some t → h ∈ l →
  appended_buf ms (alter (grown_head (mb_data_len b - off)) h
    (alter (λ m, m <| mb_next := x |>) t (<[x := taken_up off b]> ms))) l x off.
Proof.
  intros Hb Hx Ht Hh. assert (t ∈ l) as Htl by by apply last_Some_elem_of.
  assert (h ≠ x ∧ t ≠ x) as [Hhx Htx] by by split; intros ->.
  split.
  - intros b0 Hb0. rewrite Hb in Hb0. injection Hb0 as <-. eexists.
    by rewrite !lookup_alter_ne, lookup_insert_eq by done.
  - intros q b0 Hq Hb0. rewrite Ht.
    destruct (decide (h = q)) as [->|Hhq]; destruct (decide (t = q)) as [->|Htq];
      rewrite ?lookup_alter_eq, ?lookup_alter_ne, ?lookup_alter_eq, ?lookup_insert_ne, Hb0 by done;
      eexists; (split; [done|]); (split; [done|]);
      first [by rewrite decide_True by done | by rewrite decide_False by (by intros [= ->])].
  - intros q Hq Hqx. rewrite !lookup_alter_ne, lookup_insert_ne; [done|done|by intros ->|by intros ->].
Qed.

(** The totals of the head after the call. *)
Lemma totals_grow ms ms' l x off b :
  appended_buf ms ms' l x off → ms !! x = Some b → single b off → x ∉ l →
  (∀ q, q ∈ l → is_Some (ms !! q)) →
  payload ms' (l ++ [x]) = payload ms l ++ drop (Z.to_nat off) (seg_bytes b) ∧
  zlen (payload ms' (l ++ [x])) = zlen (payload ms l) + (mb_data_len b - off).
Proof.
  intros Hap Hb Hs Hx Hl. rewrite payload_app.
  rewrite (appended_payload ms ms' l x off l) by done.
  rewrite (appended_new_payload ms ms' l x off b) by done. split; [done|].
  rewrite zlen_app. f_equal. unfold zlen. rewrite length_drop.
  pose proof (zlen_seg_bytes b (sg_data _ _ Hs)) as Hz. unfold zlen in Hz.
  pose proof (sg_off _ _ Hs). lia.
Qed.

(** A further buffer: the state the code's writes leave. *)
Lemma handed_next iov h l x b off len t (m st : shm) :
  iov_ok (mbufs m) iov (h :: l) → x ∉ h :: l → x ≠ 0 → mbufs m !! x = Some b → single b off →
  zlen (payload (mbufs m) (h :: l)) + mb_data_len b < 2 ^ 32 → zlen (h :: l) < 255 → last (h :: l) = Some t →
  mbufs st = alter (grown_head (mb_data_len b - off)) h
    (alter (λ m, m <| mb_next := x |>) t (<[x := taken_up off b]> (mbufs m))) →
  rings st = rings m → cmds st = cmds m → g_sockets st = g_sockets m →
  handed_over iov (h :: l) x off len m (0, mk_iovec h x (sint32 (iov_len iov + len))) st.
Proof.
  intros Hio Hx Hx0 Hb Hs Hsz Hn Ht Ems Er Ec Eg.
  assert (h ∈ h :: l) as Hhl by constructor.
  assert (t ≠ x ∧ h ≠ x) as [Htx Hhx] by (apply last_Some_elem_of in Ht; by split; intros ->).
  assert (iov_head iov = h) as Eh by (destruct Hio as [Hc _ _]; by inversion Hc).
  assert (∀ q, q ∈ h :: l → is_Some (mbufs m !! q)) as Hlive
    by (intros q Hq; by apply (chain_lookup _ _ _ _ (io_chain _ _ _ Hio))).
  pose proof (appended_grown (mbufs m) x b off (h :: l) t h Hb Hx Ht Hhl) as Hap. rewrite <- Ems in Hap.
  destruct (totals_grow _ _ (h :: l) x off b Hap Hb Hs Hx Hlive) as [_ Htot].
  pose proof (sg_off _ _ Hs) as Ho. destruct (sg_data _ _ Hs) as (Hd1 & Hd2 & Hd3).
  split_and!; [done|done| |done..]. split.
  - pose proof (appended_chain _ _ iov (h :: l) x off b Hio Hap Hb Hs Hx Hx0 ltac:(done)) as Hch.
    by rewrite Eh in Hch.
  - cbn [snd iov_tail]. by rewrite last_snoc.
  - intros h' b0 Hh' Hb0. cbn [app head] in Hh'. injection Hh' as <-.
    destruct (Hlive h Hhl) as [bh Hbh].
    destruct (io_totals _ _ _ Hio h bh eq_refl Hbh) as [Hp Hnb].
    assert (mb_pkt_len b0 = wrap32 (mb_pkt_len bh + (mb_data_len b - off)) ∧
            mb_nb_segs b0 = (mb_nb_segs bh + 1) mod 2 ^ 8) as [-> ->].
    { rewrite Ems, lookup_alter_eq in Hb0. destruct (decide (t = h)) as [->|Hth].
      - rewrite lookup_alter_eq, lookup_insert_ne, Hbh in Hb0 by done. by injection Hb0 as <-.
      - rewrite lookup_alter_ne, lookup_insert_ne, Hbh in Hb0 by done. by injection Hb0 as <-. }
    rewrite Hp, Hnb, Htot. unfold zlen in Hn |- *. rewrite length_app.
    pose proof (zlen_nonneg (payload (mbufs m) (h :: l))). unfold zlen in *. cbn [length] in *.
    rewrite wrap32_small by lia. rewrite Z.mod_small by lia. lia.
Qed.

Lemma wp_toiovec iov l x b off len (m : shm) :
  iov_ok (mbufs m) iov l → x ∉ l → x ≠ 0 → mbufs m !! x = Some b → single b off →
  zlen (payload (mbufs m) l) + mb_data_len b < 2 ^ 32 → zlen l < 255 →
  wp (memcpy_toiovec iov x off len) (handed_over iov l x off len m) m.
Proof.
  intros Hio Hx Hx0 Hb Hs Hsz Hn. unfold memcpy_toiovec. rewrite wp_bind.
  pose proof (sg_off _ _ Hs) as Ho. destruct (sg_data _ _ Hs) as (Hd1 & Hd2 & Hd3).
  assert (wrap16 off = off) as -> by (apply Z.mod_small; lia).
  eapply wp_adj; [done..|]. intros o. cbn beta iota. rewrite wp_bind.
  eapply wp_ref_up; [apply lookup_insert_eq|apply (sg_ref _ _ Hs)..|]. intros n. clear n o.
  cbn [mbufs]. unfold set_field, eta_shm. cbn [mbufs rings cmds g_sockets]. rewrite insert_insert_eq.
  match goal with |- context [<[x := ?v]> (mbufs m)] => change v with (taken_up off b) end.
  rewrite wp_bind. destruct l as [|h l].
  - assert (iov_head iov = 0) as -> by (destruct Hio as [Hc _ _]; by inversion Hc).
    cbn [Z.eqb]. unfold rte_pktmbuf_data_len. rewrite !wp_bind.
    eapply wp_mbuf_read; [apply lookup_insert_eq|]. rewrite wp_ret, wp_bind.
    eapply wp_mbuf_write; [apply lookup_insert_eq|]. rewrite wp_bind.
    eapply wp_mbuf_write; [apply lookup_insert_eq|]. rewrite !wp_ret.
    cbn. unfold set_field, eta_shm. cbn. rewrite !insert_insert_eq.
    match goal with |- context [<[x := ?v]> (mbufs m)] =>
      change v with (fresh_head (mb_data_len b - off) (taken_up off b)) end.
    pose proof (appended_empty _ x b off Hb) as Hap.
    destruct (totals_grow _ _ [] x off b Hap Hb Hs ltac:(set_solver) ltac:(set_solver)) as [_ Ht].
    split_and!; [done|done| |done..]. split; [|done|].
    + cbn. econstructor; [done|apply lookup_insert_eq|]. cbn. rewrite (sg_next _ _ Hs). constructor.
    + intros h b0 Hh Hb0. cbn [app head] in Hh. injection Hh as <-. cbn [mbufs] in *.
      rewrite lookup_insert_eq in Hb0. injection Hb0 as <-.
      split; [|done]. rewrite Ht. change (zlen (payload (mbufs m) [])) with 0. cbn. lia.
  - destruct (last (h :: l)) as [t|] eqn:Ht; [|by apply last_None in Ht].
    assert (iov_head iov = h ∧ h ≠ 0) as [Eh Hh0] by (destruct Hio as [Hc _ _]; by inversion Hc).
    assert (iov_tail iov = t) as Et by (rewrite (io_tail _ _ _ Hio), Ht; done).
    assert (t ∈ h :: l) as Htl by by apply last_Some_elem_of.
    assert (h ∈ h :: l) as Hhl by constructor.
    assert (t ≠ x ∧ h ≠ x) as [Htx Hhx] by by split; intros ->.
    assert (∀ q, q ∈ h :: l → is_Some (mbufs m !! q)) as Hlive
      by (intros q Hq; by apply (chain_lookup _ _ _ _ (io_chain _ _ _ Hio))).
    rewrite Eh, Et, (proj2 (Z.eqb_neq _ _) Hh0), (proj2 (Z.eqb_neq _ _) Htx). cbn [negb].
    assert (∀ q, q ∈ h :: l → is_Some (<[x := taken_up off b]> (mbufs m) !! q)) as Hl1.
    { intros q Hq. rewrite lookup_insert_ne by (by intros ->). by apply Hlive. }
    rewrite wp_bind. apply wp_mbuf_alter; [by apply Hl1|]. cbn. unfold set_field, eta_shm. cbn.
    destruct (Hl1 t Htl) as [bt Hbt].
    rewrite wp_bind. eapply wp_mbuf_read; [cbn; rewrite lookup_alter_eq, Hbt; done|].
    rewrite wp_bind. unfold rte_pktmbuf_data_len. rewrite wp_bind.
    eapply wp_mbuf_read; [cbn; rewrite lookup_alter_ne, lookup_insert_eq by done; done|].
    rewrite wp_ret, wp_bind.
    apply wp_mbuf_alter; [cbn; apply lookup_alter_is_Some; by apply Hl1|]. rewrite wp_bind.
    cbn. unfold set_field, eta_shm. cbn.
    apply wp_mbuf_alter; [cbn; do 2 apply lookup_alter_is_Some; by apply Hl1|]. cbn beta iota.
    apply (handed_next _ h l x b off len t); try done. cbn. by rewrite alter_alter_eq.
Qed.

(** ** A whole packet *)

(** How the stack uses it (skb_copy_datagram_iovec): a call for each piece of a packet -
    a buffer, how much of it to skip, and the length accounted for it - up to the
    first that fails. *)
Fixpoint deliver (iov : iovec) (xs : list (Z * (Z * Z))) : M shm (Z * iovec) :=
  match xs with
  | [] => mret (0, iov)
  | (x, (off, len)) :: xs =>
      '(rc, iov) ← memcpy_toiovec iov x off len;
      if rc =? 0 then deliver iov xs else mret (rc, iov)
  end.

Definition bytes_behind (ms : gmap Z rte_mbuf) (xs : list (Z * (Z * Z))) : list Z :=
  xs ≫= λ '(x, (off, _)), drop (Z.to_nat off) (payload ms [x]).
Definition lengths (xs : list (Z * (Z * Z))) : Z := foldr (λ x n, snd (snd x) + n) 0 xs.

(** The state after [xs] have been appended to [l]. *)
Record delivered (l : list Z) (xs : list (Z * (Z * Z))) (iov : iovec) (m : shm) (iov' : iovec) (m' : shm)
    : Prop := {
  dl_ok : iov_ok (mbufs m') iov' (l ++ xs.*1);
  dl_payload : payload (mbufs m') (l ++ xs.*1) = payload (mbufs m) l ++ bytes_behind (mbufs m) xs;
  dl_len : iov_len iov' = iov_len iov + lengths xs;
  dl_refs : ∀ q b, mbufs m !! q = Some b → ∃ b', mbufs m' !! q = Some b' ∧
    mb_refcnt b' = mb_refcnt b + (if decide (q ∈ xs.*1) then 1 else 0);
  dl_other : ∀ q, q ∉ l → q ∉ (xs.*1) → mbufs m' !! q = mbufs m !! q;
  dl_rest : rings m' = rings m ∧ cmds m' = cmds m ∧ g_sockets m' = g_sockets m;
}.

(** Pieces that can be appended to [l]. *)
Record pieces (l : list Z) (xs : list (Z * (Z * Z))) (iov : iovec) (m : shm) : Prop := {
  pc_nodup : NoDup (l ++ xs.*1);
  pc_single : ∀ x off len, (x, (off, len)) ∈ xs →
    x ≠ 0 ∧ 0 ≤ len ∧ ∃ b, mbufs m !! x = Some b ∧ single b off;
  pc_bytes : zlen (payload (mbufs m) (l ++ xs.*1)) < 2 ^ 32;
  pc_segs : zlen (l ++ xs.*1) < 256;
  pc_len : 0 ≤ iov_len iov ∧ iov_len iov + lengths xs < 2 ^ 31;
}.

Lemma lengths_nonneg xs : (∀ x off len, (x, (off, len)) ∈ xs → 0 ≤ len) → 0 ≤ lengths xs.
Proof.
  induction xs as [|[x [off len]] xs IH]; intros Hx; cbn; [lia|].
  pose proof (Hx x off len ltac:(constructor)). enough (0 ≤ lengths xs) as ? by (unfold lengths in *; lia).
  apply IH. intros y o n Hy. eapply Hx. by constructor.
Qed.

Lemma bytes_behind_frame ms ms' xs :
  (∀ x, x ∈ (xs.*1) → ms' !! x = ms !! x) → bytes_behind ms' xs = bytes_behind ms xs.
Proof.
  induction xs as [|[x [off len]] xs IH]; intros Hx; [done|]. unfold bytes_behind in *. cbn in *.
  rewrite IH by (intros; apply Hx; by constructor). f_equal. f_equal.
  by rewrite Hx by constructor.
Qed.

Lemma payload_piece_frame ms ms' l x off b k :
  appended_buf ms ms' l x off → ms !! x = Some b → single b off →
  x ∉ l → (∀ q, q ∈ k → q ∉ l ∧ q ≠ x) → (∀ q, q ∈ l → is_Some (ms !! q)) →
  payload ms' ((l ++ [x]) ++ k) =
    (payload ms l ++ drop (Z.to_nat off) (payload ms [x])) ++ payload ms k.
Proof.
  intros Hap Hb Hs Hx Hxs Hl. rewrite payload_app.
  destruct (totals_grow ms ms' l x off b) as [-> _]; [done..|].
  rewrite (payload_cons ms x b) by done. unfold payload at 3. cbn. rewrite app_nil_r. f_equal.
  apply payload_frame. intros q Hq. destruct (Hxs q Hq). by apply (ap_other _ _ _ _ _ Hap).
Qed.

Lemma bytes_behind_cons ms x off len xs :
  bytes_behind ms ((x, (off, len)) :: xs) = drop (Z.to_nat off) (payload ms [x]) ++ bytes_behind ms xs.
Proof. done. Qed.

(** After the first piece, the others can still be appended. *)
Lemma pieces_next l x off len xs iov iov' m m' :
  iov_ok (mbufs m) iov l → pieces l ((x, (off, len)) :: xs) iov m →
  handed_over iov l x off len m (0, iov') m' →
  pieces (l ++ [x]) xs iov' m' ∧ iov_len iov' = iov_len iov + len.
Proof.
  intros Hio [Hnd Hs Hb Hn Hl] (_ & Hlen & _ & Hap & _). cbn [fst snd] in *.
  destruct (Hs x off len ltac:(constructor)) as (Hx0 & Hlen0 & b & Hbx & Hsb).
  assert (0 ≤ lengths xs) as Hls by (apply lengths_nonneg; intros; eapply Hs; by constructor).
  cbn [lengths foldr snd] in Hl. fold (lengths xs) in Hl. rewrite sint32_small in Hlen by lia.
  split; [|done]. cbn [fmap list_fmap fst] in *.
  assert (x ∉ l ∧ NoDup (xs.*1) ∧ (∀ q, q ∈ (xs.*1) → q ∉ l ∧ q ≠ x)) as (Hxl & Hndx & Hxs).
  { apply NoDup_app in Hnd as (_ & Hd & Hnd2). apply NoDup_cons in Hnd2 as [Hx Hnd2].
    split_and!; [intros Hin; apply (Hd x Hin); constructor|done|].
    intros q Hq. split; [intros Hin; apply (Hd q Hin); by constructor|by intros ->]. }
  assert (∀ q, q ∈ l → is_Some (mbufs m !! q)) as Hlive
    by (intros q Hq; by apply (chain_lookup _ _ _ _ (io_chain _ _ _ Hio))).
  split.
  - by rewrite <- (assoc_L (++)).
  - intros y o n Hy. assert (y ∈ xs.*1) as Hy1 by (apply list_elem_of_fmap; by exists (y, (o, n))).
    destruct (Hs y o n ltac:(by constructor)) as (? & ? & b' & Hb' & Hsb').
    split_and!; [done..|]. exists b'. split; [|done]. destruct (Hxs y Hy1).
    by rewrite (ap_other _ _ _ _ _ Hap).
  - rewrite (payload_piece_frame (mbufs m) _ l x off b) by done.
    change (x :: xs.*1) with ([x] ++ xs.*1) in Hb. rewrite !payload_app, !zlen_app in Hb.
    rewrite !zlen_app. unfold zlen in *. rewrite length_drop. lia.
  - by rewrite <- (assoc_L (++)).
  - rewrite Hlen. unfold lengths in *. lia.
Qed.

Lemma handed_over_cons l x off len xs iov iov1 iov2 m m1 m2 :
  iov_ok (mbufs m) iov l → pieces l ((x, (off, len)) :: xs) iov m →
  handed_over iov l x off len m (0, iov1) m1 → iov_len iov1 = iov_len iov + len →
  delivered (l ++ [x]) xs iov1 m1 iov2 m2 → delivered l ((x, (off, len)) :: xs) iov m iov2 m2.
Proof.
  intros Hio [Hnd Hs _ _ _] (_ & _ & _ & Hap & Er & Ec & Eg) Hlen [Dok Dp Dl Dr Do (Er2 & Ec2 & Eg2)].
  destruct (Hs x off len ltac:(constructor)) as (Hx0 & Hlen0 & b & Hbx & Hsb).
  cbn [fmap list_fmap fst] in *.
  assert (x ∉ l ∧ x ∉ xs.*1) as [Hxl Hxxs].
  { apply NoDup_app in Hnd as (_ & Hd & Hnd2). apply NoDup_cons in Hnd2 as [Hx Hnd2].
    split; [intros Hin; apply (Hd x Hin); constructor|done]. }
  assert (∀ q, q ∈ (xs.*1) → q ∉ l ∧ q ≠ x) as Hxs.
  { intros q Hq. apply NoDup_app in Hnd as (_ & Hd & Hnd2).
    split; [intros Hin; apply (Hd q Hin); by constructor|by intros ->]. }
  assert (∀ q, q ∈ l → is_Some (mbufs m !! q)) as Hlive
    by (intros q Hq; by apply (chain_lookup _ _ _ _ (io_chain _ _ _ Hio))).
  split.
  - by rewrite <- (assoc_L (++)) in Dok.
  - rewrite <- (assoc_L (++)) in Dp. cbn [app] in Dp.
    change (((x, (off, len)) :: xs).*1) with (x :: (xs.*1)). rewrite Dp, bytes_behind_cons, (assoc_L (++)).
    destruct (totals_grow (mbufs m) (mbufs m1) l x off b) as [-> _]; [done..|].
    rewrite (payload_cons (mbufs m) x b) by done. unfold payload at 2. cbn. rewrite app_nil_r.
    f_equal. apply bytes_behind_frame. intros q Hq. destruct (Hxs q Hq).
    by apply (ap_other _ _ _ _ _ Hap).
  - rewrite Dl, Hlen. cbn. unfold lengths. lia.
  - intros q bq Hbq. destruct (decide (q = x)) as [->|Hqx].
    + rewrite Hbx in Hbq. injection Hbq as <-.
      destruct (ap_new _ _ _ _ _ Hap b Hbx) as (b1 & Hb1 & Hk & _).
      destruct (Dr x b1 Hb1) as (b2 & Hb2 & Href). exists b2. split; [done|].
      rewrite Href, (kp_ref _ _ Hk), decide_False, decide_True by (done || constructor). cbn. lia.
    + destruct (ap_old _ _ _ _ _ Hap q bq Hqx Hbq) as (b1 & Hb1 & Hk & _).
      destruct (Dr q b1 Hb1) as (b2 & Hb2 & Href). exists b2. split; [done|].
      rewrite Href, (kp_ref _ _ Hk). f_equal.
      destruct (decide (q ∈ xs.*1)); [by rewrite decide_True by by constructor|].
      rewrite decide_False; [done|]. by intros [?|?]%elem_of_cons.
  - intros q Hql [Hqx Hqxs]%not_elem_of_cons. rewrite Do; [|by rewrite elem_of_app, list_elem_of_singleton; intros [?|?]|done].
    by apply (ap_other _ _ _ _ _ Hap).
  - by rewrite Er2, Ec2, Eg2.
Qed.

Lemma wp_deliver xs : ∀ l iov m,
  iov_ok (mbufs m) iov l → pieces l xs iov m →
  wp (deliver iov xs) (λ r m', fst r = 0 ∧ delivered l xs iov m (snd r) m') m.
Proof.
  induction xs as [|[x [off len]] xs IH]; intros l iov m Hio Hp; cbn [deliver].
  - rewrite wp_ret. split; [done|]. split; cbn [fmap list_fmap]; rewrite ?app_nil_r; [done..| | |done|done].
    + cbn. lia.
    + intros q b Hb. exists b. split; [done|]. rewrite decide_False by apply not_elem_of_nil. lia.
  - pose proof (pc_single _ _ _ _ Hp x off len ltac:(constructor)) as (Hx0 & _ & b & Hbx & Hsb).
    assert (x ∉ l) as Hxl.
    { pose proof (pc_nodup _ _ _ _ Hp) as Hnd. apply NoDup_app in Hnd as (_ & Hd & _).
      intros Hin. apply (Hd x Hin). constructor. }
    rewrite wp_bind. eapply wp_mono; [apply (wp_toiovec iov l x b); [done..| |]|].
    + pose proof (pc_bytes _ _ _ _ Hp) as Hb. cbn [fmap list_fmap fst] in Hb.
      rewrite payload_app, zlen_app, (payload_cons _ x b), zlen_app in Hb by done.
      rewrite zlen_seg_bytes in Hb by apply Hsb. pose proof (zlen_nonneg (payload (mbufs m) (xs.*1))). lia.
    + pose proof (pc_segs _ _ _ _ Hp) as Hn. unfold zlen in *. rewrite length_app in Hn. cbn in Hn. lia.
    + intros [rc iov1] m1 Hh. pose proof (proj1 Hh) as Hrc. cbn [fst] in Hrc. subst rc. cbn beta iota.
      destruct (pieces_next l x off len xs iov iov1 m m1) as [Hp1 Hlen1]; [done..|].
      eapply wp_mono; [apply (IH (l ++ [x])); [apply Hh|done]|].
      intros r m2 [Hr Hd]. split; [done|]. by eapply handed_over_cons.
Qed.

(** C10. A packet handed to the application is its pieces, uncopied: from an empty iovec,
    the buffers of the pieces become one chain in order whose bytes are the pieces'
    bytes behind what is skipped; the head's packet length and segment count are
    exact; every buffer has one more reference and no other buffer, ring or block
    changes; the length accounted for is the sum. *)
Theorem toiovec_builds_packet xs (m : shm) :
  pieces [] xs (mk_iovec 0 0 0) m →
  wp (deliver (mk_iovec 0 0 0) xs) (λ '(rc, iov) m',
    rc = 0 ∧ chain (mbufs m') (iov_head iov) (xs.*1) ∧
    payload (mbufs m') (xs.*1) = bytes_behind (mbufs m) xs ∧
    (∀ h b, mbufs m' !! h = Some b → head (xs.*1) = Some h →
       mb_pkt_len b = zlen (bytes_behind (mbufs m) xs) ∧ mb_nb_segs b = zlen xs) ∧
    iov_len iov = lengths xs ∧
    (∀ q b, mbufs m !! q = Some b → ∃ b', mbufs m' !! q = Some b' ∧
       mb_refcnt b' = mb_refcnt b + (if decide (q ∈ xs.*1) then 1 else 0)) ∧
    (∀ q, q ∉ xs.*1 → mbufs m' !! q = mbufs m !! q) ∧
    rings m' = rings m ∧ cmds m' = cmds m ∧ g_sockets m' = g_sockets m) m.
Proof.
  intros Hp. eapply wp_mono; [apply (wp_deliver xs [] (mk_iovec 0 0 0) m); [|done]|].
  { split; [constructor|done|done]. }
  intros [rc iov] m' [Hrc [Dok Dp Dl Dr Do Drest]]. cbn [fst snd app iov_len] in *.
  split_and!; [done|apply Dok|done| |lia|done| |apply Drest..].
  - intros h b Hb Hh. destruct (io_totals _ _ _ Dok h b Hh Hb) as [E1 E2]. rewrite E1, E2, Dp.
    split; [done|]. unfold zlen. by rewrite length_fmap.
  - intros q Hq. apply Do; [apply not_elem_of_nil|done].
Qed.

(** Three buffers of the stack; the first has 14 bytes in front that are skipped. *)
Definition piece_buf (len fill : Z) : rte_mbuf :=
  mk_mbuf 2 1 1 0 0 0 len len 0 0 0 FREE_COMMAND_POOL 0 (replicate 64 fill).
Definition pieces_mem : shm :=
  mk_shm ∅ ∅ ∅ (<[16 := piece_buf 30 1]> (<[32 := piece_buf 20 2]> (<[48 := piece_buf 5 3]> ∅))).
Definition demo_pieces : list (Z * (Z * Z)) := [(16, (14, 16)); (32, (0, 20)); (48, (0, 5))].

Lemma demo_pieces_ok : pieces [] demo_pieces (mk_iovec 0 0 0) pieces_mem.
Proof.
  split; [by apply (bool_decide_unpack _)| |done..].
  intros x off len Hx. cbv [demo_pieces] in Hx.
  repeat (apply elem_of_cons in Hx as [Hx|Hx]; [injection Hx as -> -> ->|]);
    [..|by apply not_elem_of_nil in Hx];
    (split_and!; [done|done|]; eexists; split; [by vm_compute|]; by repeat split).
Qed.

Lemma toiovec_builds_packet_witness :
  bytes_behind (mbufs pieces_mem) demo_pieces = replicate 16 1 ++ replicate 20 2 ++ replicate 5 3 ∧
  wp (deliver (mk_iovec 0 0 0) demo_pieces) (λ '(rc, iov) m',
    rc = 0 ∧ chain (mbufs m') (iov_head iov) [16; 32; 48] ∧
    payload (mbufs m') [16; 32; 48] = bytes_behind (mbufs pieces_mem) demo_pieces) pieces_mem.
Proof.
  split; [by vm_compute|].
  eapply wp_mono; [apply (toiovec_builds_packet demo_pieces pieces_mem demo_pieces_ok)|].
  intros [rc iov] m' (H1 & H2 & H3 & _). done.
Defined.

(** ** Copying out *)

Lemma copy_to_spec (kdata : list Z) at_ bytes (Q : list Z → shm → Prop) m :
  at_ + zlen bytes ≤ zlen kdata →
  Q (take (Z.to_nat at_) kdata ++ bytes ++ drop (Z.to_nat at_ + length bytes) kdata) m →
  wp (copy_to kdata at_ bytes) Q m.
Proof.
  intros Hle HQ. unfold copy_to. rewrite wp_bind, wp_require, wp_ret. split; [by apply Z.leb_le|done].
Qed.

(** The whole of a chain fits: what is copied is a prefix of its bytes behind [offset],
    made of whole buffers - all there is, or enough to reach [len], which it may
    exceed. *)
Lemma wp_fromiovecend2 (m : shm) l : ∀ p fuel kdata copied offset len,
  chain (mbufs m) p l → (length l ≤ fuel)%nat → 0 ≤ offset → 0 ≤ copied →
  (∀ x b, x ∈ l → mbufs m !! x = Some b → data_ok b) →
  copied + zlen (payload (mbufs m) l) ≤ zlen kdata →
  wp (fromiovecend2_loop fuel p kdata copied offset len) (λ '(kd, c) m', m' = m ∧ ∃ k,
    let w := drop (Z.to_nat offset) (payload (mbufs m) (take k l)) in
    kd = take (Z.to_nat copied) kdata ++ w ++ drop (Z.to_nat copied + length w) kdata ∧
    c = copied + zlen w ∧ (k = length l ∨ len ≤ c)) m.
Proof.
  induction l as [|x l IH]; intros p fuel kdata copied offset len Hc Hf Ho Hcp Hd Hk.
  - inversion Hc; subst. destruct fuel; cbn [fromiovecend2_loop]; cbn [Z.eqb orb]; rewrite wp_ret;
      (split; [done|]; exists 0%nat; cbn; rewrite drop_nil; cbn;
       rewrite Nat.add_0_r, take_drop; split_and!; [done|unfold zlen; cbn; lia|by left]).
  - inversion Hc as [|? b ? Hp Hb Hc']; subst. destruct fuel as [|fuel]; [cbn in Hf; lia|].
    cbn [fromiovecend2_loop]. rewrite (proj2 (Z.eqb_neq _ _) Hp). cbn [orb].
    destruct (Z.leb_spec len copied) as [Hle|Hlt].
    { rewrite wp_ret. split; [done|]. exists 0%nat. cbn. rewrite drop_nil. cbn.
      rewrite Nat.add_0_r, take_drop. split_and!; [done|unfold zlen; cbn; lia|right; lia]. }
    rewrite wp_bind. eapply wp_mbuf_read; [done|].
    assert (data_ok b) as Hdb by (apply (Hd x); [constructor|done]).
    pose proof (zlen_seg_bytes b Hdb) as Hz. destruct Hdb as (Hd1 & Hd2 & Hd3).
    rewrite (payload_cons _ _ b), zlen_app in Hk by done.
    assert (∀ x b, x ∈ l → mbufs m !! x = Some b → data_ok b) as Hd' by (intros; eapply Hd; [by constructor|done]).
    pose proof (zlen_nonneg (payload (mbufs m) l)) as Hpl.
    destruct (Z.ltb_spec offset (mb_data_len b)) as [Hin|Hout].
    + rewrite wp_bind. rewrite <- drop_slice by lia. fold (seg_bytes b).
      set (v := drop (Z.to_nat offset) (seg_bytes b)).
      assert (zlen v = mb_data_len b - offset) as Hv
        by (unfold v; unfold zlen in *; rewrite length_drop; lia).
      apply copy_to_spec; [lia|]. rewrite <- Hv.
      set (kd1 := take (Z.to_nat copied) kdata ++ v ++ drop (Z.to_nat copied + length v) kdata).
      assert (zlen kd1 = zlen kdata) as Hkd1.
      { unfold kd1, zlen in *. rewrite !length_app, length_take, length_drop. lia. }
      eapply wp_mono; [apply (IH _ _ kd1 (copied + zlen v) 0 len Hc'); [cbn in Hf; lia|lia|lia|done|lia]|].
      intros [kd c] m' (-> & k & Hkd & Hcc & Hend). split; [done|]. exists (S k).
      cbn [take]. rewrite (payload_cons _ _ b) by done. cbn [drop] in Hkd, Hcc.
      change (Z.to_nat 0) with 0%nat in *. rewrite drop_0 in Hkd, Hcc.
      rewrite drop_app_le by (unfold zlen in *; lia). fold v.
      set (w := payload (mbufs m) (take k l)) in *.
      split_and!; [|rewrite zlen_app; lia|destruct Hend as [->|?]; [by left|by right]].
      rewrite Hkd. unfold kd1. replace (Z.to_nat (copied + zlen v)) with (Z.to_nat copied + length v)%nat
        by (unfold zlen; lia).
      assert (length (take (Z.to_nat copied) kdata) = Z.to_nat copied) as Hlt1
        by (rewrite length_take; unfold zlen in *; lia).
      rewrite take_app_ge by lia. rewrite Hlt1.
      replace (Z.to_nat copied + length v - Z.to_nat copied)%nat with (length v) by lia.
      rewrite take_app_length, <- !(assoc_L (++)). do 3 f_equal.
      rewrite drop_app_ge by lia. rewrite Hlt1, drop_app_ge by lia. rewrite drop_drop. f_equal.
      rewrite length_app. lia.
    + eapply wp_mono; [apply (IH _ _ kdata copied (offset - mb_data_len b) len Hc');
        [cbn in Hf; lia|lia|lia|done|lia]|].
      intros [kd c] m' (-> & k & Hkd & Hcc & Hend). split; [done|]. exists (S k).
      cbn [take]. rewrite (payload_cons _ _ b) by done.
      rewrite drop_zlen_app by lia. rewrite Hz.
      split_and!; [done|done|destruct Hend as [->|?]; [by left|by right]].
Qed.
