(* ===== verification/Cksum.v ===== *)
(** * The Internet checksum of the driver glue (drivers/net/dpdk/device.c)

    Before a packet goes to hardware that computes TCP and UDP checksums, the sum of
    its pseudo-header is put in the checksum field.  The sum is accumulated four words
    at a time in 32 bits and folded at the end; the reference is RFC 1071's, a 16-bit
    addition with end-around carry for each word. *)

From S2P Require Import Prelude.

(** ** The code *)

(** A 16-bit load on a little-endian processor. *)
Definition u16 (b0 b1 : Z) : Z := b0 + 256 * b1.

(** The first loop; what is left of the buffer, and the sum. *)
Fixpoint cksum_by4 (buf : list Z) (sum : Z) : list Z * Z :=
  match buf with
  | b0 :: b1 :: b2 :: b3 :: b4 :: b5 :: b6 :: b7 :: rest =>
      let sum := wrap32 (sum + u16 b0 b1) in
      let sum := wrap32 (sum + u16 b2 b3) in
      let sum := wrap32 (sum + u16 b4 b5) in
      let sum := wrap32 (sum + u16 b6 b7) in
      cksum_by4 rest sum
  | _ => (buf, sum)
  end.

(** The second loop. *)
Fixpoint cksum_by1 (buf : list Z) (sum : Z) : list Z * Z :=
  match buf with
  | b0 :: b1 :: rest => cksum_by1 rest (wrap32 (sum + u16 b0 b1))
  | _ => (buf, sum)
  end.

(** [buf] is the [len] bytes at the pointer. *)
Definition __rte_raw_cksum (buf : list Z) (sum : Z) : Z :=
  let '(buf, sum) := cksum_by4 buf sum in
  let '(buf, sum) := cksum_by1 buf sum in
  match buf with
  | [b] => wrap32 (sum + b)
  | _ => sum
  end.

Definition __rte_raw_cksum_reduce (sum : Z) : Z :=
  let sum := wrap32 (Z.shiftr (Z.land sum 4294901760) 16 + Z.land sum 65535) in
  let sum := wrap32 (Z.shiftr (Z.land sum 4294901760) 16 + Z.land sum 65535) in
  wrap16 sum.

Definition rte_raw_cksum (buf : list Z) : Z := __rte_raw_cksum_reduce (__rte_raw_cksum buf 0).

(** ** The reference *)

(** The words of a buffer, an odd byte last. *)
Fixpoint words (buf : list Z) : list Z :=
  match buf with
  | b0 :: b1 :: rest => u16 b0 b1 :: words rest
  | [b] => [b]
  | [] => []
  end.

(** Addition with end-around carry. *)
Definition onec_add (x y : Z) : Z := let s := x + y in s mod 2 ^ 16 + s / 2 ^ 16.

Definition rfc1071 (buf : list Z) : Z := fold_left onec_add (words buf) 0.

(** The two bytes of each word exchanged. *)
Definition swap16 (w : Z) : Z := 256 * (w mod 256) + w / 256.
Fixpoint swap_pairs (buf : list Z) : list Z :=
  match buf with
  | b0 :: b1 :: rest => b1 :: b0 :: swap_pairs rest
  | _ => buf
  end.

Definition byte (b : Z) : Prop := 0 ≤ b < 256.
Definition word16 (w : Z) : Prop := 0 ≤ w < 2 ^ 16.

(** ** The sum *)

Definition total (ws : list Z) : Z := foldr Z.add 0 ws.

(** Two bytes at a time: lists of even and odd length. *)
Lemma pairs_ind (P : list Z → Prop) :
  P [] → (∀ b, P [b]) → (∀ b0 b1 l, P l → P (b0 :: b1 :: l)) → ∀ l, P l.
Proof.
  intros H0 H1 H2 l. enough (P l ∧ ∀ b, P (b :: l)) by tauto.
  induction l as [|a l [IH1 IH2]]; split; auto.
Qed.

Lemma cksum_by1_total buf : ∀ sum,
  let '(rest, s) := cksum_by1 buf sum in
  wrap32 (match rest with [b] => s + b | _ => s end) = wrap32 (sum + total (words buf)).
Proof.
  induction buf as [|b|b0 b1 l IH] using pairs_ind; intros sum; cbn [cksum_by1 words].
  - unfold total. cbn. f_equal. lia.
  - unfold total. cbn. f_equal. lia.
  - specialize (IH (wrap32 (sum + u16 b0 b1))). destruct (cksum_by1 l _) as [rest s].
    rewrite IH, wrap32_add_l. unfold total. cbn. f_equal. lia.
Qed.

Lemma cksum_by1_wrapped buf sum :
  wrap32 sum = sum → (cksum_by1 buf sum).2 = wrap32 (cksum_by1 buf sum).2.
Proof.
  revert sum. induction buf as [|b|b0 b1 l IH] using pairs_ind; intros sum Hs; cbn [cksum_by1 snd]; [done..|].
  apply IH. unfold wrap32. apply Z.mod_mod. lia.
Qed.

Lemma cksum_by4_total buf : ∀ sum,
  let '(rest, s) := cksum_by4 buf sum in
  wrap32 (s + total (words rest)) = wrap32 (sum + total (words buf)) ∧
  (wrap32 sum = sum → wrap32 s = s).
Proof.
  induction buf as [buf IH] using (induction_ltof1 _ length). unfold ltof in IH. intros sum.
  destruct buf as [|b0 [|b1 [|b2 [|b3 [|b4 [|b5 [|b6 [|b7 rest]]]]]]]];
    cbn [cksum_by4]; [split; done..|].
  set (s4 := wrap32 (wrap32 (wrap32 (wrap32 (sum + u16 b0 b1) + u16 b2 b3) + u16 b4 b5) + u16 b6 b7)).
  specialize (IH rest ltac:(cbn; lia) s4). destruct (cksum_by4 rest s4) as [rest' s].
  destruct IH as [IH1 IH2]. split.
  - rewrite IH1. cbn [words].
    unfold s4. do 3 rewrite wrap32_add_l, <- Z.add_assoc. rewrite wrap32_add_l. f_equal.
    unfold total. cbn [foldr]. lia.
  - intros _. apply IH2. unfold s4, wrap32. apply Z.mod_mod. lia.
Qed.

Lemma raw_cksum_total buf sum :
  wrap32 sum = sum → __rte_raw_cksum buf sum = wrap32 (sum + total (words buf)).
Proof.
  intros Hs. unfold __rte_raw_cksum.
  pose proof (cksum_by4_total buf sum) as H4. destruct (cksum_by4 buf sum) as [r4 s4].
  destruct H4 as [H4 Hw]. specialize (Hw Hs).
  pose proof (cksum_by1_total r4 s4) as H1. pose proof (cksum_by1_wrapped r4 s4 Hw) as Hw1.
  destruct (cksum_by1 r4 s4) as [r1 s1]. cbn [snd] in Hw1. rewrite <- H4, <- H1.
  destruct r1 as [|b [|? ?]]; [done|done|done].
Qed.

(** ** Folding *)

Lemma words_word16 buf : Forall byte buf → Forall word16 (words buf).
Proof.
  unfold word16, byte, u16. change (2 ^ 16) with 65536.
  induction buf as [|b|b0 b1 l IH] using pairs_ind; intros Hb; cbn [words]; [done| |].
  - apply Forall_cons in Hb as [Hb _]. constructor; [lia|done].
  - apply Forall_cons in Hb as [H0 Hb]. apply Forall_cons in Hb as [H1 Hb].
    constructor; [unfold u16; lia|by apply IH].
Qed.

Lemma total_bounds ws : Forall word16 ws → 0 ≤ total ws ≤ 65535 * zlen ws.
Proof.
  unfold word16. change (2 ^ 16) with 65536.
  induction 1 as [|w ws Hw _ IH]; [done|]. unfold total, zlen in *. cbn [foldr length]. lia.
Qed.

Lemma length_words buf : zlen (words buf) = (zlen buf + 1) / 2.
Proof.
  induction buf as [|b|b0 b1 l IH] using pairs_ind; cbn [words]; [done..|].
  unfold zlen in *. cbn [length]. rewrite !Nat2Z.inj_succ, IH.
  replace (Z.succ (Z.succ (Z.of_nat (length l))) + 1) with (Z.of_nat (length l) + 1 + 1 * 2) by lia.
  rewrite Z.div_add by lia. lia.
Qed.

(** The representative of [n] modulo 65535 that end-around carries arrive at: only 0
    itself gives 0. *)
Definition onec (n : Z) : Z := if n =? 0 then 0 else 1 + (n - 1) mod 65535.

Lemma onec_word16 n : word16 (onec n).
Proof.
  unfold onec, word16. change (2 ^ 16) with 65536. destruct (n =? 0); [lia|].
  pose proof (Z.mod_pos_bound (n - 1) 65535 ltac:(lia)). lia.
Qed.

Lemma onec_small n : 0 ≤ n ≤ 65535 → onec n = n.
Proof.
  intros Hn. unfold onec. destruct (Z.eqb_spec n 0) as [->|?]; [done|].
  rewrite Z.mod_small by lia. lia.
Qed.

(** One fold changes nothing modulo 65535, and gives 0 for 0 alone. *)
Lemma onec_fold n : 0 ≤ n → onec (n mod 2 ^ 16 + n / 2 ^ 16) = onec n.
Proof.
  intros Hn. change (2 ^ 16) with 65536.
  pose proof (Z.div_mod n 65536 ltac:(lia)) as Hd. pose proof (Z.mod_pos_bound n 65536 ltac:(lia)).
  pose proof (Z.div_pos n 65536 Hn ltac:(lia)).
  set (q := n / 65536) in *. set (r := n mod 65536) in *. unfold onec.
  destruct (Z.eqb_spec n 0) as [Hz|Hz].
  - assert (q = 0 ∧ r = 0) as [-> ->] by lia. done.
  - destruct (Z.eqb_spec (r + q) 0); [lia|]. f_equal.
    replace (n - 1) with (r + q - 1 + q * 65535) by lia. by rewrite Z.mod_add by lia.
Qed.

Lemma onec_add_spec x y : word16 x → word16 y → onec_add x y = onec (x + y).
Proof.
  unfold word16, onec_add. change (2 ^ 16) with 65536. intros Hx Hy. cbv zeta.
  rewrite <- (onec_fold (x + y)) by lia. change (2 ^ 16) with 65536. rewrite onec_small; [done|].
  destruct (Z.lt_ge_cases (x + y) 65536).
  - rewrite Z.mod_small, Z.div_small by lia. lia.
  - assert ((x + y) / 65536 = 1) as -> by (symmetry; apply Z.div_unique with (x + y - 65536); lia).
    assert ((x + y) mod 65536 = x + y - 65536) as -> by (symmetry; apply Z.mod_unique with 1; lia). lia.
Qed.

Lemma onec_absorb x y : 0 ≤ x → 0 ≤ y → onec (onec x + y) = onec (x + y).
Proof.
  intros Hx Hy. unfold onec at 2. destruct (Z.eqb_spec x 0) as [->|Hx0]; [done|].
  pose proof (Z.mod_pos_bound (x - 1) 65535 ltac:(lia)). pose proof (Z.div_mod (x - 1) 65535 ltac:(lia)) as Hd.
  unfold onec. rewrite (proj2 (Z.eqb_neq (_ + y) 0)) by lia. rewrite (proj2 (Z.eqb_neq (x + y) 0)) by lia.
  f_equal. replace (x + y - 1) with (1 + (x - 1) mod 65535 + y - 1 + (x - 1) / 65535 * 65535) by lia.
  by rewrite Z.mod_add by lia.
Qed.

Lemma fold_onec ws : ∀ a, Forall word16 ws → word16 a → fold_left onec_add ws a = onec (a + total ws).
Proof.
  induction ws as [|w ws IH]; intros a Hws Ha; cbn [fold_left].
  - unfold total. cbn. rewrite Z.add_0_r. symmetry. apply onec_small. unfold word16 in Ha.
    change (2 ^ 16) with 65536 in Ha. lia.
  - apply Forall_cons in Hws as [Hw Hws]. rewrite onec_add_spec by done.
    rewrite IH by (done || apply onec_word16). pose proof (total_bounds ws Hws) as Ht.
    rewrite onec_absorb by (unfold word16 in *; lia). f_equal. unfold total. cbn. lia.
Qed.

Lemma fold16 n : 0 ≤ n < 2 ^ 32 →
  wrap32 (Z.shiftr (Z.land n 4294901760) 16 + Z.land n 65535) = n mod 2 ^ 16 + n / 2 ^ 16.
Proof.
  intros Hn. change 65535 with (2 ^ 16 - 1). rewrite land_mask by lia.
  assert (Z.shiftr (Z.land n 4294901760) 16 = n / 2 ^ 16) as ->.
  { rewrite Z.shiftr_land. change (Z.shiftr 4294901760 16) with (2 ^ 16 - 1).
    rewrite land_mask, Z.shiftr_div_pow2 by lia. apply Z.mod_small.
    change (2 ^ 32) with (65536 * 65536) in Hn. change (2 ^ 16) with 65536.
    split; [apply Z.div_pos; lia|apply Z.div_lt_upper_bound; lia]. }
  assert (n / 2 ^ 16 < 65536) by (apply Z.div_lt_upper_bound; change (2 ^ 16) with 65536; lia).
  assert (0 ≤ n / 2 ^ 16) by (apply Z.div_pos; lia).
  pose proof (Z.mod_pos_bound n (2 ^ 16) ltac:(lia)). change (2 ^ 16) with 65536 in *.
  rewrite wrap32_small by lia. lia.
Qed.

Lemma reduce_onec n : 0 ≤ n < 2 ^ 32 → __rte_raw_cksum_reduce n = onec n.
Proof.
  intros Hn. unfold __rte_raw_cksum_reduce. rewrite (fold16 n) by done.
  set (s1 := n mod 2 ^ 16 + n / 2 ^ 16).
  assert (0 ≤ s1 ≤ 131070) as Hs1.
  { unfold s1. pose proof (Z.mod_pos_bound n (2 ^ 16) ltac:(lia)).
    assert (n / 2 ^ 16 < 65536) by (apply Z.div_lt_upper_bound; change (2 ^ 16) with 65536; lia).
    assert (0 ≤ n / 2 ^ 16) by (apply Z.div_pos; lia). change (2 ^ 16) with 65536 in *. lia. }
  cbv zeta. rewrite (fold16 s1) by lia. rewrite <- (onec_fold n) by lia. fold s1.
  rewrite <- (onec_fold s1) by lia. change (2 ^ 16) with 65536.
  assert (0 ≤ s1 mod 65536 + s1 / 65536 ≤ 65535) as Hs2.
  { destruct (Z.lt_ge_cases s1 65536).
    - rewrite Z.mod_small, Z.div_small by lia. lia.
    - assert (s1 / 65536 = 1) as -> by (symmetry; apply Z.div_unique with (s1 - 65536); lia).
      assert (s1 mod 65536 = s1 - 65536) as -> by (symmetry; apply Z.mod_unique with 1; lia). lia. }
  rewrite onec_small by done. apply Z.mod_small. lia.
Qed.

Lemma onec_congr x y :
  0 ≤ x → 0 ≤ y → x mod 65535 = y mod 65535 → (x = 0 ↔ y = 0) → onec x = onec y.
Proof.
  intros Hx Hy Hm Hz. unfold onec. destruct (Z.eqb_spec x 0) as [->|Hx0].
  - by rewrite (proj1 Hz eq_refl).
  - rewrite (proj2 (Z.eqb_neq y 0)) by tauto. f_equal. by rewrite Zminus_mod, Hm, <- Zminus_mod.
Qed.

Lemma onec_mod n : 0 ≤ n → onec n mod 65535 = n mod 65535 ∧ (onec n = 0 ↔ n = 0).
Proof.
  intros Hn. unfold onec. destruct (Z.eqb_spec n 0) as [->|Hn0]; [done|].
  pose proof (Z.mod_pos_bound (n - 1) 65535 ltac:(lia)). split; [|lia].
  rewrite Z.add_comm, Zplus_mod_idemp_l. f_equal. lia.
Qed.

(** ** Byte order *)

Lemma swap16_u16 b0 b1 : byte b0 → byte b1 → swap16 (u16 b0 b1) = u16 b1 b0.
Proof.
  unfold byte, swap16, u16. intros H0 H1.
  assert ((b0 + 256 * b1) mod 256 = b0) as -> by (symmetry; apply Z.mod_unique with b1; lia).
  assert ((b0 + 256 * b1) / 256 = b1) as -> by (symmetry; apply Z.div_unique with b0; lia). lia.
Qed.

Lemma words_swap buf : Forall byte buf → Nat.Even (length buf) → words (swap_pairs buf) = swap16 <$> words buf.
Proof.
  induction buf as [|b|b0 b1 l IH] using pairs_ind; intros Hb He; [done|by destruct He as [[|]]; cbn in *; lia|].
  apply Forall_cons in Hb as [H0 Hb]. apply Forall_cons in Hb as [H1 Hb]. cbn [swap_pairs words].
  rewrite fmap_cons, swap16_u16 by done. f_equal. apply IH; [done|].
  destruct He as [k Hk]. exists (pred k). cbn in Hk. lia.
Qed.

Lemma swap16_spec w : word16 w → word16 (swap16 w) ∧ swap16 w mod 65535 = (256 * w) mod 65535 ∧
  (swap16 w = 0 ↔ w = 0).
Proof.
  unfold word16, swap16. change (2 ^ 16) with 65536. intros Hw.
  pose proof (Z.div_mod w 256 ltac:(lia)). pose proof (Z.mod_pos_bound w 256 ltac:(lia)).
  assert (0 ≤ w / 256 < 256) by (split; [apply Z.div_pos; lia|apply Z.div_lt_upper_bound; lia]).
  split_and!; [lia|lia| |lia..].
  replace (256 * w) with (256 * (w mod 256) + w / 256 + w / 256 * 65535) by lia. by rewrite Z.mod_add by lia.
Qed.

Lemma total_swap ws : Forall word16 ws →
  total (swap16 <$> ws) mod 65535 = (256 * total ws) mod 65535 ∧ (total (swap16 <$> ws) = 0 ↔ total ws = 0) ∧
  0 ≤ total (swap16 <$> ws).
Proof.
  induction 1 as [|w ws Hw Hws (IH1 & IH2 & IH3)]; [done|]. rewrite fmap_cons.
  pose proof (total_bounds ws Hws). destruct (swap16_spec w Hw) as (Hs1 & Hs2 & Hs3).
  unfold word16 in *. unfold total in *. cbn [foldr]. split_and!; [|lia..].
  rewrite Zplus_mod, Hs2, IH1, <- Zplus_mod. f_equal. lia.
Qed.

(** A buffer whose words do not overflow the 32-bit sum. *)
Lemma raw_cksum_onec buf :
  Forall byte buf → zlen buf ≤ 2 ^ 17 → rte_raw_cksum buf = onec (total (words buf)).
Proof.
  intros Hb Hl. unfold rte_raw_cksum. rewrite raw_cksum_total by done. rewrite Z.add_0_l.
  pose proof (total_bounds _ (words_word16 buf Hb)) as Ht. rewrite length_words in Ht.
  assert ((zlen buf + 1) / 2 ≤ 65536) as Hn.
  { apply Z.lt_succ_r, Z.div_lt_upper_bound; [lia|]. change (2 ^ 17) with 131072 in Hl. lia. }
  assert (0 ≤ total (words buf) < 2 ^ 32) by (change (2 ^ 32) with (65536 * 65536); lia).
  rewrite wrap32_small by done. by apply reduce_onec.
Qed.

Lemma words_app a b : Nat.Even (length a) → words (a ++ b) = words a ++ words b.
Proof.
  induction a as [|x|b0 b1 l IH] using pairs_ind; intros He; [done|by destruct He as [[|]]; cbn in *; lia|].
  cbn [app words]. f_equal. apply IH. destruct He as [k Hk]. exists (pred k). cbn in Hk. lia.
Qed.

Lemma raw_cksum_rfc1071 buf : Forall byte buf → zlen buf ≤ 2 ^ 17 → rte_raw_cksum buf = rfc1071 buf.
Proof.
  intros Hb Hl. pose proof (words_word16 buf Hb) as Hws. rewrite raw_cksum_onec by done. unfold rfc1071.
  rewrite fold_onec; [by rewrite Z.add_0_l|done|done].
Qed.

(** C16. The unrolled 32-bit checksum is the Internet checksum of RFC 1071, on any buffer
    of up to 128 KB, of odd length too; the hardware may go on from it over the rest
    of the packet; and it may be computed in either byte order: on the buffer with the
    bytes of each word exchanged it gives the result with its bytes exchanged. *)
Theorem raw_cksum_reference buf :
  Forall byte buf → zlen buf ≤ 2 ^ 17 →
  rte_raw_cksum buf = rfc1071 buf ∧ word16 (rte_raw_cksum buf) ∧
  (Nat.Even (length buf) →
     (∀ rest, fold_left onec_add (words rest) (rte_raw_cksum buf) = rfc1071 (buf ++ rest)) ∧
     rte_raw_cksum (swap_pairs buf) = swap16 (rte_raw_cksum buf)).
Proof.
  intros Hb Hl. pose proof (words_word16 buf Hb) as Hw. pose proof (total_bounds _ Hw) as Ht.
  pose proof (raw_cksum_rfc1071 buf Hb Hl) as Href.
  split_and!; [done|rewrite raw_cksum_onec by done; apply onec_word16|]. intros He. split.
  - intros rest. rewrite Href. unfold rfc1071. by rewrite words_app, fold_left_app.
  - assert (Forall byte (swap_pairs buf) ∧ zlen (swap_pairs buf) = zlen buf) as [Hb' Hl'].
    { clear -Hb. induction buf as [|b|b0 b1 l IH] using pairs_ind; [done..|].
      apply Forall_cons in Hb as [H0 Hb]. apply Forall_cons in Hb as [H1 Hb].
      destruct (IH Hb) as [IH1 IH2]. cbn [swap_pairs]. split; [by constructor; [|constructor]|].
      unfold zlen in *. cbn [length]. lia. }
    rewrite !raw_cksum_onec by (done || lia). rewrite words_swap by done.
    destruct (total_swap _ Hw) as (Hs1 & Hs2 & Hs3).
    destruct (onec_mod (total (words buf)) ltac:(lia)) as [Hm Hz].
    destruct (swap16_spec _ (onec_word16 (total (words buf)))) as (Hw1 & Hw2 & Hw3).
    rewrite <- (onec_small (swap16 (onec (total (words buf))))) by (unfold word16 in Hw1; change (2 ^ 16) with 65536 in Hw1; lia).
    apply onec_congr; [done|apply Hw1| |].
    + rewrite Hs1, Hw2. rewrite <- (Zmult_mod_idemp_r (total _)), <- (Zmult_mod_idemp_r (onec _)). by rewrite Hm.
    + rewrite Hs2, Hw3. by symmetry.
Qed.

(** The example of RFC 1071, section 3. *)
Lemma raw_cksum_reference_witness :
  rte_raw_cksum [0; 1; 242; 3; 244; 245; 246; 247] = swap16 56818 ∧
  rte_raw_cksum [0; 1; 242; 3; 244; 245; 246; 247] = rfc1071 [0; 1; 242; 3; 244; 245; 246; 247] ∧
  rte_raw_cksum [1; 0; 3; 242; 245; 244; 247; 246] = swap16 (rte_raw_cksum [0; 1; 242; 3; 244; 245; 246; 247]).
Proof.
  split; [by vm_compute|].
  destruct (raw_cksum_reference [0; 1; 242; 3; 244; 245; 246; 247]) as (H1 & _ & H2).
  - repeat constructor; done.
  - done.
  - split; [exact H1|]. apply H2. by exists 4%nat.
Defined.
