(* ===== verification/NetDev.v ===== *)
(** * The network device under the stack
    (drivers/net/dpdk/device.c, rx.c, tx.c; specific_includes/linux/skbuff.h)

    A packet of the stack, an [sk_buff], is a packet buffer with the headers and
    further buffers with the data.  To transmit it the device links these buffers to
    one chain, prepares checksum offload and hands the chain to the poll-mode driver;
    what the driver receives is wrapped in an [sk_buff] and passed to the stack,
    without its VLAN tag.  The poll-mode driver and the stack are parameters
    ([NicAndStack]); routes and the owner's accounting ([skb_dst_force],
    destructors) do not touch the buffers and are left out. *)

From S2P Require Import Prelude Ring Mem Mbuf AppData Cksum.

(** ** Packets of the stack *)

(** [skb_shinfo(skb)->frags]: a buffer, and the part of it that is meant. *)
Record skb_frag := mk_frag { frag_page : Z; frag_offset : Z; frag_size : Z }.

(** [skb_data], [network_header] and [transport_header] are offsets from [skb->head]. *)
Record sk_buff := mk_skb {
  header_mbuf : Z;
  skb_data : Z;
  skb_len : Z;
  skb_data_len : Z;
  skb_frags : list skb_frag;
  gso_size : Z;
  ip_summed : Z;
  protocol : Z;
  network_header : Z;
  transport_header : Z;
}.
#[export] Instance eta_skb : Eta sk_buff := λ k,
  mk_skb (header_mbuf k) (skb_data k) (skb_len k) (skb_data_len k) (skb_frags k) (gso_size k)
    (ip_summed k) (protocol k) (network_header k) (transport_header k).

Definition skb_headlen (k : sk_buff) : Z := wrap32 (skb_len k - skb_data_len k).
Definition skb_network_header_len (k : sk_buff) : Z := wrap32 (transport_header k - network_header k).
Definition skb_network_offset (k : sk_buff) : Z := network_header k - skb_data k.

(** [CHECKSUM_UNNECESSARY], [CHECKSUM_PARTIAL]; [htons] of the Ethernet types, as the
    processor loads them. *)
Definition CHECKSUM_UNNECESSARY : Z := 1.
Definition CHECKSUM_PARTIAL : Z := 3.
Definition ETH_P_IP_n : Z := 8.
Definition ETH_P_8021Q_n : Z := 129.
Definition IPPROTO_TCP : Z := 6.
Definition IPPROTO_UDP : Z := 17.
Definition NETDEV_TX_OK : Z := 0.

(** ** State *)

Section netdev.
Context {K : Type}.

Record netst := mk_netst {
  nd_shm : shm;
  received : Z;
  transmitted : Z;
  tx_dropped : Z;
  driver_tx_offload_pkts : Z;
  driver_tx_wo_offload_pkts : Z;
  nd_private : K;
}.
End netdev.
Arguments netst K : clear implicits.
#[export] Instance eta_netst K : Eta (netst K) := λ s,
  mk_netst (nd_shm s) (received s) (transmitted s) (tx_dropped s) (driver_tx_offload_pkts s)
    (driver_tx_wo_offload_pkts s) (nd_private s).
#[export] Instance part_netst K : Part shm (netst K) :=
  {| part_get := nd_shm; part_set := λ m s, s <| nd_shm := m |> |}.
#[export] Instance part_netst_laws K : PartLaws shm (netst K).
Proof. by split; [|intros []|]. Qed.

(** The poll-mode driver and the stack. *)
Class NicAndStack (K : Type) := {
  rte_eth_tx_burst : Z → Z → M (netst K) Z;
  rte_eth_rx_burst : Z → Z → M (netst K) (list Z);
  skbuff_head_alloc : M (netst K) bool;
  eth_type_trans : sk_buff → M (netst K) sk_buff;
  netif_receive_skb : sk_buff → M (netst K) unit;
  kfree_skb : sk_buff → M (netst K) unit;
}.

(** ** Laying out a frame *)

(** Bit fields of [tx_offload]. *)
Definition put_bits (lo width v x : Z) : Z :=
  Z.lor (Z.ldiff x (Z.shiftl (Z.ones width) lo)) (Z.shiftl (v mod 2 ^ width) lo).
Definition get_bits (lo width x : Z) : Z := Z.shiftr x lo mod 2 ^ width.
Definition set_l2_len (v : Z) (m : rte_mbuf) : rte_mbuf := m <| mb_tx_offload := put_bits 0 7 v (mb_tx_offload m) |>.
Definition set_l3_len (v : Z) (m : rte_mbuf) : rte_mbuf := m <| mb_tx_offload := put_bits 7 9 v (mb_tx_offload m) |>.
Definition set_l4_len (v : Z) (m : rte_mbuf) : rte_mbuf := m <| mb_tx_offload := put_bits 16 8 v (mb_tx_offload m) |>.
Definition set_tso_segsz (v : Z) (m : rte_mbuf) : rte_mbuf := m <| mb_tx_offload := put_bits 24 16 v (mb_tx_offload m) |>.
Definition l3_len (m : rte_mbuf) : Z := get_bits 7 9 (mb_tx_offload m).
Definition tso_segsz (m : rte_mbuf) : Z := get_bits 24 16 (mb_tx_offload m).

Definition PKT_TX_TCP_SEG : Z := Z.shiftl 1 50.
Definition PKT_TX_TCP_CKSUM : Z := Z.shiftl 1 52.
Definition PKT_TX_UDP_CKSUM : Z := Z.shiftl 3 52.
Definition PKT_TX_IP_CKSUM : Z := Z.shiftl 1 54.
Definition PKT_TX_IPV4 : Z := Z.shiftl 1 55.
Definition add_flag (f : Z) (m : rte_mbuf) : rte_mbuf := m <| mb_ol_flags := Z.lor (mb_ol_flags m) f |>.

(** Where [skb->head] is in the buffer's memory. *)
Definition head_base (m : rte_mbuf) : Z :=
  if RTE_PKTMBUF_HEADROOM <=? zlen (mb_buf m) then RTE_PKTMBUF_HEADROOM else zlen (mb_buf m).

Section frame.
Context {S : Type} `{Part shm S}.

(** The loop over the fragments; [prev] is the buffer whose [next] is written. *)
Fixpoint link_frags (prev : Z) (frags : list skb_frag) (pkt_len : Z) : M S (Z * Z) :=
  match frags with
  | [] => mret (prev, pkt_len)
  | f :: frags =>
      let p := frag_page f in
      _ ← mbuf_write prev (λ m, m <| mb_next := p |>);
      _ ← rte_pktmbuf_refcnt_update p 1;
      n ← rte_pktmbuf_data_len p;
      link_frags p frags (sint32 (pkt_len + n))
  end.

Definition lay_out (k : sk_buff) : M S unit :=
  let head := header_mbuf k in
  _ ← mbuf_write head (λ m, m <| mb_data_len := wrap16 (skb_headlen k) |>);
  _ ← mbuf_write head (λ m, m <| mb_data_off := head_base m |>);
  _ ← mbuf_write head (λ m, m <| mb_data_off := wrap16 (mb_data_off m + skb_data k) |>);
  pkt_len ← rte_pktmbuf_data_len head;
  _ ← mbuf_write head (λ m, m <| mb_nb_segs := (1 + zlen (skb_frags k)) mod 2 ^ 8 |>);
  '(last, pkt_len) ← link_frags head (skb_frags k) pkt_len;
  _ ← mbuf_write last (λ m, m <| mb_next := 0 |>);
  mbuf_write head (λ m, m <| mb_pkt_len := wrap32 pkt_len |>).

(** The pseudo-header; addresses and length as in memory. *)
Definition psd_header (saddr daddr : list Z) (proto : Z) (len : list Z) : list Z :=
  saddr ++ daddr ++ [0; proto] ++ len.

(** [rte_cpu_to_be_16((uint16_t)(rte_be_to_cpu_16(iph->tot_len) - head->l3_len))]. *)
Definition l4_length (head iph : Z) : M S (list Z) :=
  t ← buf_load head (iph + 2) 2;
  m ← mbuf_read head;
  mret (rev (le_bytes 2 (wrap16 (le_word (rev t) - l3_len m)))).

(** Checksum and segmentation offload; the number tells which counter is incremented. *)
Definition offload (k : sk_buff) : M S (option bool) :=
  let head := header_mbuf k in
  if (ip_summed k =? CHECKSUM_PARTIAL) && (protocol k =? ETH_P_IP_n) then
    _ ← mbuf_write head (λ m, m <| mb_ol_flags := Z.lor PKT_TX_IPV4 PKT_TX_IP_CKSUM |>);
    m ← mbuf_read head;
    let iph := head_base m + network_header k in
    let th := head_base m + transport_header k in
    _ ← buf_store head (iph + 10) [0; 0];
    _ ← mbuf_write head (set_l3_len (skb_network_header_len k));
    _ ← mbuf_write head (set_l2_len (skb_network_offset k));
    _ ← mbuf_write head (set_tso_segsz (gso_size k));
    saddr ← buf_load head (iph + 12) 4;
    daddr ← buf_load head (iph + 16) 4;
    proto ← buf_load head (iph + 9) 1;
    if le_word proto =? IPPROTO_TCP then
      _ ← mbuf_write head (set_tso_segsz (gso_size k));
      doff ← buf_load head (th + 12) 1;
      _ ← mbuf_write head (set_l4_len (Z.shiftr (le_word doff) 4 * 4));
      m ← mbuf_read head;
      if negb (tso_segsz m =? 0) then
        _ ← mbuf_write head (add_flag PKT_TX_TCP_SEG);
        _ ← mbuf_write head (add_flag PKT_TX_TCP_CKSUM);
        _ ← buf_store head (th + 16) (le_bytes 2 (rte_raw_cksum (psd_header saddr daddr IPPROTO_TCP [0; 0])));
        mret (Some true)
      else
        _ ← mbuf_write head (add_flag PKT_TX_TCP_CKSUM);
        len ← l4_length head iph;
        _ ← buf_store head (th + 16) (le_bytes 2 (rte_raw_cksum (psd_header saddr daddr IPPROTO_TCP len)));
        mret (Some false)
    else if le_word proto =? IPPROTO_UDP then
      _ ← mbuf_write head (set_l4_len 0);
      _ ← mbuf_write head (add_flag PKT_TX_UDP_CKSUM);
      len ← l4_length head iph;
      _ ← buf_store head (th + 6) (le_bytes 2 (rte_raw_cksum (psd_header saddr daddr IPPROTO_UDP len)));
      mret None
    else mret None
  else mret None.
End frame.

(** ** The device *)

Section device.
Context {K : Type} `{NicAndStack K}.

(** tx.c: a buffer the driver does not take is freed. *)
Definition dpdk_dev_enqueue_for_tx (port_num m : Z) : M (netst K) unit :=
  ret ← rte_eth_tx_burst port_num m;
  _ ← modify (λ s, s <| transmitted := (transmitted s + ret) mod 2 ^ 64 |>);
  if ret <? 1 then
    _ ← modify (λ s, s <| tx_dropped := (tx_dropped s + 1) mod 2 ^ 64 |>);
    rte_pktmbuf_free m
  else mret tt.

Definition dpdk_xmit_frame (port_number : Z) (k : sk_buff) : M (netst K) Z :=
  let head := header_mbuf k in
  _ ← lay_out k;
  counted ← offload k;
  _ ← (match counted : option bool with
       | Some true => modify (λ s, s <| driver_tx_offload_pkts := (driver_tx_offload_pkts s + 1) mod 2 ^ 64 |>)
       | Some false => modify (λ s, s <| driver_tx_wo_offload_pkts := (driver_tx_wo_offload_pkts s + 1) mod 2 ^ 64 |>)
       | None => mret tt
       end);
  _ ← dpdk_dev_enqueue_for_tx port_number head;
  _ ← kfree_skb (k <| header_mbuf := 0 |>);
  mret NETDEV_TX_OK.

(** rx.c. *)
Definition dpdk_dev_get_received (port_num tbl_size : Z) : M (netst K) (list Z) :=
  l ← rte_eth_rx_burst port_num tbl_size;
  _ ← modify (λ s, s <| received := (received s + zlen l) mod 2 ^ 64 |>);
  mret l.

(** [build_skb] (net/core/skbuff.c): [skb->head] is the buffer's data. *)
Definition build_skb (mbuf : Z) : M (netst K) (option sk_buff) :=
  ok ← skbuff_head_alloc;
  if (ok : bool) then mret (Some (mk_skb mbuf 0 0 0 [] 0 0 0 0 65535)) else mret None.

(** [hdr_str[(11 - i) + 4] = hdr_str[11 - i]] for [i] from 0 to 11. *)
Fixpoint shift_header (n : nat) (mbuf at_ : Z) : M (netst K) unit :=
  match n with
  | O => mret tt
  | Datatypes.S n =>
      let j := Z.of_nat n in
      b ← buf_load mbuf (at_ + j) 1;
      _ ← buf_store mbuf (at_ + j + 4) b;
      shift_header n mbuf at_
  end.

Definition remove_vlan_tag (k : sk_buff) : M (netst K) sk_buff :=
  '(_, off) ← rte_pktmbuf_mtod (header_mbuf k);
  let at_ := off + skb_data k in
  h_proto ← buf_load (header_mbuf k) (at_ + 12) 2;
  if le_word h_proto =? ETH_P_8021Q_n then
    _ ← shift_header 12 (header_mbuf k) at_;
    mret (k <| skb_data := skb_data k + 4 |> <| skb_len := wrap32 (skb_len k - 4) |>)
  else mret k.

Definition submit_one (mbuf : Z) : M (netst K) unit :=
  skb ← build_skb mbuf;
  match skb with
  | None => rte_pktmbuf_free mbuf
  | Some k =>
      len ← rte_pktmbuf_data_len mbuf;
      k ← remove_vlan_tag (k <| skb_len := len |>);
      k ← eth_type_trans k;
      netif_receive_skb (k <| ip_summed := CHECKSUM_UNNECESSARY |>)
  end.

Definition rx_construct_skb_and_submit (port_number : Z) : M (netst K) unit :=
  mbufs ← dpdk_dev_get_received port_number MAX_PKT_BURST;
  for_each mbufs submit_one.

Definition dpdk_netpoll (port_number : Z) : M (netst K) unit := rx_construct_skb_and_submit port_number.
End device.

(** ** Linking the buffers *)

(** The segments a fragment's reference update reaches: the buffer alone when it is
    linked for the first time, the fragments after it too when it is linked again. *)
Definition reach (again : bool) (l : list Z) : list Z := if again then l else take 1 l.

Fixpoint frags_ok (again : bool) (ms : gmap Z rte_mbuf) (ps : list Z) : Prop :=
  match ps with
  | [] => True
  | p :: rest => chain ms p (reach again ps) ∧ frags_ok again ms rest
  end.

(** References taken by the time the fragment at position [i] is passed. *)
Definition refs_taken (again : bool) (i : nat) : Z := if again then Z.of_nat i + 1 else 1.
Definition linked_frag (n next : Z) (b : rte_mbuf) : rte_mbuf :=
  b <| mb_next := next |> <| mb_refcnt := mb_refcnt b + n |>.

Definition next_in (ps : list Z) (i : nat) : Z := default 0 (ps !! i).

(** What [link_frags], and the [NULL] that ends the chain, make of the buffers. *)
Record linked (again : bool) (ms ms' : gmap Z rte_mbuf) (prev : Z) (ps : list Z) : Prop := {
  lk_prev : ∀ b, ms !! prev = Some b → ms' !! prev = Some (b <| mb_next := next_in ps 0 |>);
  lk_frag : ∀ i p b, ps !! i = Some p → ms !! p = Some b →
    ms' !! p = Some (linked_frag (refs_taken again i) (next_in ps (S i)) b);
  lk_other : ∀ q, q ∉ prev :: ps → ms' !! q = ms !! q;
}.

(** Data of the fragments, and their references. *)
Definition frag_bytes (ms : gmap Z rte_mbuf) (ps : list Z) : Z :=
  foldr (λ p n, from_option mb_data_len 0 (ms !! p) + n) 0 ps.
Definition refs_small (ms : gmap Z rte_mbuf) (ps : list Z) : Prop :=
  ∀ p b, p ∈ ps → ms !! p = Some b → 0 < mb_refcnt b ∧ mb_refcnt b + zlen ps < 2 ^ 16.

Lemma chain_same_next ms ms' p l :
  chain ms p l → (∀ q b, q ∈ l → ms !! q = Some b → ∃ b', ms' !! q = Some b' ∧ mb_next b' = mb_next b) →
  chain ms' p l.
Proof.
  induction 1 as [|x b l Hx Hb Hc IH]; intros Hf; [constructor|].
  destruct (Hf x b ltac:(constructor) Hb) as (b' & Hb' & Hn).
  econstructor; [done..|]. rewrite Hn. apply IH. intros q b0 Hq. apply Hf. by constructor.
Qed.

Lemma frags_ok_frame again ms ms' ps :
  frags_ok again ms ps →
  (∀ p b, p ∈ ps → ms !! p = Some b → ∃ b', ms' !! p = Some b' ∧ mb_next b' = mb_next b) →
  frags_ok again ms' ps.
Proof.
  induction ps as [|p rest IH]; intros Hok Hf; [done|]. destruct Hok as [Hc Hok]. split.
  - eapply chain_same_next; [exact Hc|]. intros q b Hq. apply Hf. destruct again; [done|].
    apply list_elem_of_singleton in Hq as ->. constructor.
  - apply IH; [done|]. intros q b Hq. apply Hf. by constructor.
Qed.

Lemma frag_bytes_frame ms ms' ps :
  (∀ p, p ∈ ps → mb_data_len <$> ms' !! p = mb_data_len <$> ms !! p) → frag_bytes ms' ps = frag_bytes ms ps.
Proof.
  unfold frag_bytes. induction ps as [|p ps IH]; intros Hf; [done|]. cbn [foldr].
  rewrite IH by (intros; apply Hf; by constructor). f_equal.
  specialize (Hf p ltac:(constructor)). destruct (ms' !! p), (ms !! p); cbn in *; congruence.
Qed.

Lemma sint32_add x y : sint32 (sint32 x + y) = sint32 (x + y).
Proof.
  unfold sint32. rewrite <- (Z.mod_add (_ + y + 2 ^ 31) 0 (2 ^ 32)) by lia.
  replace ((x + 2 ^ 31) mod 2 ^ 32 - 2 ^ 31 + y + 2 ^ 31 + 0 * 2 ^ 32)
    with ((x + 2 ^ 31) mod 2 ^ 32 + y) by lia.
  rewrite Zplus_mod_idemp_l. do 2 f_equal. lia.
Qed.

(** One step: the link to [p], and the references of what is reached from there. *)
Definition step_bufs (again : bool) (prev p : Z) (rest : list Z) (ms : gmap Z rte_mbuf) : gmap Z rte_mbuf :=
  ref_bufs (reach again (p :: rest)) (alter (λ m, m <| mb_next := p |>) prev ms).

Lemma NoDup_reach again ps : NoDup ps → NoDup (reach again ps).
Proof. intros Hnd. destruct again; [done|]. destruct ps; [done|]. apply NoDup_singleton. Qed.

Lemma step_bufs_lookup again prev p rest ms q :
  NoDup (prev :: p :: rest) →
  step_bufs again prev p rest ms !! q =
    if decide (q = prev) then (λ b, b <| mb_next := p |>) <$> ms !! q
    else (λ b, b <| mb_refcnt := mb_refcnt b + (if decide (q ∈ reach again (p :: rest)) then 1 else 0) |>) <$> ms !! q.
Proof.
  intros [Hprev Hnd]%NoDup_cons. unfold step_bufs. rewrite ref_bufs_lookup by by apply NoDup_reach.
  assert (prev ∉ reach again (p :: rest)) as Hpr.
  { destruct again; [done|]. intros ->%list_elem_of_singleton. apply Hprev. constructor. }
  destruct (decide (q = prev)) as [->|Hq].
  - rewrite lookup_alter_eq, decide_False by done. destruct (ms !! prev) as [b|]; [|done].
    cbn. f_equal. destruct b. cbn. by rewrite Z.add_0_r.
  - by rewrite lookup_alter_ne.
Qed.

Lemma in_reach again (p : Z) rest q :
  q ∈ rest → NoDup (p :: rest) → (q ∈ reach again (p :: rest)) ↔ again = true.
Proof.
  intros Hq [Hp _]%NoDup_cons. destruct again; cbn; split; [done| |intros ->%list_elem_of_singleton; done|done].
  intros _. by constructor.
Qed.

Lemma linked_step again ms ms' prev p rest :
  NoDup (prev :: p :: rest) →
  linked again (step_bufs again prev p rest ms) ms' p rest → linked again ms ms' prev (p :: rest).
Proof.
  intros Hnd0 [Hlp Hlf Hlo]. pose proof (λ q, step_bufs_lookup again prev p rest ms q Hnd0) as Hs.
  pose proof Hnd0 as [Hprev Hnd]%NoDup_cons. pose proof Hnd as [Hp _]%NoDup_cons.
  assert (p ≠ prev) as Hpp by (intros ->; apply Hprev; constructor).
  split.
  - intros b Hb. rewrite Hlo by done. by rewrite Hs, decide_True, Hb.
  - intros [|i] q b Hq Hb; cbn in Hq.
    + injection Hq as <-. erewrite Hlp.
      2: { rewrite Hs, decide_False, Hb by done. cbn. rewrite decide_True by (destruct again; constructor). done. }
      f_equal. unfold linked_frag, refs_taken, next_in. cbn [lookup list_lookup]. by destruct again.
    + assert (q ∈ rest) as Hqr by by eapply list_elem_of_lookup_2.
      assert (q ≠ prev) as Hqp by (intros ->; apply Hprev; by constructor).
      erewrite Hlf; [|done|by rewrite Hs, decide_False, Hb by done].
      f_equal. unfold linked_frag, refs_taken. cbn.
      pose proof (in_reach again p rest q Hqr Hnd) as Hin. destruct again.
      * rewrite decide_True by by apply Hin. 
        by replace (mb_refcnt b + (Z.of_nat (S i) + 1)) with (mb_refcnt b + 1 + (Z.of_nat i + 1)) by lia.
      * rewrite decide_False by (intros ?%Hin; done).
        by rewrite Z.add_0_r.
  - intros q Hq. apply not_elem_of_cons in Hq as [Hq1 Hq2]. rewrite Hlo by done.
    rewrite Hs, decide_False by done. destruct (ms !! q) as [b|]; [|done]. cbn. f_equal.
    rewrite decide_False; [destruct b; cbn; by rewrite Z.add_0_r|].
    intros Hin. apply Hq2. destruct again; [done|]. apply list_elem_of_singleton in Hin as ->. constructor.
Qed.

(** The list the device walks. *)
Definition pages (k : sk_buff) : list Z := frag_page <$> skb_frags k.

Lemma wp_link_frags {S} `{PartLaws shm S} again fs : ∀ prev len (Q : Z → S → Prop) s,
  NoDup (prev :: (frag_page <$> fs)) → is_Some (mbufs (part_get s) !! prev) →
  frags_ok again (mbufs (part_get s)) (frag_page <$> fs) →
  refs_small (mbufs (part_get s)) (frag_page <$> fs) →
  (∀ n ms', wrap32 n = wrap32 (len + frag_bytes (mbufs (part_get s)) (frag_page <$> fs)) →
     linked again (mbufs (part_get s)) ms' prev (frag_page <$> fs) →
     Q n (part_set ((part_get s : shm) <| mbufs := ms' |>) s)) →
  wp (link_frags prev fs len)
     (λ '(last, n) s', wp (mbuf_write last (λ m, m <| mb_next := 0 |>)) (λ _, Q n) s') s.
Proof.
  induction fs as [|[p fo fz] fs IH]; intros prev len Q s Hnd Hprev Hok Hrefs HQ; cbn [link_frags].
  - rewrite wp_ret. apply wp_mbuf_alter; [done|]. apply HQ; [cbn; by rewrite Z.add_0_r|].
    split; [|done|].
    + intros b Hb. by rewrite lookup_alter_eq, Hb.
    + intros q Hq. rewrite lookup_alter_ne; [done|]. intros ->. apply Hq. constructor.
  - rewrite fmap_cons in *. cbn [frag_page] in *. set (ps := frag_page <$> fs) in *.
    pose proof Hnd as [Hpr Hnd']%NoDup_cons. destruct Hok as [Hc Hok].
    assert (p ≠ prev) as Hpp by (intros ->; apply Hpr; constructor).
    set (ms := mbufs (part_get s)) in *.
    pose proof (λ q, step_bufs_lookup again prev p ps ms q Hnd) as Hs.
    assert (∀ q, q ∈ reach again (p :: ps) → q ≠ prev ∧ q ∈ p :: ps) as Hr.
    { intros q Hq. assert (q ∈ p :: ps) as Hin.
      { destruct again; [done|]. apply list_elem_of_singleton in Hq as ->. constructor. }
      split; [by intros ->|done]. }
    rewrite wp_bind. apply wp_mbuf_alter; [done|]. rewrite wp_bind.
    eapply wp_refcnt_chain; rewrite ?part_get_set; cbn [mbufs].
    + eapply chain_frame; [exact Hc|]. intros q [Hq _]%Hr. by apply lookup_alter_ne.
    + by destruct again.
    + intros q b [Hq Hin]%Hr. cbn. rewrite lookup_alter_ne by done. intros Hb.
      destruct (Hrefs q b Hin Hb). unfold zlen in *. cbn in *. lia.
    + rewrite part_set_set. change (wp (n ← rte_pktmbuf_data_len p; link_frags p fs (sint32 (len + n)))
        (λ '(last, n) s', wp (mbuf_write last (λ m, m <| mb_next := 0 |>)) (λ _, Q n) s')
        (part_set ((part_get s : shm) <| mbufs := step_bufs again prev p ps ms |>) s)).
      destruct (chain_lookup _ _ _ p Hc ltac:(destruct again; constructor)) as [_ [b Hb]].
      unfold rte_pktmbuf_data_len. rewrite !wp_bind. eapply wp_mbuf_read.
      { rewrite part_get_set. cbn. rewrite Hs, decide_False, Hb by done. done. }
      rewrite wp_ret. apply IH; rewrite ?part_get_set; cbn [mbufs].
      * done.
      * change (is_Some (step_bufs again prev p ps ms !! p)). rewrite Hs, decide_False, Hb by done. by eexists.
      * eapply frags_ok_frame; [exact Hok|]. intros q b' Hq Hb'.
        change (∃ b0, step_bufs again prev p ps ms !! q = Some b0 ∧ mb_next b0 = mb_next b').
        rewrite Hs, decide_False, Hb' by (intros ->; apply Hpr; by constructor). by eexists.
      * intros q b' Hq. change (step_bufs again prev p ps ms !! q = Some b' →
          0 < mb_refcnt b' ∧ mb_refcnt b' + zlen ps < 2 ^ 16).
        rewrite Hs, decide_False by (intros ->; apply Hpr; by constructor).
        destruct (ms !! q) as [b0|] eqn:Hb0; [|done]. intros [= <-].
        destruct (Hrefs q b0 ltac:(by constructor) Hb0). unfold zlen in *. cbn in *. case_decide; lia.
      * intros n ms' Hn Hl. rewrite part_set_set. apply HQ.
        -- rewrite Hn. fold ps. rewrite <- wrap32_add_l, wrap32_sint32, wrap32_add_l.
           change (frag_bytes ms (p :: ps)) with (from_option mb_data_len 0 (ms !! p) + frag_bytes ms ps).
           rewrite Hb. cbn [from_option]. rewrite (frag_bytes_frame ms); [f_equal; cbn; lia|].
           intros q Hq. change (mb_data_len <$> step_bufs again prev p ps ms !! q = mb_data_len <$> ms !! q).
           rewrite Hs, decide_False by (intros ->; apply Hpr; by constructor). by destruct (ms !! q).
        -- by apply linked_step.
Qed.

(** The buffers once the frame is laid out. *)
Definition framed_head (k : sk_buff) (ms : gmap Z rte_mbuf) (b : rte_mbuf) : rte_mbuf :=
  b <| mb_data_len := wrap16 (skb_headlen k) |> <| mb_data_off := wrap16 (head_base b + skb_data k) |>
    <| mb_nb_segs := (1 + zlen (skb_frags k)) mod 2 ^ 8 |> <| mb_next := next_in (pages k) 0 |>
    <| mb_pkt_len := wrap32 (wrap16 (skb_headlen k) + frag_bytes ms (pages k)) |>.

Record framed (again : bool) (k : sk_buff) (ms ms' : gmap Z rte_mbuf) : Prop := {
  fr_head : ∀ b, ms !! header_mbuf k = Some b → ms' !! header_mbuf k = Some (framed_head k ms b);
  fr_frag : ∀ i p b, pages k !! i = Some p → ms !! p = Some b →
    ms' !! p = Some (linked_frag (refs_taken again i) (next_in (pages k) (S i)) b);
  fr_other : ∀ q, q ∉ header_mbuf k :: pages k → ms' !! q = ms !! q;
}.

(** A packet whose buffers can be laid out. *)
Record layable (again : bool) (k : sk_buff) (ms : gmap Z rte_mbuf) : Prop := {
  ly_nodup : NoDup (header_mbuf k :: pages k);
  ly_head : is_Some (ms !! header_mbuf k);
  ly_frags : frags_ok again ms (pages k);
  ly_refs : refs_small ms (pages k);
}.

Lemma wp_lay_out {S} `{PartLaws shm S} again k (Q : unit → S → Prop) s :
  layable again k (mbufs (part_get s)) →
  (∀ ms', framed again k (mbufs (part_get s)) ms' →
     Q tt (part_set ((part_get s : shm) <| mbufs := ms' |>) s)) →
  wp (lay_out k) Q s.
Proof.
  intros [Hnd [b Hb] Hok Hrefs] HQ. set (h := header_mbuf k) in *. set (ms := mbufs (part_get s)) in *.
  unfold lay_out. fold h.
  rewrite wp_bind. eapply wp_mbuf_write; [exact Hb|].
  rewrite wp_bind. eapply wp_mbuf_write; [rewrite part_get_set; apply lookup_insert_eq|].
  rewrite !part_get_set, part_set_set.
  rewrite wp_bind. eapply wp_mbuf_write; [rewrite part_get_set; apply lookup_insert_eq|].
  rewrite !part_get_set, part_set_set. unfold rte_pktmbuf_data_len. rewrite !wp_bind.
  eapply wp_mbuf_read; [rewrite part_get_set; apply lookup_insert_eq|]. rewrite wp_ret, wp_bind.
  eapply wp_mbuf_write; [rewrite part_get_set; apply lookup_insert_eq|].
  rewrite !part_get_set, part_set_set. cbn [mbufs]. unfold set_field at 1 3 5 7. unfold eta_shm.
  match goal with |- context [part_set ?m s] =>
    assert (m = (part_get s : shm) <| mbufs := <[h := b <| mb_data_len := wrap16 (skb_headlen k) |>
      <| mb_data_off := wrap16 (head_base b + skb_data k) |>
      <| mb_nb_segs := (1 + zlen (skb_frags k)) mod 2 ^ 8 |> ]> ms |>) as -> end.
  { cbn. unfold set_field. cbn. by rewrite !insert_insert_eq. }
  match goal with |- context [<[h := ?x]> ms] => set (b1 := x) end.
  assert (∀ q, q ≠ h → <[h := b1]> ms !! q = ms !! q) as Hne by by intros; apply lookup_insert_ne.
  assert (∀ q, q ∈ pages k → q ≠ h) as Hph.
  { apply NoDup_cons in Hnd as [Hh _]. by intros q Hq ->. }
  rewrite wp_bind. eapply wp_mono.
  - eapply (wp_link_frags again _ _ _ (λ n s', wp (mbuf_write h (λ m, m <| mb_pkt_len := wrap32 n |>)) Q s'));
      rewrite ?part_get_set; [done| | | |]; cbn [mbufs].
    + change (is_Some (<[h := b1]> ms !! h)). rewrite lookup_insert_eq. by eexists.
    + eapply frags_ok_frame; [exact Hok|]. intros q b' Hq Hb'.
      change (∃ b0, <[h := b1]> ms !! q = Some b0 ∧ mb_next b0 = mb_next b').
      rewrite Hne by by apply Hph. by exists b'.
    + intros q b' Hq. change (<[h := b1]> ms !! q = Some b' →
        0 < mb_refcnt b' ∧ mb_refcnt b' + zlen (pages k) < 2 ^ 16).
      rewrite Hne by by apply Hph. by apply Hrefs.
    + intros n ms' Hn [Hlp Hlf Hlo]. rewrite part_set_set.
      eapply wp_mbuf_write; [rewrite part_get_set; apply (Hlp b1); apply lookup_insert_eq|].
      rewrite part_get_set, part_set_set. cbn [mbufs].
      match goal with |- Q tt (part_set ?m s) => assert (m = (part_get s : shm) <| mbufs := <[h :=
        b1 <| mb_next := next_in (pages k) 0 |> <| mb_pkt_len := wrap32 n |>]> ms' |>) as -> by done end.
      apply HQ. split.
      * intros b0 Hb0. fold ms h in Hb0 |- *. rewrite Hb in Hb0. injection Hb0 as <-. rewrite lookup_insert_eq. f_equal.
        unfold framed_head. rewrite Hn. cbn [mb_data_len]. fold (pages k).
        rewrite (frag_bytes_frame ms) by (intros q Hq; change (mb_data_len <$> <[h := b1]> ms !! q =
          mb_data_len <$> ms !! q); by rewrite Hne by by apply Hph). done.
      * intros i q b0 Hq Hb0. assert (q ≠ h) as Hqh by (apply Hph; by eapply list_elem_of_lookup_2).
        rewrite lookup_insert_ne by done. apply (Hlf i q b0 Hq).
        change (<[h := b1]> ms !! q = Some b0). by rewrite Hne.
      * intros q Hq. fold h in Hq |- *. pose proof Hq as [Hqh _]%not_elem_of_cons.
        rewrite lookup_insert_ne by done. rewrite Hlo by done. by apply Hne.
  - intros [last n] s' Hw. rewrite wp_bind. exact Hw.
Qed.

(** A list is the chain that its positions say. *)
Lemma chain_by_index ms l :
  (∀ i p, l !! i = Some p → p ≠ 0 ∧ ∃ b, ms !! p = Some b ∧ mb_next b = next_in l (S i)) →
  chain ms (next_in l 0) l.
Proof.
  induction l as [|p l IH]; intros Hl; [constructor|].
  destruct (Hl 0%nat p eq_refl) as (Hp & b & Hb & Hn). cbn. econstructor; [done..|].
  rewrite Hn. apply IH. intros i q Hq. exact (Hl (S i) q Hq).
Qed.

Lemma frags_ok_live again ms ps p : frags_ok again ms ps → p ∈ ps → p ≠ 0 ∧ is_Some (ms !! p).
Proof.
  induction ps as [|q ps IH]; intros Hok Hp; [by apply not_elem_of_nil in Hp|].
  destruct Hok as [Hc Hok]. apply elem_of_cons in Hp as [->|Hp]; [|by apply IH].
  apply (chain_lookup _ _ _ q Hc). destruct again; constructor.
Qed.

Lemma framed_chain again k ms ms' :
  layable again k ms → header_mbuf k ≠ 0 → framed again k ms ms' →
  chain ms' (header_mbuf k) (header_mbuf k :: pages k).
Proof.
  intros [_ [b Hb] Hok _] H0 [Hh Hf _].
  apply (chain_by_index ms' (header_mbuf k :: pages k)). intros [|i] p Hp; cbn in Hp.
  - injection Hp as <-. split; [done|]. eexists. split; [by apply Hh|done].
  - destruct (frags_ok_live _ _ _ p Hok) as [Hp0 [bp Hbp]]; [by eapply list_elem_of_lookup_2|].
    split; [done|]. eexists. split; [by apply (Hf i)|done].
Qed.

Lemma frag_bytes_payload ms ps :
  (∀ p, p ∈ ps → ∃ b, ms !! p = Some b ∧ data_ok b) → zlen (payload ms ps) = frag_bytes ms ps.
Proof.
  unfold frag_bytes. induction ps as [|p ps IH]; intros Hd; [done|]. cbn [foldr].
  destruct (Hd p ltac:(constructor)) as (b & Hb & Hok).
  rewrite (payload_cons _ _ b), zlen_app, zlen_seg_bytes, Hb by done. cbn. f_equal.
  apply IH. intros q Hq. apply Hd. by constructor.
Qed.

Lemma framed_payload again k ms ms' :
  layable again k ms → framed again k ms ms' → payload ms' (pages k) = payload ms (pages k).
Proof.
  intros [_ _ Hok _] [_ Hf _]. unfold payload.
  assert (∀ p, p ∈ pages k → seg_bytes <$> ms' !! p = seg_bytes <$> ms !! p) as Hs.
  { intros p Hp. destruct (frags_ok_live _ _ _ p Hok Hp) as [_ [b Hb]].
    apply list_elem_of_lookup in Hp as [i Hi]. by rewrite (Hf i p b Hi Hb), Hb. }
  revert Hs. generalize (pages k) as ps. induction ps as [|p ps IH]; intros Hs; [done|]. cbn.
  rewrite IH by (intros; apply Hs; by constructor). f_equal.
  specialize (Hs p ltac:(constructor)). destruct (ms' !! p), (ms !! p); cbn in *; congruence.
Qed.

(** Headers within the header buffer, and data within the others. *)
Record frame_fits (k : sk_buff) (b : rte_mbuf) (ms : gmap Z rte_mbuf) : Prop := {
  ff_head : header_mbuf k ≠ 0;
  ff_len : 0 ≤ skb_headlen k ∧ 0 ≤ skb_data k;
  ff_room : head_base b + skb_data k + skb_headlen k < 2 ^ 16;
  ff_data : ∀ p, p ∈ pages k → ∃ bp, ms !! p = Some bp ∧ data_ok bp;
  ff_segs : zlen (pages k) < 255;
  ff_total : skb_headlen k + zlen (payload ms (pages k)) < 2 ^ 32;
}.

Lemma framed_frame again k b ms ms' :
  layable again k ms → ms !! header_mbuf k = Some b → frame_fits k b ms → framed again k ms ms' →
  let l := header_mbuf k :: pages k in
  chain ms' (header_mbuf k) l ∧
  payload ms' l = slice (mb_buf b) (head_base b + skb_data k) (skb_headlen k) ++ payload ms (pages k) ∧
  (∃ b', ms' !! header_mbuf k = Some b' ∧ mb_nb_segs b' = zlen l ∧ mb_pkt_len b' = zlen (payload ms' l)) ∧
  (∀ q, q ∉ l → ms' !! q = ms !! q).
Proof.
  intros Hly Hb [H0 [Hhl Hd0] Hroom Hdata Hn Hlen] Hfr. cbv zeta.
  assert (0 ≤ head_base b) as Hhb
    by (unfold head_base, RTE_PKTMBUF_HEADROOM; case_match; [lia|apply zlen_nonneg]).
  assert (wrap16 (head_base b + skb_data k) = head_base b + skb_data k) as Eo by (apply Z.mod_small; lia).
  assert (wrap16 (skb_headlen k) = skb_headlen k) as El by (apply Z.mod_small; lia).
  pose proof (fr_head _ _ _ _ Hfr b Hb) as Hb'.
  assert (payload ms' (header_mbuf k :: pages k) = slice (mb_buf b) (head_base b + skb_data k)
    (skb_headlen k) ++ payload ms (pages k)) as Hp.
  { rewrite (payload_cons _ _ _ _ Hb'), (framed_payload _ _ _ _ Hly Hfr). f_equal.
    unfold seg_bytes. cbn. by rewrite Eo, El. }
  split_and!; [by eapply framed_chain|done| |by apply (fr_other _ _ _ _ Hfr)].
  eexists. split; [exact Hb'|]. rewrite Hp, zlen_app, zlen_slice by lia. cbn.
  rewrite El, <- frag_bytes_payload by done. pose proof (zlen_nonneg (payload ms (pages k))).
  split; [|apply wrap32_small; lia].
  unfold pages, zlen in *. rewrite length_fmap in *. cbn [length]. rewrite length_fmap.
  rewrite Z.mod_small; lia.
Qed.

(** C11. The frame the device builds is one well-formed chain: the header buffer,
    holding the headers at [skb->data], then the buffers of the fragments in order,
    with the number of segments and the total length of what the chain carries in the
    head, and [NULL] at the end.  Other buffers and the rings are untouched.  The
    chain carries the fragments' whole buffers: the part a fragment means
    ([frag_offset], [frag_size]) is not looked at. *)
Theorem frame_built again k b (m : shm) :
  layable again k (mbufs m) → mbufs m !! header_mbuf k = Some b → frame_fits k b (mbufs m) →
  wp (lay_out k) (λ _ m',
    let l := header_mbuf k :: pages k in
    chain (mbufs m') (header_mbuf k) l ∧
    payload (mbufs m') l =
      slice (mb_buf b) (head_base b + skb_data k) (skb_headlen k) ++ payload (mbufs m) (pages k) ∧
    (∃ b', mbufs m' !! header_mbuf k = Some b' ∧ mb_nb_segs b' = zlen l ∧
       mb_pkt_len b' = zlen (payload (mbufs m') l)) ∧
    (∀ q, q ∉ l → mbufs m' !! q = mbufs m !! q) ∧ rings m' = rings m) m.
Proof.
  intros Hly Hb Hff. eapply wp_lay_out; [exact Hly|]. intros ms' Hfr.
  destruct (framed_frame _ _ _ _ _ Hly Hb Hff Hfr) as (Hc & Hp & Hh & Ho). by split_and!.
Qed.

Lemma framed_frag_ref again k ms ms' i p b :
  framed again k ms ms' → layable again k ms → pages k !! i = Some p → ms !! p = Some b →
  ∃ b', ms' !! p = Some b' ∧ mb_refcnt b' = mb_refcnt b + refs_taken again i ∧
    1 < mb_refcnt b' < 2 ^ 16 ∧ mb_pool b' = mb_pool b ∧ mb_ol_flags b' = mb_ol_flags b.
Proof.
  intros [_ Hf _] [_ _ _ Hrefs] Hi Hb. eexists. split; [by apply (Hf i)|]. cbn. split; [done|].
  destruct (Hrefs p b ltac:(by eapply list_elem_of_lookup_2) Hb).
  apply lookup_lt_Some in Hi. unfold refs_taken, zlen in *. destruct again; (split; [lia|done]).
Qed.

Lemma framed_last_refs again k b ms ms' :
  framed again k ms ms' → layable again k ms → ms !! header_mbuf k = Some b → mb_refcnt b = 1 →
  last_refs ms' (header_mbuf k :: pages k) = [header_mbuf k].
Proof.
  intros Hfr Hly Hb H1. pose proof (fr_head _ _ _ _ Hfr b Hb) as Hb'. unfold last_refs.
  rewrite filter_cons, decide_True by (rewrite Hb'; cbn; by rewrite H1). f_equal.
  assert (∀ p, p ∈ pages k → mb_refcnt <$> ms' !! p ≠ Some 1) as Hno.
  { intros p Hp. destruct (frags_ok_live _ _ _ p (ly_frags _ _ _ Hly) Hp) as [_ [bp Hbp]].
    apply list_elem_of_lookup in Hp as [i Hi].
    destruct (framed_frag_ref _ _ _ _ _ _ _ Hfr Hly Hi Hbp) as (b' & -> & _ & Hr & _). cbn.
    intros [= ?]. lia. }
  revert Hno. generalize (pages k) as ps. induction ps as [|p ps IH]; intros Hno; [done|].
  rewrite filter_cons, decide_False by (apply Hno; constructor). apply IH. intros q Hq. apply Hno. by constructor.
Qed.

(** What a transmission leaves behind, once the driver frees the frame.  The
    header goes back to its pool.  When the fragments' buffers were not linked yet,
    each has the references it had before.  When they were - a frame of the same
    buffers sent again, the stack still holding them - the reference update of each
    fragment walks on to the fragments behind it, but the frame gives up one reference
    of each: the fragment at position [i] is left with [i] references too many, and
    never goes back to its pool. *)
Theorem frame_balance again k b pool c (m : shm) :
  layable again k (mbufs m) → mbufs m !! header_mbuf k = Some b → header_mbuf k ≠ 0 → mb_refcnt b = 1 →
  (∀ p bp, p ∈ header_mbuf k :: pages k → mbufs m !! p = Some bp → seg_ok pool bp) →
  rings_ok (rings m) → chans (rings m) !! pool = Some c → zlen (ch_q c) < ch_cap c →
  wp (_ ← lay_out k; rte_pktmbuf_free (header_mbuf k)) (λ _ m',
    (∀ i p bp, pages k !! i = Some p → mbufs m !! p = Some bp →
       mb_refcnt <$> mbufs m' !! p = Some (mb_refcnt bp + (if again then Z.of_nat i else 0))) ∧
    chans (rings m') = <[pool := mk_chan (ch_cap c) (ch_wm c) (ch_q c ++ [header_mbuf k])]> (chans (rings m)) ∧
    rings_ok (rings m')) m.
Proof.
  intros Hly Hb H0 H1 Hseg Hok Hc Hroom. rewrite wp_bind. eapply wp_lay_out; [exact Hly|].
  intros ms' Hfr. change (mbufs (part_get m)) with (mbufs m) in Hfr.
  pose proof (framed_last_refs _ _ _ _ _ Hfr Hly Hb H1) as Hlast.
  eapply (wp_pktmbuf_free pool); [by eapply framed_chain|done|done| | |].
  - intros q b' Hq. change (ms' !! q = Some b' → seg_ok pool b'). intros Hb'.
    apply elem_of_cons in Hq as [->|Hq].
    + rewrite (fr_head _ _ _ _ Hfr b Hb) in Hb'. injection Hb' as <-. apply (Hseg (header_mbuf k) b); [constructor|done].
    + destruct (frags_ok_live _ _ _ q (ly_frags _ _ _ Hly) Hq) as [_ [bq Hbq]].
      destruct (Hseg q bq ltac:(by constructor) Hbq) as (Hp & Hi & _).
      apply list_elem_of_lookup in Hq as [i Hi'].
      destruct (framed_frag_ref _ _ _ _ _ _ _ Hfr Hly Hi' Hbq) as (b0 & Hb0 & _ & Hr & Hpl & Hol).
      rewrite Hb' in Hb0. injection Hb0 as <-. unfold seg_ok, rte_mbuf_indirect in *. rewrite Hpl, Hol.
      split_and!; [done..|lia|lia].
  - change (zlen (ch_q c) + zlen (last_refs ms' (header_mbuf k :: pages k)) ≤ ch_cap c).
    rewrite Hlast. change (zlen [header_mbuf k]) with 1. lia.
  - intros rs Hrs Hchs. cbn [rings mbufs part_set part_get part_refl] in Hchs |- *.
    change (mbufs (m <| mbufs := ms' |>)) with ms' in *. rewrite Hlast in Hchs.
    split_and!; [|done|done]. intros i p bp Hi Hbp.
    rewrite free_bufs_in; [|apply (ly_nodup _ _ _ Hly)|constructor; by eapply list_elem_of_lookup_2].
    destruct (framed_frag_ref _ _ _ _ _ _ _ Hfr Hly Hi Hbp) as (b' & -> & Hr & Hgt & _). cbn.
    unfold freed_buf. rewrite (proj2 (Z.eqb_neq _ _)) by lia. cbn. f_equal.
    rewrite Hr. unfold refs_taken. destruct again; lia.
Qed.

Definition demo_skb : sk_buff := mk_skb 10 0 34 20 [mk_frag 11 0 10; mk_frag 12 0 10] 0 0 ETH_P_IP_n 14 34.
Definition demo_frags (next11 : Z) : shm :=
  mk_shm (list_to_map [(MBUFS_MEMPOOL, demo_ring 0 8 [13])]) ∅ ∅
    {[ 10 := demo_mbuf 1 0; 11 := demo_mbuf 2 next11; 12 := demo_mbuf 2 0 ]}.

Lemma demo_layable again : layable again demo_skb (mbufs (demo_frags (if again then 12 else 0))).
Proof.
  split; [by apply (bool_decide_unpack _); vm_compute|by eexists| |].
  - destruct again; (split; [|split; [|done]]); repeat (econstructor; [done|reflexivity|]); constructor.
  - intros p bp Hp Hb. change (pages demo_skb) with [11; 12] in *. unfold zlen. cbn [length].
    apply elem_of_cons in Hp as [->|Hp%list_elem_of_singleton]; [|rewrite Hp in Hb];
      destruct again; injection Hb as <-; by vm_compute.
Qed.

Lemma demo_frags_ok next11 : rings_ok (rings (demo_frags next11)).
Proof. apply demo_rings_ok. repeat constructor. do 3 eexists. split; [done|cbn; lia]. Qed.

Lemma frame_built_witness : layable false demo_skb (mbufs (demo_frags 0)) ∧
  wp (lay_out demo_skb) (λ _ m', chain (mbufs m') 10 [10; 11; 12]) (demo_frags 0).
Proof.
  split; [apply (demo_layable false)|].
  eapply wp_mono.
  - apply (frame_built false demo_skb (demo_mbuf 1 0)); [apply (demo_layable false)|done|].
    split; try (vm_compute; intuition congruence).
    intros p Hp. change (pages demo_skb) with [11; 12] in Hp.
    apply elem_of_cons in Hp as [->| ->%list_elem_of_singleton]; (eexists; split; [done|]);
      vm_compute; intuition congruence.
  - intros [] m' (Hc & _). exact Hc.
Defined.

Lemma frame_balance_witness : layable true demo_skb (mbufs (demo_frags 12)) ∧
  wp (_ ← lay_out demo_skb; rte_pktmbuf_free 10) (λ _ m',
    mb_refcnt <$> mbufs m' !! 11 = Some 2 ∧ mb_refcnt <$> mbufs m' !! 12 = Some 3) (demo_frags 12).
Proof.
  split; [apply (demo_layable true)|].
  eapply wp_mono.
  - apply (frame_balance true demo_skb (demo_mbuf 1 0) MBUFS_MEMPOOL (mk_chan 7 8 [13]));
      [apply (demo_layable true)|done|done|done| |apply demo_frags_ok|by vm_compute|by vm_compute].
    intros p bp Hp. change (header_mbuf demo_skb :: pages demo_skb) with [10; 11; 12] in Hp.
    repeat (apply elem_of_cons in Hp as [->|Hp]; [by intros [= <-]; vm_compute; split_and!|]).
    by apply not_elem_of_nil in Hp.
  - intros [] m' (Hr & _). split; [by apply (Hr 0%nat 11 (demo_mbuf 2 12))|by apply (Hr 1%nat 12 (demo_mbuf 2 0))].
Defined.

(** ** Checksum and segmentation offload *)

Lemma get_put_bits lo w v x : 0 ≤ lo → 0 ≤ w → get_bits lo w (put_bits lo w v x) = v mod 2 ^ w.
Proof.
  intros Hlo Hw. apply Z.bits_inj'. intros n Hn. unfold get_bits, put_bits.
  rewrite <- !Z.land_ones, !Z.land_spec by done.
  rewrite Z.shiftr_spec, Z.lor_spec, Z.ldiff_spec, !Z.shiftl_spec, Z.land_spec by lia.
  replace (n + lo - lo) with n by lia.
  destruct (Z.lt_ge_cases n w).
  - rewrite Z.ones_spec_low by lia. cbn. by rewrite andb_false_r, !andb_true_r.
  - rewrite Z.ones_spec_high by lia. cbn. by rewrite !andb_false_r.
Qed.

Lemma get_put_other lo w lo' w' v x :
  0 ≤ lo → 0 ≤ w → 0 ≤ lo' → 0 ≤ w' → lo + w ≤ lo' ∨ lo' + w' ≤ lo →
  get_bits lo w (put_bits lo' w' v x) = get_bits lo w x.
Proof.
  intros ???? Hd. apply Z.bits_inj'. intros n Hn. unfold get_bits, put_bits.
  rewrite <- !Z.land_ones, !Z.land_spec by done.
  destruct (Z.lt_ge_cases n w).
  - rewrite !Z.shiftr_spec, Z.lor_spec, Z.ldiff_spec by lia.
    destruct Hd as [Hd|Hd].
    + rewrite !Z.shiftl_spec_low by lia. cbn. by rewrite andb_true_r, orb_false_r.
    + rewrite !Z.shiftl_spec, Z.land_spec, Z.ones_spec_high by lia. cbn.
      by rewrite andb_true_r, andb_false_r, orb_false_r.
  - rewrite Z.ones_spec_high by lia. by rewrite !andb_false_r.
Qed.

(** The state with the buffer [h]. *)
Section head_rules.
Context {S : Type} `{PartLaws shm S}.

Definition upd (h : Z) (b : rte_mbuf) (s : S) : S :=
  part_set ((part_get s : shm) <| mbufs := <[h := b]> (mbufs (part_get s)) |>) s.

Lemma upd_id h b s : mbufs (part_get s) !! h = Some b → s = upd h b s.
Proof.
  intros Hb. unfold upd. rewrite <- (part_set_get s) at 1. f_equal.
  destruct (part_get s). unfold set_field. cbn in *. by rewrite insert_id.
Qed.
Lemma upd_lookup h b s : mbufs (part_get (upd h b s)) !! h = Some b.
Proof. unfold upd. rewrite part_get_set. apply lookup_insert_eq. Qed.
Lemma upd_write h b s f (Q : unit → S → Prop) : Q tt (upd h (f b) s) → wp (mbuf_write h f) Q (upd h b s).
Proof.
  intros HQ. eapply wp_mbuf_write; [apply upd_lookup|]. unfold upd in *.
  rewrite part_get_set, part_set_set. unfold set_field in *. cbn in *. by rewrite insert_insert_eq.
Qed.
Lemma upd_read h b s (Q : rte_mbuf → S → Prop) : Q b (upd h b s) → wp (mbuf_read h) Q (upd h b s).
Proof. intros HQ. eapply wp_mbuf_read; [apply upd_lookup|done]. Qed.

Definition stored (off : Z) (bs : list Z) (b : rte_mbuf) : rte_mbuf := b <| mb_buf := overwrite (mb_buf b) off bs |>.
Lemma upd_store h b s off bs (Q : unit → S → Prop) :
  0 ≤ off → off + zlen bs ≤ zlen (mb_buf b) → Q tt (upd h (stored off bs b) s) →
  wp (buf_store h off bs) Q (upd h b s).
Proof.
  intros Ho Hn HQ. unfold buf_store. rewrite wp_bind. apply upd_read. rewrite wp_bind, wp_require.
  split; [apply andb_true_intro; split; by apply Z.leb_le|]. by apply upd_write.
Qed.
Lemma upd_load h b s off n (Q : list Z → S → Prop) :
  0 ≤ off → off + n ≤ zlen (mb_buf b) → Q (slice (mb_buf b) off n) (upd h b s) →
  wp (buf_load h off n) Q (upd h b s).
Proof.
  intros Ho Hn HQ. unfold buf_load. rewrite wp_bind. apply upd_read. rewrite wp_bind, wp_require.
  split; [apply andb_true_intro; split; by apply Z.leb_le|]. by rewrite wp_ret.
Qed.
End head_rules.

Lemma slice_overwrite_other b off bs i n :
  0 ≤ off → off + zlen bs ≤ zlen b → 0 ≤ i → i + n ≤ off ∨ off + zlen bs ≤ i →
  slice (overwrite b off bs) i n = slice b i n.
Proof.
  intros H0 H1 Hi Hd. unfold slice, overwrite. apply fmap_seqZ_ext. intros j Hj.
  unfold lget, zlen in *. f_equal. destruct Hd as [Hd|Hd].
  - rewrite lookup_app_l by (rewrite length_take; lia). by rewrite lookup_take_lt by lia.
  - rewrite lookup_app_r by (rewrite length_take; lia).
    rewrite lookup_app_r by (rewrite length_take; lia). rewrite length_take, lookup_drop.
    f_equal. lia.
Qed.

(** One step over the head. *)
Ltac head_step :=
  rewrite wp_bind;
  first [ apply upd_write | apply upd_read
        | apply upd_store; [lia|first [done | cbn; lia]|]
        | apply upd_load; [lia|first [done | cbn; lia]|] ].

(** What the poll-mode driver is promised of the buffer [b'] that was [b]: [co] is where
    the checksum is in the transport header. *)
Record offloaded (k : sk_buff) (iph th proto : Z) (b b' : rte_mbuf) : Prop := {
  of_l2 : get_bits 0 7 (mb_tx_offload b') = skb_network_offset k;
  of_l3 : get_bits 7 9 (mb_tx_offload b') = skb_network_header_len k;
  of_l4 : get_bits 16 8 (mb_tx_offload b') =
    if proto =? IPPROTO_TCP then lget (mb_buf b) (th + 12) / 16 * 4 else 0;
  of_tso : get_bits 24 16 (mb_tx_offload b') = gso_size k;
  of_flags : mb_ol_flags b' =
    Z.lor (Z.lor PKT_TX_IPV4 PKT_TX_IP_CKSUM)
      (if proto =? IPPROTO_TCP
       then if gso_size k =? 0 then PKT_TX_TCP_CKSUM else Z.lor PKT_TX_TCP_SEG PKT_TX_TCP_CKSUM
       else PKT_TX_UDP_CKSUM);
  of_buf : mb_buf b' = overwrite (overwrite (mb_buf b) (iph + 10) [0; 0])
    (th + if proto =? IPPROTO_TCP then 16 else 6)
    (le_bytes 2 (rfc1071 (psd_header (slice (mb_buf b) (iph + 12) 4) (slice (mb_buf b) (iph + 16) 4) proto
      (if (proto =? IPPROTO_TCP) && negb (gso_size k =? 0) then [0; 0]
       else rev (le_bytes 2 (wrap16 (le_word (rev (slice (mb_buf b) (iph + 2) 2)) - skb_network_header_len k)))))));
}.

Definition counted_as (k : sk_buff) (proto : Z) : option bool :=
  if proto =? IPPROTO_TCP then Some (negb (gso_size k =? 0)) else None.

Lemma byte_le_bytes n x : Forall byte (le_bytes n x).
Proof.
  revert x. induction n as [|n IH]; intros x; [constructor|]. cbn. constructor; [|apply IH].
  unfold byte. apply Z.mod_pos_bound. lia.
Qed.

Lemma byte_lget l i : Forall byte l → byte (lget l i).
Proof.
  intros Hl. unfold lget. destruct (l !! Z.to_nat i) as [x|] eqn:Hx; cbn; [|unfold byte; lia].
  by eapply Forall_lookup_1 in Hl.
Qed.

Lemma byte_slice l i n : Forall byte l → Forall byte (slice l i n).
Proof. intros Hl. apply Forall_fmap, Forall_forall. intros j _. by apply byte_lget. Qed.

Lemma psd_cksum b (i j proto : Z) len :
  Forall byte b → byte proto → Forall byte len → zlen len = 2 →
  rte_raw_cksum (psd_header (slice b i 4) (slice b j 4) proto len) =
  rfc1071 (psd_header (slice b i 4) (slice b j 4) proto len).
Proof.
  intros Hb Hp Hlen Hl. apply raw_cksum_rfc1071.
  - unfold psd_header. rewrite !Forall_app. split_and!; [by apply byte_slice..| |done].
    constructor; [unfold byte; lia|by constructor].
  - unfold psd_header. rewrite !zlen_app, !zlen_slice, Hl by lia. by vm_compute.
Qed.

(** A packet with its headers in place. *)
Record headers_ok (k : sk_buff) (iph th proto : Z) (b : rte_mbuf) : Prop := {
  ho_iph : iph = head_base b + network_header k;
  ho_th : th = head_base b + transport_header k;
  ho_room : 0 ≤ iph ∧ iph + 20 ≤ th ∧ th + (if proto =? IPPROTO_TCP then 18 else 8) ≤ zlen (mb_buf b);
  ho_bytes : Forall byte (mb_buf b);
  ho_proto : slice (mb_buf b) (iph + 9) 1 = [proto];
  ho_l3 : skb_network_header_len k < 2 ^ 9;
  ho_l2 : 0 ≤ skb_network_offset k < 2 ^ 7;
  ho_gso : 0 ≤ gso_size k < 2 ^ 16;
}.

(** The buffer after the part common to both protocols. *)
Definition ip_offloaded (k : sk_buff) (iph : Z) (b : rte_mbuf) : rte_mbuf :=
  set_tso_segsz (gso_size k) (set_l2_len (skb_network_offset k) (set_l3_len (skb_network_header_len k)
    (stored (iph + 10) [0; 0] (b <| mb_ol_flags := Z.lor PKT_TX_IPV4 PKT_TX_IP_CKSUM |>)))).

Lemma slice1 l i : slice l i 1 = [lget l i].
Proof. unfold slice. change (seqZ 0 1) with [0]. rewrite fmap_cons. by rewrite Z.add_0_r. Qed.

(** The settings together: [l3], [l2] and the segment size, then the length of the
    transport header, the segment size set again or not. *)
Lemma tx_fields l2 l3 l4 tso x :
  0 ≤ l2 < 2 ^ 7 → 0 ≤ l3 < 2 ^ 9 → 0 ≤ l4 < 2 ^ 8 → 0 ≤ tso < 2 ^ 16 →
  let y := put_bits 24 16 tso (put_bits 0 7 l2 (put_bits 7 9 l3 x)) in
  let fields z := (get_bits 0 7 z, get_bits 7 9 z, get_bits 16 8 z, get_bits 24 16 z) in
  fields (put_bits 16 8 l4 y) = (l2, l3, l4, tso) ∧
  fields (put_bits 16 8 l4 (put_bits 24 16 tso y)) = (l2, l3, l4, tso).
Proof.
  intros H2 H3 H4 Ht y fields. unfold fields, y.
  repeat first [rewrite get_put_bits by lia | rewrite get_put_other by lia].
  by rewrite !Z.mod_small by done.
Qed.

Lemma l4_length_spec k iph th proto b b' h (m : shm) (Q : list Z → shm → Prop) :
  headers_ok k iph th proto b → mb_buf b' = overwrite (mb_buf b) (iph + 10) [0; 0] →
  l3_len b' = skb_network_header_len k →
  Q (rev (le_bytes 2 (wrap16 (le_word (rev (slice (mb_buf b) (iph + 2) 2)) - skb_network_header_len k))))
    (upd h b' m) →
  wp (l4_length h iph) Q (upd h b' m).
Proof.
  intros Hk Hb Hl HQ. destruct (ho_room _ _ _ _ _ Hk) as (H1 & H2 & H3).
  assert (th ≤ zlen (mb_buf b)) by (case_match; lia).
  unfold l4_length. rewrite wp_bind. apply upd_load; [lia| |].
  { rewrite Hb, zlen_overwrite by (cbn; unfold zlen in *; cbn; lia). lia. }
  rewrite wp_bind. apply upd_read. rewrite wp_ret, Hl, Hb.
  rewrite slice_overwrite_other by (unfold zlen in *; cbn; lia). exact HQ.
Qed.

Lemma room_overwrite b iph n : 0 ≤ iph → iph + 20 ≤ n → n ≤ zlen b → zlen (overwrite b (iph + 10) [0; 0]) = zlen b.
Proof. intros. apply zlen_overwrite; [lia|]. change (zlen [0; 0]) with 2. lia. Qed.

Ltac room Hz := lazymatch type of Hz with ?n = _ => lazymatch goal with |- ?x ≤ _ => change (x ≤ n) end end; rewrite Hz.

Lemma doff_length b i : Forall byte b →
  Z.shiftr (le_word (slice b i 1)) 4 * 4 = lget b i / 16 * 4 ∧ 0 ≤ lget b i / 16 * 4 < 2 ^ 8.
Proof.
  intros Hb. pose proof (byte_lget _ i Hb) as Hx. unfold byte in Hx.
  pose proof (Z.div_lt_upper_bound (lget b i) 16 16 ltac:(lia) ltac:(lia)).
  pose proof (Z.div_pos (lget b i) 16 ltac:(lia) ltac:(lia)). split; [|lia].
  rewrite slice1, Z.shiftr_div_pow2 by lia. cbn. do 2 f_equal. lia.
Qed.

Lemma zlen_le2 x : zlen (le_bytes 2 x) = 2.
Proof. done. Qed.

(** The checksum stored last, and the promises read off the settings. *)
Ltac l4_done Hz E2 E3 E4 E5 Eg :=
  rewrite wp_bind; apply upd_store; [lia|rewrite zlen_le2; room Hz; lia|]; rewrite wp_ret;
  rewrite psd_cksum by (done || (by apply Forall_rev, byte_le_bytes) || by repeat constructor);
  split; [unfold counted_as; by rewrite ?Eg|]; eexists; split; [done|];
  split; cbn [Z.eqb IPPROTO_TCP IPPROTO_UDP Pos.eqb andb]; rewrite ?Eg;
  [exact E2|exact E3|exact E4|exact E5|done|done].

(** C15. Transmit offload: for an IPv4 packet over TCP or UDP whose checksum the stack
    left partial, the head tells the driver the header lengths and the segment size
    in the bit fields of [tx_offload], asks for IP checksum and L4 checksum and, with
    a segment size over TCP, for segmentation; the IP checksum is zero and the L4
    checksum is the RFC 1071 sum of the pseudo-header, its length zero for
    segmentation.  No other byte of the packet changes, nor any other buffer. *)
Theorem offload_contract k iph th proto b (m : shm) :
  mbufs m !! header_mbuf k = Some b → ip_summed k = CHECKSUM_PARTIAL → protocol k = ETH_P_IP_n →
  proto = IPPROTO_TCP ∨ proto = IPPROTO_UDP → headers_ok k iph th proto b →
  wp (offload k) (λ counted m', counted = counted_as k proto ∧
    ∃ b', m' = m <| mbufs := <[header_mbuf k := b']> (mbufs m) |> ∧ offloaded k iph th proto b b') m.
Proof.
  intros Hb Hs Hip Hpr Hk. pose proof Hk as [Ei Et (H1 & H2 & H3) Hby Hp Hl3 Hl2 Hg].
  pose proof (wrap32_range (transport_header k - network_header k)) as Hnl. fold (skb_network_header_len k) in Hnl.
  assert (th ≤ zlen (mb_buf b)) as Hth by (case_match; lia).
  pose proof (room_overwrite (mb_buf b) iph th H1 H2 Hth) as Hz.
  unfold offload. rewrite Hs, Hip. cbn [andb]. rewrite !Z.eqb_refl. cbn [andb].
  pose proof (upd_id (S := shm) (header_mbuf k) b m Hb) as Eu. rewrite Eu at 1. clear Eu. set (h := header_mbuf k). do 2 head_step.
  change (head_base (b <| mb_ol_flags := _ |>)) with (head_base b). rewrite <- Ei, <- Et.
  rewrite wp_bind. apply upd_store; [lia|change (iph + 10 + 2 ≤ zlen (mb_buf b)); lia|].
  do 3 head_step.
  match goal with |- wp _ _ (upd h ?x m) => change x with (ip_offloaded k iph b) end.
  do 3 (rewrite wp_bind; apply upd_load; [lia|room Hz; lia|]).
  change (mb_buf (ip_offloaded k iph b)) with (overwrite (mb_buf b) (iph + 10) [0; 0]).
  rewrite !slice_overwrite_other by (change (zlen [0; 0]) with 2; lia).
  rewrite Hp. replace (le_word [proto]) with proto by (cbn; lia).
  destruct Hpr as [->| ->]; cbn [Z.eqb IPPROTO_TCP IPPROTO_UDP Pos.eqb] in H3 |- *.
  - set (l4 := lget (mb_buf b) (th + 12) / 16 * 4).
    do 1 head_step. rewrite wp_bind; apply upd_load; [lia|room Hz; lia|].
    match goal with |- context [slice (mb_buf ?x) _ 1] =>
      change (mb_buf x) with (overwrite (mb_buf b) (iph + 10) [0; 0]) end.
    rewrite slice_overwrite_other by (change (zlen [0; 0]) with 2; lia).
    destruct (doff_length (mb_buf b) (th + 12) Hby) as [-> Hl4]. fold l4 in Hl4 |- *.
    destruct (tx_fields _ _ _ _ (mb_tx_offload b) Hl2 (conj (proj1 Hnl) Hl3) Hl4 Hg) as [_ Htx]. cbv zeta in Htx.
    injection Htx as E2 E3 E4 E5.
    do 2 head_step.
    match goal with |- context [tso_segsz ?x] => assert (tso_segsz x = gso_size k) as -> by exact E5 end.
    destruct (gso_size k =? 0) eqn:Eg; cbn [negb].
    + head_step. rewrite wp_bind. eapply l4_length_spec; [exact Hk|done|exact E3|].
      l4_done Hz E2 E3 E4 E5 Eg.
    + do 2 head_step. l4_done Hz E2 E3 E4 E5 Eg.
  - destruct (tx_fields _ _ 0 _ (mb_tx_offload b) Hl2 (conj (proj1 Hnl) Hl3) ltac:(lia) Hg) as [Htx _]. cbv zeta in Htx.
    injection Htx as E2 E3 E4 E5. do 2 head_step.
    rewrite wp_bind. eapply l4_length_spec; [exact Hk|done|exact E3|].
    l4_done Hz E2 E3 E4 E5 I.
Qed.

(** A TCP segment of 10 header bytes' worth of options, checksum left partial. *)
Definition demo_out : sk_buff := demo_skb <| ip_summed := CHECKSUM_PARTIAL |> <| gso_size := 1460 |>.
Definition demo_out_buf : rte_mbuf :=
  (demo_mbuf 1 0) <| mb_buf := overwrite (replicate 256 0) 151 [IPPROTO_TCP] |>.
Definition demo_out_shm : shm := (demo_frags 0) <| mbufs := <[10 := demo_out_buf]> (mbufs (demo_frags 0)) |>.

Lemma offload_contract_witness :
  headers_ok demo_out 142 162 IPPROTO_TCP demo_out_buf ∧
  wp (offload demo_out) (λ counted m', counted = Some true ∧
    (λ b, get_bits 24 16 (mb_tx_offload b)) <$> mbufs m' !! 10 = Some 1460) demo_out_shm.
Proof.
  assert (headers_ok demo_out 142 162 IPPROTO_TCP demo_out_buf) as Hk.
  { split; [done|done|vm_compute; intuition congruence| |by vm_compute..|vm_compute; intuition congruence|vm_compute; intuition congruence].
    apply Forall_app. split; [by repeat constructor|]. apply Forall_app. split; [by repeat constructor|].
    by repeat constructor. }
  split; [exact Hk|]. eapply wp_mono.
  - apply (offload_contract demo_out 142 162 IPPROTO_TCP demo_out_buf); [done..|by left|exact Hk].
  - intros r m' (-> & b' & -> & Ho). split; [done|].
    pose proof (of_tso _ _ _ _ _ _ Ho) as Ht. cbn. rewrite lookup_insert_eq. cbn. by rewrite Ht.
Defined.

(** ** Removing a VLAN tag *)

Lemma overwrite_next b o xs ys :
  0 ≤ o → o + zlen xs + zlen ys ≤ zlen b →
  overwrite (overwrite b (o + zlen xs) ys) o xs = overwrite b o (xs ++ ys).
Proof.
  intros Ho Hb. unfold overwrite, zlen in *. rewrite !length_app.
  rewrite take_app_le by (rewrite length_take; lia). rewrite take_take. f_equal; [f_equal; lia|].
  rewrite <- app_assoc. f_equal. rewrite drop_app_ge by (rewrite length_take; lia).
  rewrite length_take. replace (Z.to_nat (o + Z.of_nat (length xs)) - _)%nat with 0%nat by lia.
  rewrite drop_app_le by lia. rewrite drop_0. f_equal. f_equal. lia.
Qed.

Lemma overwrite_nil b o : overwrite b o [] = b.
Proof. unfold overwrite, zlen. cbn. by rewrite Z.add_0_r, take_drop. Qed.

Lemma wp_shift_header {K} n h o : ∀ b (Q : unit → netst K → Prop) s,
  0 ≤ o → o + Z.of_nat n + 4 ≤ zlen (mb_buf b) →
  Q tt (upd h (stored (o + 4) (slice (mb_buf b) o (Z.of_nat n)) b) s) →
  wp (shift_header n h o) Q (upd h b s).
Proof.
  induction n as [|n IH]; intros b Q s Ho Hn HQ; cbn [shift_header].
  - rewrite wp_ret. change (slice (mb_buf b) o (Z.of_nat 0)) with (@nil Z) in HQ.
    unfold stored in HQ. rewrite overwrite_nil in HQ. by destruct b.
  - rewrite wp_bind. apply upd_load; [lia|lia|].
    rewrite wp_bind. apply upd_store; [lia|rewrite zlen_slice by lia; lia|].
    set (v := slice (mb_buf b) (o + Z.of_nat n) 1). assert (zlen v = 1) as Hv by by apply zlen_slice.
    change (mb_buf (stored (o + Z.of_nat n + 4) v b)) with (overwrite (mb_buf b) (o + Z.of_nat n + 4) v).
    apply IH; [done| |].
    + change (o + Z.of_nat n + 4 ≤ zlen (overwrite (mb_buf b) (o + Z.of_nat n + 4) v)).
      rewrite zlen_overwrite; lia.
    + replace (stored (o + 4) _ (stored _ v b)) with (stored (o + 4) (slice (mb_buf b) o (Z.of_nat (S n))) b);
        [exact HQ|].
      unfold stored, set_field. cbn [mb_buf]. f_equal.
      rewrite slice_overwrite_other by lia. rewrite Nat2Z.inj_succ. unfold Z.succ.
      rewrite slice_split by lia. fold v.
      replace (o + Z.of_nat n + 4) with (o + 4 + zlen (slice (mb_buf b) o (Z.of_nat n))) by (rewrite zlen_slice; lia).
      rewrite overwrite_next; [done|lia|]. rewrite zlen_slice; lia.
Qed.

(** A frame in its buffer, and where it starts. *)
Definition frame_at (k : sk_buff) (b : rte_mbuf) : Z := mb_data_off b + skb_data k.
Definition frame_bytes (k : sk_buff) (b : rte_mbuf) : list Z := slice (mb_buf b) (frame_at k b) (skb_len k).

Lemma slice_drop_take l i n a c : 0 ≤ a → 0 ≤ c → a + c ≤ n →
  take (Z.to_nat c) (drop (Z.to_nat a) (slice l i n)) = slice l (i + a) c.
Proof. intros. rewrite drop_slice, take_slice by lia. done. Qed.

Lemma le_word_tag l i : Forall byte l → le_word (slice l i 2) = ETH_P_8021Q_n ↔ slice l i 2 = [0x81; 0].
Proof.
  intros Hl. unfold slice. change (seqZ 0 2) with [0; 1]. rewrite !fmap_cons. cbn [fmap list_fmap le_word].
  pose proof (byte_lget l (i + 0) Hl) as H0. pose proof (byte_lget l (i + 1) Hl) as H1. unfold byte, ETH_P_8021Q_n in *.
  split; [intros E; f_equal; [lia|f_equal; lia]|]. intros [= -> ->]. lia.
Qed.

(** A received frame with a VLAN tag reaches the stack without it: of the same bytes,
    in the same buffer, the addresses moved up over the tag; a frame without one is
    left as it is, and so is everything else. *)
Theorem vlan_tag_removed {K} k b (s : netst K) :
  mbufs (nd_shm s) !! header_mbuf k = Some b → 0 ≤ mb_data_off b → 0 ≤ skb_data k →
  18 ≤ skb_len k < 2 ^ 32 → frame_at k b + skb_len k ≤ zlen (mb_buf b) →
  Forall byte (mb_buf b) →
  wp (remove_vlan_tag k) (λ k' s',
    header_mbuf k' = header_mbuf k ∧
    if decide (take 2 (drop 12 (frame_bytes k b)) = [0x81; 0]) then
      ∃ b', s' = s <| nd_shm := (nd_shm s) <| mbufs := <[header_mbuf k := b']> (mbufs (nd_shm s)) |> |> ∧
        frame_bytes k' b' = take 12 (frame_bytes k b) ++ drop 16 (frame_bytes k b) ∧
        skb_len k' = skb_len k - 4
    else s' = s ∧ k' = k) s.
Proof.
  intros Hb Ho Hd Hl Hroom Hby. pose proof (upd_id (S := netst K) (header_mbuf k) b s Hb) as Eu.
  unfold remove_vlan_tag, frame_bytes. rewrite Eu at 1. set (a := frame_at k b) in *.
  assert (0 ≤ a) as Ha by (unfold a, frame_at; lia).
  unfold rte_pktmbuf_mtod. rewrite !wp_bind. apply upd_read. rewrite wp_ret, wp_bind. fold (frame_at k b). fold a.
  apply upd_load; [lia|lia|].
  change 16%nat with (Z.to_nat 16). change 12%nat with (Z.to_nat 12). change 2%nat with (Z.to_nat 2).
  rewrite slice_drop_take by lia. pose proof (le_word_tag (mb_buf b) (a + 12) Hby) as Htag.
  destruct (Z.eqb_spec (le_word (slice (mb_buf b) (a + 12) 2)) ETH_P_8021Q_n) as [E|E].
  - rewrite wp_bind. apply wp_shift_header; [done|lia|]. rewrite wp_ret. split; [done|].
    rewrite decide_True by by apply Htag. set (b' := stored _ _ b).
    set (k' := k <| skb_data := skb_data k + 4 |> <| skb_len := wrap32 (skb_len k - 4) |>).
    exists b'. split; [done|].
    assert (skb_len k' = skb_len k - 4) as -> by (apply wrap32_small; lia). split; [|done].
    assert (frame_at k' b' = a + 4) as ->
      by (change (mb_data_off b + (skb_data k + 4) = a + 4); unfold a, frame_at; lia).
    change (mb_buf b') with (overwrite (mb_buf b) (a + 4) (slice (mb_buf b) a 12)).
    assert (zlen (slice (mb_buf b) a 12) = 12) as H12 by by apply zlen_slice.
    replace (skb_len k - 4) with (12 + (skb_len k - 16)) by lia. rewrite slice_split by lia.
    rewrite take_slice, drop_slice by lia. f_equal.
    + etransitivity; [|apply (slice_overwrite (mb_buf b) (a + 4)); lia]. by rewrite H12.
    + rewrite slice_overwrite_other by lia. f_equal. lia.
  - rewrite wp_ret. split; [done|]. rewrite decide_False by (intros ?%Htag; done). split; [|done]. symmetry. exact Eu.
Qed.

Definition demo_vlan_buf : rte_mbuf :=
  (demo_mbuf 1 0) <| mb_buf := overwrite (replicate 256 0) 128 ([1; 2; 3; 4; 5; 6; 7; 8; 9; 10; 11; 12; 0x81; 0; 0; 5; 8; 0; 69]) |>.
Definition demo_vlan_skb : sk_buff := mk_skb 10 0 60 0 [] 0 0 0 0 0.
Definition demo_netst : netst unit :=
  mk_netst (mk_shm (list_to_map []) ∅ ∅ {[ 10 := demo_vlan_buf ]}) 0 0 0 0 0 tt.

Lemma vlan_tag_removed_witness :
  take 2 (drop 12 (frame_bytes demo_vlan_skb demo_vlan_buf)) = [0x81; 0] ∧
  wp (remove_vlan_tag demo_vlan_skb) (λ k' s', skb_len k' = 56 ∧ ∃ b',
    mbufs (nd_shm s') = <[10 := b']> {[ 10 := demo_vlan_buf ]} ∧
    take 15 (frame_bytes k' b') = [1; 2; 3; 4; 5; 6; 7; 8; 9; 10; 11; 12; 8; 0; 69]) demo_netst.
Proof.
  split; [by vm_compute|]. eapply wp_mono.
  - apply (vlan_tag_removed demo_vlan_skb demo_vlan_buf); try (vm_compute; intuition congruence).
    apply Forall_app. split; [by repeat constructor|]. apply Forall_app. split; by repeat constructor.
  - intros k' s' [_ Hd]. rewrite decide_True in Hd by by vm_compute. destruct Hd as (b' & -> & Hf & ->).
    split; [by vm_compute|]. exists b'. split; [done|]. rewrite Hf. by vm_compute.
Defined.
