(* ===== verification/Datagram.v ===== *)
(** * Datagrams on their way out
    (porting/mm_porting.c; specific_includes/net/ip.h, linux/skbuff.h; net/ipv4/ip_output.c,
    net/core/skbuff.c: the parts written for this program)

    A datagram is sent without a copy: [ipaugenblick_make_skb] makes a packet of the
    headers alone, and [memcpy_fromiovecend] - which copies nothing - makes the
    buffers of the application's chain its fragments.  With the device below
    (NetDev.v) and the release of the packet afterwards this is the whole life of a
    datagram's buffers. *)

From S2P Require Import Prelude Ring Mem Mbuf AppData Iovec NetDev.

(** ** Operations *)

Definition CHECKSUM_NONE : Z := 0.
(** With [-DOFFLOAD_NOT_YET], as the Makefile has it. *)
Definition MAX_SKB_FRAGS : Z := 32.

(** The stack: [csum_partial]; the packet [sock_alloc_send_skb] gives for a size; and
    the fields of the IP header it fills in. *)
Class Datagrams (S : Type) := {
  csum_partial : list Z → Z → Z;
  sock_alloc_send_skb : Z → M S (option sk_buff);
  fill_ip_header : sk_buff → M S unit;
}.

Section datagram.
Context {S : Type} `{Part shm S} `{Datagrams S}.

(** [frags] is an array of [MAX_SKB_FRAGS]; the index is not checked. *)
Definition skb_fill_page_desc (k : sk_buff) (i page off size : Z) : M S sk_buff :=
  _ ← require (i <? MAX_SKB_FRAGS);
  mret (k <| skb_frags := take (Z.to_nat i) (skb_frags k) ++ [mk_frag page off size] |>).

Definition grow (n : Z) (k : sk_buff) : sk_buff :=
  k <| skb_len := wrap32 (skb_len k + n) |> <| skb_data_len := wrap32 (skb_data_len k + n) |>.

(** [len] is not used. *)
Fixpoint fromiovecend_loop (fuel : nat) (k : sk_buff) (current offset : Z) : M S sk_buff :=
  if current =? 0 then mret k
  else
    match fuel with
    | O => fault
    | Datatypes.S fuel =>
        m ← mbuf_read current;
        if offset <? mb_data_len m then
          let n := mb_data_len m - offset in
          k ← skb_fill_page_desc k (zlen (skb_frags k)) current offset n;
          fromiovecend_loop fuel (grow n k) (mb_next m) 0
        else fromiovecend_loop fuel k (mb_next m) (offset - mb_data_len m)
    end.

Definition memcpy_fromiovecend (k : sk_buff) (iov : iovec) (offset len : Z) : M S (Z * sk_buff) :=
  fuel ← chain_fuel;
  k ← fromiovecend_loop fuel k (iov_head iov) offset;
  mret (0, k).

Definition memcpy_fromiovec (k : sk_buff) (iov : iovec) (len : Z) : M S (Z * sk_buff) :=
  memcpy_fromiovecend k iov 0 len.

(** The same with a checksum: [csump] is what [*csump] holds, [csum] the local. *)
Fixpoint csum_fromiovecend_loop (fuel : nat) (k : sk_buff) (current offset csum csump : Z)
    : M S (sk_buff * Z) :=
  if current =? 0 then mret (k, csum)
  else
    match fuel with
    | O => fault
    | Datatypes.S fuel =>
        m ← mbuf_read current;
        if offset <? mb_data_len m then
          let n := mb_data_len m - offset in
          let csump := csum_partial (slice (mb_buf m) (mb_data_off m + offset) n) csum in
          k ← skb_fill_page_desc k (zlen (skb_frags k)) current offset n;
          csum_fromiovecend_loop fuel (grow n k) (mb_next m) 0 csum csump
        else csum_fromiovecend_loop fuel k (mb_next m) (offset - mb_data_len m) csum csump
    end.

Definition csum_partial_copy_fromiovecend (k : sk_buff) (iov : iovec) (offset len csum : Z)
    : M S (sk_buff * Z) :=
  fuel ← chain_fuel;
  csum_fromiovecend_loop fuel k (iov_head iov) offset csum csum.

(** The packet, and what is added to its checksum. *)
Definition ip_generic_getfrag (k : sk_buff) (iov : iovec) (offset len : Z) : M S (sk_buff * option Z) :=
  if ip_summed k =? CHECKSUM_PARTIAL then
    '(_, k) ← memcpy_fromiovecend k iov offset len; mret (k, None)
  else
    '(k, csum) ← csum_partial_copy_fromiovecend k iov offset len 0; mret (k, Some csum).

Definition sizeof_iphdr : Z := 20.

(** The route: head room and extra header of the device, its MTU, and whether it
    computes checksums. *)
Record rtable := mk_rtable { hh_len : Z; exthdrlen : Z; mtu : Z; v4_csum : bool }.

Definition csummode (rt : rtable) (length transhdrlen : Z) : Z :=
  if negb (transhdrlen =? 0) && (length + sizeof_iphdr <=? mtu rt) && v4_csum rt && (exthdrlen rt =? 0)
  then CHECKSUM_PARTIAL else CHECKSUM_NONE.

(** The header part of the packet: room reserved, headers put, and [data] moved to the
    IP header. *)
Definition with_headers (rt : rtable) (transhdrlen : Z) (k : sk_buff) : sk_buff :=
  let k := k <| skb_data := skb_data k + hh_len rt |> in
  let k := k <| skb_len := wrap32 (skb_len k + (sizeof_iphdr + transhdrlen + exthdrlen rt)) |> in
  let k := k <| network_header := skb_data k + exthdrlen rt |> in
  let k := k <| transport_header := network_header k + sizeof_iphdr |> in
  if skb_data k <? network_header k then
    let n := skb_network_offset k in
    k <| skb_len := wrap32 (skb_len k - n) |> <| skb_data := skb_data k + n |>
  else k.

Definition ipaugenblick_make_skb (rt : rtable) (from : iovec) (length transhdrlen : Z)
    : M S (option (sk_buff * option Z)) :=
  skb ← sock_alloc_send_skb (sizeof_iphdr + transhdrlen + exthdrlen rt + hh_len rt + 15);
  match skb with
  | None => mret None
  | Some k =>
      let k := k <| ip_summed := csummode rt length transhdrlen |> in
      let k := with_headers rt transhdrlen k in
      _ ← fill_ip_header k;
      r ← ip_generic_getfrag k from 0 (length - transhdrlen);
      mret (Some r)
  end.

(** The buffers of a packet given back when it is freed. *)
Definition skb_release_data (k : sk_buff) : M S unit :=
  _ ← for_each (frag_page <$> skb_frags k) rte_pktmbuf_free_seg;
  if negb (header_mbuf k =? 0) then rte_pktmbuf_free_seg (header_mbuf k) else mret tt.
End datagram.

(** ** What is attached *)

(** The fragments for the bytes of a chain from [off] on. *)
Fixpoint frags_behind (ms : gmap Z rte_mbuf) (l : list Z) (off : Z) : list skb_frag :=
  match l with
  | [] => []
  | p :: l =>
      let n := from_option mb_data_len 0 (ms !! p) in
      if off <? n then mk_frag p off (n - off) :: frags_behind ms l 0 else frags_behind ms l (off - n)
  end.

(** The bytes a fragment means. *)
Definition frag_data (ms : gmap Z rte_mbuf) (f : skb_frag) : list Z :=
  from_option (λ b, slice (mb_buf b) (mb_data_off b + frag_offset f) (frag_size f)) [] (ms !! frag_page f).
Definition frags_data (ms : gmap Z rte_mbuf) (fs : list skb_frag) : list Z := fs ≫= frag_data ms.

(** [k] with the fragments [fs] attached. *)
Definition attached (fs : list skb_frag) (k : sk_buff) : sk_buff :=
  fold_left (λ k f, grow (frag_size f) (k <| skb_frags := skb_frags k ++ [f] |>)) fs k.
Definition sizes (fs : list skb_frag) : Z := foldr (λ f n, frag_size f + n) 0 fs.

(** Lengths of 32 bits. *)
Definition lens_ok (k : sk_buff) : Prop := 0 ≤ skb_len k < 2 ^ 32 ∧ 0 ≤ skb_data_len k < 2 ^ 32.

Lemma attached_spec fs : ∀ k, lens_ok k →
  attached fs k = k <| skb_frags := skb_frags k ++ fs |> <| skb_len := wrap32 (skb_len k + sizes fs) |>
    <| skb_data_len := wrap32 (skb_data_len k + sizes fs) |>.
Proof.
  induction fs as [|f fs IH]; intros k [Hl Hd].
  - unfold sizes. cbn [foldr]. rewrite app_nil_r, !Z.add_0_r, !wrap32_small by done. by destruct k.
  - change (attached (f :: fs) k) with (attached fs (grow (frag_size f) (k <| skb_frags := skb_frags k ++ [f] |>))).
    rewrite IH by (split; apply wrap32_range). unfold grow. destruct k as [? ? ? ? frs ? ? ? ? ?].
    unfold set_field, eta_skb. cbn in *. fold (sizes fs). f_equal; [| |by rewrite <- app_assoc].
    + rewrite wrap32_add_l. f_equal. lia.
    + rewrite wrap32_add_l. f_equal. lia.
Qed.

Lemma frags_behind_data ms l : ∀ off,
  0 ≤ off → (∀ p, p ∈ l → ∃ b, ms !! p = Some b ∧ data_ok b) →
  frags_data ms (frags_behind ms l off) = drop (Z.to_nat off) (payload ms l) ∧
  sizes (frags_behind ms l off) = zlen (drop (Z.to_nat off) (payload ms l)).
Proof.
  induction l as [|p l IH]; intros off Hoff Hd; [by rewrite skipn_nil|].
  destruct (Hd p ltac:(constructor)) as (b & Hb & Hok).
  assert (∀ q, q ∈ l → ∃ b, ms !! q = Some b ∧ data_ok b) as Hd' by (intros; apply Hd; by constructor).
  pose proof (zlen_seg_bytes b Hok) as Hz.
  rewrite (payload_cons _ _ b) by done. cbn [frags_behind]. rewrite Hb. cbn [from_option].
  destruct (Z.ltb_spec off (mb_data_len b)) as [Hlt|Hge].
  - destruct (IH 0 ltac:(lia) Hd') as [IH1 IH2]. rewrite drop_0 in IH1, IH2.
    assert (drop (Z.to_nat off) (seg_bytes b ++ payload ms l) =
      slice (mb_buf b) (mb_data_off b + off) (mb_data_len b - off) ++ payload ms l) as ->.
    { rewrite drop_app_le by (unfold zlen in Hz; lia). f_equal. unfold seg_bytes. apply drop_slice. lia. }
    unfold frags_data, sizes in *. cbn [mbind list_bind foldr]. fold (mbind (M := list) (frag_data ms)).
    split; [f_equal; [|done]|].
    + unfold frag_data. cbn [frag_page frag_offset frag_size]. by rewrite Hb.
    + cbn [frag_size]. rewrite IH2, zlen_app, zlen_slice by lia. done.
  - rewrite drop_zlen_app by lia. rewrite Hz. apply IH; [lia|done].
Qed.

Section attach.
Context {S : Type} `{PartLaws shm S} `{Datagrams S}.

Lemma fromiovecend_loop_ok l : ∀ fuel p off k (Q : sk_buff → S → Prop) s,
  (length l ≤ fuel)%nat → chain (mbufs (part_get s)) p l →
  zlen (skb_frags k) + zlen (frags_behind (mbufs (part_get s)) l off) ≤ MAX_SKB_FRAGS →
  Q (attached (frags_behind (mbufs (part_get s)) l off) k) s →
  wp (fromiovecend_loop fuel k p off) Q s.
Proof.
  induction l as [|p' l IH]; intros fuel p off k Q s Hf Hc Hn HQ.
  { inversion Hc; subst. by destruct fuel. }
  inversion Hc as [|? b ? Hp Hb Hc']; subst. destruct fuel as [|fuel]; [cbn in Hf; lia|].
  cbn [fromiovecend_loop]. destruct (Z.eqb_spec p' 0); [done|]. rewrite wp_bind.
  eapply wp_mbuf_read; [done|]. cbn [frags_behind] in Hn, HQ. rewrite Hb in Hn, HQ. cbn [from_option] in Hn, HQ.
  destruct (off <? mb_data_len b) eqn:E.
  - unfold skb_fill_page_desc. rewrite !wp_bind, wp_require.
    unfold zlen in Hn |- *. cbn [length] in Hn. split; [apply Z.ltb_lt; lia|]. rewrite wp_ret.
    rewrite Nat2Z.id, firstn_all. apply IH; [cbn in Hf; lia|done| |exact HQ].
    match goal with |- zlen (skb_frags (grow _ ?k')) + _ ≤ _ =>
      change (skb_frags (grow _ k')) with (skb_frags k ++ [mk_frag p' off (mb_data_len b - off)]) end.
    unfold zlen. rewrite length_app. cbn [length]. lia.
  - apply IH; [cbn in Hf; lia|done..].
Qed.
End attach.

Section attach_all.
Context {S : Type} `{PartLaws shm S} `{Datagrams S}.

Lemma fromiovecend_loop_full l : ∀ fuel p off k s,
  (length l ≤ fuel)%nat → chain (mbufs (part_get s)) p l → zlen (skb_frags k) ≤ MAX_SKB_FRAGS →
  MAX_SKB_FRAGS < zlen (skb_frags k) + zlen (frags_behind (mbufs (part_get s)) l off) →
  fromiovecend_loop fuel k p off s = Fault.
Proof.
  induction l as [|p' l IH]; intros fuel p off k s Hf Hc Hk Hn.
  { cbn in Hn. unfold zlen at 2 in Hn. cbn in Hn. lia. }
  inversion Hc as [|? b ? Hp Hb Hc']; subst. destruct fuel as [|fuel]; [cbn in Hf; lia|].
  cbn [fromiovecend_loop]. destruct (Z.eqb_spec p' 0); [done|].
  assert (∀ (f : rte_mbuf → M S sk_buff), (mbuf_read p' ≫= f) s = f b s) as ->.
  { intros f. pose proof (wp_mbuf_read p' b (λ b' s', b' = b ∧ s' = s) s Hb ltac:(done)) as Hr.
    unfold wp in Hr. unfold mbind, M_bind. by destruct (mbuf_read p' s) as [[? ?]| |]; [destruct Hr as [-> ->]| |]. }
  cbn [frags_behind] in Hn. rewrite Hb in Hn. cbn [from_option] in Hn.
  destruct (off <? mb_data_len b) eqn:E; [|apply (IH fuel); [cbn in Hf; lia|done..]].
  unfold skb_fill_page_desc. destruct (Z.ltb_spec (zlen (skb_frags k)) MAX_SKB_FRAGS) as [Hlt|Hge].
  - change (fromiovecend_loop fuel (grow (mb_data_len b - off) (k <| skb_frags :=
      take (Z.to_nat (zlen (skb_frags k))) (skb_frags k) ++ [mk_frag p' off (mb_data_len b - off)] |>)) (mb_next b) 0 s = Fault).
    unfold zlen at 1. rewrite Nat2Z.id, firstn_all. apply (IH fuel); [cbn in Hf; lia|done| |];
      match goal with |- context [skb_frags (grow _ ?k')] =>
        change (skb_frags (grow _ k')) with (skb_frags k ++ [mk_frag p' off (mb_data_len b - off)]) end;
      unfold zlen in *; rewrite length_app; cbn [length] in *; lia.
  - done.
Qed.

(** The checksum computed on the way is not what is returned. *)
Lemma csum_loop_discards fuel : ∀ k p off csum csump (s : S),
  csum_fromiovecend_loop fuel k p off csum csump s =
  match fromiovecend_loop fuel k p off s with
  | Done (k, s) => Done ((k, csum), s) | Exit => Exit | Fault => Fault end.
Proof.
  induction fuel as [|fuel IH]; intros k p off csum csump s; cbn [csum_fromiovecend_loop fromiovecend_loop].
  { by destruct (p =? 0). }
  destruct (p =? 0); [done|]. unfold mbind, M_bind. destruct (mbuf_read p s) as [[m s']| |]; [|done..].
  destruct (off <? mb_data_len m); [|apply IH].
  destruct (skb_fill_page_desc k _ _ _ _ s') as [[k' s'']| |]; [apply IH|done..].
Qed.
End attach_all.

(** Attaching a datagram: the packet gets a fragment for every buffer of the
    application's chain that has bytes behind the offset, in order, and the fragments
    mean exactly those bytes - all of them, whatever the length asked for; no buffer
    is changed and no reference taken.  With more of them than the packet has room for
    the array is overrun.  Where the stack was to add the data to the packet's
    checksum, what it gets to add is 0, whatever the data. *)
Theorem attach_spec `{Datagrams shm} k iov l off len (m : shm) :
  chain (mbufs m) (iov_head iov) l → (∀ p, p ∈ l → ∃ b, mbufs m !! p = Some b ∧ data_ok b) →
  0 ≤ off → lens_ok k → zlen (skb_frags k) ≤ MAX_SKB_FRAGS →
  let fs := frags_behind (mbufs m) l off in
  let data := drop (Z.to_nat off) (payload (mbufs m) l) in
  frags_data (mbufs m) fs = data ∧
  (zlen (skb_frags k) + zlen fs ≤ MAX_SKB_FRAGS →
     wp (ip_generic_getfrag k iov off len) (λ '(k', csum) m', m' = m ∧
       k' = k <| skb_frags := skb_frags k ++ fs |> <| skb_len := wrap32 (skb_len k + zlen data) |>
              <| skb_data_len := wrap32 (skb_data_len k + zlen data) |> ∧
       csum = if ip_summed k =? CHECKSUM_PARTIAL then None else Some 0) m) ∧
  (MAX_SKB_FRAGS < zlen (skb_frags k) + zlen fs → ip_generic_getfrag k iov off len m = Fault).
Proof.
  intros Hc Hd Hoff Hk Hk32 fs data.
  destruct (frags_behind_data (mbufs m) l off Hoff Hd) as [Hfd Hfs]. fold fs data in Hfd, Hfs.
  pose proof (chain_length _ _ _ Hc) as Hfuel. pose proof (attached_spec fs k Hk) as Hat. rewrite Hfs in Hat.
  split_and!; [exact Hfd| |]; intros Hn; unfold ip_generic_getfrag.
  - assert (wp (fromiovecend_loop (Datatypes.S (size (mbufs m))) k (iov_head iov) off)
      (λ k' m', k' = attached fs k ∧ m' = m) m) as Hw by (apply (fromiovecend_loop_ok l); [lia|exact Hc|done|done]).
    unfold memcpy_fromiovecend, csum_partial_copy_fromiovecend, chain_fuel, wp, mbind, M_bind, gets, mret, M_ret in *.
    destruct (ip_summed k =? CHECKSUM_PARTIAL); [|rewrite csum_loop_discards];
      change (part_get m) with m;
      destruct (fromiovecend_loop _ k (iov_head iov) off m) as [[k' m']| |]; try done;
      destruct Hw as [-> ->]; by split_and!.
  - assert (fromiovecend_loop (Datatypes.S (size (mbufs m))) k (iov_head iov) off m = Fault) as Hw
      by (apply (fromiovecend_loop_full l); [lia|exact Hc|done|done]).
    unfold memcpy_fromiovecend, csum_partial_copy_fromiovecend, chain_fuel, mbind, M_bind, gets, mret, M_ret.
    change (part_get m) with m.
    destruct (ip_summed k =? CHECKSUM_PARTIAL); [|rewrite csum_loop_discards];
      destruct (fromiovecend_loop _ k (iov_head iov) off m) as [[? ?]| |]; done.
Qed.

(** ** A datagram's frame, and its buffers *)

(** The chain an application sends: every buffer with data, referred to once. *)
Record sendable (pool : ring_id) (ms : gmap Z rte_mbuf) (p : Z) (l : list Z) : Prop := {
  sd_chain : chain ms p l;
  sd_buf : ∀ q b, q ∈ l → ms !! q = Some b → data_ok b ∧ 0 < mb_data_len b ∧ mb_refcnt b = 1 ∧ seg_ok pool b;
  sd_room : zlen l ≤ MAX_SKB_FRAGS;
}.

Lemma frags_behind_all ms l :
  (∀ q, q ∈ l → ∃ b, ms !! q = Some b ∧ 0 < mb_data_len b) →
  frag_page <$> frags_behind ms l 0 = l ∧ zlen (frags_behind ms l 0) = zlen l.
Proof.
  induction l as [|p l IH]; intros Hd; [done|]. destruct (Hd p ltac:(constructor)) as (b & Hb & Hl).
  cbn [frags_behind]. rewrite Hb. cbn [from_option]. rewrite (proj2 (Z.ltb_lt _ _)) by lia.
  destruct IH as [IH1 IH2]; [intros; apply Hd; by constructor|]. rewrite fmap_cons. cbn [frag_page].
  split; [by rewrite IH1|]. unfold zlen in *. cbn [length]. lia.
Qed.

Lemma chain_frags_ok ms p l : chain ms p l → frags_ok true ms l.
Proof. induction 1 as [|p b l Hp Hb Hc IH]; [done|]. split; [by econstructor|done]. Qed.

Lemma sendable_live pool ms p l q : sendable pool ms p l → (q ∈ l) →
  ∃ b, ms !! q = Some b ∧ data_ok b ∧ 0 < mb_data_len b ∧ mb_refcnt b = 1 ∧ seg_ok pool b.
Proof.
  intros [Hc Hb _] Hq. destruct (chain_lookup _ _ _ q Hc Hq) as [_ [b Hb']]. exists b. split; [done|exact (Hb q b Hq Hb')].
Qed.

(** The packet: a header buffer of its own, and no fragments yet. *)
Record new_packet (pool : ring_id) (ms : gmap Z rte_mbuf) (k : sk_buff) (b : rte_mbuf) (l : list Z) : Prop := {
  np_head : ms !! header_mbuf k = Some b;
  np_ref : mb_refcnt b = 1 ∧ seg_ok pool b;
  np_own : header_mbuf k ∉ l ∧ header_mbuf k ≠ 0;
  np_frags : skb_frags k = [];
  np_lens : 0 ≤ skb_len k < 2 ^ 16 ∧ skb_data_len k = 0 ∧ 0 ≤ skb_data k;
  np_room : head_base b + skb_data k + skb_len k < 2 ^ 16;
  np_total : skb_len k + zlen (payload ms l) < 2 ^ 32;
}.

(** The packet with the datagram attached. *)
Definition loaded (ms : gmap Z rte_mbuf) (l : list Z) (k : sk_buff) : sk_buff :=
  attached (frags_behind ms l 0) k.

Lemma loaded_spec pool ms p k b l :
  sendable pool ms p l → new_packet pool ms k b l →
  header_mbuf (loaded ms l k) = header_mbuf k ∧ pages (loaded ms l k) = l ∧
  skb_headlen (loaded ms l k) = skb_len k ∧ skb_data (loaded ms l k) = skb_data k.
Proof.
  intros Hs [_ _ _ Hf (Hl & Hdl & _) _ Ht].
  destruct (frags_behind_all ms l) as [Hp _].
  { intros q Hq. destruct (sendable_live _ _ _ _ _ Hs Hq) as (bq & ? & _ & ? & _). eauto. }
  destruct (frags_behind_data ms l 0) as [_ Hz]; [done| |].
  { intros q Hq. destruct (sendable_live _ _ _ _ _ Hs Hq) as (bq & ? & ? & _). eauto. }
  rewrite drop_0 in Hz. pose proof (zlen_nonneg (payload ms l)).
  unfold loaded. rewrite attached_spec by (split; lia). rewrite Hz, Hf, Hdl.
  split_and!; [done|exact Hp| |done]. unfold skb_headlen. cbn [skb_len skb_data_len].
  change (wrap32 (wrap32 (skb_len k + zlen (payload ms l)) - wrap32 (0 + zlen (payload ms l))) = skb_len k).
  rewrite Z.add_0_l, (wrap32_small (skb_len k + _)), (wrap32_small (zlen _)) by lia.
  rewrite wrap32_small; lia.
Qed.

Lemma loaded_layable pool ms p k b l :
  sendable pool ms p l → new_packet pool ms k b l → layable true (loaded ms l k) ms.
Proof.
  intros Hs Hk. destruct (loaded_spec _ _ _ _ _ _ Hs Hk) as (Eh & Ep & _ & _). split; rewrite ?Eh, ?Ep.
  - constructor; [apply (np_own _ _ _ _ _ Hk)|apply (chain_NoDup _ _ _ (sd_chain _ _ _ _ Hs))].
  - eexists. apply (np_head _ _ _ _ _ Hk).
  - apply (chain_frags_ok _ _ _ (sd_chain _ _ _ _ Hs)).
  - intros q bq Hq Hbq. destruct (sd_buf _ _ _ _ Hs q bq Hq Hbq) as (_ & _ & -> & _).
    pose proof (sd_room _ _ _ _ Hs) as Hr. unfold MAX_SKB_FRAGS in Hr. lia.
Qed.

Lemma wp_load pool iov l len k b (Q : Z * sk_buff → shm → Prop) (m : shm) :
  sendable pool (mbufs m) (iov_head iov) l → new_packet pool (mbufs m) k b l →
  Q (0, loaded (mbufs m) l k) m → wp (memcpy_fromiovecend k iov 0 len) Q m.
Proof.
  intros Hs Hk HQ. unfold memcpy_fromiovecend, chain_fuel. rewrite wp_bind, wp_gets, wp_bind.
  pose proof (sd_chain _ _ _ _ Hs) as Hc. pose proof (chain_length _ _ _ Hc).
  apply (fromiovecend_loop_ok l); [cbn; lia|exact Hc| |by rewrite wp_ret].
  rewrite (np_frags _ _ _ _ _ Hk). cbn [part_get part_refl].
  destruct (frags_behind_all (mbufs m) l) as [_ ->]; [|apply (sd_room _ _ _ _ Hs)].
  intros q Hq. destruct (sendable_live _ _ _ _ _ Hs Hq) as (bq & ? & _ & ? & _). eauto.
Qed.

(** C13. The datagram's frame carries the headers and then exactly the application's
    bytes, in the application's own buffers. *)
Theorem datagram_frame pool iov l len k b (m : shm) :
  sendable pool (mbufs m) (iov_head iov) l → new_packet pool (mbufs m) k b l →
  wp ('(_, k') ← memcpy_fromiovecend k iov 0 len; lay_out k') (λ _ m',
    let f := header_mbuf k :: l in
    chain (mbufs m') (header_mbuf k) f ∧
    payload (mbufs m') f = slice (mb_buf b) (head_base b + skb_data k) (skb_len k) ++ payload (mbufs m) l ∧
    (∃ b', mbufs m' !! header_mbuf k = Some b' ∧ mb_pkt_len b' = skb_len k + zlen (payload (mbufs m) l))) m.
Proof.
  intros Hs Hk. rewrite wp_bind. eapply wp_load; [exact Hs|exact Hk|].
  destruct (loaded_spec _ _ _ _ _ _ Hs Hk) as (Eh & Ep & El & Ed).
  pose proof (loaded_layable _ _ _ _ _ _ Hs Hk) as Hly. set (k' := loaded (mbufs m) l k) in *.
  eapply wp_lay_out; [exact Hly|]. intros ms' Hfr. cbv zeta.
  change (mbufs (part_set _ m)) with ms'. change (part_get m) with m in Hfr.
  destruct (framed_frame true k' b (mbufs m) ms' Hly) as (Hc & Hp & (b' & Hb' & _ & Ht) & _); [| |exact Hfr|].
  - rewrite Eh. apply (np_head _ _ _ _ _ Hk).
  - destruct Hk as [_ _ [_ H0] _ (Hl & _ & Hd) Hr Ht].
    split; rewrite ?Eh, ?Ep, ?El, ?Ed; [done|lia|done| | |done].
    + intros q Hq. destruct (sendable_live _ _ _ _ _ Hs Hq) as (bq & ? & ? & _). eauto.
    + pose proof (sd_room _ _ _ _ Hs). unfold MAX_SKB_FRAGS in *. lia.
  - rewrite Eh, Ep in *. rewrite El, Ed in Hp. split_and!; [done|done|].
    exists b'. split; [done|]. rewrite Ht, Hp, zlen_app, zlen_slice; [done|].
    destruct Hk as [_ _ _ _ (Hl & _) _ _]. lia.
Qed.

(** Giving back a reference of each of some buffers, none of them the last. *)
Lemma wp_unref pool l : ∀ c (Q : unit → shm → Prop) (m : shm),
  NoDup l → rings_ok (rings m) → chans (rings m) !! pool = Some c →
  (∀ q, q ∈ l → ∃ b, mbufs m !! q = Some b ∧ seg_ok pool b ∧ 1 < mb_refcnt b) →
  (∀ rs, rings_ok rs → chans rs = chans (rings m) →
     Q tt (mk_shm rs (cmds m) (g_sockets m) (free_bufs l (mbufs m)))) →
  wp (for_each l rte_pktmbuf_free_seg) Q m.
Proof.
  induction l as [|p l IH]; intros c Q m Hnd Hok Hc Hl HQ; cbn [for_each].
  { rewrite wp_ret. destruct m. by apply HQ. }
  apply NoDup_cons in Hnd as [Hp Hnd]. destruct (Hl p ltac:(constructor)) as (b & Hb & Hsb & H1).
  rewrite wp_bind. eapply (wp_free_seg pool _ b c); [done..|lia|].
  rewrite (proj2 (Z.eqb_neq _ _)) by lia. intros rs Hrs Hch. rewrite app_nil_r in Hch.
  assert (chans rs = chans (rings m)) as Hch'.
  { rewrite Hch. change (rings (part_get m)) with (rings m). apply insert_id. rewrite Hc. by destruct c. }
  cbn [part_set part_refl]. apply (IH c); cbn [rings mbufs cmds g_sockets]; [done|done|by rewrite Hch'| |].
  - intros q Hq. rewrite lookup_insert_ne by (by intros <-). apply Hl. by constructor.
  - intros rs' Hrs' Hch''. rewrite free_bufs_cons by done. apply HQ; [done|]. by rewrite Hch''.
Qed.

Lemma last_refs_rising ms l : ∀ n,
  1 < n → (∀ i q, l !! i = Some q → mb_refcnt <$> ms !! q = Some (n + Z.of_nat i)) → last_refs ms l = [].
Proof.
  induction l as [|p l IH]; intros n Hn Hr; [done|]. unfold last_refs. rewrite filter_cons.
  rewrite decide_False by (rewrite (Hr 0%nat p eq_refl); intros [= ?]; lia).
  apply (IH (n + 1)); [lia|]. intros i q Hq. rewrite (Hr (S i) q Hq). f_equal. lia.
Qed.

Section life.
Variables (pool : ring_id) (k : sk_buff) (b : rte_mbuf) (p : Z) (l : list Z) (m : shm) (ms' : gmap Z rte_mbuf).
Hypotheses (Hs : sendable pool (mbufs m) p l) (Hk : new_packet pool (mbufs m) k b l)
  (Hfr : framed true (loaded (mbufs m) l k) (mbufs m) ms').

Lemma life_frag i q : l !! i = Some q → ∃ b', ms' !! q = Some b' ∧ seg_ok pool b' ∧ mb_refcnt b' = Z.of_nat i + 2.
Proof.
  intros Hi. assert (q ∈ l) as Hq by by eapply list_elem_of_lookup_2.
  destruct (sendable_live _ _ _ _ _ Hs Hq) as (bq & Hbq & _ & _ & H1 & (Hpl & Hin & _)).
  destruct (loaded_spec _ _ _ _ _ _ Hs Hk) as (_ & Ep & _).
  destruct (framed_frag_ref true _ _ _ i q bq Hfr (loaded_layable _ _ _ _ _ _ Hs Hk)) as (b' & Hb' & Hr & Hlt & Ep' & Eo);
    [by rewrite Ep|done|].
  exists b'. split; [done|]. rewrite H1 in Hr. unfold refs_taken in Hr.
  split; [|lia]. unfold seg_ok, rte_mbuf_indirect in *. rewrite Ep', Eo. split_and!; [done..|lia|lia].
Qed.

Lemma life_head : ∃ b', ms' !! header_mbuf k = Some b' ∧ seg_ok pool b' ∧ mb_refcnt b' = 1.
Proof.
  destruct (loaded_spec _ _ _ _ _ _ Hs Hk) as (Eh & _).
  pose proof (fr_head _ _ _ _ Hfr b) as Hh. rewrite Eh in Hh.
  eexists. split; [apply Hh, (np_head _ _ _ _ _ Hk)|]. destruct (np_ref _ _ _ _ _ Hk) as [Hr Hsg]. by split.
Qed.

Lemma life_chain : chain ms' (header_mbuf k) (header_mbuf k :: l).
Proof.
  destruct (loaded_spec _ _ _ _ _ _ Hs Hk) as (Eh & Ep & _).
  pose proof (framed_chain true _ _ ms' (loaded_layable _ _ _ _ _ _ Hs Hk)) as Hc. rewrite Eh, Ep in Hc.
  apply Hc; [apply (np_own _ _ _ _ _ Hk)|exact Hfr].
Qed.

Lemma life_nodup : NoDup (header_mbuf k :: l).
Proof. constructor; [apply (np_own _ _ _ _ _ Hk)|apply (chain_NoDup _ _ _ (sd_chain _ _ _ _ Hs))]. Qed.

(** After the stack has given its references back. *)
Let ms2 : gmap Z rte_mbuf := free_bufs l ms'.

Lemma released_frag i q : l !! i = Some q →
  ∃ b', ms2 !! q = Some b' ∧ seg_ok pool b' ∧ mb_refcnt b' = Z.of_nat i + 1.
Proof.
  intros Hi. destruct (life_frag i q Hi) as (b' & Hb' & (H1 & H2 & H3) & Hr). unfold ms2.
  rewrite free_bufs_in, Hb' by (apply (chain_NoDup _ _ _ (sd_chain _ _ _ _ Hs)) || by eapply list_elem_of_lookup_2).
  eexists. split; [done|]. unfold freed_buf. rewrite (proj2 (Z.eqb_neq _ _)) by lia.
  split; [split_and!; [exact H1|exact H2|cbn; lia|cbn; lia]|cbn; lia].
Qed.

Lemma released_head : ms2 !! header_mbuf k = ms' !! header_mbuf k.
Proof. apply free_bufs_notin, (np_own _ _ _ _ _ Hk). Qed.

Lemma released_chain : chain ms2 (header_mbuf k) (header_mbuf k :: l).
Proof.
  eapply chain_same_next; [exact life_chain|]. intros q bq Hq Hb. apply elem_of_cons in Hq as [->|Hq].
  - rewrite released_head. by exists bq.
  - unfold ms2. rewrite free_bufs_in, Hb by (done || apply (chain_NoDup _ _ _ (sd_chain _ _ _ _ Hs))).
    eexists. split; [done|]. apply list_elem_of_lookup in Hq as [i Hi].
    destruct (life_frag i q Hi) as (b' & Hb' & _ & Hr). rewrite Hb in Hb'. injection Hb' as <-.
    unfold freed_buf. rewrite (proj2 (Z.eqb_neq _ _)) by lia. done.
Qed.

Lemma released_last : last_refs ms2 (header_mbuf k :: l) = header_mbuf k :: take 1 l.
Proof.
  destruct life_head as (bh & Hbh & _ & Hrh). unfold last_refs.
  rewrite filter_cons, decide_True by (rewrite released_head, Hbh; cbn; by rewrite Hrh). f_equal.
  assert (∀ i q, l !! i = Some q → mb_refcnt <$> ms2 !! q = Some (1 + Z.of_nat i)) as Hr.
  { intros i q Hi. destruct (released_frag i q Hi) as (b' & Hb' & _ & Hr). rewrite Hb'. cbn. rewrite Hr. f_equal. lia. }
  revert Hr. generalize ms2. intros ms Hr. clear -Hr. destruct l as [|q l']; [done|].
  rewrite filter_cons, decide_True by by rewrite (Hr 0%nat q eq_refl). cbn [take]. f_equal.
  apply (last_refs_rising ms l' 2); [done|]. intros i q' Hi. rewrite (Hr (S i) q' Hi). f_equal. lia.
Qed.
End life.

(** C14. The life of a datagram's buffers: attached to a packet, linked to a frame,
    released by the stack when the packet is freed and by the driver when the frame
    has gone out.  The header buffer and the first buffer return to their pool.  The
    application's buffers were already a chain when they were attached, so that each
    fragment's reference update walked on to those behind it: the buffer at position
    [i] ends with [i] references that nobody holds.  Every buffer of a datagram but
    its first is lost to the pool. *)
Theorem datagram_leaks pool iov l len k b c (m : shm) :
  sendable pool (mbufs m) (iov_head iov) l → new_packet pool (mbufs m) k b l →
  rings_ok (rings m) → chans (rings m) !! pool = Some c → zlen (ch_q c) + 2 ≤ ch_cap c →
  wp ('(_, k') ← memcpy_fromiovecend k iov 0 len; _ ← lay_out k';
      _ ← skb_release_data (k' <| header_mbuf := 0 |>); rte_pktmbuf_free (header_mbuf k')) (λ _ m',
    chans (rings m') =
      <[pool := mk_chan (ch_cap c) (ch_wm c) (ch_q c ++ header_mbuf k :: take 1 l)]> (chans (rings m)) ∧
    (∀ i q, l !! i = Some q → mb_refcnt <$> mbufs m' !! q = Some (Z.of_nat i)) ∧ rings_ok (rings m')) m.
Proof.
  intros Hs Hk Hok Hc Hroom. rewrite wp_bind. eapply wp_load; [exact Hs|exact Hk|].
  destruct (loaded_spec _ _ _ _ _ _ Hs Hk) as (Eh & Ep & _).
  rewrite wp_bind. eapply wp_lay_out; [by eapply loaded_layable|]. intros ms' Hfr.
  change (mbufs (part_get m)) with (mbufs m) in *. rewrite Eh, wp_bind. unfold skb_release_data.
  rewrite wp_bind. change (frag_page <$> skb_frags _) with (pages (loaded (mbufs m) l k)). rewrite Ep.
  apply (wp_unref pool l c); [apply (chain_NoDup _ _ _ (sd_chain _ _ _ _ Hs))|done|done| |].
  { intros q [i Hi]%list_elem_of_lookup. destruct (life_frag _ _ _ _ _ _ _ Hs Hk Hfr i q Hi) as (b' & ? & ? & ?).
    exists b'. split_and!; [done..|lia]. }
  intros rs Hrs Hchs. change (mbufs (part_set _ m)) with ms'. change (rings (part_set _ m)) with (rings m) in Hchs.
  match goal with |- context [if ?c then _ else mret tt] => change c with false end. rewrite wp_ret.
  pose proof (released_last _ _ _ _ _ _ _ Hs Hk Hfr) as Hlast.
  eapply (wp_pktmbuf_free pool (header_mbuf k :: l) _ c); cbn [part_get part_refl mbufs rings].
  - exact (released_chain _ _ _ _ _ _ _ Hs Hk Hfr).
  - exact Hrs.
  - by rewrite Hchs.
  - intros q bq Hq Hbq. apply elem_of_cons in Hq as [->|Hq].
    + destruct (life_head _ _ _ _ _ _ _ Hs Hk Hfr) as (bh & Hbh & Hsh & _).
      rewrite (released_head _ _ _ _ _ _ Hk), Hbh in Hbq. by injection Hbq as <-.
    + apply list_elem_of_lookup in Hq as [i Hi].
      destruct (released_frag _ _ _ _ _ _ _ Hs Hk Hfr i q Hi) as (b' & Hb' & Hsb & _). rewrite Hbq in Hb'.
      by injection Hb' as ->.
  - rewrite Hlast. unfold zlen in *. rewrite length_cons, length_take. lia.
  - intros rs' Hrs' Hchs'. rewrite Hlast, Hchs in Hchs'. split_and!; [done| |done].
    intros i q Hi. cbn [mbufs part_set part_refl].
    destruct (released_frag _ _ _ _ _ _ _ Hs Hk Hfr i q Hi) as (b' & Hb' & _ & Hr).
    rewrite free_bufs_in, Hb' by (by eapply life_nodup || (constructor; by eapply list_elem_of_lookup_2)).
    cbn. f_equal. unfold freed_buf. destruct (Z.eqb_spec (mb_refcnt b') 1); cbn; lia.
Qed.

(** ** A datagram of two buffers *)

Definition demo_new : sk_buff := mk_skb 10 0 34 0 [] 0 CHECKSUM_PARTIAL ETH_P_IP_n 14 34.
Definition demo_datagram : shm :=
  mk_shm (list_to_map [(MBUFS_MEMPOOL, demo_ring 0 8 [13])]) ∅ ∅
    {[ 10 := demo_mbuf 1 0; 11 := demo_mbuf 1 12; 12 := demo_mbuf 1 0 ]}.
Definition demo_stack : Datagrams shm :=
  {| csum_partial := λ _ c, c; sock_alloc_send_skb := λ _, mret (Some demo_new); fill_ip_header := λ _, mret tt |}.

Lemma demo_two q b : (q ∈ [11; 12]) → mbufs demo_datagram !! q = Some b →
  data_ok b ∧ 0 < mb_data_len b ∧ mb_refcnt b = 1 ∧ seg_ok MBUFS_MEMPOOL b.
Proof.
  intros Hq. apply elem_of_cons in Hq as [->| ->%list_elem_of_singleton]; intros [= <-];
    vm_compute; intuition congruence.
Qed.

Lemma demo_sendable : sendable MBUFS_MEMPOOL (mbufs demo_datagram) 11 [11; 12].
Proof.
  split; [|intros q b; apply demo_two|by vm_compute].
  repeat (econstructor; [done|reflexivity|]). constructor.
Qed.

Lemma demo_new_packet : new_packet MBUFS_MEMPOOL (mbufs demo_datagram) demo_new (demo_mbuf 1 0) [11; 12].
Proof.
  split; try (vm_compute; intuition congruence).
  split; [|done]. intros Hq. apply elem_of_cons in Hq as [?|Hq%list_elem_of_singleton]; done.
Qed.

Lemma attach_spec_witness : chain (mbufs demo_datagram) 11 [11; 12] ∧
  wp (@ip_generic_getfrag shm _ demo_stack demo_new (mk_iovec 11 12 20) 4 16) (λ '(k', csum) m',
    skb_frags k' = [mk_frag 11 4 6; mk_frag 12 0 10] ∧ skb_len k' = 50 ∧ csum = None) demo_datagram.
Proof.
  split; [apply (sd_chain _ _ _ _ demo_sendable)|].
  eapply wp_mono.
  - apply (@attach_spec demo_stack demo_new (mk_iovec 11 12 20) [11; 12] 4 16 demo_datagram);
      [apply (sd_chain _ _ _ _ demo_sendable)| |done|vm_compute; intuition congruence|by vm_compute|by vm_compute].
    intros p Hp. destruct (sendable_live _ _ _ _ _ demo_sendable Hp) as (b & ? & ? & _). eauto.
  - intros [k' csum] m' (_ & -> & ->). by vm_compute.
Defined.

Lemma datagram_frame_witness : sendable MBUFS_MEMPOOL (mbufs demo_datagram) 11 [11; 12] ∧
  wp ('(_, k') ← memcpy_fromiovecend demo_new (mk_iovec 11 12 20) 0 20; lay_out k')
    (λ _ m', chain (mbufs m') 10 [10; 11; 12]) demo_datagram.
Proof.
  split; [exact demo_sendable|]. eapply wp_mono.
  - exact (datagram_frame MBUFS_MEMPOOL (mk_iovec 11 12 20) [11; 12] 20 demo_new (demo_mbuf 1 0)
      demo_datagram demo_sendable demo_new_packet).
  - intros [] m' (Hc & _). exact Hc.
Defined.

Lemma datagram_leaks_witness : sendable MBUFS_MEMPOOL (mbufs demo_datagram) 11 [11; 12] ∧
  wp ('(_, k') ← memcpy_fromiovecend demo_new (mk_iovec 11 12 20) 0 20; _ ← lay_out k';
      _ ← skb_release_data (k' <| header_mbuf := 0 |>); rte_pktmbuf_free (header_mbuf k'))
    (λ _ m', mb_refcnt <$> mbufs m' !! 11 = Some 0 ∧ mb_refcnt <$> mbufs m' !! 12 = Some 1) demo_datagram.
Proof.
  split; [exact demo_sendable|]. eapply wp_mono.
  - refine (datagram_leaks MBUFS_MEMPOOL (mk_iovec 11 12 20) [11; 12] 20 demo_new (demo_mbuf 1 0)
      (mk_chan 7 8 [13]) demo_datagram demo_sendable demo_new_packet _ _ _).
    + apply demo_rings_ok. repeat constructor. do 3 eexists. split; [done|cbn; lia].
    + by vm_compute.
    + by vm_compute.
  - intros [] m' (_ & Hr & _). split; [by apply (Hr 0%nat)|by apply (Hr 1%nat)].
Defined.
