(* ===== verification/Sendpages.v ===== *)
(** * Connections' data on its way out (net/ipv4/tcp.c, [do_tcp_sendpages])

    The part of the TCP sender written for this program: it takes a chain of the
    application's buffers ([user_get_buffer], Callbacks.v) apart and queues the
    buffers as the fragments of packets, as many to a packet as it has room for.
    The state is the write queue with its sequence numbers; the socket's memory
    accounting and flags are left out. *)

From S2P Require Import Prelude Ring Mem Mbuf AppData NetDev Datagram.

(** ** State *)

(** A packet on the write queue, and the sequence numbers it covers. *)
Record tcp_pkt := mk_pkt { tp_skb : sk_buff; tp_seq : Z; tp_end_seq : Z }.
Record tcp_out := mk_tcp { write_seq : Z; write_queue : list tcp_pkt }.
#[export] Instance eta_tcp : Eta tcp_out := λ t, mk_tcp (write_seq t) (write_queue t).

Section sender.
Context {K : Type}.
Record sender := mk_sender { sn_shm : shm; sn_tcp : tcp_out; sn_private : K }.
End sender.
Arguments sender K : clear implicits.
#[export] Instance eta_sender K : Eta (sender K) := λ s, mk_sender (sn_shm s) (sn_tcp s) (sn_private s).
#[export] Instance part_sender K : Part shm (sender K) :=
  {| part_get := sn_shm; part_set := λ m s, s <| sn_shm := m |> |}.
#[export] Instance part_sender_laws K : PartLaws shm (sender K).
Proof. by split; [|intros []|]. Qed.

(** The stack: a packet without data; pushing a packet or all there is out; and the
    service's callback, which gives a chain and what is left of the amount asked for. *)
Class TcpStack (K : Type) := {
  sk_stream_alloc_skb : M (sender K) (option sk_buff);
  push_packet : sk_buff → M (sender K) unit;
  tcp_push : M (sender K) unit;
  user_get_buffer : Z → M (sender K) (Z * Z);
}.

Section sendpages.
Context {K : Type} `{TcpStack K}.

(** The packet is queued ([skb_entail]), and covers the next [copied] numbers. *)
Definition queue_packet (k : sk_buff) (copied mss_now : Z) : M (sender K) sk_buff :=
  let k := grow copied k <| ip_summed := CHECKSUM_PARTIAL |> <| gso_size := mss_now |> in
  _ ← modify (λ s, let t := sn_tcp s in
        s <| sn_tcp := mk_tcp (wrap32 (write_seq t + copied))
          (write_queue t ++ [mk_pkt k (write_seq t) (wrap32 (write_seq t + copied))]) |>);
  mret k.

(** False when it is given up for want of a packet. *)
Fixpoint sendpages_loop (fuel : nat) (mss_now size_goal : Z) (oob : bool) (skb : option sk_buff)
    (i copied mbuf : Z) : M (sender K) bool :=
  if mbuf =? 0 then mret true
  else
    match fuel with
    | O => fault
    | S fuel =>
        skb ← (match skb with Some k => mret (Some k) | None => sk_stream_alloc_skb end);
        match skb with
        | None => _ ← rte_pktmbuf_free mbuf; mret false
        | Some k =>
            m ← mbuf_read mbuf;
            let next := mb_next m in
            _ ← mbuf_write mbuf (λ m, m <| mb_next := 0 |>);
            n ← rte_pktmbuf_data_len mbuf;
            k ← skb_fill_page_desc k i mbuf 0 n;
            let i := i + 1 in
            let copied := copied + n in
            if (MAX_SKB_FRAGS <=? i) || (next =? 0) then
              k ← queue_packet k copied mss_now;
              _ ← (if negb ((skb_len k <? size_goal) || oob) then push_packet k else mret tt);
              sendpages_loop fuel mss_now size_goal oob None 0 0 next
            else sendpages_loop fuel mss_now size_goal oob (Some k) i copied next
        end
    end.

(** [notlast] is the caller's [MSG_SENDPAGE_NOTLAST]. *)
Definition do_tcp_sendpages (mss_now size_goal : Z) (oob notlast : bool) : M (sender K) Z :=
  if (mss_now =? 0) || (size_goal =? 0) then mret 0
  else
    '(mbuf, copy) ← user_get_buffer size_goal;
    if mbuf =? 0 then mret 0
    else
      fuel ← chain_fuel;
      ok ← sendpages_loop fuel mss_now size_goal oob None 0 0 mbuf;
      let copied := if ok : bool then size_goal - copy else 0 in
      _ ← (if negb (copied =? 0) && negb notlast then tcp_push else mret tt);
      mret copied.
End sendpages.

(** ** What the stack promises *)

Definition queued (t : tcp_out) : list Z := write_queue t ≫= λ k, pages (tp_skb k).

(** Buffers in use, other than those of queued packets, and the queue are left alone. *)
Definition leaves {K} (l : list Z) (s s' : sender K) : Prop :=
  sn_tcp s' = sn_tcp s ∧
  ∀ q b, mbufs (sn_shm s) !! q = Some b → 0 < mb_refcnt b → q ∉ l → mbufs (sn_shm s') !! q = Some b.

Definition empty_packet (k : sk_buff) : Prop := skb_frags k = [] ∧ skb_len k = 0 ∧ skb_data_len k = 0.

Class TcpStackLaws (K : Type) `{TcpStack K} := {
  alloc_skb_ok (s : sender K) :
    wp sk_stream_alloc_skb (λ o s', leaves [] s s' ∧ ∃ k, o = Some k ∧ empty_packet k) s;
  push_packet_ok k (s : sender K) : wp (push_packet k) (λ _ s', leaves (queued (sn_tcp s)) s s') s;
  tcp_push_ok (s : sender K) : wp tcp_push (λ _ s', leaves (queued (sn_tcp s)) s s') s;
}.
(** Nothing is sent meanwhile: the window is closed. *)
Definition quiet (K : Type) `{TcpStack K} : Prop :=
  ∀ k (s : sender K), push_packet k s = Done (tt, s).

(** ** Packets that hold a chain *)

(** Whole buffers as fragments. *)
Definition whole (ms : gmap Z rte_mbuf) (c : list Z) : list skb_frag :=
  (λ p, mk_frag p 0 (from_option mb_data_len 0 (ms !! p))) <$> c.

(** [packed ms mss seq l ks seq']: the packets [ks] hold the buffers [l] in order, full but
    for the last, and cover the numbers from [seq] to [seq'] without a gap. *)
Inductive packed (ms : gmap Z rte_mbuf) (mss : Z) : Z → list Z → list tcp_pkt → Z → Prop :=
  | packed_nil seq : packed ms mss seq [] [] seq
  | packed_cons seq c l k ks seq' :
      c ≠ [] → zlen c ≤ MAX_SKB_FRAGS → (l ≠ [] → zlen c = MAX_SKB_FRAGS) →
      skb_frags (tp_skb k) = whole ms c → skb_len (tp_skb k) = wrap32 (frag_bytes ms c) →
      skb_data_len (tp_skb k) = skb_len (tp_skb k) →
      ip_summed (tp_skb k) = CHECKSUM_PARTIAL → gso_size (tp_skb k) = mss →
      tp_seq k = seq → tp_end_seq k = wrap32 (seq + frag_bytes ms c) →
      packed ms mss (tp_end_seq k) l ks seq' → packed ms mss seq (c ++ l) (k :: ks) seq'.

Lemma frag_bytes_app ms a c : frag_bytes ms (a ++ c) = frag_bytes ms a + frag_bytes ms c.
Proof.
  unfold frag_bytes. induction a as [|p a IH]; [done|]. cbn [app foldr]. rewrite IH. lia.
Qed.

Lemma pages_whole k ms c : skb_frags k = whole ms c → pages k = c.
Proof. unfold pages, whole. intros ->. rewrite <- list_fmap_compose. by apply list_fmap_id. Qed.

(** The packet being filled holds [c0]. *)
Definition filling (ms : gmap Z rte_mbuf) (c0 : list Z) (skb : option sk_buff) : Prop :=
  match skb with
  | None => c0 = []
  | Some k => skb_frags k = whole ms c0 ∧ skb_len k = 0 ∧ skb_data_len k = 0
  end.

(** The state while the buffers [l] are still to come. *)
Record ready {K} (ms0 : gmap Z rte_mbuf) (c0 l : list Z) (p : Z) (s : sender K) : Prop := {
  rd_chain : chain (mbufs (sn_shm s)) p l;
  rd_nodup : NoDup (c0 ++ l);
  rd_same : ∀ q, q ∈ l → mbufs (sn_shm s) !! q = ms0 !! q;
  rd_live : ∀ q b, q ∈ c0 ++ l → mbufs (sn_shm s) !! q = Some b → 0 < mb_refcnt b;
  rd_new : ∀ q, q ∈ c0 ++ l → q ∉ queued (sn_tcp s);
  rd_unlinked : ∀ q, q ∈ c0 → mb_next <$> mbufs (sn_shm s) !! q = Some 0;
}.

Lemma ready_leaves {K} ms0 c0 l p (s s' : sender K) x :
  ready ms0 c0 l p s → leaves x s s' → (∀ q, q ∈ c0 ++ l → q ∉ x) → ready ms0 c0 l p s'.
Proof.
  intros [Hc Hnd Hsame Hlive Hnew Hun] [Ht Hl] Hx.
  assert (∀ q, q ∈ c0 ++ l → is_Some (mbufs (sn_shm s) !! q) →
    mbufs (sn_shm s') !! q = mbufs (sn_shm s) !! q) as Hq.
  { intros q Hin [b Hb]. rewrite Hb. apply Hl; [done|by eapply Hlive|by apply Hx]. }
  assert (∀ q, q ∈ l → mbufs (sn_shm s') !! q = mbufs (sn_shm s) !! q) as Hql.
  { intros q Hin. apply Hq; [apply elem_of_app; by right|apply (chain_lookup _ _ _ _ Hc Hin)]. }
  assert (∀ q, q ∈ c0 → mbufs (sn_shm s') !! q = mbufs (sn_shm s) !! q) as Hqc.
  { intros q Hin. apply Hq; [apply elem_of_app; by left|]. specialize (Hun q Hin).
    destruct (mbufs (sn_shm s) !! q); [by eexists|done]. }
  split; [by eapply chain_frame|done| | | |].
  - intros q Hin. rewrite Hql by done. by apply Hsame.
  - intros q b Hin Hb. apply (Hlive q); [done|]. apply elem_of_app in Hin as [Hin|Hin];
      [rewrite <- Hqc|rewrite <- Hql]; done.
  - intros q Hin. rewrite Ht. by apply Hnew.
  - intros q Hin. rewrite Hqc by done. by apply Hun.
Qed.

Definition unlinked {K} (p : Z) (s : sender K) : sender K :=
  s <| sn_shm := (sn_shm s) <| mbufs := alter (λ m, m <| mb_next := 0 |>) p (mbufs (sn_shm s)) |> |>.

Lemma ready_unlink {K} ms0 c0 l p q b (s : sender K) :
  ready ms0 c0 (p :: l) q s → mbufs (sn_shm s) !! p = Some b →
  q = p ∧ ready ms0 (c0 ++ [p]) l (mb_next b) (unlinked p s).
Proof.
  intros [Hc Hnd Hsame Hlive Hnew Hun] Hb. inversion Hc as [|? b' ? Hp Hb' Hc']; subst.
  rewrite Hb in Hb'. injection Hb' as <-. split; [done|].
  assert (c0 ++ p :: l = (c0 ++ [p]) ++ l) as E by by rewrite <- app_assoc. rewrite E in *.
  apply NoDup_app in Hnd as (Hnd1 & Hd & Hnd2). pose proof Hnd1 as (_ & Hpc & _)%NoDup_app.
  assert (∀ x, x ≠ p → mbufs (sn_shm (unlinked p s)) !! x = mbufs (sn_shm s) !! x) as Hne
    by (intros x Hx; cbn; by rewrite lookup_alter_ne).
  assert (∀ x, x ∈ l → x ≠ p) as Hlp.
  { intros x Hx ->. apply (Hd p); [apply elem_of_app; right; constructor|done]. }
  split.
  - eapply chain_frame; [exact Hc'|]. intros x Hx. by apply Hne, Hlp.
  - apply NoDup_app. by split_and!.
  - intros x Hx. rewrite Hne by by apply Hlp. apply Hsame. by constructor.
  - intros x bx Hx. destruct (decide (x = p)) as [->|Hxp].
    + cbn. rewrite lookup_alter_eq, Hb. intros [= <-]. exact (Hlive p b Hx Hb).
    + rewrite Hne by done. by apply Hlive.
  - exact Hnew.
  - intros x Hx. apply elem_of_app in Hx as [Hx|Hx%list_elem_of_singleton].
    + rewrite Hne; [by apply Hun|]. intros ->. apply (Hpc p Hx). constructor.
    + rewrite Hx. cbn. by rewrite lookup_alter_eq, Hb.
Qed.

Definition with_packet {K} (k : sk_buff) (n : Z) (s : sender K) : sender K :=
  s <| sn_tcp := mk_tcp (wrap32 (write_seq (sn_tcp s) + n))
    (write_queue (sn_tcp s) ++ [mk_pkt k (write_seq (sn_tcp s)) (wrap32 (write_seq (sn_tcp s) + n))]) |>.

Lemma queued_app t k n s e : queued (mk_tcp n (write_queue t ++ [mk_pkt k s e])) = queued t ++ pages k.
Proof. unfold queued. cbn [write_queue]. rewrite bind_app. cbn. by rewrite app_nil_r. Qed.

Lemma queued_with {K} k n (s : sender K) : queued (sn_tcp (with_packet k n s)) = queued (sn_tcp s) ++ pages k.
Proof. apply queued_app. Qed.

Lemma ready_queue {K} ms0 c l p k n (s : sender K) :
  ready ms0 c l p s → pages k = c → ready ms0 [] l p (with_packet k n s).
Proof.
  intros [Hc Hnd Hsame Hlive Hnew _] Hk. apply NoDup_app in Hnd as (_ & Hd & Hnd).
  split; [done|done|done| | |].
  - intros q b Hq. apply Hlive. apply elem_of_app. by right.
  - intros q Hq. cbn [app] in Hq. rewrite queued_with. intros [Hin|Hin]%elem_of_app.
    + apply (Hnew q); [apply elem_of_app; by right|done].
    + rewrite Hk in Hin. by apply (Hd q).
  - intros q Hq. by apply not_elem_of_nil in Hq.
Qed.

(** Buffers in use that are neither in [l] nor queued. *)
Definition others_kept {K} (l : list Z) (s s' : sender K) : Prop :=
  ∀ q b, mbufs (sn_shm s) !! q = Some b → 0 < mb_refcnt b → q ∉ l → q ∉ queued (sn_tcp s) →
    mbufs (sn_shm s') !! q = Some b ∧ q ∉ queued (sn_tcp s').

Lemma others_kept_trans {K} l1 l2 (s1 s2 s3 : sender K) :
  others_kept l1 s1 s2 → others_kept l2 s2 s3 → others_kept (l1 ++ l2) s1 s3.
Proof.
  intros H1 H2 q b Hb Hlive [Hq1 Hq2]%not_elem_of_app Hq. destruct (H1 q b) as [Hb' Hq']; [done..|]. by apply H2.
Qed.
Lemma others_kept_leaves {K} l (s s' : sender K) : leaves [] s s' → others_kept l s s'.
Proof. intros [Ht Hl] q b Hb Hlive _ Hq. rewrite Ht. split; [|done]. apply Hl; [done..|apply not_elem_of_nil]. Qed.

(** What the loop leaves: the buffers of [c ++ l] queued. *)
Definition sent {K} `{TcpStack K} (ms0 : gmap Z rte_mbuf) (mss : Z) (l : list Z) (s : sender K)
    (ok : bool) (s' : sender K) : Prop :=
  ok = true ∧
  (∃ ks, write_queue (sn_tcp s') = write_queue (sn_tcp s) ++ ks ∧
     packed ms0 mss (write_seq (sn_tcp s)) l ks (write_seq (sn_tcp s'))) ∧
  (quiet K → ∀ q b, mbufs (sn_shm s) !! q = Some b → 0 < mb_refcnt b →
     ∃ b', mbufs (sn_shm s') !! q = Some b' ∧ mb_refcnt b' = mb_refcnt b ∧
       mb_next b' = if decide (q ∈ l) then 0 else mb_next b) ∧
  others_kept l s s'.

Lemma whole_snoc ms c p b : ms !! p = Some b →
  take (Z.to_nat (zlen c)) (whole ms c) ++ [mk_frag p 0 (mb_data_len b)] = whole ms (c ++ [p]).
Proof.
  intros Hb. unfold whole. rewrite fmap_app, firstn_all2 by (rewrite length_fmap; unfold zlen; lia).
  f_equal. cbn. by rewrite Hb.
Qed.

Lemma wp_then {S A B C} (m : M S A) (f : A → M S B) (g : M S C) Q s :
  wp (x ← m; f x) (λ _ s', wp g Q s') s → wp (x ← m; _ ← f x; g) Q s.
Proof. unfold wp, mbind, M_bind. destruct (m s) as [[a s']| |]; [|done..]. by destruct (f a s') as [[]| |]. Qed.

Lemma chain_end ms p l : chain ms p l → p = 0 ↔ l = [].
Proof. intros Hc. inversion Hc; subst; [done|]. by split. Qed.

(** The queued packet, and the state after the queueing and perhaps a push. *)
Lemma wp_queue_and_push {K} `{TcpStackLaws K} ms0 mss goal oob c l p k (s : sender K) (Q : unit → sender K → Prop) :
  ready ms0 c l p s → skb_frags k = whole ms0 c → skb_len k = 0 → skb_data_len k = 0 →
  c ≠ [] → zlen c ≤ MAX_SKB_FRAGS → (l ≠ [] → zlen c = MAX_SKB_FRAGS) →
  (∀ s' e, ready ms0 [] l p s' →
     write_queue (sn_tcp s') = write_queue (sn_tcp s) ++ [e] →
     (∀ ks seq', packed ms0 mss (write_seq (sn_tcp s')) l ks seq' →
        packed ms0 mss (write_seq (sn_tcp s)) (c ++ l) (e :: ks) seq') →
     (quiet K → sn_shm s' = sn_shm s) → others_kept c s s' →
     Q tt s') →
  wp (k ← queue_packet k (frag_bytes ms0 c) mss;
      (if negb ((skb_len k <? goal) || oob) then push_packet k else mret tt)) Q s.
Proof.
  intros Hr Hk1 Hk2 Hk3 Hc Hcz Hcl HQ. unfold queue_packet. rewrite !wp_bind, wp_modify, wp_ret.
  set (n := frag_bytes ms0 c). set (k' := grow n _).
  match goal with |- wp _ _ ?st => change st with (with_packet k' n s) end.
  assert (pages k' = c) as Hpk by by apply (pages_whole k' ms0).
  pose proof (ready_queue _ _ _ _ k' n _ Hr Hpk) as Hr'.
  assert (∀ ks seq', packed ms0 mss (wrap32 (write_seq (sn_tcp s) + n)) l ks seq' →
    packed ms0 mss (write_seq (sn_tcp s)) (c ++ l)
      (mk_pkt k' (write_seq (sn_tcp s)) (wrap32 (write_seq (sn_tcp s) + n)) :: ks) seq') as Hpack.
  { intros ks seq' Hp. econstructor; cbn [tp_skb tp_seq tp_end_seq]; try done.
    - change (skb_len k') with (wrap32 (skb_len k + n)). by rewrite Hk2.
    - change (skb_len k') with (wrap32 (skb_len k + n)). change (skb_data_len k') with (wrap32 (skb_data_len k + n)).
      by rewrite Hk2, Hk3. }
  destruct (negb ((skb_len k' <? goal) || oob)).
  - assert (quiet K → ∀ s', push_packet k' (with_packet k' n s) = Done (tt, s') → s' = with_packet k' n s) as Hquiet.
    { intros Hqu s'. rewrite Hqu. by intros [= ->]. }
    pose proof (push_packet_ok k' (with_packet k' n s)) as Hpush. unfold wp in Hpush |- *.
    destruct (push_packet k' (with_packet k' n s)) as [[[] s']| |]; [|done..]. pose proof Hpush as [Ht _].
    assert (∀ q, q ∈ [] ++ l → q ∉ queued (sn_tcp (with_packet k' n s))) as Hnq by apply Hr'.
    apply (HQ s' (mk_pkt k' (write_seq (sn_tcp s)) (wrap32 (write_seq (sn_tcp s) + n)))).
    + by eapply ready_leaves.
    + by rewrite Ht.
    + rewrite Ht. exact Hpack.
    + intros Hqu. by rewrite (Hquiet Hqu s' eq_refl).
    + destruct Hpush as [_ Hothers]. intros q b Hb Hlive Hqc Hq. rewrite Ht, queued_with, Hpk, not_elem_of_app.
      split; [|done]. apply Hothers; [done..|]. rewrite queued_with, Hpk. by apply not_elem_of_app.
  - rewrite wp_ret. apply (HQ _ (mk_pkt k' (write_seq (sn_tcp s)) (wrap32 (write_seq (sn_tcp s) + n)))); try done.
    intros q b Hb Hlive Hqc Hq. rewrite queued_with, Hpk. split; [exact Hb|]. by apply not_elem_of_app.
Qed.

Lemma unlinked_lookup {K} p (s : sender K) x b : mbufs (sn_shm s) !! x = Some b →
  mbufs (sn_shm (unlinked p s)) !! x = Some (if decide (x = p) then b <| mb_next := 0 |> else b).
Proof.
  intros Hb. cbn. destruct (decide (x = p)) as [->|Hp]; [by rewrite lookup_alter_eq, Hb|by rewrite lookup_alter_ne].
Qed.

(** Taking a packet and unlinking [p] touch none but [p]. *)
Lemma others_kept_unlink {K} c0 p (s s1 : sender K) :
  leaves [] s s1 → others_kept (c0 ++ [p]) s (unlinked p s1).
Proof.
  intros Hs1 q b Hb Hlive Hq Hqq. destruct (others_kept_leaves (c0 ++ [p]) _ _ Hs1 q b Hb Hlive Hq Hqq) as [Hb1 Hq1].
  split; [|exact Hq1]. cbn. rewrite lookup_alter_ne; [exact Hb1|]. intros ->. apply Hq, elem_of_app. right. constructor.
Qed.

(** Unlinking [p] and what is done to the rest afterwards, together. *)
Lemma unlink_all {K} ms0 c0 p l x bx (s s1 s2 s3 : sender K) :
  ready ms0 c0 (p :: l) p s → leaves [] s s1 → sn_shm s2 = sn_shm (unlinked p s1) →
  mbufs (sn_shm s) !! x = Some bx → 0 < mb_refcnt bx →
  (∀ b, mbufs (sn_shm s2) !! x = Some b → 0 < mb_refcnt b →
     ∃ b', mbufs (sn_shm s3) !! x = Some b' ∧ mb_refcnt b' = mb_refcnt b ∧
       mb_next b' = if decide (x ∈ l) then 0 else mb_next b) →
  ∃ b', mbufs (sn_shm s3) !! x = Some b' ∧ mb_refcnt b' = mb_refcnt bx ∧
    mb_next b' = if decide (x ∈ (c0 ++ [p]) ++ l) then 0 else mb_next bx.
Proof.
  intros Hr [_ Hl] E Hx Hlive Hq. pose proof (Hl x bx Hx Hlive (not_elem_of_nil _)) as Hx1.
  assert (mbufs (sn_shm s2) !! x = Some (if decide (x = p) then bx <| mb_next := 0 |> else bx)) as Hx2.
  { rewrite E. by apply unlinked_lookup. }
  destruct (Hq _ Hx2) as (b' & Hb' & Hrc & Hn); [by destruct (decide (x = p))|].
  exists b'. split; [done|]. split; [rewrite Hrc; by destruct (decide (x = p))|]. rewrite Hn. clear Hn Hq.
  destruct (decide (x ∈ l)) as [Hxl|Hxl]; [by rewrite decide_True by (apply elem_of_app; by right)|].
  destruct (decide (x = p)) as [->|Hxp].
  { rewrite decide_True; [done|]. apply elem_of_app. left. apply elem_of_app. right. constructor. }
  destruct (decide (x ∈ c0)) as [Hxc|Hxc].
  - rewrite decide_True by (apply elem_of_app; left; apply elem_of_app; by left).
    pose proof (rd_unlinked _ _ _ _ _ Hr x Hxc) as Hu. rewrite Hx in Hu. by injection Hu.
  - rewrite decide_False; [done|]. intros [[?|?%list_elem_of_singleton]%elem_of_app|?]%elem_of_app; done.
Qed.

Lemma wp_sendpages_loop {K} `{TcpStackLaws K} ms0 mss goal oob l : ∀ fuel c0 skb p (s : sender K),
  (length l ≤ fuel)%nat → ready ms0 c0 l p s → filling ms0 c0 skb → zlen c0 < MAX_SKB_FRAGS →
  (l = [] → c0 = []) →
  wp (sendpages_loop fuel mss goal oob skb (zlen c0) (frag_bytes ms0 c0) p) (sent ms0 mss (c0 ++ l) s) s.
Proof.
  induction l as [|p l IH]; intros fuel c0 skb q s Hf Hr Hfill Hz Hl.
  { rewrite Hl by done. assert (q = 0) as -> by (destruct Hr as [Hc]; by inversion Hc).
    assert (∀ i c, wp (sendpages_loop fuel mss goal oob skb i c 0) (sent ms0 mss ([] ++ []) s) s) as Hw; [|apply Hw].
    intros i c. assert (sendpages_loop fuel mss goal oob skb i c 0 = mret true) as -> by by destruct fuel.
    rewrite wp_ret. split; [done|]. split; [|split; [by intros _ x b Hb _; exists b|by intros x b]].
    exists []. rewrite app_nil_r. split; [done|constructor]. }
  destruct fuel as [|fuel]; [cbn in Hf; lia|]. cbn [sendpages_loop].
  assert (q = p ∧ p ≠ 0) as [-> Hp0] by (destruct Hr as [Hc]; by inversion Hc).
  destruct (Z.eqb_spec p 0); [done|]. rewrite wp_bind.
  assert (wp (match skb with Some k => mret (Some k) | None => sk_stream_alloc_skb end)
    (λ o s', leaves [] s s' ∧ ∃ k, o = Some k ∧ filling ms0 c0 (Some k)) s) as Halloc.
  { destruct skb as [k|]; cbn in Hfill.
    - rewrite wp_ret. split; [by split|by exists k].
    - eapply wp_mono; [apply alloc_skb_ok|]. intros o s' (Hl' & k & -> & Hk1 & Hk2). split; [done|].
      exists k. split; [done|]. subst c0. by split. }
  eapply wp_mono; [exact Halloc|]. intros o s1 (Hs1 & k & -> & Hk1 & Hk2 & Hk3). clear Halloc Hfill skb.
  pose proof (ready_leaves _ _ _ _ _ _ _ Hr Hs1 ltac:(intros; apply not_elem_of_nil)) as Hr1.
  assert (is_Some (mbufs (sn_shm s1) !! p)) as [b Hb] by (apply (chain_lookup _ _ _ p (rd_chain _ _ _ _ _ Hr1)); constructor).
  destruct (ready_unlink _ _ _ _ _ _ _ Hr1 Hb) as [_ Hr2].
  assert (ms0 !! p = Some b) as Hb0 by (rewrite <- Hb; symmetry; apply (rd_same _ _ _ _ _ Hr1); constructor).
  rewrite wp_bind. eapply wp_mbuf_read; [exact Hb|]. rewrite wp_bind. apply wp_mbuf_alter; [by eexists|].
  change (part_set _ s1) with (unlinked p s1).
  unfold rte_pktmbuf_data_len. rewrite !wp_bind.
  eapply wp_mbuf_read; [cbn; rewrite lookup_alter_eq, Hb; done|]. rewrite wp_ret, wp_bind.
  unfold skb_fill_page_desc. rewrite wp_bind, wp_require. split; [by apply Z.ltb_lt|]. rewrite wp_ret.
  match goal with |- context [frag_bytes ms0 c0 + ?n] => change n with (mb_data_len b) end.
  set (k' := k <| skb_frags := _ |>).
  assert (skb_frags k' = whole ms0 (c0 ++ [p])) as Hk1' by (rewrite <- (whole_snoc _ _ _ _ Hb0), <- Hk1; done).
  assert (frag_bytes ms0 c0 + mb_data_len b = frag_bytes ms0 (c0 ++ [p])) as ->.
  { rewrite frag_bytes_app. unfold frag_bytes at 3. cbn. rewrite Hb0. cbn. lia. }
  assert (zlen c0 + 1 = zlen (c0 ++ [p])) as Ez by (unfold zlen; rewrite length_app; cbn; lia). rewrite Ez.
  assert (c0 ++ p :: l = (c0 ++ [p]) ++ l) as -> by by rewrite <- app_assoc.
  pose proof (chain_end _ _ _ (rd_chain _ _ _ _ _ Hr2)) as Hend. pose proof Hs1 as [Ht1 _].
  destruct ((MAX_SKB_FRAGS <=? zlen (c0 ++ [p])) || (mb_next b =? 0)) eqn:Eq.
  - apply wp_then. assert (l ≠ [] → zlen (c0 ++ [p]) = MAX_SKB_FRAGS) as Hfull.
    { intros Hne. apply orb_prop in Eq as [Eq%Z.leb_le|Eq%Z.eqb_eq%Hend]; [lia|done]. }
    eapply wp_queue_and_push; [exact Hr2|exact Hk1'|exact Hk2|exact Hk3|by destruct c0|lia|exact Hfull|].
    intros s' e Hr' Hwq Hpk Hun Hoth. eapply wp_mono.
    + apply (IH fuel [] None (mb_next b) s'); [cbn in Hf; lia|exact Hr'|done|done|done].
    + intros ok s'' (-> & (ks & Hks & Hp) & Hq & Ho). split; [done|]. rewrite <- Ht1. split_and!.
      * exists (e :: ks). split; [rewrite Hks, Hwq; by rewrite <- app_assoc|]. by apply Hpk.
      * intros Hqu x bx Hbx Hlive. eapply (unlink_all _ c0 p l x bx s s1 s'); [exact Hr|exact Hs1|by apply Hun|done|done|].
        intros b0. apply (Hq Hqu).
      * intros x bx Hbx Hlive [Hx1 Hx2]%not_elem_of_app Hxq.
        destruct (others_kept_unlink c0 p s s1 Hs1 x bx Hbx Hlive Hx1 Hxq) as [H1 H2].
        destruct (Hoth x bx H1 Hlive Hx1 H2) as [H3 H4]. by apply Ho.
  - apply orb_false_iff in Eq as [Eq1%Z.leb_gt Eq2%Z.eqb_neq]. eapply wp_mono.
    + apply (IH fuel (c0 ++ [p]) (Some k') (mb_next b) (unlinked p s1)); [cbn in Hf; lia|exact Hr2|by split_and!|done|].
      intros Hln. by apply Hend in Hln.
    + intros ok s'' (-> & (ks & Hks & Hp) & Hq & Ho). split; [done|]. change (sn_tcp (unlinked p s1)) with (sn_tcp s1) in *.
      rewrite <- Ht1. split; [by exists ks|]. split; [|intros x bx Hbx Hlive Hx Hxq;
        destruct (others_kept_unlink c0 p s s1 Hs1 x bx Hbx Hlive) as [H1 H2]; [by apply not_elem_of_app in Hx as [? _]|done|by apply Ho]].
      intros Hqu x bx Hbx Hlive. pose proof (proj2 Hs1 x bx Hbx Hlive (not_elem_of_nil _)) as Hx1.
      destruct (Hq Hqu x _ (unlinked_lookup p s1 x bx Hx1)) as (b' & Hb' & Hrc & Hn); [by destruct (decide (x = p))|].
      exists b'. split; [done|]. split; [rewrite Hrc; by destruct (decide (x = p))|]. rewrite Hn.
      destruct (decide (x ∈ (c0 ++ [p]) ++ l)) as [Hin|Hin]; [done|]. rewrite decide_False; [done|].
      intros ->. apply Hin, elem_of_app. left. apply elem_of_app. right. constructor.
Qed.

(** ** The whole call *)

Lemma packed_pages ms mss seq l ks seq' : packed ms mss seq l ks seq' → (ks ≫= λ e, pages (tp_skb e)) = l.
Proof.
  induction 1 as [|seq c l k ks seq' _ _ _ Hk _ _ _ _ _ _ _ IH]; [done|].
  cbn. rewrite (pages_whole _ _ _ Hk). f_equal. exact IH.
Qed.

Lemma packed_unlinked ms ms' mss seq l ks seq' :
  packed ms mss seq l ks seq' →
  (∀ q, q ∈ l → q ≠ 0 ∧ mb_next <$> ms' !! q = Some 0) →
  Forall (λ e, frags_ok false ms' (pages (tp_skb e))) ks.
Proof.
  intros Hp Hl. apply Forall_forall. intros e He.
  assert (∀ q, q ∈ pages (tp_skb e) → q ≠ 0 ∧ mb_next <$> ms' !! q = Some 0) as Hq.
  { intros q Hq. apply Hl. rewrite <- (packed_pages _ _ _ _ _ _ Hp). apply list_elem_of_bind. eauto. }
  revert Hq. generalize (pages (tp_skb e)) as c. induction c as [|q c IH]; intros Hc; [done|]. split.
  - destruct (Hc q ltac:(constructor)) as [H0 Hn]. cbn. destruct (ms' !! q) as [b|] eqn:Hb; [|done].
    injection Hn as Hn. econstructor; [done..|]. rewrite Hn. constructor.
  - apply IH. intros x Hx. apply Hc. by constructor.
Qed.

Lemma packed_seq ms mss seq l ks seq' : packed ms mss seq l ks seq' → wrap32 seq' = wrap32 (seq + frag_bytes ms l).
Proof.
  induction 1 as [|seq c l k ks seq' _ _ _ _ _ _ _ _ _ He _ IH]; [cbn; by rewrite Z.add_0_r|].
  rewrite IH, He, wrap32_add_l, frag_bytes_app. f_equal. lia.
Qed.

(** The call: what is queued, and what is left alone. *)
Lemma wp_do_tcp_sendpages `{TcpStackLaws K} mss goal oob notlast p copy l (s s1 : sender K) :
  mss ≠ 0 → goal ≠ 0 → user_get_buffer goal s = Done ((p, copy), s1) →
  l ≠ [] → chain (mbufs (sn_shm s1)) p l →
  (∀ q b, q ∈ l → mbufs (sn_shm s1) !! q = Some b → 0 < mb_refcnt b) →
  (∀ q, q ∈ l → q ∉ queued (sn_tcp s1)) →
  goal - copy = frag_bytes (mbufs (sn_shm s1)) l →
  wp (do_tcp_sendpages mss goal oob notlast) (λ n s', ∃ s2,
    n = frag_bytes (mbufs (sn_shm s1)) l ∧ sent (mbufs (sn_shm s1)) mss l s1 true s2 ∧
    sn_tcp s' = sn_tcp s2 ∧ (notlast = true → s' = s2) ∧ others_kept l s1 s') s.
Proof.
  intros Hmss Hgoal Hget Hl Hc Hlive Hnew Hcopy. unfold do_tcp_sendpages.
  destruct (Z.eqb_spec mss 0); [done|]. destruct (Z.eqb_spec goal 0); [done|]. cbn [orb].
  rewrite wp_bind. unfold wp at 1. rewrite Hget.
  destruct (Z.eqb_spec p 0) as [->|Hp]; [by destruct Hl; apply (chain_end _ _ _ Hc)|].
  unfold chain_fuel. rewrite wp_bind, wp_gets, wp_bind. pose proof (chain_length _ _ _ Hc).
  assert (ready (mbufs (sn_shm s1)) [] l p s1) as Hr.
  { split; [done|by eapply chain_NoDup|done..|]. intros q Hq. by apply not_elem_of_nil in Hq. }
  eapply wp_mono; [apply (wp_sendpages_loop (mbufs (sn_shm s1)) mss goal oob l _ [] None p s1);
    [cbn; lia|exact Hr|done|done|done]|]. cbn [app].
  intros ok s2 Hsent. pose proof Hsent as (-> & _ & _ & Ho). rewrite Hcopy.
  set (total := frag_bytes (mbufs (sn_shm s1)) l) in *. rewrite wp_bind.
  eapply (wp_mono _ (λ _ s', sn_tcp s' = sn_tcp s2 ∧ (notlast = true → s' = s2) ∧ others_kept l s1 s')).
  - destruct (negb (total =? 0)), notlast; cbn [andb negb]; rewrite ?wp_ret; try done.
    eapply wp_mono; [apply tcp_push_ok|]. intros _ s' [Ht Hb]. split_and!; [done..|].
    intros q b Hqb Hql Hin Hqq. destruct (Ho q b Hqb Hql Hin Hqq) as [Hq1 Hq2]. rewrite Ht. split; [by apply Hb|done].
  - intros [] s' (Ht & Hnl & Hoth). rewrite wp_ret. by exists s2.
Qed.


(** ** A chain of two buffers *)

Definition demo_sender : sender unit := mk_sender demo_datagram (mk_tcp (2 ^ 32 - 5) []) tt.
Definition demo_tcp : TcpStack unit :=
  {| sk_stream_alloc_skb := mret (Some (mk_skb 14 0 0 0 [] 0 0 0 0 0)); push_packet := λ _, mret tt;
     tcp_push := mret tt; user_get_buffer := λ copy, mret (11, copy - 20) |}.
Lemma demo_tcp_laws : @TcpStackLaws unit demo_tcp.
Proof.
  split; intros; unfold wp; cbn; [|done..]. split; [done|]. by eexists.
Qed.


(** Want of a packet loses data: when none can be had for the first buffer, the whole
    chain taken from the service goes back to the pool, nothing is queued, the sequence
    does not advance and 0 is returned, as if there had been nothing to send - the next
    call goes on with the bytes behind those lost. *)
Theorem sendpages_drops `{TcpStack K} pool c mss goal oob notlast p copy l (s s1 s2 : sender K) :
  mss ≠ 0 → goal ≠ 0 → user_get_buffer goal s = Done ((p, copy), s1) →
  sk_stream_alloc_skb s1 = Done (None, s2) →
  chain (mbufs (sn_shm s2)) p l → rings_ok (rings (sn_shm s2)) → chans (rings (sn_shm s2)) !! pool = Some c →
  (∀ q b, q ∈ l → mbufs (sn_shm s2) !! q = Some b → seg_ok pool b ∧ mb_refcnt b = 1) →
  zlen (ch_q c) + zlen l ≤ ch_cap c →
  wp (do_tcp_sendpages mss goal oob notlast) (λ n s', n = 0 ∧ (p ≠ 0 → sn_tcp s' = sn_tcp s2 ∧
    chans (rings (sn_shm s')) = <[pool := mk_chan (ch_cap c) (ch_wm c) (ch_q c ++ l)]> (chans (rings (sn_shm s2))))) s.
Proof.
  intros Hmss Hgoal Hget Halloc Hc Hok Hch Hl Hroom. unfold do_tcp_sendpages.
  destruct (Z.eqb_spec mss 0); [done|]. destruct (Z.eqb_spec goal 0); [done|]. cbn [orb].
  rewrite wp_bind. unfold wp at 1. rewrite Hget. destruct (Z.eqb_spec p 0) as [->|Hp]; [by rewrite wp_ret|].
  unfold chain_fuel. rewrite wp_bind, wp_gets, wp_bind. cbn [sendpages_loop].
  rewrite (proj2 (Z.eqb_neq p 0)) by done. rewrite wp_bind. unfold wp at 1. rewrite Halloc. rewrite wp_bind.
  assert (last_refs (mbufs (sn_shm s2)) l = l) as Hlast.
  { clear Hroom. assert (∀ q, q ∈ l → mb_refcnt <$> mbufs (sn_shm s2) !! q = Some 1) as Hr.
    { intros q Hq. destruct (chain_lookup _ _ _ q Hc Hq) as [_ [b Hb]]. rewrite Hb. cbn. f_equal. by eapply Hl. }
    clear -Hr. unfold last_refs. induction l as [|q l IH]; [done|].
    rewrite filter_cons, decide_True by (apply Hr; constructor). f_equal. apply IH. intros x Hx. apply Hr. by constructor. }
  eapply (wp_pktmbuf_free pool l _ c); [exact Hc|exact Hok|exact Hch| |
    change (zlen (ch_q c) + zlen (last_refs (mbufs (sn_shm s2)) l) ≤ ch_cap c); by rewrite Hlast|].
  - intros q b Hq Hb. by apply (Hl q b).
  - intros rs Hrs Hchs. change (mbufs (part_get s2)) with (mbufs (sn_shm s2)) in Hchs. rewrite Hlast in Hchs.
    rewrite wp_ret, wp_bind. cbn [Z.eqb negb andb]. rewrite !wp_ret.
    by split_and!.
Qed.

Definition demo_dry : TcpStack unit :=
  {| sk_stream_alloc_skb := mret None; push_packet := λ _, mret tt;
     tcp_push := mret tt; user_get_buffer := λ copy, mret (11, copy - 20) |}.

Lemma sendpages_drops_witness : chain (mbufs (sn_shm demo_sender)) 11 [11; 12] ∧
  wp (@do_tcp_sendpages unit demo_dry 1460 65000 false false) (λ n s',
    n = 0 ∧ sn_tcp s' = sn_tcp demo_sender) demo_sender.
Proof.
  split; [apply (sd_chain _ _ _ _ demo_sendable)|]. eapply wp_mono.
  - refine (@sendpages_drops unit demo_dry MBUFS_MEMPOOL (mk_chan 7 8 [13]) 1460 65000 false false 11 (65000 - 20)
      [11; 12] demo_sender demo_sender demo_sender _ _ _ _ _ _ _ _ _);
      [done|done|done|done|apply (sd_chain _ _ _ _ demo_sendable)| |by vm_compute| |by vm_compute].
    + apply demo_rings_ok. repeat constructor. do 3 eexists. split; [done|cbn; lia].
    + intros q b Hq Hb. by destruct (demo_two q b Hq Hb) as (_ & _ & ? & ?).
  - intros n s' [-> Hs]. by destruct (Hs ltac:(done)) as [-> _].
Defined.
