(* ===== verification/TxPath.v ===== *)
(** * A connection's transmit path, end to end

    The application puts a buffer on the connection's transmit ring
    ([ipaugenblick_send], ipaugenblick_api.c); the TCP sender ([do_tcp_sendpages],
    net/ipv4/tcp.c) asks the service for data, which takes buffers off the ring
    ([user_get_buffer], user_get_buffer_callback.h), and queues them as packets.  This
    file puts the three together over one shared memory, with the rest of the stack
    working in between.

    [Transmit] and [Sendpages] say what the parts do; this file says what comes of it:
    the stream on the write queue is what the application sent. *)

From stdpp Require Import list.
From S2P Require Import Prelude Ring Mem Mbuf App AppData Service Server Callbacks Keeps Transmit NetDev Sendpages.

(** ** The system *)

(** The sender's private state is the service's; the shared memory is the sender's. *)
Section system.
Context {K : Type} `{Stack K} `{TcpStack (svc K)}.

Record txsys := mk_txsys { x_sender : sender (svc K); x_app : app }.
Definition svc_of (s : sender (svc K)) : svc K := (sn_private s) <| sv_shm := sn_shm s |>.
Definition by_service {A} (m : M (svc K) A) : M (sender (svc K)) A := λ s,
  match m (svc_of s) with
  | Done (a, v) => Done (a, mk_sender (sv_shm v) (sn_tcp s) v)
  | Exit => Exit
  | Fault => Fault
  end.
Definition x_proc (y : txsys) : proc := mk_proc (sn_shm (x_sender y)) (x_app y).
Definition on_app {A} (m : M proc A) : M txsys A := λ y,
  match m (x_proc y) with
  | Done (a, q) => Done (a, mk_txsys ((x_sender y) <| sn_shm := p_shm q |>) (p_app q))
  | Exit => Exit
  | Fault => Fault
  end.
Definition on_tcp {A} (m : M (sender (svc K)) A) : M txsys A := λ y,
  match m (x_sender y) with
  | Done (a, s) => Done (a, mk_txsys s (x_app y))
  | Exit => Exit
  | Fault => Fault
  end.

(** The TCP sender gets its data from the service, for socket [p]. *)
Definition fed_by_service (fuel : nat) (p : Z) : Prop :=
  ∀ copy s, Sendpages.user_get_buffer copy s = by_service (Callbacks.user_get_buffer fuel p copy) s.

(** The rest of the stack does not touch connection [i], its socket [p] or its ring. *)
Record spares (i p : Z) (ring : ring_id) (s s' : sender (svc K)) : Prop := {
  sp_sat : socket_satelite_data (sn_private s') !! i = socket_satelite_data (sn_private s) !! i;
  sp_socket : sockets (sn_private s') !! p = sockets (sn_private s) !! p;
  sp_blocks : g_sockets (sn_shm s') = g_sockets (sn_shm s);
  sp_chan : chans (rings (sn_shm s')) !! ring = chans (rings (sn_shm s)) !! ring;
  sp_rings : rings_ok (rings (sn_shm s)) → rings_ok (rings (sn_shm s'));
}.
Record stack_spares (i p : Z) (ring : ring_id) : Prop := {
  ss_alloc s : wlp sk_stream_alloc_skb (λ _, spares i p ring s) s;
  ss_push k s : wlp (push_packet k) (λ _, spares i p ring s) s;
  ss_tcp_push s : wlp tcp_push (λ _, spares i p ring s) s;
}.

(** ** Steps *)

Context (i p sock : Z) (ring : ring_id).

(** A buffer of the application's own. *)
Definition owned (b : Z) (y : txsys) : Prop :=
  let m := sn_shm (x_sender y) in
  b ≠ 0 ∧ (∃ d, mbufs m !! b = Some d ∧ 0 < mb_refcnt d) ∧
  b ∉ contents m ring ∧ b ∉ queued (sn_tcp (x_sender y)).

(** The rest of the stack at work: packets may leave the write queue and their buffers go
    back to the pool; what else is in use stays as it is. *)
Definition works (s s' : sender (svc K)) : Prop :=
  spares i p ring s s' ∧ write_seq (sn_tcp s') = write_seq (sn_tcp s) ∧
  (∀ q, q ∈ queued (sn_tcp s') → q ∈ queued (sn_tcp s)) ∧
  ∀ q b, mbufs (sn_shm s) !! q = Some b → 0 < mb_refcnt b → q ∉ queued (sn_tcp s) → mbufs (sn_shm s') !! q = Some b.

Inductive txlabel := Sent (b len ret : Z) | Pulled (ks : list tcp_pkt) | Worked.

Inductive txstep : txsys → txlabel → txsys → Prop :=
  | tx_send b off len ret y y' : owned b y → 0 ≤ len < 2 ^ 16 →
      on_app (ipaugenblick_send sock b off len) y = Done (ret, y') →
      txstep y (Sent b len ret) y'
  | tx_pull mss goal oob notlast n ks y y' :
      on_tcp (do_tcp_sendpages mss goal oob notlast) y = Done (n, y') →
      write_queue (sn_tcp (x_sender y')) = write_queue (sn_tcp (x_sender y)) ++ ks →
      txstep y (Pulled ks) y'
  | tx_work s' y : works (x_sender y) s' → txstep y Worked (mk_txsys s' (x_app y)).

Inductive txrun : txsys → list txlabel → txsys → Prop :=
  | txrun_nil y : txrun y [] y
  | txrun_cons y l y1 ls y2 : txstep y l y1 → txrun y1 ls y2 → txrun y (l :: ls) y2.

(** Buffers with their lengths: what was accepted, what the queued packets carry, what is
    still on the ring. *)
Definition accepted (ls : list txlabel) : list (Z * Z) :=
  ls ≫= λ l, match l with Sent b len ret => if ret =? 0 then [(b, len)] else [] | _ => [] end.
Definition carried (ks : list tcp_pkt) : list (Z * Z) :=
  ks ≫= λ e, (λ f, (frag_page f, frag_size f)) <$> skb_frags (tp_skb e).
Definition pulled (ls : list txlabel) : list (Z * Z) :=
  ls ≫= λ l, match l with Pulled ks => carried ks | _ => [] end.
Definition on_ring (y : txsys) : list (Z * Z) :=
  let m := sn_shm (x_sender y) in
  (λ x, (x, from_option mb_data_len 0 (mbufs m !! x))) <$> contents m ring.
Definition bytes (l : list (Z * Z)) : Z := total (l.*2).
End system.
Arguments txsys K : clear implicits.

(** ** Lengths *)

Definition len_of (ms : gmap Z rte_mbuf) (x : Z) : Z := from_option mb_data_len 0 (ms !! x).

Lemma packed_carried ms mss seq l ks seq' :
  packed ms mss seq l ks seq' → carried ks = (λ x, (x, len_of ms x)) <$> l.
Proof.
  induction 1 as [|seq c l k ks seq' _ _ _ Hk _ _ _ _ _ _ _ IH]; [done|].
  unfold carried in *. cbn. rewrite IH, Hk, fmap_app. f_equal. unfold whole. by rewrite <- list_fmap_compose.
Qed.

Lemma frag_bytes_total ms l : frag_bytes ms l = total (len_of ms <$> l).
Proof. unfold frag_bytes, total. induction l as [|x l IH]; [done|]. cbn. by rewrite IH. Qed.

Lemma bytes_lens ms l : bytes ((λ x, (x, len_of ms x)) <$> l) = frag_bytes ms l.
Proof. rewrite frag_bytes_total. unfold bytes. by rewrite <- list_fmap_compose. Qed.

(** Linking buffers changes neither lengths nor reference counts. *)
Lemma link_all_data l : ∀ p ms x b, ms !! x = Some b →
  ∃ b', link_all p l ms !! x = Some b' ∧ mb_data_len b' = mb_data_len b ∧ mb_refcnt b' = mb_refcnt b.
Proof.
  induction l as [|q l IH]; intros p ms x b Hb; [by exists b|]. cbn [link_all].
  assert (∃ b1, link p q ms !! x = Some b1 ∧ mb_data_len b1 = mb_data_len b ∧ mb_refcnt b1 = mb_refcnt b) as (b1 & H1 & H2 & H3).
  { unfold link. destruct (decide (p = x)) as [->|Hne].
    - rewrite lookup_alter_eq, Hb. by eexists.
    - rewrite lookup_alter_ne by done. by exists b. }
  destruct (IH q _ x b1 H1) as (b' & E1 & E2 & E3). exists b'. split_and!; [done|congruence..].
Qed.
Lemma chained_data l ms x b : ms !! x = Some b →
  ∃ b', chained 0 0 l ms !! x = Some b' ∧ mb_data_len b' = mb_data_len b ∧ mb_refcnt b' = mb_refcnt b.
Proof. destruct l as [|p l]; [by exists b|]. apply link_all_data. Qed.

Lemma len_of_chained l ms x : is_Some (ms !! x) → len_of (chained 0 0 l ms) x = len_of ms x.
Proof.
  intros [b Hb]. destruct (chained_data l ms x b Hb) as (b' & Hb' & Hl & _). unfold len_of. rewrite Hb, Hb'. exact Hl.
Qed.

(** ** The invariant *)

Section invariant.
Context {K : Type} `{Stack K} `{TcpStackLaws (svc K)}.
Context (fuel : nat) (i p sock sk : Z) (ring : ring_id) (d : socket_satelite_data_t).
Implicit Types (s : sender (svc K)) (y : txsys K).

(** Connection [i] with its socket [p], the application's descriptor [sock] and what is on
    the ring, as all three see it. *)
Record tx_linked (c : chan) (lens : list Z) (so : socket) (ld : local_socket_descriptor)
    (blk : ipaugenblick_socket) y : Prop := {
  xl_sending : sending i d ring c lens (svc_of (x_sender y));
  xl_socket : sockets (sn_private (x_sender y)) !! p = Some so;
  xl_data : sk_user_data so = Some i;
  xl_conn : connected sock ld sk blk ring c (x_proc y);
  xl_cache : cache_ok (x_app y);
  xl_wired : wired (x_app y);
  xl_nodup : NoDup (ch_q c);
  xl_waiting x : x ∈ ch_q c → x ∉ queued (sn_tcp (x_sender y)) ∧
    ∃ b, mbufs (sn_shm (x_sender y)) !! x = Some b ∧ mb_next b = 0 ∧ 0 < mb_refcnt b;
  xl_cap : ch_cap c < Z.of_nat fuel;
}.
Definition tx_ok y : Prop := ∃ c lens so ld blk, tx_linked c lens so ld blk y.

Lemma linked_ring c lens so ld blk y : tx_linked c lens so ld blk y →
  contents (sn_shm (x_sender y)) ring = ch_q c.
Proof. intros L. unfold contents. pose proof (sd_chan _ _ _ _ _ _ (xl_sending _ _ _ _ _ _ L)) as Hc. cbn in Hc. by rewrite Hc. Qed.

Lemma linked_lens c lens so ld blk y : tx_linked c lens so ld blk y →
  lens = len_of (mbufs (sn_shm (x_sender y))) <$> ch_q c.
Proof.
  intros L. pose proof (sd_bufs _ _ _ _ _ _ (xl_sending _ _ _ _ _ _ L)) as Hb. cbn in Hb.
  clear L. revert Hb. generalize (ch_q c) as q. intros q Hb. induction Hb as [|x n q lens (_ & b & Hx & Hn) _ IH]; [done|]. cbn. unfold len_of at 1. rewrite Hx. cbn. by f_equal.
Qed.

Lemma linked_on_ring c lens so ld blk y : tx_linked c lens so ld blk y →
  on_ring ring y = (λ x, (x, len_of (mbufs (sn_shm (x_sender y))) x)) <$> ch_q c.
Proof. intros L. unfold on_ring. by rewrite (linked_ring _ _ _ _ _ _ L). Qed.

(** The rest of the stack at work, and a change of the write queue. *)
Lemma linked_spares c lens so ld blk y s' : tx_linked c lens so ld blk y → spares i p ring (x_sender y) s' →
  (∀ x, x ∈ ch_q c → mbufs (sn_shm s') !! x = mbufs (sn_shm (x_sender y)) !! x ∧ x ∉ queued (sn_tcp s')) →
  tx_linked c lens so ld blk (mk_txsys s' (x_app y)).
Proof.
  intros [[B1 B2 B3 B4 B5] L2 L3 [C1 C2 C3 C4 C5 C6 C7] L5 L6 L7 L8 L9] [S1 S2 S3 S4 S5] Hq. cbn in *. split; cbn; try done.
  - split; cbn; [by rewrite S1|done|by apply S5|by rewrite S4|].
    apply Forall2_lookup. intros j. rewrite Forall2_lookup in B5. specialize (B5 j). revert B5.
    destruct (ch_q c !! j) as [x|] eqn:Hx, (lens !! j) as [n|]; intros B5; inversion B5 as [? ? (Hx0 & b & Hb & Hn)|]; subst; constructor.
    split; [done|]. exists b. by rewrite (proj1 (Hq x (list_elem_of_lookup_2 _ _ _ Hx))).
  - by rewrite S2.
  - split; cbn; [done..|by rewrite S3|done|by apply S5|by rewrite S4].
  - intros x Hx. destruct (Hq x Hx) as [-> Hn]. split; [done|]. by apply L8.
Qed.
Lemma on_ring_spares c lens so ld blk y s' : tx_linked c lens so ld blk y → spares i p ring (x_sender y) s' →
  (∀ x, x ∈ ch_q c → mbufs (sn_shm s') !! x = mbufs (sn_shm (x_sender y)) !! x) →
  on_ring ring (mk_txsys s' (x_app y)) = on_ring ring y.
Proof.
  intros L Hs Hq. rewrite (linked_on_ring _ _ _ _ _ _ L). unfold on_ring. cbn.
  assert (contents (sn_shm s') ring = ch_q c) as ->.
  { rewrite <- (linked_ring _ _ _ _ _ _ L). unfold contents. by rewrite (sp_chan _ _ _ _ _ Hs). }
  apply list_fmap_ext. intros j x Hx. unfold len_of. by rewrite Hq by by eapply list_elem_of_lookup_2.
Qed.

(** *** The application sends *)

Lemma wp_on_app {A} (m : M proc A) (Q : A → txsys K → Prop) y :
  wp m (λ a q, Q a (mk_txsys ((x_sender y) <| sn_shm := p_shm q |>) (p_app q))) (x_proc y) → wp (on_app m) Q y.
Proof. unfold wp, on_app. by destruct (m (x_proc y)) as [[]| |]. Qed.
Lemma wp_on_tcp {A} (m : M (sender (svc K)) A) (Q : A → txsys K → Prop) y :
  wp m (λ a s, Q a (mk_txsys s (x_app y))) (x_sender y) → wp (on_tcp m) Q y.
Proof. unfold wp, on_tcp. by destruct (m (x_sender y)) as [[]| |]. Qed.

(** What a call leaves of the application's process. *)
Lemma wp_send_one ld blk c b off len (Q : Z → proc → Prop) q :
  connected sock ld sk blk ring c q → cache_ok (p_app q) → wired (p_app q) → is_Some (mbufs (p_shm q) !! b) →
  (∀ q', let full := ch_cap c - zlen (ch_q c) <? 1 in
     AppData.sent sock ld sk ring c [b] len full q q' →
     mbufs (p_shm q') = alter (λ m, (with_len len m) <| mb_next := 0 |>) b (mbufs (p_shm q)) →
     Q (if full then 1 else 0) q') →
  wp (ipaugenblick_send sock b off len) Q q.
Proof.
  intros Hcn Hok Hw Hb HQ. pose proof Hcn as [Hr Hd Hsk _ _ _ _].
  destruct q as [[rs cs gs ms] [ls sels cring cidx ucbk sts pid uid fds upd]].
  set (a := mk_app ls sels cring cidx ucbk sts pid uid fds upd) in *. cbn [p_shm mbufs] in *.
  unfold ipaugenblick_send. rewrite wp_bind. apply wp_stat_add.
  rewrite wp_bind. apply wp_set_len; [done|].
  rewrite wp_bind. apply wp_mbuf_alter; [by apply lookup_alter_is_Some|].
  rewrite wp_bind. apply (wp_masked_socket _ ld sk); [done..|].
  apply (wp_send_prepared sock ld sk blk ring c [b] 1 len len _
           (alter (λ m, m <| mb_next := 0 |>) b (alter (with_len len) b ms)) _
           (mk_proc (mk_shm rs cs gs ms) a)); try done.
  intros q' full Hs Hm. apply HQ; [exact Hs|]. rewrite Hm. by rewrite alter_alter_eq.
Qed.

Definition after_send (c : chan) (b : Z) (full : bool) : chan :=
  if full then c else mk_chan (ch_cap c) (ch_wm c) (ch_q c ++ [b]).

Lemma sent_app ld blk c b len full q q' :
  connected sock ld sk blk ring c q → cache_ok (p_app q) → wired (p_app q) →
  AppData.sent sock ld sk ring c [b] len full q q' →
  ∃ ld' blk', connected sock ld' sk blk' ring (after_send c b full) q' ∧ cache_ok (p_app q') ∧ wired (p_app q').
Proof.
  intros [C1 C2 C3 C4 C5 C6 C7] Hok Hw [S1 S2 S3 S4 S5].
  assert (∃ ld', lsds (p_app q') !! sock = Some ld' ∧ lsd_socket ld' = Some sk ∧ lsd_tx_ring ld' = Some ring ∧
    cache_ok (p_app q') ∧ wired (p_app q')) as (ld' & E1 & E2 & E3 & E4 & E5).
  { cbv zeta in S5. set (a' := (p_app q') <| app_stats := _ |>) in S5.
    assert (cache_ok a' → cache_ok (p_app q')) as Hc by (by intros [? ? ?]).
    change (lsds (p_app q')) with (lsds a'). destruct full.
    - destruct S5 as [F1 F2 [F3 _] _ _ _]. apply (f_equal (lookup sock)) in F3. rewrite !lookup_fmap, C2 in F3.
      destruct (lsds a' !! sock) as [ld'|]; [|done]. exists ld'. cbn in F3.
      assert (lsd_static ld' = lsd_static ld) as F by congruence.
      assert (lsd_socket ld' = lsd_socket ld ∧ lsd_tx_ring ld' = lsd_tx_ring ld) as [-> ->]
        by (unfold lsd_static, lsd_core in F; cbn in F; by injection F).
      split_and!; auto.
    - exists ld. rewrite S5. split_and!; [done..| |].
      + apply Hc. by rewrite S5.
      + assert (wired a') as Hwa by by rewrite S5. exact Hwa. }
  exists ld'. eexists. split; [|done]. split; [done..| |done|done|].
  - rewrite S4, lookup_alter_eq, C4. done.
  - rewrite S2. unfold after_send. destruct full; [done|]. by rewrite lookup_insert_eq.
Qed.

Lemma wp_send_step y b off len : tx_ok y → owned ring b y → 0 ≤ len < 2 ^ 16 →
  wp (on_app (ipaugenblick_send sock b off len)) (λ ret y', tx_ok y' ∧
    sn_tcp (x_sender y') = sn_tcp (x_sender y) ∧
    on_ring ring y' = on_ring ring y ++ (if ret =? 0 then [(b, len)] else [])) y.
Proof.
  intros (c & lens & so & ld & blk & L) (Hb0 & (m & Hm & Hlive) & Hbq & Hbt) Hlen.
  rewrite (linked_ring _ _ _ _ _ _ L) in Hbq. pose proof (linked_on_ring _ _ _ _ _ _ L) as Hon.
  pose proof L as [[B1 B2 B3 B4 B5] L2 L3 L4 L5 L6 L7 L8 L9].
  apply wp_on_app, (wp_send_one ld blk c b off len); [done..|by eexists|].
  intros q' full Hs Hms. destruct (sent_app _ _ _ _ _ _ _ _ L4 L5 L6 Hs) as (ld' & blk' & D1 & D2 & D3).
  set (c' := after_send c b full) in *. set (y' := mk_txsys _ _).
  set (m' := (with_len len m) <| mb_next := 0 |>).
  assert (mbufs (p_shm q') !! b = Some m' ∧ mb_data_len m' = len) as [Hb' Hml].
  { rewrite Hms. change (mbufs (p_shm (x_proc y))) with (mbufs (sn_shm (x_sender y))). rewrite lookup_alter_eq, Hm.
    split; [done|]. change (wrap16 len = len). by apply Z.mod_small. }
  assert (∀ x, x ∈ ch_q c → mbufs (p_shm q') !! x = mbufs (sn_shm (x_sender y)) !! x) as Hsame.
  { intros x Hx. rewrite Hms. apply lookup_alter_ne. by intros ->. }
  assert (ch_q c' = ch_q c ++ (if full then [] else [b])) as Hq' by (unfold c', after_send; destruct full; [by rewrite app_nil_r|done]).
  assert (tx_linked c' (lens ++ if full then [] else [len]) so ld' blk' y') as L'.
  { assert (x_proc y' = q') as Eq by (unfold x_proc, y'; cbn; by destruct q').
    split; rewrite ?Eq; try done.
    - split; [done|done|exact (AppData.sn_rings _ _ _ _ _ _ _ _ _ _ Hs)|exact (cn_chan _ _ _ _ _ _ _ D1)|].
      rewrite Hq'. apply Forall2_app.
      + change (mbufs (sv_shm (svc_of (x_sender y')))) with (mbufs (p_shm q')).
        eapply Forall2_impl; [|intros x n Hxn; exact Hxn]. clear -B5 Hsame.
        induction B5 as [|x n q ns (Hx0 & bx & Hbx & Hn) _ IH]; constructor.
        * split; [done|]. exists bx. by rewrite (Hsame x) by left.
        * apply IH. intros z Hz. apply Hsame. by right.
      + destruct full; constructor; [|done]. split; [done|]. by exists m'.
    - rewrite Hq'. apply NoDup_app. split_and!; [done| |destruct full; [constructor|apply NoDup_singleton]].
      intros x Hx Hin. destruct full; [by apply not_elem_of_nil in Hin|]. apply list_elem_of_singleton in Hin as ->. done.
    - intros x. rewrite Hq'. intros [Hx|Hx]%elem_of_app.
      + change (mbufs (sn_shm (x_sender y'))) with (mbufs (p_shm q')). rewrite Hsame by done. by apply L8.
      + destruct full; [by apply not_elem_of_nil in Hx|]. apply list_elem_of_singleton in Hx as ->. split; [done|]. by exists m'.
    - assert (ch_cap c' = ch_cap c) as -> by (unfold c', after_send; by destruct full). done. }
  split; [do 5 eexists; exact L'|]. split; [done|]. rewrite Hon, (linked_on_ring _ _ _ _ _ _ L'), Hq', fmap_app.
  f_equal.
  - apply list_fmap_ext. intros j x Hx. unfold len_of. cbn. by rewrite Hsame by by eapply list_elem_of_lookup_2.
  - unfold full. destruct (_ <? 1); [done|]. cbn. unfold len_of. cbn. by rewrite Hb', <- Hml.
Qed.

(** *** The sender pulls *)

Hypothesis Hspares : stack_spares i p ring.

Lemma spares_refl s : spares i p ring s s.
Proof. by split. Qed.
Lemma spares_trans s1 s2 s3 : spares i p ring s1 s2 → spares i p ring s2 s3 → spares i p ring s1 s3.
Proof. intros [A1 A2 A3 A4 A5] [B1 B2 B3 B4 B5]. split; try congruence. auto. Qed.
Lemma spares_bufs s s' ms : spares i p ring s s' → spares i p ring s (s' <| sn_shm := (sn_shm s') <| mbufs := ms |> |>).
Proof. by intros [? ? ? ? ?]. Qed.
Lemma spares_tcp s s' t : spares i p ring s s' → spares i p ring s (s' <| sn_tcp := t |>).
Proof. by intros [? ? ? ? ?]. Qed.

Lemma keeps_op {A} s0 (m : M (sender (svc K)) A) :
  (∀ s, wlp m (λ _, spares i p ring s) s) → keeps (spares i p ring s0) m.
Proof. intros Hm s Hs. eapply wlp_mono; [apply Hm|]. intros a s' Hs'. by eapply spares_trans. Qed.

Lemma keeps_queue_packet s0 k n mss : keeps (spares i p ring s0) (queue_packet k n mss).
Proof. unfold queue_packet. apply keeps_bind; [apply keeps_modify; intros s; apply spares_tcp|intros; apply keeps_ret]. Qed.
Lemma spares_mbuf_read s0 q : keeps (spares i p ring s0) (mbuf_read (S := sender (svc K)) q).
Proof. unfold mbuf_read. apply keeps_bind; [apply keeps_gets|intros; apply keeps_of_option]. Qed.
Lemma spares_mbuf_write s0 q f : keeps (spares i p ring s0) (mbuf_write (S := sender (svc K)) q f).
Proof. unfold mbuf_write. apply keeps_bind; [apply spares_mbuf_read|intros]. apply keeps_modify. intros s. apply spares_bufs. Qed.

Lemma keeps_sendpages_loop s0 mss goal oob fu : ∀ skb n copied q,
  keeps (spares i p ring s0) (sendpages_loop fu mss goal oob skb n copied q).
Proof.
  induction fu as [|fu IH]; intros skb n copied q; cbn [sendpages_loop]; destruct (q =? 0);
    [apply keeps_ret|apply keeps_fault|apply keeps_ret|].
  intros s Hs. rewrite wlp_bind.
  assert (wlp (match skb with Some k => mret (Some k) | None => sk_stream_alloc_skb end)
    (λ o s', spares i p ring s0 s' ∧ is_Some o) s) as Halloc.
  { destruct skb as [k|]; [split; [done|by eexists]|].
    pose proof (ss_alloc _ _ _ Hspares s) as Hk. pose proof (alloc_skb_ok s) as Hw. unfold wp in Hw. unfold wlp in *.
    destruct (sk_stream_alloc_skb s) as [[o s']| |]; [|done..]. destruct Hw as (_ & k & -> & _).
    split; [by eapply spares_trans|by eexists]. }
  eapply wlp_mono; [exact Halloc|]. intros o s1 [Hs1 [k ->]].
  match goal with |- wlp ?m _ _ => enough (keeps (spares i p ring s0) m) as Hk by exact (Hk s1 Hs1) end.
  apply keeps_bind; [apply spares_mbuf_read|intros b]. apply keeps_bind; [apply spares_mbuf_write|intros _].
  apply keeps_bind; [apply keeps_bind; [apply spares_mbuf_read|intros; apply keeps_ret]|intros len].
  apply keeps_bind; [apply keeps_bind; [apply keeps_require|intros; apply keeps_ret]|intros k'].
  destruct (_ || _); [|apply IH]. apply keeps_bind; [apply keeps_queue_packet|intros k2].
  apply keeps_bind; [|intros; apply IH]. destruct (negb _); [apply keeps_op, Hspares|apply keeps_ret].
Qed.

Lemma wlp_sendpages mss goal oob notlast r s s1 : mss ≠ 0 → goal ≠ 0 →
  Sendpages.user_get_buffer goal s = Done (r, s1) →
  wlp (do_tcp_sendpages mss goal oob notlast) (λ _ s', spares i p ring s1 s') s.
Proof.
  intros Hm Hg Hget. unfold do_tcp_sendpages. rewrite (proj2 (Z.eqb_neq _ _) Hm), (proj2 (Z.eqb_neq _ _) Hg). cbn [orb].
  rewrite wlp_bind. unfold wlp at 1. rewrite Hget. destruct r as [q copy].
  match goal with |- wlp ?m _ _ => enough (keeps (spares i p ring s1) m) as Hk by exact (Hk s1 (spares_refl s1)) end.
  destruct (q =? 0); [apply keeps_ret|]. apply keeps_bind; [apply keeps_gets|intros fu].
  apply keeps_bind; [apply keeps_sendpages_loop|intros ok].
  apply keeps_bind; [destruct (_ && _); [apply keeps_op, Hspares|apply keeps_ret]|intros; apply keeps_ret].
Qed.

Hypothesis Hp : p ≠ 0.
Hypothesis Hfed : fed_by_service fuel p.

Lemma svc_of_mk (v : svc K) t : svc_of (mk_sender (sv_shm v) t v) = v.
Proof. unfold svc_of. cbn. by destruct v. Qed.

(** What the service gives, and the state then. *)
Record fetched (c : chan) (lens : list Z) (so : socket) (ld : local_socket_descriptor) (blk : ipaugenblick_socket)
    (k : nat) (y : txsys K) (s1 : sender (svc K)) : Prop := {
  ft_chain : chain (mbufs (sn_shm s1)) (default 0 (head (take k (ch_q c)))) (take k (ch_q c));
  ft_linked : tx_linked (mk_chan (ch_cap c) (ch_wm c) (drop k (ch_q c))) (drop k lens) so ld blk (mk_txsys s1 (x_app y));
  ft_tcp : sn_tcp s1 = sn_tcp (x_sender y);
  ft_len x : x ∈ ch_q c → len_of (mbufs (sn_shm s1)) x = len_of (mbufs (sn_shm (x_sender y))) x;
  ft_live x b : x ∈ ch_q c → mbufs (sn_shm s1) !! x = Some b → 0 < mb_refcnt b;
}.

Lemma wp_fetch goal c lens so ld blk y : tx_linked c lens so ld blk y →
  ∃ s1, Sendpages.user_get_buffer goal (x_sender y) =
      Done ((default 0 (head (take (wanted goal lens) (ch_q c))), goal - total (take (wanted goal lens) lens)), s1) ∧
    fetched c lens so ld blk (wanted goal lens) y s1.
Proof.
  intros L. pose proof L as [L1 L2 L3 L4 L5 L6 L7 L8 L9]. rewrite Hfed. set (s := x_sender y) in *.
  assert (length lens = length (ch_q c)) as Hlen by (symmetry; by eapply Forall2_length, (sd_bufs _ _ _ _ _ _ L1)).
  pose proof (chan_bounded _ _ _ (sd_ok _ _ _ _ _ _ L1) (sd_chan _ _ _ _ _ _ L1)) as Hcap.
  pose proof (wp_user_get_buffer i p so d ring c lens fuel goal (svc_of s) L1 L2 Hp L3 L7) as Hw.
  assert (∀ x, x ∈ ch_q c → ∃ b, mbufs (sv_shm (svc_of s)) !! x = Some b ∧ mb_next b = 0) as Hnext
    by (intros x Hx; destruct (L8 x Hx) as (_ & b & Hb & Hn & _); by exists b).
  specialize (Hw Hnext ltac:(unfold zlen in Hcap; lia)). clear Hnext. set (k := wanted goal lens) in *.
  apply wp_returns in Hw as (r & v & Hrun & -> & Hc & Hring & Hms & [F1 F2 F3 F4 F5 F6 F7]).
  change (mbufs (sv_shm (svc_of s))) with (mbufs (sn_shm s)) in Hms.
  exists (mk_sender (sv_shm v) (sn_tcp s) v). unfold by_service. rewrite Hrun. split; [done|].
  assert (∀ x, x ∉ take k (ch_q c) → mbufs (sv_shm v) !! x = mbufs (sn_shm s) !! x) as Hother
    by (intros x Hx; rewrite Hms; by apply chained_other).
  assert (NoDup (take k (ch_q c) ++ drop k (ch_q c))) as (_ & Hdis & Hnd2)%NoDup_app by by rewrite take_drop.
  assert (∀ x, x ∈ drop k (ch_q c) → x ∈ ch_q c ∧ mbufs (sv_shm v) !! x = mbufs (sn_shm s) !! x) as Hrest.
  { intros x Hx. split; [rewrite <- (take_drop k); apply elem_of_app; by right|]. apply Hother. intros Hin. by apply (Hdis x). }
  split; cbn [sn_shm sn_tcp].
  - exact Hc.
  - pose proof L1 as [B1 B2 B3 B4 B5]. pose proof L4 as [C1 C2 C3 C4 C5 C6 C7].
    split; cbn [x_sender x_app sn_shm sn_tcp sn_private ch_q ch_cap ch_wm]; rewrite ?svc_of_mk; try done.
    + split; [by rewrite F1|done|by apply F7|exact Hring|]. cbn [ch_q].
      apply (Forall2_drop _ _ _ k) in B5. clear -B5 Hrest. induction B5 as [|x n q ns (Hx0 & bx & Hbx & Hn) _ IH]; constructor.
      * split; [done|]. exists bx. by rewrite (proj2 (Hrest x ltac:(left))).
      * apply IH. intros z Hz. apply Hrest. by right.
    + by rewrite F2.
    + split; try done; cbn; [by rewrite F5|by apply F7].
    + intros x Hx. destruct (Hrest x Hx) as [Hin ->]. by apply L8.
  - done.
  - intros x Hx. rewrite Hms. apply len_of_chained. destruct (L8 x Hx) as (_ & b & Hb & _). by exists b.
  - intros x b Hx. rewrite Hms. destruct (L8 x Hx) as (_ & b0 & Hb0 & _ & Hlive).
    destruct (chained_data (take k (ch_q c)) _ x b0 Hb0) as (b' & Hb' & _ & Hr). intros Hb.
    rewrite Hb in Hb'. injection Hb' as <-. by rewrite Hr.
Qed.

(** What a call of the sender does. *)
Definition pull_done (mss goal : Z) (y : txsys K) (n : Z) (y' : txsys K) (ks : list tcp_pkt) : Prop :=
  tx_ok y' ∧ write_queue (sn_tcp (x_sender y')) = write_queue (sn_tcp (x_sender y)) ++ ks ∧
  on_ring ring y = carried ks ++ on_ring ring y' ∧ n = bytes (carried ks) ∧
  wrap32 (write_seq (sn_tcp (x_sender y'))) = wrap32 (write_seq (sn_tcp (x_sender y)) + n) ∧
  (mss ≠ 0 → 1448 ≤ goal → on_ring ring y ≠ [] → carried ks ≠ []).

Lemma pull_nothing mss goal y s1 : tx_ok (mk_txsys s1 (x_app y)) → sn_tcp s1 = sn_tcp (x_sender y) →
  on_ring ring (mk_txsys s1 (x_app y)) = on_ring ring y →
  (mss ≠ 0 → 1448 ≤ goal → on_ring ring y = []) →
  pull_done mss goal y 0 (mk_txsys s1 (x_app y)) [].
Proof.
  intros Hok Ht Hon Hn. split_and!; [done| | |done| |].
  - cbn. by rewrite Ht, app_nil_r.
  - by rewrite Hon.
  - cbn. by rewrite Ht, Z.add_0_r.
  - intros H1' H2' H3'. by destruct H3'; apply Hn.
Qed.

Lemma fetched_lens c lens so ld blk k y s1 : tx_linked c lens so ld blk y → fetched c lens so ld blk k y s1 →
  (λ x, (x, len_of (mbufs (sn_shm s1)) x)) <$> take k (ch_q c) =
    (λ x, (x, len_of (mbufs (sn_shm (x_sender y))) x)) <$> take k (ch_q c) ∧
  total (take k lens) = frag_bytes (mbufs (sn_shm s1)) (take k (ch_q c)) ∧
  on_ring ring (mk_txsys s1 (x_app y)) =
    (λ x, (x, len_of (mbufs (sn_shm (x_sender y))) x)) <$> drop k (ch_q c).
Proof.
  intros L F. pose proof F as [_ F2 _ F4 _].
  assert (∀ j x, take k (ch_q c) !! j = Some x → x ∈ ch_q c) as Ht
    by (intros j x Hx%list_elem_of_lookup_2; rewrite <- (take_drop k); apply elem_of_app; by left).
  assert (∀ j x, drop k (ch_q c) !! j = Some x → x ∈ ch_q c) as Hd
    by (intros j x Hx%list_elem_of_lookup_2; rewrite <- (take_drop k); apply elem_of_app; by right).
  split_and!.
  - apply list_fmap_ext. intros j x Hx. by rewrite F4 by by eapply Ht.
  - rewrite frag_bytes_total. rewrite (linked_lens _ _ _ _ _ _ L) at 1. rewrite <- fmap_take. f_equal.
    apply list_fmap_ext. intros j x Hx. by rewrite F4 by by eapply Ht.
  - rewrite (linked_on_ring _ _ _ _ _ _ F2). cbn. apply list_fmap_ext. intros j x Hx. by rewrite F4 by by eapply Hd.
Qed.

Lemma wp_pull mss goal oob notlast y : tx_ok y →
  wp (on_tcp (do_tcp_sendpages mss goal oob notlast)) (λ n y', ∃ ks, pull_done mss goal y n y' ks) y.
Proof.
  intros (c & lens & so & ld & blk & L). apply wp_on_tcp.
  destruct (decide (mss = 0 ∨ goal = 0)) as [Hz|[Hmss Hgoal]%Decidable.not_or].
  { unfold do_tcp_sendpages. assert ((mss =? 0) || (goal =? 0) = true) as -> by (destruct Hz as [->| ->]; [done|apply orb_true_r]).
    rewrite wp_ret. exists []. apply pull_nothing; [|done|by destruct y|intros; lia].
    destruct y. by exists c, lens, so, ld, blk. }
  destruct (wp_fetch goal c lens so ld blk y L) as (s1 & Hget & F). set (k := wanted goal lens) in *.
  destruct (fetched_lens _ _ _ _ _ _ _ _ L F) as (E1 & E2 & E3). pose proof F as [F1 F2 F3 F4 F5].
  pose proof (linked_on_ring _ _ _ _ _ _ L) as Hon.
  assert (length lens = length (ch_q c)) as Hlen
    by (symmetry; by eapply Forall2_length, (sd_bufs _ _ _ _ _ _ (xl_sending _ _ _ _ _ _ L))).
  assert (1448 ≤ goal → ch_q c ≠ [] → take k (ch_q c) ≠ []) as Hsome.
  { intros Hg Hne. unfold k. destruct (ch_q c), lens; try done. cbn [wanted]. rewrite (proj2 (Z.leb_le _ _)) by done. done. }
  destruct (decide (take k (ch_q c) = [])) as [Hnil|Hnil].
  - unfold do_tcp_sendpages. rewrite (proj2 (Z.eqb_neq _ _) Hmss), (proj2 (Z.eqb_neq _ _) Hgoal). cbn [orb].
    rewrite wp_bind. unfold wp at 1. rewrite Hget, Hnil. cbn [head default Z.eqb]. rewrite wp_ret. exists [].
    apply pull_nothing; [do 5 eexists; exact F2|done| |].
    + rewrite E3, Hon. rewrite <- (take_drop k (ch_q c)) at 2. by rewrite Hnil.
    + intros _ Hg. rewrite Hon. destruct (ch_q c) eqn:Ec; [done|]. by destruct Hsome.
  - set (l := take k (ch_q c)) in *.
    assert (∀ q, q ∈ l → q ∈ ch_q c) as Hlq by (intros q Hq; rewrite <- (take_drop k); apply elem_of_app; by left).
    pose proof (wp_do_tcp_sendpages mss goal oob notlast _ _ l (x_sender y) s1 Hmss Hgoal Hget Hnil F1) as Hw.
    specialize (Hw ltac:(intros q b Hq; by apply F5, Hlq)).
    specialize (Hw ltac:(intros q Hq; rewrite F3; by apply (xl_waiting _ _ _ _ _ _ L), Hlq) ltac:(rewrite <- E2; lia)).
    pose proof (wlp_sendpages mss goal oob notlast _ _ _ Hmss Hgoal Hget) as Hsp.
    apply wp_returns in Hw as (n & s' & Hrun & s2 & -> & (_ & (ks & Hks & Hpk) & _) & Ht & _ & Ho).
    pose proof (wlp_done _ _ _ _ _ Hsp Hrun) as Hs. unfold wp. rewrite Hrun. exists ks.
    pose proof (packed_carried _ _ _ _ _ _ Hpk) as Hcar.
    assert (∀ x, x ∈ drop k (ch_q c) → mbufs (sn_shm s') !! x = mbufs (sn_shm s1) !! x ∧ x ∉ queued (sn_tcp s')) as Hrest.
    { intros x Hx. destruct (xl_waiting _ _ _ _ _ _ F2 x Hx) as (Hq & b & Hb & _ & Hlive). cbn in Hq, Hb. rewrite Hb.
      apply Ho; [done..| |done]. intros Hin. pose proof (xl_nodup _ _ _ _ _ _ L) as Hnd.
      rewrite <- (take_drop k) in Hnd. apply NoDup_app in Hnd as (_ & Hd & _). by apply (Hd x). }
    split_and!.
    + do 5 eexists. by apply (linked_spares _ _ _ _ _ (mk_txsys s1 (x_app y)) s' F2).
    + cbn. by rewrite Ht, Hks, F3.
    + rewrite Hcar, E1. pose proof (on_ring_spares _ _ _ _ _ (mk_txsys s1 (x_app y)) s' F2 Hs) as Hors.
      cbn [x_app] in Hors. rewrite Hors by (intros x Hx; by apply Hrest). rewrite E3, Hon, <- fmap_app. unfold l. by rewrite take_drop.
    + by rewrite Hcar, bytes_lens.
    + cbn. rewrite Ht, (packed_seq _ _ _ _ _ _ Hpk). by rewrite F3.
    + intros _ Hg Hne. rewrite Hcar. by destruct l.
Qed.
(** *** The rest of the stack works *)

Lemma works_ok y s' : tx_ok y → works i p ring (x_sender y) s' →
  tx_ok (mk_txsys s' (x_app y)) ∧ on_ring ring (mk_txsys s' (x_app y)) = on_ring ring y.
Proof.
  intros (c & lens & so & ld & blk & L) (Hs & _ & Hq & Hb).
  assert (∀ x, x ∈ ch_q c → mbufs (sn_shm s') !! x = mbufs (sn_shm (x_sender y)) !! x ∧ x ∉ queued (sn_tcp s')) as Hx.
  { intros x Hx. destruct (xl_waiting _ _ _ _ _ _ L x Hx) as (Hn & b & Hxb & _ & Hlive).
    split; [rewrite Hxb; by apply Hb|]. intros Hin. by apply Hn, Hq. }
  split; [do 5 eexists; by eapply linked_spares|]. eapply on_ring_spares; [done..|]. intros x Hin. by apply Hx.
Qed.

(** ** The stream *)

Lemma step_fifo y l y' : txstep i p sock ring y l y' → tx_ok y →
  tx_ok y' ∧ on_ring ring y ++ accepted [l] = pulled [l] ++ on_ring ring y' ∧
  wrap32 (write_seq (sn_tcp (x_sender y'))) = wrap32 (write_seq (sn_tcp (x_sender y)) + bytes (pulled [l])).
Proof.
  intros [b off len ret y0 y1 Hb Hlen Hrun|mss goal oob notlast n ks y0 y1 Hrun Hks|s' y0 Hw] Hok.
  - pose proof (wp_result _ _ _ _ _ (wp_send_step _ _ off _ Hok Hb Hlen) Hrun) as (Hok' & Ht & ->).
    unfold accepted. cbn. rewrite Ht, app_nil_r. split_and!; [done|by destruct (ret =? 0)|by rewrite Z.add_0_r].
  - pose proof (wp_result _ _ _ _ _ (wp_pull mss goal oob notlast _ Hok) Hrun) as (ks' & Hok' & Hks' & Hon & Hn & Hseq & _).
    assert (ks' = ks) as -> by (rewrite Hks in Hks'; by apply app_inv_head in Hks').
    assert (pulled [Pulled ks] = carried ks) as -> by (unfold pulled; cbn; by rewrite app_nil_r).
    rewrite <- Hn. change (accepted [Pulled ks]) with ([] : list (Z * Z)). by rewrite app_nil_r.
  - destruct (works_ok _ _ Hok Hw) as [Hok' Hon]. destruct Hw as (_ & Hseq & _). cbn [x_sender].
    split_and!; [done|by rewrite Hon, app_nil_r|by rewrite Hseq, Z.add_0_r].
Qed.

Lemma bytes_app l1 l2 : bytes (l1 ++ l2) = bytes l1 + bytes l2.
Proof.
  unfold bytes. rewrite fmap_app. generalize (l1.*2) as a. intros a. unfold total.
  induction a as [|n a IH]; [done|]. cbn. rewrite IH. lia.
Qed.

Lemma run_fifo y ls y' : txrun i p sock ring y ls y' → tx_ok y →
  tx_ok y' ∧ on_ring ring y ++ accepted ls = pulled ls ++ on_ring ring y' ∧
  wrap32 (write_seq (sn_tcp (x_sender y'))) = wrap32 (write_seq (sn_tcp (x_sender y)) + bytes (pulled ls)).
Proof.
  induction 1 as [y|y l y1 ls y2 Hst _ IH]; intros Hok.
  - split_and!; [done|by rewrite app_nil_r|by rewrite Z.add_0_r].
  - destruct (step_fifo _ _ _ Hst Hok) as (Hok1 & E1 & S1). destruct (IH Hok1) as (Hok2 & E2 & S2).
    assert (accepted (l :: ls) = accepted [l] ++ accepted ls ∧ pulled (l :: ls) = pulled [l] ++ pulled ls) as [-> ->]
      by (unfold accepted, pulled; cbn; by rewrite !app_nil_r).
    split; [done|]. split.
    + by rewrite app_assoc, E1, <- app_assoc, E2, app_assoc.
    + rewrite S2, bytes_app, Z.add_assoc, <- (wrap32_add_l (write_seq (sn_tcp (x_sender y1)))), S1.
      by rewrite wrap32_add_l.
Qed.


(** ** Draining *)

(** The sender called [n] times; the bytes it says it queued. *)
Fixpoint sendpages_times (n : nat) (mss goal : Z) (oob notlast : bool) : M (txsys K) Z :=
  match n with
  | O => mret 0
  | S n =>
      a ← on_tcp (do_tcp_sendpages mss goal oob notlast);
      b ← sendpages_times n mss goal oob notlast;
      mret (a + b)
  end.

End invariant.

(** ** A connection with one buffer waiting *)

(** The process of [AppData] with its socket 5, which is socket 100 of the service; the
    stack is at rest: packets stay on the write queue. *)
Definition demo_tx_svc : svc unit :=
  mk_svc demo_data_shm {[5 := mk_satelite 100 5 0 (Some (TX_RING 5)) (Some (RX_RING 5)) 77]}
    ∅ ∅ [] [] {[100 := tx_socket <| sk_user_data := Some 5 |>]}
    (mk_glue [] 0 [] 0 [] [] 0 0 0 0 0 0 0 0) (λ _, 0) [] tt.
Definition demo_txsys : txsys unit :=
  mk_txsys (mk_sender demo_data_shm (mk_tcp (2 ^ 32 - 5) []) demo_tx_svc) demo_app.
Definition tx_stack : TcpStack (svc unit) :=
  {| sk_stream_alloc_skb := mret (Some (mk_skb 14 0 0 0 [] 0 0 0 0 0)); push_packet := λ _, mret tt;
     tcp_push := mret tt; user_get_buffer := λ copy, by_service (Callbacks.user_get_buffer 8 100 copy) |}.
Lemma tx_stack_laws : @TcpStackLaws (svc unit) tx_stack.
Proof. split; intros; unfold wp; cbn; [|done..]. split; [done|]. by eexists. Qed.
Lemma tx_stack_spares : @stack_spares unit tx_stack 5 100 (TX_RING 5).
Proof. split; intros; unfold wlp; cbn; by split. Qed.

Lemma demo_tx_ok : tx_ok 8 5 100 5 5 (TX_RING 5) (mk_satelite 100 5 0 (Some (TX_RING 5)) (Some (RX_RING 5)) 77) demo_txsys.
Proof.
  exists demo_tx, [10], (tx_socket <| sk_user_data := Some 5 |>), (demo_lsd 5 2), (mk_socket 5 1 1 0 0 0 14480).
  split; try done.
  - split; [done|done|apply demo_data_rings|done|]. repeat constructor; done || (eexists; by split).
  - apply demo_connected.
  - apply demo_cache_ok.
  - apply demo_wired.
  - apply NoDup_singleton.
  - intros x Hx%list_elem_of_singleton. subst x. split; [apply not_elem_of_nil|]. by eexists.
Qed.

(** Buffer 22 is sent with 200 bytes behind the 10 of buffer 24; the sender queues both. *)
Definition demo_after {A} (m : M (txsys unit) A) (y : txsys unit) : txsys unit :=
  match m y with Done (_, y') => y' | _ => y end.
Definition demo_tx1 : txsys unit := demo_after (on_app (ipaugenblick_send 5 22 0 200)) demo_txsys.
Definition demo_tx2 : txsys unit := demo_after (on_tcp (@do_tcp_sendpages (svc unit) tx_stack 1460 65000 false false)) demo_tx1.
Definition demo_labels : list txlabel := [Sent 22 200 0; Pulled (write_queue (sn_tcp (x_sender demo_tx2)))].

Lemma demo_txrun : @txrun unit tx_stack 5 100 5 (TX_RING 5) demo_txsys demo_labels demo_tx2.
Proof.
  eapply (txrun_cons _ _ _ _ _ _ demo_tx1); [|eapply (txrun_cons _ _ _ _ _ _ demo_tx2); [|constructor]].
  - apply (tx_send _ _ _ _ 22 0 200); [|done|by vm_compute]. split; [done|]. split; [by eexists|].
    split; [|apply not_elem_of_nil]. change (22 ∉ [24]). by apply (bool_decide_unpack (22 ∉ [24])).
  - apply (tx_pull _ _ _ _ 1460 65000 false false 210); by vm_compute.
Qed.


