(* ===== verification/InetDev.v ===== *)
(** * The addresses of an interface (net/ipv4/devinet.c)

    The service sets its interfaces up by the ioctls of the ported stack.  This file
    models the part of the stack that carries them out: the list of addresses of an
    interface - [__inet_insert_ifa], [__inet_del_ifa] - and [devinet_ioctl].  The
    notification of routing and netlink, the hash of all addresses and their lifetimes
    are left out; promotion of secondary addresses is always off, since only a sysctl
    could turn it on and the port is built without ([CONFIG_SYSCTL]).

    A network address ([__be32]) is the number its four bytes are as the machine reads
    them; a string is the list of its characters. *)

From stdpp Require Import sorting.
From S2P Require Import Prelude Mbuf DevConfig.

(** ** Addresses and masks *)

Definition ENODEV : Z := 19.
Definition EEXIST : Z := 17.
Definition EADDRNOTAVAIL : Z := 99.
Definition AF_INET : Z := 2.
Definition IFNAMSIZ : nat := 16.
Definition IFF_UP : Z := 1.
Definition IFF_BROADCAST : Z := 2.
Definition IFF_LOOPBACK : Z := 8.
Definition IFF_POINTOPOINT : Z := 16.
Definition RT_SCOPE_HOST : Z := 254.

Record in_ifaddr := mk_ifaddr {
  ifa_local : Z;
  ifa_address : Z;
  ifa_mask : Z;
  ifa_broadcast : Z;
  ifa_scope : Z;
  ifa_prefixlen : Z;
  ifa_secondary : bool;
  ifa_label : list Z;
}.
#[export] Instance eta_ifaddr : Eta in_ifaddr := λ a,
  mk_ifaddr (ifa_local a) (ifa_address a) (ifa_mask a) (ifa_broadcast a) (ifa_scope a)
    (ifa_prefixlen a) (ifa_secondary a) (ifa_label a).

(** Bitwise complement of a [__be32]. *)
Definition not32 (x : Z) : Z := Z.lxor x (2 ^ 32 - 1).

Definition inet_ifa_match (addr : Z) (ifa : in_ifaddr) : bool :=
  Z.land (Z.lxor addr (ifa_address ifa)) (ifa_mask ifa) =? 0.

Definition bad_mask (mask addr : Z) : bool :=
  let mask := not32 mask in
  if negb (Z.land addr mask =? 0) then true
  else
    let hmask := htonl mask in
    negb (Z.land hmask (wrap32 (hmask + 1)) =? 0).

Definition inet_make_mask (logmask : Z) : Z :=
  if logmask =? 0 then 0 else htonl (wrap32 (Z.lnot (Z.shiftl 1 (32 - logmask) - 1))).

(** [ffz(~hmask)] is the number of the lowest bit set. *)
Definition inet_mask_len (mask : Z) : Z :=
  let hmask := htonl mask in
  if hmask =? 0 then 0 else 32 - Z.log2 (Z.land hmask (- hmask)).

Definition ipv4_is_loopback (addr : Z) : bool := Z.land addr (htonl 0xff000000) =? htonl 0x7f000000.
Definition ipv4_is_zeronet (addr : Z) : bool := Z.land addr (htonl 0xff000000) =? htonl 0.

Definition inet_abc_len (addr : Z) : Z :=
  if ipv4_is_zeronet addr then 0
  else
    let haddr := htonl addr in
    if Z.land haddr 0x80000000 =? 0 then 8
    else if Z.land haddr 0xc0000000 =? 0x80000000 then 16
    else if Z.land haddr 0xe0000000 =? 0xc0000000 then 24
    else -1.

(** ** The list of an interface *)

(** The walk of [__inet_insert_ifa]: an error, or where a primary address goes and
    whether the new one is secondary. *)
Fixpoint insert_scan (ifa : in_ifaddr) (l : list in_ifaddr) (i last_primary : nat) (secondary : bool) : Z + nat * bool :=
  match l with
  | [] => inr (last_primary, secondary)
  | ifa1 :: l =>
      let last_primary :=
        if negb (ifa_secondary ifa1) && (ifa_scope ifa <=? ifa_scope ifa1) then S i else last_primary in
      if (ifa_mask ifa1 =? ifa_mask ifa) && inet_ifa_match (ifa_address ifa1) ifa then
        if ifa_local ifa1 =? ifa_local ifa then inl (- EEXIST)
        else if negb (ifa_scope ifa1 =? ifa_scope ifa) then inl (- EINVAL)
        else insert_scan ifa l (S i) last_primary true
      else insert_scan ifa l (S i) last_primary secondary
  end.

(** An address that is refused is freed. *)
Definition __inet_insert_ifa (ifa : in_ifaddr) (l : list in_ifaddr) : Z * list in_ifaddr :=
  if ifa_local ifa =? 0 then (0, l)
  else
    match insert_scan ifa l 0 0 false with
    | inl e => (e, l)
    | inr (_, true) => (0, l ++ [ifa <| ifa_secondary := true |>])
    | inr (k, false) => (0, take k l ++ (ifa <| ifa_secondary := false |>) :: drop k l)
    end.

(** A secondary address of the primary [ifa1]. *)
Definition secondary_of (ifa1 ifa : in_ifaddr) : bool :=
  ifa_secondary ifa && (ifa_mask ifa1 =? ifa_mask ifa) && inet_ifa_match (ifa_address ifa1) ifa.

(** The address at [i] is unlinked; a primary one takes its secondaries with it. *)
Definition __inet_del_ifa (i : nat) (l : list in_ifaddr) : list in_ifaddr :=
  match l !! i with
  | None => l
  | Some ifa1 =>
      take i l ++
        (if ifa_secondary ifa1 then drop (S i) l
         else base.filter (λ ifa, secondary_of ifa1 ifa = false) (drop (S i) l))
  end.

(** ** Devices and requests *)

Record net_device := mk_netdev {
  nd_name : list Z;
  nd_flags : Z;
  nd_mtu : Z;
  nd_gso_max_segs : Z;
  nd_gso_max_size : Z;
  nd_features : Z;
  nd_port : Z;
  nd_forwarding : bool;
  nd_ip : option (list in_ifaddr);
}.
#[export] Instance eta_netdev : Eta net_device := λ d,
  mk_netdev (nd_name d) (nd_flags d) (nd_mtu d) (nd_gso_max_segs d) (nd_gso_max_size d)
    (nd_features d) (nd_port d) (nd_forwarding d) (nd_ip d).

Inductive ioctl :=
  | SIOCGIFADDR | SIOCGIFBRDADDR | SIOCGIFDSTADDR | SIOCGIFNETMASK | SIOCSIFFLAGS
  | SIOCSIFADDR | SIOCSIFBRDADDR | SIOCSIFDSTADDR | SIOCSIFNETMASK.
#[export] Instance ioctl_eq_dec : EqDecision ioctl.
Proof. solve_decision. Defined.

(** [ifr_word] is the first half-word of the union: [sin_family] or [ifr_flags]. *)
Record ifreq := mk_ifreq { ifr_name : list Z; ifr_word : Z; ifr_addr : Z }.
#[export] Instance eta_ifreq : Eta ifreq := λ r, mk_ifreq (ifr_name r) (ifr_word r) (ifr_addr r).

Section state.
Context {K : Type}.
Record ifstate := mk_ifs { if_devs : gmap Z net_device; if_stack : K }.
End state.
Arguments ifstate K : clear implicits.
#[export] Instance eta_ifstate K : Eta (ifstate K) := λ s, mk_ifs (if_devs s) (if_stack s).

(** The rest of the stack: memory for an address, and [dev_change_flags]. *)
Class Links (K : Type) := {
  inet_alloc_ifa : M (ifstate K) bool;
  dev_change_flags : Z → Z → M (ifstate K) Z;
}.

Section ioctl.
Context {K : Type} `{Links K}.

Definition dev_read (p : Z) : M (ifstate K) net_device :=
  d ← gets (λ s, if_devs s !! p); of_option d.
Definition dev_write (p : Z) (f : net_device → net_device) : M (ifstate K) unit :=
  _ ← dev_read p;
  modify (λ s, s <| if_devs := alter f p (if_devs s) |>).

(** Names are unique, so any device of the name is the one. *)
Definition __dev_get_by_name (name : list Z) : M (ifstate K) (option (Z * net_device)) :=
  gets (λ s, snd <$> list_find (λ x, nd_name x.2 = name) (map_to_list (if_devs s))).

(** The address a request is about, with its place. *)
Definition find_ifa (cmd : ioctl) (ifr : ifreq) (l : list in_ifaddr) : option (nat * in_ifaddr) :=
  let tryaddrmatch :=
    bool_decide (cmd ∈ [SIOCGIFADDR; SIOCGIFBRDADDR; SIOCGIFDSTADDR; SIOCGIFNETMASK]) && (ifr_word ifr =? AF_INET) in
  match (if tryaddrmatch : bool then
           list_find (λ a, ifa_label a = ifr_name ifr ∧ ifa_local a = ifr_addr ifr) l
         else None) with
  | Some x => Some x
  | None => list_find (λ a, ifa_label a = ifr_name ifr) l
  end.

Definition inet_del_ifa (p : Z) (i : nat) : M (ifstate K) unit :=
  dev_write p (λ d, d <| nd_ip := __inet_del_ifa i <$> nd_ip d |>).

Definition inet_insert_ifa (p : Z) (ifa : in_ifaddr) : M (ifstate K) Z :=
  d ← dev_read p;
  l ← of_option (nd_ip d);
  let '(ret, l) := __inet_insert_ifa ifa l in
  _ ← dev_write p (λ d, d <| nd_ip := Some l |>);
  mret ret.

Definition inet_set_ifa (p : Z) (ifa : in_ifaddr) : M (ifstate K) Z :=
  d ← dev_read p;
  match nd_ip d with
  | None => mret (- ENOBUFS)
  | Some _ =>
      inet_insert_ifa p (if ipv4_is_loopback (ifa_local ifa) then ifa <| ifa_scope := RT_SCOPE_HOST |> else ifa)
  end.

(** The address with the mask of its class, on a device with the flags [flags]. *)
Definition class_ifa (flags addr : Z) (ifa : in_ifaddr) : in_ifaddr :=
  let ifa := ifa <| ifa_address := addr |> <| ifa_local := addr |> in
  if Z.land flags IFF_POINTOPOINT =? 0 then
    let len := inet_abc_len addr in
    let ifa := ifa <| ifa_prefixlen := len |> <| ifa_mask := inet_make_mask len |> in
    if negb (Z.land flags IFF_BROADCAST =? 0) && (len <? 31)
    then ifa <| ifa_broadcast := Z.lor addr (not32 (ifa_mask ifa)) |> else ifa
  else ifa <| ifa_prefixlen := 32 |> <| ifa_mask := inet_make_mask 32 |>.

(** The address with another mask; a broadcast address that goes with the old one follows. *)
Definition masked_ifa (flags mask : Z) (ifa : in_ifaddr) : in_ifaddr :=
  let old_mask := ifa_mask ifa in
  let ifa := ifa <| ifa_mask := mask |> <| ifa_prefixlen := inet_mask_len mask |> in
  if negb (Z.land flags IFF_BROADCAST =? 0) && (ifa_prefixlen ifa <? 31) &&
     (ifa_broadcast ifa =? Z.lor (ifa_local ifa) (not32 old_mask))
  then ifa <| ifa_broadcast := Z.lor (ifa_local ifa) (not32 mask) |> else ifa.

(** *** The cases of [devinet_ioctl] that change an address *)

Definition set_if_addr (p : Z) (dev : net_device) (found : option (nat * in_ifaddr)) (label : list Z) (addr : Z)
    : M (ifstate K) Z :=
  if inet_abc_len addr <? 0 then mret (- EINVAL)
  else
    match found with
    | None =>
        ok ← inet_alloc_ifa;
        if negb ok then mret (- ENOBUFS)
        else inet_set_ifa p (class_ifa (nd_flags dev) addr (mk_ifaddr 0 0 0 0 0 0 false label))
    | Some (i, ifa) =>
        if ifa_local ifa =? addr then mret 0
        else
          _ ← inet_del_ifa p i;
          inet_set_ifa p (class_ifa (nd_flags dev) addr (ifa <| ifa_broadcast := 0 |> <| ifa_scope := 0 |>))
    end.

(** What the insertions below return is not looked at. *)
Definition set_if_brdaddr (p : Z) (i : nat) (ifa : in_ifaddr) (addr : Z) : M (ifstate K) Z :=
  if ifa_broadcast ifa =? addr then mret 0
  else
    _ ← inet_del_ifa p i;
    _ ← inet_insert_ifa p (ifa <| ifa_broadcast := addr |>);
    mret 0.

Definition set_if_dstaddr (p : Z) (i : nat) (ifa : in_ifaddr) (addr : Z) : M (ifstate K) Z :=
  if ifa_address ifa =? addr then mret 0
  else if inet_abc_len addr <? 0 then mret (- EINVAL)
  else
    _ ← inet_del_ifa p i;
    _ ← inet_insert_ifa p (ifa <| ifa_address := addr |>);
    mret 0.

Definition set_if_netmask (p : Z) (dev : net_device) (i : nat) (ifa : in_ifaddr) (mask : Z) : M (ifstate K) Z :=
  if bad_mask mask 0 then mret (- EINVAL)
  else if ifa_mask ifa =? mask then mret 0
  else
    _ ← inet_del_ifa p i;
    _ ← inet_insert_ifa p (masked_ifa (nd_flags dev) mask ifa);
    mret 0.

Definition set_if_flags (p : Z) (colon : bool) (found : option (nat * in_ifaddr)) (flags : Z) : M (ifstate K) Z :=
  if colon then
    match found with
    | None => mret (- EADDRNOTAVAIL)
    | Some (i, _) =>
        _ ← (if Z.land flags IFF_UP =? 0 then inet_del_ifa p i else mret tt);
        mret 0
    end
  else dev_change_flags p flags.

(** The second half of [devinet_ioctl]: the request carried out on the device found.  It is
    copied back by the cases that read an address. *)
Definition ioctl_on (p : Z) (dev : net_device) (colon : bool) (cmd : ioctl) (ifr arg : ifreq) : M (ifstate K) (Z * ifreq) :=
  let found := nd_ip dev ≫= find_ifa cmd ifr in
  let got (v : Z) := mret (0, ifr <| ifr_word := AF_INET |> <| ifr_addr := v |>) in
  let done (m : M (ifstate K) Z) := ret ← m; mret (ret, arg) in
  match cmd, found with
  | SIOCSIFFLAGS, _ => done (set_if_flags p colon found (ifr_word ifr))
  | SIOCSIFADDR, _ =>
      done (set_if_addr p dev found (if colon then ifr_name ifr else nd_name dev) (ifr_addr ifr))
  | _, None => mret (- EADDRNOTAVAIL, arg)
  | SIOCGIFADDR, Some (_, ifa) => got (ifa_local ifa)
  | SIOCGIFBRDADDR, Some (_, ifa) => got (ifa_broadcast ifa)
  | SIOCGIFDSTADDR, Some (_, ifa) => got (ifa_address ifa)
  | SIOCGIFNETMASK, Some (_, ifa) => got (ifa_mask ifa)
  | SIOCSIFBRDADDR, Some (i, ifa) => done (set_if_brdaddr p i ifa (ifr_addr ifr))
  | SIOCSIFDSTADDR, Some (i, ifa) => done (set_if_dstaddr p i ifa (ifr_addr ifr))
  | SIOCSIFNETMASK, Some (i, ifa) => done (set_if_netmask p dev i ifa (ifr_addr ifr))
  end.

Definition devinet_ioctl (cmd : ioctl) (arg : ifreq) : M (ifstate K) (Z * ifreq) :=
  let ifr := arg <| ifr_name := take (IFNAMSIZ - 1) (ifr_name arg) |> in
  let '(base, rest) := span (λ c, negb (c =? 58)) (ifr_name ifr) in
  let colon := negb (bool_decide (rest = [])) in
  if bool_decide (cmd ∈ [SIOCSIFADDR; SIOCSIFBRDADDR; SIOCSIFDSTADDR; SIOCSIFNETMASK]) && negb (ifr_word ifr =? AF_INET)
  then mret (- EINVAL, arg)
  else
    o ← __dev_get_by_name base;
    match o with
    | None => mret (- ENODEV, arg)
    | Some (p, dev) => ioctl_on p dev colon cmd ifr arg
    end.
End ioctl.

(** ** Well-formed lists *)

Definition same_subnet (a b : in_ifaddr) : Prop :=
  ifa_mask a = ifa_mask b ∧ Z.land (Z.lxor (ifa_address a) (ifa_address b)) (ifa_mask b) = 0.

(** Of the addresses of a subnet the later ones are secondary; all have one scope and
    differ. *)
Definition in_order (a b : in_ifaddr) : Prop :=
  same_subnet a b → ifa_secondary b = true ∧ ifa_local a ≠ ifa_local b ∧ ifa_scope a = ifa_scope b.

Record ifas_ok (l : list in_ifaddr) : Prop := {
  io_order : StronglySorted in_order l;
  io_primary b : b ∈ l → ifa_secondary b = true → ∃ a, a ∈ l ∧ same_subnet a b ∧ ifa_secondary a = false;
  io_labels : NoDup (ifa_label <$> l);
}.

Lemma same_subnet_sym a b : same_subnet a b → same_subnet b a.
Proof. intros [Hm Hx]. split; [done|]. rewrite Z.lxor_comm, Hm. exact Hx. Qed.

Lemma land_lxor a b m : Z.land (Z.lxor a b) m = Z.lxor (Z.land a m) (Z.land b m).
Proof. apply Z.bits_inj'. intros n _. rewrite !Z.land_spec, !Z.lxor_spec, !Z.land_spec. by destruct (Z.testbit a n), (Z.testbit b n), (Z.testbit m n). Qed.

Lemma same_subnet_iff a b :
  same_subnet a b ↔ ifa_mask a = ifa_mask b ∧ Z.land (ifa_address a) (ifa_mask a) = Z.land (ifa_address b) (ifa_mask b).
Proof.
  unfold same_subnet. split; intros [Hm Hx]; (split; [done|]).
  - rewrite land_lxor, Z.lxor_eq_0_iff in Hx. by rewrite Hm.
  - rewrite land_lxor, Z.lxor_eq_0_iff. by rewrite <- Hm at 1.
Qed.
Lemma same_subnet_trans a b c : same_subnet a b → same_subnet b c → same_subnet a c.
Proof. rewrite !same_subnet_iff. intros [-> ->] [-> ->]. done. Qed.

(** The test both walks make. *)
Lemma match_subnet a b :
  (ifa_mask a =? ifa_mask b) && inet_ifa_match (ifa_address a) b = true ↔ same_subnet a b.
Proof. unfold inet_ifa_match, same_subnet. rewrite andb_true_iff, !Z.eqb_eq. done. Qed.

Lemma StronglySorted_sublist {A} (R : relation A) l1 l2 :
  sublist l1 l2 → StronglySorted R l2 → StronglySorted R l1.
Proof.
  induction 1 as [|x l1 l2 Hl IH|x l1 l2 Hl IH]; [done| |]; rewrite ?StronglySorted_cons; intros [Hx Hs].
  - split; [|by apply IH]. rewrite !Forall_forall in *. intros y Hy. apply Hx. by eapply elem_of_sublist.
  - by apply IH.
Qed.

(** *** Insertion *)

Lemma insert_scan_spec ifa l : ∀ i k sec k' sec', insert_scan ifa l i k sec = inr (k', sec') →
  (∀ a, a ∈ l → same_subnet a ifa → ifa_local a ≠ ifa_local ifa ∧ ifa_scope a = ifa_scope ifa) ∧
  (sec' = true ↔ sec = true ∨ ∃ a, a ∈ l ∧ same_subnet a ifa).
Proof.
  induction l as [|a l IH]; intros i k sec k' sec'; cbn [insert_scan].
  { intros [= _ <-]. split; [by intros a ?%elem_of_nil|]. split; [by left|]. intros [?|(a & ?%elem_of_nil & _)]; done. }
  destruct ((ifa_mask a =? ifa_mask ifa) && inet_ifa_match (ifa_address a) ifa) eqn:Em.
  - apply match_subnet in Em. destruct (Z.eqb_spec (ifa_local a) (ifa_local ifa)) as [|Hl]; [done|].
    destruct (Z.eqb_spec (ifa_scope a) (ifa_scope ifa)) as [Hs|]; [|done]. intros [H1 H2]%IH. split.
    + intros b [->|Hb]%elem_of_cons Hab; [done|by apply H1].
    + rewrite H2. split; intros _; [|by left]. right. exists a. split; [left|done].
  - intros [H1 H2]%IH. assert (¬ same_subnet a ifa) as Hn by (rewrite <- match_subnet, Em; done). split.
    + intros b [->|Hb]%elem_of_cons Hab; [done|by apply H1].
    + rewrite H2. setoid_rewrite elem_of_cons. split; (intros [?|(b & Hb)]; [by left|right]); exists b; naive_solver.
Qed.

Lemma insert_ok ifa l : ifas_ok l → ifa_label ifa ∉ ifa_label <$> l → ifas_ok (__inet_insert_ifa ifa l).2.
Proof.
  intros [Ho Hp Hl] Hnew. unfold __inet_insert_ifa. destruct (_ =? 0); [done|].
  destruct (insert_scan ifa l 0 0 false) as [e|[k sec]] eqn:E; [done|].
  destruct (insert_scan_spec _ _ _ _ _ _ _ E) as [H1 H2]. destruct sec; cbn [snd].
  - destruct (proj1 H2 eq_refl) as [?|(a & Ha & Hs)]; [done|]. split.
    + apply StronglySorted_app. split_and!; [|done|by repeat constructor].
      intros x y Hx ->%list_elem_of_singleton Hxy. split; [done|]. by apply H1.
    + intros b [Hb|Hb%list_elem_of_singleton]%elem_of_app Hsec.
      * destruct (Hp b Hb Hsec) as (c & Hc & ?). exists c. split; [apply elem_of_app; by left|done].
      * subst b. destruct (ifa_secondary a) eqn:Ea.
        -- destruct (Hp a Ha Ea) as (c & Hc & Hca & ?). exists c. split_and!; [apply elem_of_app; by left| |done].
           by eapply same_subnet_trans.
        -- exists a. split_and!; [apply elem_of_app; by left|done..].
    + rewrite fmap_app. apply NoDup_app. split_and!; [done| |apply NoDup_singleton].
      intros x Hx ->%list_elem_of_singleton. by apply Hnew.
  - assert (∀ a, a ∈ l → ¬ same_subnet a ifa) as Hno.
    { intros a Ha Hs. assert (false = true) by (apply H2; right; by exists a). done. }
    rewrite <- (take_drop k l) in Ho, Hl, Hnew. apply StronglySorted_app in Ho as (O1 & O2 & O3).
    assert (∀ x, x ∈ take k l ++ drop k l ↔ x ∈ l) as Hin by (intros; by rewrite take_drop). split.
    + apply StronglySorted_app. split_and!; [|done|].
      * intros x y Hx [->|Hy]%elem_of_cons; [|by apply O1]. intros Hs. destruct (Hno x); [|exact Hs]. apply Hin, elem_of_app. by left.
      * apply StronglySorted_cons. split; [|done]. apply Forall_forall. intros y Hy Hs%same_subnet_sym.
        destruct (Hno y); [|exact Hs]. apply Hin, elem_of_app. by right.
    + intros b. rewrite elem_of_app, elem_of_cons. intros Hb Hsec. assert (b ∈ l) as Hbl.
      { apply Hin, elem_of_app. destruct Hb as [?|[->|?]]; [by left|done|by right]. }
      destruct (Hp b Hbl Hsec) as (a & Ha & ?). exists a. split; [|done]. rewrite elem_of_app, elem_of_cons.
      apply Hin, elem_of_app in Ha as [?|?]; [by left|right; by right].
    + rewrite fmap_app in *. rewrite fmap_cons. apply NoDup_app in Hl as (L1 & L2 & L3). apply not_elem_of_app in Hnew as [N1 N2].
      apply NoDup_app. split_and!; [done| |by apply NoDup_cons]. intros x Hx [->|Hx']%elem_of_cons; [done|by apply (L2 x)].
Qed.

(** *** Deletion *)

Lemma del_sublist i l : sublist (__inet_del_ifa i l) l.
Proof.
  unfold __inet_del_ifa. destruct (l !! i) as [x|] eqn:Hx; [|done]. rewrite <- (take_drop_middle l i x Hx) at 4.
  apply sublist_app; [done|]. apply sublist_cons. destruct (ifa_secondary x); [done|apply sublist_filter].
Qed.

(** What is left is well formed, and has no address with the label of the one deleted. *)
Lemma del_ok i x l : ifas_ok l → l !! i = Some x →
  ifas_ok (__inet_del_ifa i l) ∧ ifa_label x ∉ ifa_label <$> __inet_del_ifa i l.
Proof.
  intros [Ho Hp Hl] Hx. pose proof (del_sublist i l) as Hsub. pose proof (take_drop_middle l i x Hx) as E.
  assert (∀ b, b ∈ __inet_del_ifa i l → b ∈ take i l ∨ b ∈ drop (S i) l) as Hpart.
  { intros b. unfold __inet_del_ifa. rewrite Hx, elem_of_app. destruct (ifa_secondary x); [done|].
    intros [?|[_ ?]%list_elem_of_filter]; [by left|by right]. }
  split; [split|].
  - by eapply StronglySorted_sublist.
  - intros b Hb Hsec. destruct (Hp b) as (a & Ha & Hab & Hprim); [by eapply elem_of_sublist|done|].
    exists a. split; [|done]. unfold __inet_del_ifa in *. rewrite Hx in *.
    rewrite <- E in Ha. apply elem_of_app in Ha as [Ha|Ha]; [apply elem_of_app; by left|].
    apply elem_of_cons in Ha as [->|Ha].
    + exfalso. rewrite Hprim in Hb. apply elem_of_app in Hb as [Hb|[Hns _]%list_elem_of_filter].
      * rewrite <- E in Ho. apply StronglySorted_app in Ho as (Ho & _ & _).
        destruct (Ho b x Hb ltac:(left) (same_subnet_sym _ _ Hab)) as [? _]. congruence.
      * unfold secondary_of in Hns. rewrite Hsec in Hns. cbn in Hns. by rewrite (proj2 (match_subnet x b) Hab) in Hns.
    + apply elem_of_app. right. destruct (ifa_secondary x); [done|]. apply list_elem_of_filter. split; [|done].
      unfold secondary_of. by rewrite Hprim.
  - eapply sublist_NoDup; [exact Hl|]. by apply fmap_sublist.
  - intros (b & Hlab & Hb)%list_elem_of_fmap. rewrite <- E, fmap_app, fmap_cons in Hl.
    apply NoDup_app in Hl as (_ & L2 & [L3 _]%NoDup_cons). rewrite Hlab in *. destruct (Hpart b Hb) as [Hb'|Hb'].
    + apply (L2 (ifa_label b)); [by apply list_elem_of_fmap_2|left].
    + apply L3. by apply list_elem_of_fmap_2.
Qed.

(** ** The ioctls *)

Section rules.
Context {K : Type} `{Links K}.
Implicit Types (s : ifstate K).

Definition with_ifas (p : Z) (l : list in_ifaddr) s : ifstate K :=
  s <| if_devs := alter (λ d, d <| nd_ip := Some l |>) p (if_devs s) |>.

Lemma with_ifas_twice p l1 l2 s : with_ifas p l2 (with_ifas p l1 s) = with_ifas p l2 s.
Proof. unfold with_ifas, set_field. cbn. by rewrite alter_alter_eq. Qed.
Lemma with_ifas_lookup p l d s : if_devs s !! p = Some d →
  if_devs (with_ifas p l s) !! p = Some (d <| nd_ip := Some l |>).
Proof. intros Hd. cbn. by rewrite lookup_alter_eq, Hd. Qed.

Lemma wp_dev_read p d (Q : net_device → ifstate K → Prop) s : if_devs s !! p = Some d → Q d s → wp (dev_read p) Q s.
Proof. intros Hd HQ. unfold dev_read. rewrite wp_bind, wp_gets, Hd. exact HQ. Qed.
Lemma wp_dev_write p f d (Q : unit → ifstate K → Prop) s : if_devs s !! p = Some d →
  Q tt (s <| if_devs := alter f p (if_devs s) |>) → wp (dev_write p f) Q s.
Proof. intros Hd HQ. unfold dev_write. rewrite wp_bind. by eapply wp_dev_read. Qed.

Lemma wp_inet_del_ifa p i d l (Q : unit → ifstate K → Prop) s : if_devs s !! p = Some d → nd_ip d = Some l →
  Q tt (with_ifas p (__inet_del_ifa i l) s) → wp (inet_del_ifa p i) Q s.
Proof.
  intros Hd Hl HQ. apply (wp_dev_write _ _ d); [done|]. unfold with_ifas in HQ.
  rewrite (alter_at _ (λ d, d <| nd_ip := Some (__inet_del_ifa i l) |>) _ _ d Hd); [exact HQ|]. by rewrite Hl.
Qed.

Lemma wp_inet_insert_ifa p ifa d l (Q : Z → ifstate K → Prop) s : if_devs s !! p = Some d → nd_ip d = Some l →
  Q (__inet_insert_ifa ifa l).1 (with_ifas p (__inet_insert_ifa ifa l).2 s) → wp (inet_insert_ifa p ifa) Q s.
Proof.
  intros Hd Hl HQ. unfold inet_insert_ifa. rewrite wp_bind. apply (wp_dev_read _ d); [done|]. rewrite Hl, wp_bind. cbn [of_option].
  rewrite wp_ret. destruct (__inet_insert_ifa ifa l) as [r l']. rewrite wp_bind. by apply (wp_dev_write _ _ d).
Qed.

(** The address as [inet_set_ifa] inserts it. *)
Definition scoped_ifa (ifa : in_ifaddr) : in_ifaddr :=
  if ipv4_is_loopback (ifa_local ifa) then ifa <| ifa_scope := RT_SCOPE_HOST |> else ifa.

Lemma wp_inet_set_ifa p ifa d l (Q : Z → ifstate K → Prop) s : if_devs s !! p = Some d → nd_ip d = Some l →
  Q (__inet_insert_ifa (scoped_ifa ifa) l).1 (with_ifas p (__inet_insert_ifa (scoped_ifa ifa) l).2 s) → wp (inet_set_ifa p ifa) Q s.
Proof.
  intros Hd Hl HQ. unfold inet_set_ifa. rewrite wp_bind. apply (wp_dev_read _ d); [done|]. rewrite Hl.
  by apply (wp_inet_insert_ifa _ _ d l).
Qed.

(** Deletion, then insertion of what the address has become. *)
Lemma wp_replace_ifa p i ifa d l (Q : Z → ifstate K → Prop) s : if_devs s !! p = Some d → nd_ip d = Some l →
  Q (__inet_insert_ifa ifa (__inet_del_ifa i l)).1 (with_ifas p (__inet_insert_ifa ifa (__inet_del_ifa i l)).2 s) →
  wp (_ ← inet_del_ifa p i; inet_insert_ifa p ifa) Q s.
Proof.
  intros Hd Hl HQ. rewrite wp_bind. apply (wp_inet_del_ifa _ _ d l); [done..|].
  eapply (wp_inet_insert_ifa _ _ _ (__inet_del_ifa i l)); [by apply with_ifas_lookup|done|]. by rewrite with_ifas_twice.
Qed.

Lemma replace_ok i x ifa l : ifas_ok l → l !! i = Some x → ifa_label ifa = ifa_label x →
  ifas_ok (__inet_insert_ifa ifa (__inet_del_ifa i l)).2.
Proof. intros Hok Hx Hlab. destruct (del_ok i x l Hok Hx) as [H1 H2]. apply insert_ok; [done|]. by rewrite Hlab. Qed.
End rules.

Class LinksLaws (K : Type) `{Links K} := {
  inet_alloc_ifa_keeps (s : ifstate K) : wp inet_alloc_ifa (λ _ s', if_devs s' = if_devs s) s;
  dev_change_flags_keeps p d flags (s : ifstate K) :
    if_devs s !! p = Some d → Z.land (nd_flags d) IFF_LOOPBACK = 0 →
    wp (dev_change_flags p flags) (λ r s', ∃ f, Z.land f IFF_LOOPBACK = 0 ∧
      (r = 0 → Z.land f IFF_UP = Z.land flags IFF_UP) ∧
      if_devs s' = <[p := d <| nd_flags := f |>]> (if_devs s)) s;
}.

Lemma find_ifa_some cmd ifr l i a : find_ifa cmd ifr l = Some (i, a) → l !! i = Some a ∧ ifa_label a = ifr_name ifr.
Proof.
  unfold find_ifa. destruct (bool_decide _ && _).
  - destruct (list_find _ l) as [[j b]|] eqn:E1.
    + intros [= -> ->]. by apply list_find_Some in E1 as (? & [? _] & _).
    + intros E2. by apply list_find_Some in E2 as (? & ? & _).
  - intros E2. by apply list_find_Some in E2 as (? & ? & _).
Qed.
Lemma find_ifa_none cmd ifr l : find_ifa cmd ifr l = None → ifr_name ifr ∉ ifa_label <$> l.
Proof.
  unfold find_ifa. intros E. assert (list_find (λ a, ifa_label a = ifr_name ifr) l = None) as Hn.
  { destruct (bool_decide _ && _); [|done]. by destruct (list_find _ l). }
  apply list_find_None in Hn. rewrite Forall_forall in Hn. intros (a & Ha & Hin)%list_elem_of_fmap. by apply (Hn a Hin).
Qed.

Lemma wp_then_ret {S A B} (m : M S A) (n : M S B) (r : Z) (Q : S → Prop) (s : S) :
  wp (_ ← m; n) (λ _ s', Q s') s → wp (_ ← m; _ ← n; mret r) (λ _ s', Q s') s.
Proof. rewrite !wp_bind. intros Hm. eapply wp_mono; [exact Hm|]. intros a s'. rewrite wp_bind. done. Qed.

Lemma span_parts p l a b : span p l = (a, b) → l = a ++ b.
Proof.
  revert a b. induction l as [|c l IH]; intros a b; cbn [span]; [by intros [= <- <-]|].
  destruct (p c); [|by intros [= <- <-]]. destruct (span p l) as [a' b']. intros [= <- <-]. cbn. f_equal. by apply IH.
Qed.

(** ** The invariant *)

Definition dev_ok (d : net_device) : Prop :=
  Z.land (nd_flags d) IFF_LOOPBACK = 0 ∧ ∀ l, nd_ip d = Some l → ifas_ok l.

Section invariant.
Context {K : Type} `{LinksLaws K}.
Implicit Types (s : ifstate K).

Definition ifs_ok s : Prop := map_Forall (λ _ d, dev_ok d) (if_devs s).

(** Device [p], which was [d], is another now; the rest is as it was. *)
Definition one_changed (p : Z) (d : net_device) s s' : Prop :=
  ∃ d', dev_ok d' ∧ nd_name d' = nd_name d ∧ if_devs s' = <[p := d']> (if_devs s).

Lemma unchanged p d s s' : if_devs s !! p = Some d → dev_ok d → if_devs s' = if_devs s → one_changed p d s s'.
Proof. intros Hd Hok E. exists d. split_and!; [done..|]. by rewrite E, insert_id. Qed.
Lemma changed_ifas p d l s s' : if_devs s !! p = Some d → dev_ok d → ifas_ok l → if_devs s' = if_devs s →
  one_changed p d s (with_ifas p l s').
Proof.
  intros Hd [Hf _] Hl E. exists (d <| nd_ip := Some l |>). split; [|split; [done|]].
  - split; [done|]. by intros ? [= <-].
  - unfold with_ifas. cbn. rewrite E. by rewrite (alter_insert_lookup _ _ _ d Hd).
Qed.

(** An address is replaced by one with the same label, or a new one is put in. *)
Lemma wp_replaced p i x ifa d l s : if_devs s !! p = Some d → dev_ok d → nd_ip d = Some l → l !! i = Some x →
  ifa_label ifa = ifa_label x →
  wp (_ ← inet_del_ifa p i; inet_insert_ifa p ifa) (λ _ s', one_changed p d s s') s.
Proof.
  intros Hd Hok Hl Hx Hlab. apply (wp_replace_ifa _ _ _ d l); [done..|]. apply changed_ifas; [done..| |done].
  apply (replace_ok i x); [by apply Hok|done..].
Qed.

Lemma class_ifa_label flags addr ifa : ifa_label (class_ifa flags addr ifa) = ifa_label ifa.
Proof. unfold class_ifa. by repeat case_match. Qed.
Lemma masked_ifa_label flags mask ifa : ifa_label (masked_ifa flags mask ifa) = ifa_label ifa.
Proof. unfold masked_ifa. by repeat case_match. Qed.
Lemma scoped_ifa_label ifa : ifa_label (scoped_ifa ifa) = ifa_label ifa.
Proof. unfold scoped_ifa. by case_match. Qed.

Lemma wp_set_if_addr p d found label addr s : if_devs s !! p = Some d → dev_ok d →
  match found with
  | Some (i, x) => ∃ l, nd_ip d = Some l ∧ l !! i = Some x
  | None => ∀ l, nd_ip d = Some l → label ∉ ifa_label <$> l
  end →
  wp (set_if_addr p d found label addr) (λ _ s', one_changed p d s s') s.
Proof.
  intros Hd Hok Hfound. unfold set_if_addr. destruct (_ <? 0); [rewrite wp_ret; by apply unchanged|].
  destruct found as [[i x]|].
  - destruct Hfound as (l & Hl & Hx). destruct (_ =? addr); [rewrite wp_ret; by apply unchanged|].
    rewrite wp_bind. apply (wp_inet_del_ifa _ _ d l); [done..|].
    eapply (wp_inet_set_ifa _ _ _ (__inet_del_ifa i l)); [by apply with_ifas_lookup|done|]. rewrite with_ifas_twice.
    apply changed_ifas; [done..| |done]. apply (replace_ok i x); [by apply Hok|done|].
    by rewrite scoped_ifa_label, class_ifa_label.
  - rewrite wp_bind. eapply wp_mono; [apply inet_alloc_ifa_keeps|]. intros ok s1 E. cbn beta in E.
    destruct ok; cbn [negb]; [|rewrite wp_ret; by apply unchanged].
    destruct (nd_ip d) as [l|] eqn:Hl.
    + apply (wp_inet_set_ifa _ _ d l); [by rewrite E|done|]. apply changed_ifas; [done..| |done].
      apply insert_ok; [by apply Hok|]. rewrite scoped_ifa_label, class_ifa_label. by apply Hfound.
    + unfold inet_set_ifa. rewrite wp_bind. apply (wp_dev_read _ d); [by rewrite E|]. rewrite Hl, wp_ret. by apply unchanged.
Qed.

Lemma wp_set_if_mask p d i x l mask s : if_devs s !! p = Some d → dev_ok d → nd_ip d = Some l → l !! i = Some x →
  wp (set_if_netmask p d i x mask) (λ _ s', one_changed p d s s') s.
Proof.
  intros Hd Hok Hl Hx. unfold set_if_netmask. do 2 (case_match; [rewrite wp_ret; by apply unchanged|]).
  apply wp_then_ret, (wp_replaced p i x _ d l); [done..|apply masked_ifa_label].
Qed.
Lemma wp_set_if_brd p d i x l addr s : if_devs s !! p = Some d → dev_ok d → nd_ip d = Some l → l !! i = Some x →
  wp (set_if_brdaddr p i x addr) (λ _ s', one_changed p d s s') s.
Proof.
  intros Hd Hok Hl Hx. unfold set_if_brdaddr. case_match; [rewrite wp_ret; by apply unchanged|].
  by apply wp_then_ret, (wp_replaced p i x _ d l).
Qed.
Lemma wp_set_if_dst p d i x l addr s : if_devs s !! p = Some d → dev_ok d → nd_ip d = Some l → l !! i = Some x →
  wp (set_if_dstaddr p i x addr) (λ _ s', one_changed p d s s') s.
Proof.
  intros Hd Hok Hl Hx. unfold set_if_dstaddr. do 2 (case_match; [rewrite wp_ret; by apply unchanged|]).
  by apply wp_then_ret, (wp_replaced p i x _ d l).
Qed.

Lemma wp_set_if_flags p d colon found flags s : if_devs s !! p = Some d → dev_ok d →
  match found with Some (i, x) => ∃ l, nd_ip d = Some l ∧ l !! i = Some x | None => True end →
  wp (set_if_flags p colon found flags) (λ _ s', one_changed p d s s') s.
Proof.
  intros Hd Hok Hfound. unfold set_if_flags. destruct colon.
  - destruct found as [[i x]|]; [|rewrite wp_ret; by apply unchanged]. destruct Hfound as (l & Hl & Hx). rewrite wp_bind.
    destruct (_ =? 0); [|rewrite !wp_ret; by apply unchanged]. apply (wp_inet_del_ifa _ _ d l); [done..|].
    rewrite wp_ret. apply changed_ifas; [done..| |done]. apply (del_ok i x); [by apply Hok|done].
  - eapply wp_mono; [by apply dev_change_flags_keeps, Hok|]. intros _ s' (f & Hf & _ & E). exists (d <| nd_flags := f |>).
    split_and!; [split; [done|by apply Hok]|done..].
Qed.

Lemma wp_dev_get_by_name name (Q : option (Z * net_device) → ifstate K → Prop) s :
  (∀ p d, if_devs s !! p = Some d → nd_name d = name → Q (Some (p, d)) s) →
  ((∀ p d, if_devs s !! p = Some d → nd_name d ≠ name) → Q None s) →
  wp (__dev_get_by_name name) Q s.
Proof.
  intros H1 H2. unfold __dev_get_by_name. rewrite wp_gets.
  destruct (list_find _ (map_to_list (if_devs s))) as [[i [p d]]|] eqn:E; cbn.
  - apply list_find_Some in E as (E & Hn & _). apply H1; [|done]. by apply elem_of_map_to_list, (list_elem_of_lookup_2 _ i).
  - apply list_find_None in E. rewrite Forall_forall in E. apply H2. intros p d Hd.
    by apply (E (p, d)), elem_of_map_to_list.
Qed.

Lemma one_changed_ok p d s s' : ifs_ok s → if_devs s !! p = Some d → one_changed p d s s' →
  ifs_ok s' ∧ nd_name <$> if_devs s' = nd_name <$> if_devs s ∧
  ∀ q e, if_devs s !! q = Some e → q ≠ p → if_devs s' !! q = Some e.
Proof.
  intros Hok Hd (d' & Hd' & Hn & E). split_and!.
  - unfold ifs_ok. rewrite E. by apply map_Forall_insert_2.
  - rewrite E, fmap_insert, Hn. apply insert_id. by rewrite lookup_fmap, Hd.
  - intros q e Hq Hne. by rewrite E, lookup_insert_ne.
Qed.

End invariant.

(** ** An interface with one address *)

Definition bytes4 (a b c d : Z) : Z := le_word [a; b; c; d].

(** Memory without end; a device comes up with the flags asked for. *)
Definition demo_links : Links unit := {|
  inet_alloc_ifa := mret true;
  dev_change_flags p flags :=
    modify (λ s, s <| if_devs := alter (λ d, d <| nd_flags := Z.lor IFF_BROADCAST (Z.land flags IFF_UP) |>) p (if_devs s) |>);;
    mret 0 |}.
Lemma demo_links_laws : @LinksLaws unit demo_links.
Proof.
  split; [done|]. intros p d flags s Hd Hl. cbn [dev_change_flags demo_links]. rewrite wp_bind, wp_modify, wp_ret.
  exists (Z.lor IFF_BROADCAST (Z.land flags IFF_UP)). split_and!.
  - apply Z.bits_inj'. intros n Hn. rewrite Z.land_spec, Z.lor_spec, Z.land_spec, Z.bits_0.
    unfold IFF_BROADCAST, IFF_UP, IFF_LOOPBACK. change 2 with (2 ^ 1). change 8 with (2 ^ 3). change 1 with (2 ^ 0) at 2.
    rewrite !Z.pow2_bits_eqb by lia. destruct (Z.eqb_spec 3 n) as [<-|]; cbn; by rewrite ?andb_false_r.
  - intros _. apply Z.bits_inj'. intros n Hn. rewrite !Z.land_spec, Z.lor_spec, Z.land_spec.
    unfold IFF_BROADCAST, IFF_UP. change 2 with (2 ^ 1). change 1 with (2 ^ 0) at 2 3 4.
    rewrite !Z.pow2_bits_eqb by lia. destruct (Z.eqb_spec 0 n) as [<-|]; cbn; by rewrite ?andb_true_r, ?andb_false_r.
  - cbn. by apply alter_insert_lookup.
Qed.

Definition demo_if0 : net_device :=
  mk_netdev (chars "dpdk_if0") IFF_BROADCAST 1500 0 0 0 0 false (Some []).
Definition demo_ifs (d : net_device) : ifstate unit := mk_ifs {[ 4096 := d ]} tt.
Definition demo_x : in_ifaddr :=
  mk_ifaddr (bytes4 10 0 0 1) (bytes4 10 0 0 1) (bytes4 255 255 255 0) (bytes4 10 0 0 255) 0 24 false (chars "dpdk_if0").

