(* ===== verification/Ifconf.v ===== *)
(** * Setting up the interfaces (drivers/net/dpdk/device.c)

    At start-up the service makes a network device for each port and gives it its
    addresses by ioctls on a socket of the ported stack ([InetDev]): the first line of
    the configuration that names a port is the address of its interface, the others are
    aliases [name:0], [name:1], ... ([DevConfig] says which calls are made). *)

From stdpp Require Import pretty.
From S2P Require Import Prelude Mbuf DevConfig InetDev.

Definition SOCK_STREAM : Z := 1.
Definition GSO_MAX_SEGS : Z := 32.
Definition NETIF_F_SG : Z := 2 ^ 0.
Definition NETIF_F_V4_CSUM : Z := Z.lor (2 ^ 3) (2 ^ 1).
Definition NETIF_F_FRAGLIST : Z := 2 ^ 6.
Definition NETIF_F_GSO : Z := 2 ^ 11.

(** Sockets, link addresses and the registration of devices, which are the stack's.
    [sock_create_kern] gives its result and, when that is 0, the socket. *)
Class Setup (K : Type) := {
  sock_create_kern : Z → Z → M (ifstate K) (Z * Z);
  kernel_close : Z → M (ifstate K) unit;
  eth_mac_addr : Z → list Z → M (ifstate K) Z;
  alloc_netdev_mqs : list Z → M (ifstate K) Z;
  register_netdev : Z → M (ifstate K) Z;
}.

Section device.
Context {K : Type} `{Links K, Setup K, Devices}.

Definition create_netdev (port_num csum_flags : Z) : M (ifstate K) Z :=
  netdev ← alloc_netdev_mqs (chars "dpdk_if" ++ chars (pretty port_num));
  if netdev =? 0 then mret 0
  else
    let features :=
      Z.lor (Z.lor NETIF_F_SG NETIF_F_FRAGLIST)
        (Z.lor (if Z.land csum_flags 0xE =? 0 then 0 else NETIF_F_V4_CSUM) NETIF_F_GSO) in
    _ ← dev_write netdev (λ d, d <| nd_port := port_num |> <| nd_features := features |>);
    err ← register_netdev netdev;
    if negb (err =? 0) then mret 0 else mret netdev.

(** [goto leave], with [sock] as it is then: [None] is a variable never written. *)
Definition leave (sock : option Z) : M (ifstate K) unit :=
  sock ← of_option sock;
  kernel_close sock.

(** The requests asked for here all go to [devinet_ioctl]. *)
Definition inet_ioctl (sock : Z) (cmd : ioctl) (arg : ifreq) : M (ifstate K) Z :=
  '(err, _) ← devinet_ioctl cmd arg;
  mret err.

(** A cleared request for the interface [name], which must fit the field. *)
Definition request (name : list Z) : M (ifstate K) ifreq :=
  _ ← require (Nat.ltb (length name) IFNAMSIZ);
  mret (mk_ifreq name 0 0).
Definition alias_name (name : list Z) (instance : Z) : list Z := name ++ chars ":" ++ chars (pretty instance).

Definition add_dev_addr (netdev instance : Z) (ip_addr ip_mask : list Z) : M (ifstate K) unit :=
  if netdev =? 0 then leave None
  else
    dev ← dev_read netdev;
    ifr ← request (alias_name (nd_name dev) instance);
    '(err, sock) ← sock_create_kern AF_INET SOCK_STREAM;
    if negb (err =? 0) then leave None
    else
      err ← inet_ioctl sock SIOCSIFADDR (ifr <| ifr_word := AF_INET |> <| ifr_addr := inet_addr ip_addr |>);
      if negb (err =? 0) then leave (Some sock)
      else
        dev ← dev_read netdev;
        ifr ← request (nd_name dev);
        err ← inet_ioctl sock SIOCSIFNETMASK (ifr <| ifr_word := AF_INET |> <| ifr_addr := inet_addr ip_mask |>);
        if negb (err =? 0) then leave (Some sock)
        else
          dev ← dev_read netdev;
          ifr ← request (alias_name (nd_name dev) instance);
          err ← inet_ioctl sock SIOCSIFFLAGS (ifr <| ifr_word := Z.lor (ifr_word ifr) IFF_UP |>);
          if negb (err =? 0) then leave (Some sock)
          else
            dev ← dev_read netdev;
            ifr ← request (alias_name (nd_name dev) instance);
            _ ← inet_ioctl sock SIOCGIFADDR ifr;
            leave (Some sock).

Definition set_dev_addr (netdev : Z) (mac_addr ip_addr ip_mask : list Z) : M (ifstate K) unit :=
  if netdev =? 0 then leave None
  else
    _ ← dev_write netdev (λ d, d <| nd_mtu := 1500 |> <| nd_gso_max_segs := GSO_MAX_SEGS |>
                                 <| nd_gso_max_size := GSO_MAX_SEGS * 2048 |>);
    dev ← dev_read netdev;
    ifr ← request (nd_name dev);
    '(err, sock) ← sock_create_kern AF_INET SOCK_STREAM;
    if negb (err =? 0) then leave None
    else
      err ← inet_ioctl sock SIOCSIFADDR (ifr <| ifr_word := AF_INET |> <| ifr_addr := inet_addr ip_addr |>);
      if negb (err =? 0) then leave (Some sock)
      else
        dev ← dev_read netdev;
        ifr ← request (nd_name dev);
        err ← inet_ioctl sock SIOCSIFNETMASK (ifr <| ifr_word := AF_INET |> <| ifr_addr := inet_addr ip_mask |>);
        if negb (err =? 0) then leave (Some sock)
        else
          _ ← eth_mac_addr netdev mac_addr;
          dev ← dev_read netdev;
          ifr ← request (nd_name dev);
          err ← inet_ioctl sock SIOCSIFFLAGS (ifr <| ifr_word := Z.lor (ifr_word ifr) IFF_UP |>);
          if negb (err =? 0) then leave (Some sock)
          else
            dev ← dev_read netdev;
            ifr ← request (nd_name dev);
            err ← inet_ioctl sock SIOCGIFADDR ifr;
            if negb (err =? 0) then leave (Some sock)
            else
              dev ← dev_read netdev;
              _ ← require (bool_decide (is_Some (nd_ip dev)));
              _ ← dev_write netdev (λ d, d <| nd_forwarding := true |>);
              leave (Some sock).

(** The calls the start-up makes. *)
Definition perform (c : dev_call) : M (ifstate K) unit :=
  match c with
  | SetDevAddr dev mac ip mask => set_dev_addr dev mac ip mask
  | AddDevAddr dev idx ip mask => add_dev_addr dev idx ip mask
  end.
Fixpoint perform_all (cs : list dev_call) : M (ifstate K) unit :=
  match cs with [] => mret tt | c :: cs => _ ← perform c; perform_all cs end.
End device.

(** ** The ioctls on an interface named in full or by an alias *)

Definition blank_ifa (label : list Z) : in_ifaddr := mk_ifaddr 0 0 0 0 0 0 false label.

Section rules.
Context {K : Type} `{LinksLaws K}.
Implicit Types (s : ifstate K).

(** Device [p] is [d], the only one of its name. *)
Record iface (p : Z) (d : net_device) s : Prop := {
  if_lookup : if_devs s !! p = Some d;
  if_unique q e : if_devs s !! q = Some e → nd_name e = nd_name d → q = p;
  if_plain : Forall (λ c, c ≠ 58) (nd_name d);
  if_link : Z.land (nd_flags d) IFF_LOOPBACK = 0;
}.

Lemma iface_update p d d' s s' : iface p d s → if_devs s' = <[p := d']> (if_devs s) →
  nd_name d' = nd_name d → Z.land (nd_flags d') IFF_LOOPBACK = 0 → iface p d' s'.
Proof.
  intros [Hd Hu Hp Hl] E Hn Hf. split; rewrite ?E, ?Hn; [by rewrite lookup_insert_eq| |done..].
  intros q e Hq Hne. destruct (decide (q = p)) as [->|Hqp]; [done|]. rewrite lookup_insert_ne in Hq by done. by eapply Hu.
Qed.
Lemma iface_same p d s s' : iface p d s → if_devs s' = if_devs s → iface p d s'.
Proof. intros [Hd Hu Hp Hl] E. by split; rewrite ?E. Qed.

Lemma span_name (name sfx : list Z) : Forall (λ c, c ≠ 58) name → sfx = [] ∨ head sfx = Some 58 →
  span (λ c, negb (c =? 58)) (name ++ sfx) = (name, sfx).
Proof.
  intros Hn Hs. induction Hn as [|c name Hc _ IH]; cbn [app span].
  - destruct sfx as [|c sfx]; [done|]. destruct Hs as [?|[= ->]]; [done|reflexivity].
  - apply Z.eqb_neq in Hc. by rewrite Hc, IH.
Qed.

Lemma wp_devinet_ioctl p d sfx cmd ifr (Q : Z * ifreq → ifstate K → Prop) s : iface p d s →
  ifr_name ifr = nd_name d ++ sfx → sfx = [] ∨ head sfx = Some 58 → (length (ifr_name ifr) < IFNAMSIZ)%nat →
  (cmd ∈ [SIOCSIFADDR; SIOCSIFBRDADDR; SIOCSIFDSTADDR; SIOCSIFNETMASK] → ifr_word ifr = AF_INET) →
  wp (ioctl_on p d (negb (bool_decide (sfx = []))) cmd ifr ifr) Q s → wp (devinet_ioctl cmd ifr) Q s.
Proof.
  intros [Hd Hu Hp Hl] Hn Hs Hlen Hfam Hwp. unfold devinet_ioctl.
  assert (ifr <| ifr_name := take (IFNAMSIZ - 1) (ifr_name ifr) |> = ifr) as ->.
  { destruct ifr as [name w a]. cbn in *. rewrite take_ge by (unfold IFNAMSIZ in Hlen; lia). done. }
  rewrite Hn, span_name by done.
  assert (bool_decide (cmd ∈ [SIOCSIFADDR; SIOCSIFBRDADDR; SIOCSIFDSTADDR; SIOCSIFNETMASK]) && negb (ifr_word ifr =? AF_INET) = false) as ->.
  { apply andb_false_iff. destruct (bool_decide_reflect (cmd ∈ [SIOCSIFADDR; SIOCSIFBRDADDR; SIOCSIFDSTADDR; SIOCSIFNETMASK])) as [Hc|]; [right|by left].
    by rewrite Hfam. }
  rewrite wp_bind. apply wp_dev_get_by_name.
  - intros q e Hq Hne. assert (q = p) as -> by by eapply Hu. rewrite Hd in Hq. by injection Hq as ->.
  - intros Hnone. by destruct (Hnone p d Hd).
Qed.

(** *** One request each *)

Definition by_label (name : list Z) (l : list in_ifaddr) : option (nat * in_ifaddr) :=
  list_find (λ a, ifa_label a = name) l.

Lemma find_ifa_label cmd name w a l : cmd ∉ [SIOCGIFBRDADDR; SIOCGIFDSTADDR; SIOCGIFNETMASK] →
  cmd ≠ SIOCGIFADDR ∨ w = 0 → find_ifa cmd (mk_ifreq name w a) l = by_label name l.
Proof.
  intros Hc Hw. unfold find_ifa. cbn [ifr_word].
  assert (bool_decide (cmd ∈ [SIOCGIFADDR; SIOCGIFBRDADDR; SIOCGIFDSTADDR; SIOCGIFNETMASK]) && (w =? AF_INET) = false) as ->.
  { apply andb_false_iff. destruct Hw as [Hw| ->]; [left|by right]. apply bool_decide_eq_false.
    intros [?|?]%elem_of_cons; done. }
  done.
Qed.

(** A name of the interface [d]: its own, or an alias. *)
Definition names (d : net_device) (name : list Z) (colon : bool) : Prop :=
  ∃ sfx, name = nd_name d ++ sfx ∧ (sfx = [] ∨ head sfx = Some 58) ∧ colon = negb (bool_decide (sfx = [])) ∧
    (length name < IFNAMSIZ)%nat.

Lemma wp_request `{Setup K} d name colon (Q : ifreq → ifstate K → Prop) s : names d name colon →
  Q (mk_ifreq name 0 0) s → wp (request name) Q s.
Proof.
  intros (sfx & _ & _ & _ & Hl) HQ. unfold request. rewrite wp_bind, wp_require. split; [by apply Nat.ltb_lt|]. exact HQ.
Qed.

Lemma wp_ioctl p d name colon cmd w a (Q : Z → ifstate K → Prop) sock s : iface p d s → names d name colon →
  (cmd ∈ [SIOCSIFADDR; SIOCSIFBRDADDR; SIOCSIFDSTADDR; SIOCSIFNETMASK] → w = AF_INET) →
  wp (ioctl_on p d colon cmd (mk_ifreq name w a) (mk_ifreq name w a)) (λ r s', Q r.1 s') s →
  wp (inet_ioctl sock cmd (mk_ifreq name w a)) Q s.
Proof.
  intros Hi (sfx & -> & Hs & -> & Hlen) Hw Hwp. unfold inet_ioctl. rewrite wp_bind.
  apply (wp_devinet_ioctl p d sfx); [done..|]. eapply wp_mono; [exact Hwp|]. intros [r ifr] s' HQ. exact HQ.
Qed.

(** The entry a new address [a] labelled [name] becomes. *)
Definition new_ifa (d : net_device) (name : list Z) (a : Z) : in_ifaddr :=
  scoped_ifa (class_ifa (nd_flags d) a (blank_ifa name)).

Definition alloc_serves : Prop := ∀ s, wp inet_alloc_ifa (λ ok s', ok = true ∧ if_devs s' = if_devs s) s.

Lemma ifas_insert p d l s s' : iface p d s → if_devs s' = if_devs s →
  if_devs (with_ifas p l s') = <[p := d <| nd_ip := Some l |>]> (if_devs s).
Proof. intros [Hd _ _ _] E. unfold with_ifas. cbn. rewrite E. by apply alter_insert_lookup. Qed.

Lemma wp_new_addr p d l name colon a sock s : alloc_serves → iface p d s → names d name colon → nd_ip d = Some l →
  by_label name l = None → 0 ≤ inet_abc_len a →
  wp (inet_ioctl sock SIOCSIFADDR (mk_ifreq name AF_INET a)) (λ r s', let n := __inet_insert_ifa (new_ifa d name a) l in
    r = n.1 ∧ if_devs s' = <[p := d <| nd_ip := Some n.2 |>]> (if_devs s)) s.
Proof.
  intros Halloc Hi Hn Hl Hnone Ha. apply (wp_ioctl p d name colon); [done..|]. unfold ioctl_on. cbv beta iota zeta.
  rewrite Hl. cbn [mbind option_bind ifr_name ifr_addr].
  rewrite (find_ifa_label SIOCSIFADDR), Hnone by (by left || set_solver).
  assert ((if colon then name else nd_name d) = name) as ->.
  { destruct Hn as (sfx & -> & _ & -> & _). destruct (bool_decide_reflect (sfx = [])) as [->|]; [by rewrite app_nil_r|done]. }
  unfold set_if_addr. rewrite (proj2 (Z.ltb_ge _ _)) by done. rewrite !wp_bind.
  eapply wp_mono; [apply Halloc|]. intros ok s1 [-> E]. cbn [negb].
  apply (wp_inet_set_ifa _ _ d l); [rewrite E; by destruct Hi|done|]. rewrite wp_ret. cbn [fst]. split; [done|].
  by apply ifas_insert.
Qed.

(** The list when the entry [x] at [i] gets the mask [m]. *)
Definition remasked (d : net_device) (m : Z) (i : nat) (x : in_ifaddr) (l : list in_ifaddr) : list in_ifaddr :=
  if ifa_mask x =? m then l else (__inet_insert_ifa (masked_ifa (nd_flags d) m x) (__inet_del_ifa i l)).2.

Lemma wp_mask p d l name colon i x m sock s : iface p d s → names d name colon → nd_ip d = Some l →
  by_label name l = Some (i, x) →
  wp (inet_ioctl sock SIOCSIFNETMASK (mk_ifreq name AF_INET m)) (λ r s',
    r = (if bad_mask m 0 then - EINVAL else 0) ∧
    if_devs s' = <[p := d <| nd_ip := Some (if bad_mask m 0 then l else remasked d m i x l) |>]> (if_devs s)) s.
Proof.
  intros Hi Hn Hl Hx. apply (wp_ioctl p d name colon); [done..|]. unfold ioctl_on. cbv beta iota zeta.
  rewrite Hl. cbn [mbind option_bind ifr_name ifr_addr].
  rewrite (find_ifa_label SIOCSIFNETMASK), Hx by (by left || set_solver). rewrite wp_bind.
  assert (if_devs s = <[p := d <| nd_ip := Some l |>]> (if_devs s)) as E.
  { rewrite <- Hl. assert (d <| nd_ip := nd_ip d |> = d) as -> by by destruct d. symmetry. apply insert_id. by destruct Hi. }
  unfold set_if_netmask, remasked. destruct (bad_mask m 0); [by rewrite !wp_ret|].
  destruct (ifa_mask x =? m); [by rewrite !wp_ret|].
  rewrite wp_bind. apply (wp_inet_del_ifa _ _ d l); [by destruct Hi|done|]. rewrite wp_bind.
  eapply (wp_inet_insert_ifa _ _ _ (__inet_del_ifa i l)); [apply with_ifas_lookup; by destruct Hi|done|].
  rewrite with_ifas_twice, !wp_ret. split; [done|]. by apply ifas_insert.
Qed.

Lemma wp_up p d name w sock s : iface p d s → names d name false →
  (∀ fl s, wp (dev_change_flags p fl) (λ r _, r = 0) s) → Z.land w IFF_UP ≠ 0 →
  wp (inet_ioctl sock SIOCSIFFLAGS (mk_ifreq name w 0)) (λ r s', r = 0 ∧ ∃ f,
    Z.land f IFF_LOOPBACK = 0 ∧ Z.land f IFF_UP ≠ 0 ∧ if_devs s' = <[p := d <| nd_flags := f |>]> (if_devs s)) s.
Proof.
  intros Hi Hn Hup Hw. apply (wp_ioctl p d name false); [done|done|set_solver|]. unfold ioctl_on. cbv beta iota zeta.
  rewrite wp_bind. unfold set_if_flags. eapply wp_mono.
  - apply wp_conj; [apply (Hup w)|]. apply (dev_change_flags_keeps p d); apply Hi.
  - intros r s' [-> (f & Hf & Hu & E)]. rewrite wp_ret. split; [done|]. exists f. split_and!; [done| |done].
    by rewrite Hu.
Qed.

Definition found_or_not (o : option (nat * in_ifaddr)) : Z := match o with Some _ => 0 | None => - EADDRNOTAVAIL end.

(** An alias that is to be up is only looked up. *)
Lemma wp_alias_up p d l name w sock s : iface p d s → names d name true → nd_ip d = Some l → Z.land w IFF_UP ≠ 0 →
  wp (inet_ioctl sock SIOCSIFFLAGS (mk_ifreq name w 0)) (λ r s',
    r = found_or_not (by_label name l) ∧ s' = s) s.
Proof.
  intros Hi Hn Hl Hw. apply (wp_ioctl p d name true); [done|done|set_solver|]. unfold ioctl_on. cbv beta iota zeta.
  rewrite Hl. cbn [mbind option_bind ifr_word]. rewrite (find_ifa_label SIOCSIFFLAGS) by (by left || set_solver).
  rewrite wp_bind. unfold set_if_flags. destruct (by_label name l) as [[i x]|]; [|by rewrite !wp_ret].
  rewrite (proj2 (Z.eqb_neq _ _) Hw). by rewrite wp_bind, !wp_ret.
Qed.

Lemma wp_get_addr p d l name colon sock s : iface p d s → names d name colon → nd_ip d = Some l →
  wp (inet_ioctl sock SIOCGIFADDR (mk_ifreq name 0 0)) (λ r s',
    r = found_or_not (by_label name l) ∧ s' = s) s.
Proof.
  intros Hi Hn Hl. apply (wp_ioctl p d name colon); [done|done|set_solver|]. unfold ioctl_on. cbv beta iota zeta.
  rewrite Hl. cbn [mbind option_bind]. rewrite (find_ifa_label SIOCGIFADDR) by (by right || set_solver).
  destruct (by_label name l) as [[i x]|]; by rewrite wp_ret.
Qed.
End rules.


(** ** The two calls *)

(** The stack has what it needs: memory, sockets, and the device comes up. *)
Record stack_serves (K : Type) `{Links K, Setup K} : Prop := {
  sv_alloc : alloc_serves (K := K);
  sv_sock (s : ifstate K) : wp (sock_create_kern AF_INET SOCK_STREAM) (λ r s', r.1 = 0 ∧ if_devs s' = if_devs s) s;
  sv_close k (s : ifstate K) : wp (kernel_close k) (λ _ s', if_devs s' = if_devs s) s;
  sv_mac p mac (s : ifstate K) : wp (eth_mac_addr p mac) (λ _ s', if_devs s' = if_devs s) s;
  sv_up p flags (s : ifstate K) : wp (dev_change_flags p flags) (λ r _, r = 0) s;
}.

Lemma insert_first ifa : ifa_local ifa ≠ 0 → ifa_secondary ifa = false → __inet_insert_ifa ifa [] = (0, [ifa]).
Proof. intros Hl Hs. unfold __inet_insert_ifa. rewrite (proj2 (Z.eqb_neq _ _) Hl). cbn. by destruct ifa; cbn in *; subst. Qed.

(** [b] is in the subnet of [a], as the code asks. *)
Definition in_subnet (a b : in_ifaddr) : bool := (ifa_mask a =? ifa_mask b) && inet_ifa_match (ifa_address a) b.

(** Behind one primary address of the same scope. *)
Lemma insert_second a ifa : ifa_local ifa ≠ 0 → ifa_local a ≠ ifa_local ifa → ifa_secondary a = false →
  ifa_scope a = ifa_scope ifa →
  __inet_insert_ifa ifa [a] = (0, [a; ifa <| ifa_secondary := in_subnet a ifa |>]).
Proof.
  intros Hl Hne Hs Hsc. unfold __inet_insert_ifa. rewrite (proj2 (Z.eqb_neq _ _) Hl). cbn [insert_scan].
  rewrite Hs, Hsc, Z.leb_refl, Z.eqb_refl, (proj2 (Z.eqb_neq _ _) Hne). cbn [negb andb]. fold (in_subnet a ifa).
  by destruct (in_subnet a ifa).
Qed.

Lemma new_ifa_fields d name a : Z.land (nd_flags d) IFF_POINTOPOINT = 0 →
  ifa_local (new_ifa d name a) = a ∧ ifa_label (new_ifa d name a) = name ∧
  ifa_mask (new_ifa d name a) = inet_make_mask (inet_abc_len a) ∧ ifa_secondary (new_ifa d name a) = false ∧
  ifa_scope (new_ifa d name a) = (if ipv4_is_loopback a then RT_SCOPE_HOST else 0).
Proof.
  intros Hf. unfold new_ifa, scoped_ifa, class_ifa. rewrite Hf, Z.eqb_refl.
  destruct (negb _ && _); cbn [ifa_local set_field]; by destruct (ipv4_is_loopback a).
Qed.
Lemma masked_ifa_fields fl m x :
  ifa_local (masked_ifa fl m x) = ifa_local x ∧ ifa_label (masked_ifa fl m x) = ifa_label x ∧
  ifa_mask (masked_ifa fl m x) = m ∧ ifa_secondary (masked_ifa fl m x) = ifa_secondary x ∧
  ifa_scope (masked_ifa fl m x) = ifa_scope x.
Proof. unfold masked_ifa. by destruct (_ && _). Qed.

Section configured.
Context {K : Type} `{LinksLaws K, Setup K, Devices}.
Implicit Types (s : ifstate K).

(** The device as [set_dev_addr] leaves it but for its addresses. *)
Definition sized (d : net_device) : net_device :=
  d <| nd_mtu := 1500 |> <| nd_gso_max_segs := GSO_MAX_SEGS |> <| nd_gso_max_size := GSO_MAX_SEGS * 2048 |>.

Lemma plain_name d : (length (nd_name d) < IFNAMSIZ)%nat → names d (nd_name d) false.
Proof. intros Hl. exists []. rewrite app_nil_r. split_and!; [done|by left|done|done]. Qed.
Lemma alias_names d k : (length (alias_name (nd_name d) k) < IFNAMSIZ)%nat → names d (alias_name (nd_name d) k) true.
Proof. intros Hl. eexists. split; [done|]. split_and!; [by right|done|done]. Qed.

Lemma wp_leave k (Q : unit → ifstate K → Prop) s : stack_serves K →
  (∀ s', if_devs s' = if_devs s → Q tt s') → wp (leave (Some k)) Q s.
Proof.
  intros Hs HQ. unfold leave. cbn [of_option]. rewrite wp_bind, wp_ret. eapply wp_mono; [apply (sv_close K Hs)|].
  intros [] s' E. by apply HQ.
Qed.

(** One entry, and its new mask. *)
Definition with_mask (d : net_device) (m : Z) (c : in_ifaddr) : in_ifaddr :=
  if ifa_mask c =? m then c else masked_ifa (nd_flags d) m c.

Lemma with_mask_fields d m c : ifa_local (with_mask d m c) = ifa_local c ∧ ifa_label (with_mask d m c) = ifa_label c ∧
  ifa_mask (with_mask d m c) = m ∧ ifa_secondary (with_mask d m c) = ifa_secondary c.
Proof.
  unfold with_mask. destruct (Z.eqb_spec (ifa_mask c) m); [done|].
  by destruct (masked_ifa_fields (nd_flags d) m c) as (? & ? & ? & ? & _).
Qed.

Lemma remasked_one d m c : ifa_local c ≠ 0 → ifa_secondary c = false → remasked d m 0 c [c] = [with_mask d m c].
Proof.
  intros Hl Hs. unfold remasked, with_mask. destruct (ifa_mask c =? m); [done|].
  unfold __inet_del_ifa. cbn [lookup list_lookup take drop app]. rewrite Hs. cbn [base.filter list_filter].
  destruct (masked_ifa_fields (nd_flags d) m c) as (E1 & _ & _ & E2 & _). by rewrite insert_first by congruence.
Qed.

Lemma by_label_one name c : ifa_label c = name → by_label name [c] = Some (0%nat, c).
Proof. intros E. unfold by_label. cbn. by rewrite decide_True. Qed.

(** Reading the device's name into a request. *)
Lemma wp_named p d name colon {A} (k : net_device → ifreq → M (ifstate K) A) (f : list Z → list Z) (Q : A → ifstate K → Prop) s :
  iface p d s → f (nd_name d) = name → names d name colon → wp (k d (mk_ifreq name 0 0)) Q s →
  wp (dev ← dev_read p; ifr ← request (f (nd_name dev)); k dev ifr) Q s.
Proof.
  intros Hi E Hn Hk. rewrite wp_bind. apply (wp_dev_read _ d); [by destruct Hi|]. rewrite wp_bind, E.
  by apply (wp_request d _ colon).
Qed.

(** The last part: the interface with its address [e] is brought up and made to forward. *)
Lemma wp_bring_up p d e sock s : stack_serves K → iface p d s → (length (nd_name d) < IFNAMSIZ)%nat →
  nd_ip d = Some [e] → ifa_label e = nd_name d →
  wp (dev ← dev_read p;
      ifr ← request (nd_name dev);
      err ← inet_ioctl sock SIOCSIFFLAGS (ifr <| ifr_word := Z.lor (ifr_word ifr) IFF_UP |>);
      if negb (err =? 0) then leave (Some sock)
      else
        dev ← dev_read p;
        ifr ← request (nd_name dev);
        err ← inet_ioctl sock SIOCGIFADDR ifr;
        if negb (err =? 0) then leave (Some sock)
        else
          dev ← dev_read p;
          _ ← require (bool_decide (is_Some (nd_ip dev)));
          _ ← dev_write p (λ d, d <| nd_forwarding := true |>);
          leave (Some sock))
    (λ _ s', ∃ f, Z.land f IFF_UP ≠ 0 ∧
      if_devs s' = <[p := d <| nd_flags := f |> <| nd_forwarding := true |>]> (if_devs s)) s.
Proof.
  intros Hs Hi Hlen Hl He. pose proof (plain_name d Hlen) as Hn.
  apply (wp_named p d (nd_name d) false _ id); [done..|]. rewrite wp_bind.
  eapply wp_mono; [apply (wp_up p d (nd_name d)); [done|done|apply (sv_up K Hs)|done]|].
  intros r s1 (-> & f & Hlo & Hup & E1). cbn [Z.eqb negb]. set (d1 := d <| nd_flags := f |>) in *.
  assert (iface p d1 s1) as Hi1 by by eapply iface_update.
  apply (wp_named p d1 (nd_name d) false _ id); [done..|]. rewrite wp_bind.
  eapply wp_mono; [by apply (wp_get_addr p d1 [e] (nd_name d) false)|]. intros r s2 [-> ->].
  rewrite by_label_one by done. cbn [found_or_not Z.eqb negb].
  rewrite wp_bind. apply (wp_dev_read _ d1); [by destruct Hi1|]. rewrite wp_bind, wp_require.
  split; [change (nd_ip d1) with (nd_ip d); by rewrite Hl|]. rewrite wp_bind. apply (wp_dev_write _ _ d1); [by destruct Hi1|].
  apply (wp_leave _ _ _ Hs). intros s3 E3. exists f. split; [done|]. rewrite E3. cbn.
  rewrite (alter_insert_lookup _ _ _ d1) by by destruct Hi1. by rewrite E1, insert_insert_eq.
Qed.

(** An interface gets its address: on a device without addresses, [set_dev_addr] leaves
    exactly one, primary, labelled with the device's name, with the address and the mask
    of the configuration; the device is up and forwards, its sizes are set.  With a mask
    that is not one - its bits not contiguous - the call gives up in the middle and says
    nothing: the address is there with the mask of its class, the device stays down and
    does not forward. *)
Theorem set_dev_addr_spec p d mac ip mask s : stack_serves K → p ≠ 0 → iface p d s →
  (length (nd_name d) < IFNAMSIZ)%nat → nd_ip d = Some [] → Z.land (nd_flags d) IFF_POINTOPOINT = 0 →
  inet_addr ip ≠ 0 → 0 ≤ inet_abc_len (inet_addr ip) →
  wp (set_dev_addr p mac ip mask) (λ _ s', ∃ e d',
    if_devs s' = <[p := d' <| nd_ip := Some [e] |>]> (if_devs s) ∧
    ifa_local e = inet_addr ip ∧ ifa_label e = nd_name d ∧ ifa_secondary e = false ∧
    (if bad_mask (inet_addr mask) 0
     then ifa_mask e = inet_make_mask (inet_abc_len (inet_addr ip)) ∧ d' = sized d
     else ifa_mask e = inet_addr mask ∧
       ∃ f, Z.land f IFF_UP ≠ 0 ∧ d' = (sized d) <| nd_flags := f |> <| nd_forwarding := true |>)) s.
Proof.
  intros Hs Hp Hi Hlen Hl Hf Ha Hc. set (a := inet_addr ip) in *. set (m := inet_addr mask). unfold set_dev_addr.
  rewrite (proj2 (Z.eqb_neq _ _) Hp), wp_bind. apply (wp_dev_write _ _ d); [by destruct Hi|].
  set (s1 := s <| if_devs := _ |>).
  assert (if_devs s1 = <[p := sized d]> (if_devs s)) as E1 by by apply alter_insert_lookup, Hi.
  assert (iface p (sized d) s1) as Hi1 by (eapply iface_update; [done|done|done|apply Hi]).
  assert (names (sized d) (nd_name d) false) as Hn by by apply (plain_name (sized d)).
  apply (wp_named p (sized d) (nd_name d) false _ id); [done..|].
  rewrite wp_bind. eapply wp_mono; [apply (sv_sock K Hs)|]. intros [err k] s2 [He E2]. cbn in He. subst err. cbn [Z.eqb negb].
  pose proof (iface_same _ _ _ _ Hi1 E2) as Hi2.
  rewrite wp_bind. eapply wp_mono; [by apply (wp_new_addr p (sized d) [] (nd_name d) false a _ s2 (sv_alloc K Hs) Hi2)|].
  intros r s3. cbv zeta. destruct (new_ifa_fields (sized d) (nd_name d) a Hf) as (C1 & C2 & C3 & C4 & C5).
  set (c := new_ifa (sized d) (nd_name d) a) in *. rewrite insert_first by congruence. intros [-> E3]. cbn [fst snd Z.eqb negb] in *.
  set (d3 := (sized d) <| nd_ip := Some [c] |>) in *.
  assert (iface p d3 s3) as Hi3 by (eapply iface_update; [exact Hi2|exact E3|done|apply Hi]).
  apply (wp_named p d3 (nd_name d) false _ id); [done..|]. rewrite wp_bind.
  eapply wp_mono; [by apply (wp_mask p d3 [c] (nd_name d) false 0 c m _ s3 Hi3 Hn eq_refl), by_label_one|]. intros r s4 [-> E4].
  rewrite E2, E1, insert_insert_eq in E3. rewrite E3, insert_insert_eq in E4. destruct (bad_mask m 0).
  { cbn [Z.eqb negb]. apply (wp_leave _ _ _ Hs). intros s5 E5. exists c, (sized d). rewrite E5. by split_and!. }
  cbn [Z.eqb negb]. rewrite remasked_one in E4 by congruence. destruct (with_mask_fields d3 m c) as (F1 & F2 & F3 & F4).
  set (e := with_mask d3 m c) in *. set (d4 := d3 <| nd_ip := Some [e] |>) in *.
  rewrite wp_bind. eapply wp_mono; [apply (sv_mac K Hs)|]. intros ? s5 E5. cbn beta in E5. rewrite E4 in E5.
  assert (iface p d4 s5) as Hi5 by (eapply (iface_update p d3 d4 s3); [done|by rewrite E3, insert_insert_eq|done|apply Hi]).
  eapply wp_mono; [apply (wp_bring_up p d4 e); [done|done|done|done|by rewrite F2]|].
  intros _ s6 (f & Hup & E6). exists e, ((sized d) <| nd_flags := f |> <| nd_forwarding := true |>).
  rewrite E6, E5, insert_insert_eq. split; [done|]. split; [by rewrite F1|]. split; [by rewrite F2|]. split; [by rewrite F4|].
  split; [done|]. by exists f.
Qed.

(** ** An alias *)

(** The last part: an alias that is to be up changes nothing, there or not. *)
Lemma wp_alias_last p d l k sock s : stack_serves K → iface p d s → (length (alias_name (nd_name d) k) < IFNAMSIZ)%nat →
  nd_ip d = Some l →
  wp (dev ← dev_read p;
      ifr ← request (alias_name (nd_name dev) k);
      err ← inet_ioctl sock SIOCSIFFLAGS (ifr <| ifr_word := Z.lor (ifr_word ifr) IFF_UP |>);
      if negb (err =? 0) then leave (Some sock)
      else
        dev ← dev_read p;
        ifr ← request (alias_name (nd_name dev) k);
        _ ← inet_ioctl sock SIOCGIFADDR ifr;
        leave (Some sock))
    (λ _ s', if_devs s' = if_devs s) s.
Proof.
  intros Hs Hi Hlen Hl. pose proof (alias_names d k Hlen) as Hn. set (name := alias_name (nd_name d) k) in *.
  apply (wp_named p d name true _ (λ n, alias_name n k)); [done..|]. rewrite wp_bind.
  eapply wp_mono; [by apply (wp_alias_up p d l name)|]. intros r s1 [-> ->].
  destruct (negb (found_or_not (by_label name l) =? 0)); [by apply wp_leave|].
  apply (wp_named p d name true _ (λ n, alias_name n k)); [done..|]. rewrite wp_bind.
  eapply wp_mono; [by apply (wp_get_addr p d l name true)|]. intros r s2 [-> ->]. by apply wp_leave.
Qed.

Lemma by_label_two name x c : ifa_label x = name → by_label name [x; c] = Some (0%nat, x).
Proof. intros E. unfold by_label. cbn. by rewrite decide_True. Qed.

Lemma alias_name_ne name k : alias_name name k ≠ name.
Proof.
  unfold alias_name. intros E%(f_equal length). rewrite length_app in E. cbn in E. lia.
Qed.

(** The list when the mask of the first address is set, a second one behind it. *)
Lemma remasked_two d m x c : ifa_secondary x = false → ifa_secondary c = false → ifa_local x ≠ 0 →
  ifa_local x ≠ ifa_local c → ifa_scope x = ifa_scope c → ifa_mask x ≠ m →
  let x' := masked_ifa (nd_flags d) m x in
  remasked d m 0 x [x; c <| ifa_secondary := in_subnet x c |>] =
    if in_subnet x c then [x'] else [c; x' <| ifa_secondary := in_subnet c x' |>].
Proof.
  intros Hx Hc Hlx Hne Hsc Hm x'. destruct (masked_ifa_fields (nd_flags d) m x) as (F1 & _ & _ & F4 & F5).
  fold x' in F1, F4, F5. unfold remasked. rewrite (proj2 (Z.eqb_neq _ _) Hm). fold x'.
  assert (__inet_del_ifa 0 [x; c <| ifa_secondary := in_subnet x c |>] = if in_subnet x c then [] else [c]) as ->.
  { unfold __inet_del_ifa. cbn [lookup list_lookup take drop app]. rewrite Hx. unfold base.filter, list_filter.
    assert (secondary_of x (c <| ifa_secondary := in_subnet x c |>) = in_subnet x c) as ->.
    { unfold secondary_of. change (in_subnet x c && (ifa_mask x =? ifa_mask c) && inet_ifa_match (ifa_address x) c = in_subnet x c).
      rewrite <- andb_assoc. change (in_subnet x c && in_subnet x c = in_subnet x c). apply andb_diag. }
    destruct (in_subnet x c); [done|]. cbn. destruct c. cbn in *. by subst. }
  destruct (in_subnet x c); [by rewrite insert_first by congruence|]. by rewrite insert_second by congruence.
Qed.

End configured.

(** ** A port with an alias *)

Section demo.
#[local] Instance demo_devices : Devices := {|
  get_dev_name _ := chars "dpdk_if0"; sockaddr_dl := [];
  inet_addr s :=
    if decide (s = chars "10.0.0.1") then bytes4 10 0 0 1
    else if decide (s = chars "10.0.0.2") then bytes4 10 0 0 2
    else if decide (s = chars "192.168.1.1") then bytes4 192 168 1 1
    else if decide (s = chars "255.255.255.0") then bytes4 255 255 255 0
    else bytes4 255 0 255 0 |}.

(** The links of [InetDev]'s example, and sockets without end. *)
#[local] Existing Instance demo_links.
#[local] Instance demo_setup : Setup unit := {|
  sock_create_kern _ _ := mret (0, 7); kernel_close _ := mret tt; eth_mac_addr _ _ := mret 0;
  alloc_netdev_mqs _ := mret 1; register_netdev _ := mret 0 |}.

Lemma demo_serves : stack_serves unit.
Proof. split; by intros. Qed.

Lemma demo_iface d : nd_name d = chars "dpdk_if0" → nd_flags d = IFF_BROADCAST → iface 4096 d (demo_ifs d).
Proof.
  intros Hn Hf. split; rewrite ?Hn, ?Hf; [done| |by repeat constructor|done].
  intros q e Hq _. cbn in Hq. by apply lookup_singleton_Some in Hq as [<- _].
Qed.

Lemma set_dev_addr_spec_witness :
  inet_addr (chars "10.0.0.1") ≠ 0 ∧
  wp (set_dev_addr 4096 [] (chars "10.0.0.1") (chars "255.255.255.0")) (λ _ s', ∃ e d',
    if_devs s' = <[4096 := d' <| nd_ip := Some [e] |>]> (if_devs (demo_ifs demo_if0)) ∧
    ifa_local e = bytes4 10 0 0 1 ∧ ifa_mask e = bytes4 255 255 255 0 ∧ nd_forwarding d' = true) (demo_ifs demo_if0).
Proof.
  split; [done|]. eapply wp_mono.
  - apply (@set_dev_addr_spec unit demo_links demo_links_laws demo_setup demo_devices 4096 demo_if0 []
      (chars "10.0.0.1") (chars "255.255.255.0") (demo_ifs demo_if0) demo_serves); [done|by apply demo_iface|by vm_compute; lia|done|done|done|by vm_compute].
  - intros _ s' (e & d' & E & El & _ & _ & Em). exists e, d'. split; [exact E|]. split; [exact El|].
    change (bad_mask (inet_addr (chars "255.255.255.0")) 0) with false in Em. destruct Em as [Em (f & _ & ->)]. by split.
Defined.


(** The whole way: the calls [DevConfig] derives from the table of its example for port 0. *)
Lemma demo_start_up :
  wp (perform_all (port_calls 4096 [] (port_entries demo_cfg 0))) (λ _ s',
    (λ d, (λ e, (ifa_label e, ifa_local e, ifa_mask e)) <$> default [] (nd_ip d)) <$> if_devs s' =
      {[ 4096 := [(chars "dpdk_if0", bytes4 10 0 0 1, bytes4 255 255 255 0);
                  (chars "dpdk_if0:0", bytes4 10 0 0 2, bytes4 255 0 0 0)] ]}) (demo_ifs demo_if0).
Proof. by vm_compute. Qed.
End demo.
